(* ===== verification/_CoqProject ===== *)
-Q . S2P
Prelude.v
Endian.v
Formats.v
StringPieces.v
Dates.v
TimeZones.v
Timestamps.v
LogStreams.v
Loggers.v
LogFiles.v
SmallFiles.v
ProcessInfos.v
AsyncLog.v
LogPipelines.v
NetBuffer.v
ZlibStreams.v
TimerQueues.v
Channels.v
Pollers.v
EventLoops.v
LoopThreads.v
TcpConn.v
TimerThreads.v
Servers.v
ServedConns.v
ServerEnds.v
Clients.v
ClientConns.v
Addresses.v
Sockets.v
Codec.v
Rpc.v
RpcWires.v
Monitors.v
Mutexes.v
Threads.v
Lifetimes.v
ThreadPools.v
PoolLives.v
MysqlCache.v
MysqlMain.v
