(* ===== verification/Prelude.v ===== *)
(** * Verification of the TCP/MySQL server and the network library it is built on

    ** The program

    The repository holds a server that answers SQL statements over TCP
    (src/src/tcpmysql, src/src/main) and the network library it runs on, a copy of
    muduo (src/src/muduo/base and src/src/muduo/net).  Threads run one event loop
    each.  A loop polls descriptors, calls the handlers of their channels, among
    them the timer queue's and those of the connections, and then runs the functors
    that were queued for it, also by other threads.  An acceptor or a connector makes
    sockets; a server or a client turns them into connections; a connection moves
    bytes between the socket and two buffers and calls the user.  The logging side is
    separate: a statement formats one line, which a front end appends to buffers that
    a logging thread writes to rolling files.  A codec and remote procedure calls
    sit on top of connections, thread pools and blocking queues beside them.

    ** The files

    Shared: Prelude (faults and the error monad, machine integers, lists indexed by
    them, bytes; tactics and hints), Endian (net/Endian.h), Formats (what snprintf
    writes), StringPieces (base/StringPiece).

    Time and logging: Dates (base/Date), TimeZones (base/TimeZone), Timestamps
    (base/Timestamp), LogStreams (base/LogStream), Loggers (base/Logging), LogFiles
    (base/FileUtil, base/LogFile), SmallFiles (readFile of base/FileUtil, with the
    interface [Files] and its laws), ProcessInfos (base/ProcessInfo), AsyncLog
    (base/AsyncLogging), LogPipelines (AsyncLog writing to LogFiles).

    The reactor: NetBuffer (net/Buffer), ZlibStreams (net/ZlibStream, base/GzipFile,
    net/protobuf/BufferStream, with the interface [Zlib] and its laws), TimerQueues
    (net/Timer, TimerId, TimerQueue), Channels (net/Channel), Pollers (net/Poller,
    poller/EPollPoller, poller/PollPoller, with the interface [PollerSpec] and its two
    instances), EventLoops (net/EventLoop), LoopThreads (net/EventLoopThread and the
    construction and destruction of loops), TcpConn (net/TcpConnection), TimerThreads
    (TimerQueues with the functors of other threads, and the descriptors and channels
    a loop makes for itself).

    Endpoints: Servers (net/Acceptor, EventLoopThreadPool, TcpServer), ServedConns (the
    server of Servers with the connections of TcpConn on shared pollers), ServerEnds
    (its destructor), Clients (net/Connector, TcpClient), ClientConns (the client of
    Clients with the connections of TcpConn), Addresses (net/InetAddress and the address functions
    of SocketsOps), Sockets (net/Socket and the calls of SocketsOps, with the interface
    [Kernel] and its laws).

    On top: Codec (net/protobuf/ProtobufCodecLite, with the interface [MessageOps]
    and its laws), Rpc (net/protorpc/RpcChannel, RpcServer), RpcWires (Rpc over Codec
    over the bytes of a connection), MysqlCache (src/src/tcpmysql), MysqlMain
    (src/src/main: MysqlCache as the user of ServedConns).

    Threads: Monitors (base/CountDownLatch, BlockingQueue, BoundedBlockingQueue over
    mutex and condition variables), Mutexes (base/Mutex, base/Condition, instruction by
    instruction), Threads (base/Thread, CurrentThread, Atomic), Lifetimes
    (base/Singleton, ThreadLocal, ThreadLocalSingleton, WeakCallback), ThreadPools
    (base/ThreadPool and the handshake of net/EventLoopThread), PoolLives (the whole
    life of a ThreadPool with its threads).

    ** How code is modelled

    A class is a record of its members, with their names; a method is a function on
    it, with the method's name where that was free.  A function that can stop without
    returning (a failed assert, an access outside an object or to a freed one, an
    abort, an exception) returns a [res]; [Fail] carries the reason.  Pointers are
    integers or positions, [weak_ptr] and iterators identities that may have expired,
    owning pointers options.  Integers are kept at their width where they can wrap.
    Vectors are lists with faults outside their range, maps are [gmap]s.

    Concurrency is interleaving.  In EventLoops, AsyncLog, Monitors, ThreadPools and
    PoolLives a step is what a thread does under one hold of the mutex, or between two; Mutexes
    shows for the monitors that this is what the single instructions of mutex, guard
    and condition variable amount to.  In Threads and LoopThreads a step is one
    access to a shared object; in Servers and Clients, and in the files that join them
    with connections, a functor, an event, a timer or a call.
    Every theorem quantifies over all sequences of steps.  User callbacks are arbitrary
    functions: in TcpConn and TimerQueues they see the whole history and answer with
    calls on the object.

    Calls that leave the program are parameters: system calls, libc conversions (gmtime_r,
    strerror_r, inet_ntop and the like), zlib, protobuf, the database.  Where a
    property needs something of them it is a named hypothesis or a class of laws
    ([inet_laws], [MessageLaws], [ZlibLaws], [KernelLaws], [FilesLaws], the laws of epoll in
    Pollers), with an instance in the witnesses.

    ** What is proved

    - Connections (TcpConn): no sequence of events, calls and callbacks makes a
      connection fault, if startRead and stopRead are not used, poll(2) reports urgent data
      with a hang-up only together with POLLIN, and a [shutdown] or [forceClose] of
      another thread, which tests the state and then sets it ([IMark], [IPost]), is not
      overtaken by the close in between; that each of the three is needed is shown.
      Until a write fails with EPIPE or ECONNRESET, what the peer receives is what was
      sent, in order, and a shutdown comes after all output; what
      the user receives is what arrived; states move forward, up and down are reported
      once; the channel watches for writability exactly while output is pending.
    - Buffers (NetBuffer): refinement of a byte string, from any well-formed buffer, by
      every method, with what the methods return; integers read back.
    - Timers (TimerQueues, TimerThreads): callbacks may add and cancel timers, themselves
      included, and nothing faults; due timers run, others wait; cancelled ones never run;
      the delay given to timerfd_settime makes the timerfd readable by the earliest
      expiration, or 100 microseconds from now; the same when other threads add and
      cancel, but for a cancellation that overtakes the timer, and for [addTimer], which
      reads the sequence number of a timer the loop may have deleted by then; the destructors of loop and queue
      close their descriptors and delete the timers they know.
    - Loops (EventLoops, Pollers, LoopThreads): no functor is stranded behind a poll, but
      for those the loop's own thread queues outside [loop()] ([early]);
      functors run in the order they were queued; an iteration ends; both pollers
      implement one specification of which channels are watched; a thread has at most
      one loop; a loop and its thread live from [startLoop] to the destructor, which
      can come to its end if the loop was used in between, and where it cannot is shown.
    - Servers and clients: asserts hold in every interleaving of the loops, with
      connections under the conditions above and a client used as [legal] says; a settled
      server knows exactly the live connections; with its connections in place of their
      states a server does the same, and no assert of either fails (ServedConns); its
      destructor reports and ends every connection, but fails if one is shutting down
      (ServerEnds); a client leaks no socket, retries with doubling delays, and connects
      when it can; with its connections it does the same, knows the one that is up, and
      ends it when it is destroyed (ClientConns); a socket owns its descriptor; the
      misuses the comments warn of do fail.
    - Messages (Codec, Rpc, RpcWires): any cutting of the stream gives back the
      messages; any bytes are handled inside the buffer; the objects of calls are
      disposed of once; calls made over two byte streams, in any interleaving with the
      server's methods, are each finished once, with their own result.
    - Threads (Monitors, Mutexes, ThreadPools, Threads, Lifetimes): queues are first in,
      first out and lose no wakeup; the coarse steps of the monitors are refined by the
      instructions, and [holder_] tells who owns a mutex; a pool that is not stopped
      runs all tasks, one that is stopped strands producers; [stop] and the destructor
      of a pool return with all threads joined, also when tasks queue tasks, unless the
      queue is bounded; starting and joining a
      thread touches no freed object and does not hang; singletons and thread-local
      objects are made and deleted once.
    - Logging and time: conversions agree with the calendar, as far as [int] reaches, and
      with decimal notation,
      zone files and civil times convert back, a stream takes items whole, lines are
      written once and in order, and a crash loses those in memory and no others, unless
      more than 25 buffers pile up or fwrite(3) meets an error; a small
      file is read however short the reads are, and closed.
    - Compression (ZlibStreams): what is written in any pieces inflates to what was
      written; files are closed once.
    - The application (MysqlCache): the list of connections and its index agree with a
      list of entries under any callbacks and messages, and with a list ordered by last
      use when connections come up once; answers are rendered as the code says; and what
      goes wrong: statements that are never answered, a message for an evicted connection.
    - The program (MysqlMain): from main on, it serves connections until the first
      message, which ends it, how is said for every message; its list of clients is the last thousand calls of the
      connection callback, closed connections included.

    ** Fuel and bounds

    Loops of the code whose termination is not structural carry fuel: digit loops the
    bit length of the number (each digit divides by at least 2), [onMessage] the number
    of readable bytes plus one (each turn but the last consumes at least eight), reads
    and writes of files the number of bytes left, the loops around deflate one turn per
    byte in or out, at most as many as deflateBound says; the theorems show the fuel
    suffices.  Hypotheses bound counters (connection
    numbers below 2^31, call numbers below 2^63), names that must fit fixed buffers,
    and day numbers and times to the range where no [int] or 64-bit value overflows (for
    dates, up to 18 October 1465102).

    ** Not modelled

    Type definitions (Callbacks, Types, the copyable bases), the exception class,
    getters that return a saved value, calls that only forward to one system or library
    call without a result the program looks at, the methods of ZlibInputStream (declared
    but not defined in the repository), helpers copied from protobuf (google-inl.h), the
    copy of the least-recently-used cache that is not compiled in (tcpmysql/Lru.h),
    the fopen and fclose of a log file, the mysql_close of the application's destructor,
    tests.  Floating point appears only as the microseconds or the text it is converted
    to.  The destructor of a server with I/O threads is followed with the connections'
    states only (Servers), and the channel a connector waits on is not one of the
    poller's in ClientConns.  One event of a timer queue reads the clock once. *)

From Stdlib Require Export ZArith Lia.
From Stdlib Require Export Strings.Byte.
From stdpp Require Export base list list_numbers gmap strings pretty.

(** ** Faults and the error monad *)

(** The ways in which a C++ function of the program stops without returning:
    a failed [assert], a read or write outside an object (undefined behaviour),
    [abort()] reached through [LOG_FATAL]/[LOG_SYSFATAL], or an exception. *)
Inductive exn : Set :=
| length_error
| bad_alloc
| logic_error (what : string)
| bad_any_cast
| bad_function_call.

Inductive fault : Set :=
| AssertFailed
| OutOfRange
| Aborted
| Thrown (e : exn).

Inductive res (A : Type) : Type :=
| Ok (a : A)
| Fail (f : fault).
Arguments Ok {A} a.
Arguments Fail {A} f.

Definition res_bind {A B} (r : res A) (k : A -> res B) : res B :=
  match r with
  | Ok a => k a
  | Fail f => Fail f
  end.

(** [assert(b)]. *)
Definition cassert (b : bool) : res unit :=
  if b then Ok tt else Fail AssertFailed.

Declare Scope cpp_scope.
Delimit Scope cpp_scope with cpp.

Notation "'let!' x ':=' e 'in' k" := (res_bind e (fun x => k))
  (at level 10, x name, e at level 100, k at level 200,
   format "'[v' 'let!'  x  ':='  e  'in' '/' k ']'") : cpp_scope.
Notation "'let!' ' p ':=' e 'in' k" :=
  (res_bind e (fun x => match x with p => k end))
  (at level 10, p pattern, e at level 100, k at level 200,
   format "'[v' 'let!'  ' p  ':='  e  'in' '/' k ']'") : cpp_scope.
Notation "'assert!' b ';;' k" := (res_bind (cassert b) (fun _ => k))
  (at level 10, b at level 99, k at level 200,
   format "'[v' 'assert!'  b  ';;' '/' k ']'") : cpp_scope.

Open Scope cpp_scope.

(** The value of a run, or a default. *)
Definition from_res {A} (d : A) (r : res A) : A := match r with Ok a => a | Fail _ => d end.

Definition is_ok {A} (r : res A) : bool :=
  match r with Ok _ => true | Fail _ => false end.

Lemma res_bind_Ok {A B} (r : res A) (k : A -> res B) b :
  res_bind r k = Ok b <-> exists a, r = Ok a /\ k a = Ok b.
Proof.
  destruct r as [a|f]; simpl; split.
  - by exists a.
  - by intros (? & [= <-] & ?).
  - done.
  - by intros (? & ? & ?).
Qed.

Lemma cassert_Ok b u : cassert b = Ok u <-> b = true.
Proof. by destruct b, u. Qed.

Lemma res_bind_assoc {A B C} (r : res A) (f : A -> res B) (g : B -> res C) :
  res_bind (res_bind r f) g = res_bind r (fun a => res_bind (f a) g).
Proof. by destruct r. Qed.

(** Monadic left fold, the shape of a range-for whose body may fault. *)
Fixpoint res_fold {A S} (f : S -> A -> res S) (s : S) (l : list A) : res S :=
  match l with
  | [] => Ok s
  | a :: l' => let! s' := f s a in res_fold f s' l'
  end.

Lemma res_fold_app {A S} (f : S -> A -> res S) s l1 l2 :
  res_fold f s (l1 ++ l2) = let! s' := res_fold f s l1 in res_fold f s' l2.
Proof.
  revert s; induction l1 as [|a l1 IH]; intros s; simpl; [done|].
  destruct (f s a); simpl; auto.
Qed.

(** An invariant kept by every step of a fold is kept by the fold. *)
Lemma res_fold_inv {A S} (P : S -> Prop) (f : S -> A -> res S) s l s' :
  (forall s a s', P s -> f s a = Ok s' -> P s') ->
  P s -> res_fold f s l = Ok s' -> P s'.
Proof.
  intros Hf; revert s; induction l as [|a l IH]; intros s Hs; simpl.
  { naive_solver. }
  rewrite res_bind_Ok; intros (s1 & H1 & H2); eauto.
Qed.

(** ** Safety *)

(** [safe r Q]: the computation does not fault; it returns with [Q], or gives up
    because memory ran out ([std::length_error] of a vector or string that would
    exceed its maximal size, [std::bad_alloc]), which the program cannot exclude. *)
Definition safe {A} (r : res A) (Q : A -> Prop) : Prop :=
  match r with
  | Ok a => Q a
  | Fail (Thrown length_error) | Fail (Thrown bad_alloc) => True
  | Fail _ => False
  end.

Lemma safe_mono {A} (r : res A) (Q Q' : A -> Prop) :
  safe r Q -> (forall a, Q a -> Q' a) -> safe r Q'.
Proof. destruct r as [a|[| | |[| | | |]]]; simpl; auto. Qed.

Lemma safe_bind {A B} (r : res A) (k : A -> res B) (Q : B -> Prop) :
  safe r (fun a => safe (k a) Q) -> safe (res_bind r k) Q.
Proof. by destruct r as [a|[| | |[| | | |]]]. Qed.

Lemma safe_bind' {A B} (r : res A) (k : A -> res B) (R : A -> Prop) (Q : B -> Prop) :
  safe r R -> (forall a, R a -> safe (k a) Q) -> safe (res_bind r k) Q.
Proof. intros H Hk; apply safe_bind; by eapply safe_mono. Qed.

Lemma safe_assert {A} b (k : res A) Q :
  b = true -> safe k Q -> safe (assert! b ;; k) Q.
Proof. by intros ->. Qed.

Lemma safe_Ok {A} (r : res A) (Q : A -> Prop) a : safe r Q -> r = Ok a -> Q a.
Proof. by intros H ->. Qed.

Lemma safe_fold {A S} (P : S -> Prop) (f : S -> A -> res S) s l :
  P s -> (forall s a, a ∈ l -> P s -> safe (f s a) P) -> safe (res_fold f s l) P.
Proof.
  revert s; induction l as [|a l IH]; intros s Hs Hf; simpl; [done|].
  apply safe_bind' with P; [apply Hf; [left|done]|].
  intros s' Hs'; apply IH; [done|]; intros; apply Hf; [by right|done].
Qed.

(** ** Machine integers *)

Open Scope Z_scope.

(** Reduction to an unsigned, respectively two's complement signed, integer of
    [w] bits. *)
Definition uwrap (w z : Z) : Z := z mod 2 ^ w.
Definition swrap (w z : Z) : Z := (z + 2 ^ (w - 1)) mod 2 ^ w - 2 ^ (w - 1).

Definition u8 := uwrap 8.
Definition u16 := uwrap 16.
Definition u32 := uwrap 32.
Definition u64 := uwrap 64.
Definition i8 := swrap 8.
Definition i16 := swrap 16.
Definition i32 := swrap 32.
Definition i64 := swrap 64.

Definition in_unsigned (w z : Z) : Prop := 0 <= z < 2 ^ w.
Definition in_signed (w z : Z) : Prop := - 2 ^ (w - 1) <= z < 2 ^ (w - 1).

Lemma uwrap_small w z : in_unsigned w z -> uwrap w z = z.
Proof. apply Z.mod_small. Qed.

Lemma swrap_small w z : 0 < w -> in_signed w z -> swrap w z = z.
Proof.
  unfold in_signed, swrap; intros Hw H.
  assert (2 ^ w = 2 * 2 ^ (w - 1)) as E.
  { rewrite <- Z.pow_succ_r by lia; f_equal; lia. }
  rewrite Z.mod_small; lia.
Qed.

Lemma uwrap_range w z : 0 <= w -> in_unsigned w (uwrap w z).
Proof. intros; apply Z.mod_pos_bound; lia. Qed.

Lemma swrap_range w z : 0 < w -> in_signed w (swrap w z).
Proof.
  unfold in_signed, swrap; intros Hw.
  assert (2 ^ w = 2 * 2 ^ (w - 1)) as E.
  { rewrite <- Z.pow_succ_r by lia; f_equal; lia. }
  pose proof (Z.mod_pos_bound (z + 2 ^ (w - 1)) (2 ^ w) ltac:(lia)); lia.
Qed.

(** The signed value depends on the bits only. *)
Lemma swrap_uwrap w z : 0 <= w -> swrap w (uwrap w z) = swrap w z.
Proof.
  intros; unfold swrap, uwrap.
  by rewrite Zplus_mod_idemp_l.
Qed.

Lemma u64_small z : 0 <= z < 2 ^ 64 -> u64 z = z.
Proof. apply uwrap_small. Qed.

(** ** Lists indexed by machine integers *)

Definition len {A} (l : list A) : Z := Z.of_nat (length l).

(** [l[i..j)]. *)
Definition slice {A} (i j : Z) (l : list A) : list A :=
  take (Z.to_nat (j - i)) (drop (Z.to_nat i) l).

(** Overwrite [length d] elements of [l] from position [i] on; a range that is
    not inside [l] is outside the object. *)
Definition splice {A} (i : Z) (d l : list A) : res (list A) :=
  if (0 <=? i) && (i + len d <=? len l)
  then Ok (take (Z.to_nat i) l ++ d ++ drop (Z.to_nat (i + len d)) l)
  else Fail OutOfRange.

(** [std::vector<T>::resize(n)] with value-initialised elements; the vector
    refuses a size over [max_size()] = 2^63 - 1. *)
Definition max_size : Z := 2 ^ 63 - 1.

Definition vector_resize {A} (dflt : A) (n : Z) (l : list A) : res (list A) :=
  if n <=? max_size
  then Ok (take (Z.to_nat n) l ++ replicate (Z.to_nat (n - len l)) dflt)
  else Fail (Thrown length_error).

Lemma len_nonneg {A} (l : list A) : 0 <= len l.
Proof. unfold len; lia. Qed.

Lemma len_app {A} (l k : list A) : len (l ++ k) = len l + len k.
Proof. unfold len; rewrite length_app; lia. Qed.

Lemma len_nil {A} : len (@nil A) = 0.
Proof. done. Qed.

Lemma len_cons {A} (x : A) l : len (x :: l) = 1 + len l.
Proof. unfold len; simpl length; lia. Qed.

Lemma len_replicate {A} n (x : A) : len (replicate n x) = Z.of_nat n.
Proof. unfold len; by rewrite length_replicate. Qed.

Lemma len_take {A} n (l : list A) :
  0 <= n <= len l -> len (take (Z.to_nat n) l) = n.
Proof. unfold len; rewrite length_take; lia. Qed.

Lemma len_drop {A} n (l : list A) :
  0 <= n <= len l -> len (drop (Z.to_nat n) l) = len l - n.
Proof. unfold len; rewrite length_drop; lia. Qed.

Lemma len_slice {A} i j (l : list A) :
  0 <= i <= j -> j <= len l -> len (slice i j l) = j - i.
Proof.
  intros; unfold slice, len in *; rewrite length_take, length_drop; lia.
Qed.

Lemma len_0_nil {A} (l : list A) : len l = 0 -> l = [].
Proof. destruct l; unfold len; simpl; [done|lia]. Qed.

(** A list seen as what precedes [i], what lies in [i..j) and what follows. *)
Lemma slice_split {A} i j (l : list A) :
  0 <= i <= j -> j <= len l ->
  l = take (Z.to_nat i) l ++ slice i j l ++ drop (Z.to_nat j) l.
Proof.
  intros Hij Hj; unfold slice.
  replace (Z.to_nat j) with (Z.to_nat i + Z.to_nat (j - i))%nat by lia.
  by rewrite <- drop_drop, take_drop, take_drop.
Qed.

Lemma slice_middle {A} i j (p c q : list A) :
  i = len p -> j = len p + len c -> slice i j (p ++ c ++ q) = c.
Proof.
  intros -> ->; unfold slice, len.
  rewrite Nat2Z.id, drop_app_length.
  replace (Z.to_nat _) with (length c) by lia.
  by rewrite take_app_length.
Qed.

Lemma slice_all {A} j (l : list A) : j = len l -> slice 0 j l = l.
Proof. intros ->; unfold slice, len; rewrite drop_0, take_ge; [done|lia]. Qed.

Lemma splice_Ok {A} i (d p o q : list A) :
  i = len p -> len d = len o -> splice i d (p ++ o ++ q) = Ok (p ++ d ++ q).
Proof.
  intros -> Ho; unfold splice.
  rewrite (proj2 (andb_true_iff _ _)).
  2:{ pose proof (len_nonneg p); pose proof (len_nonneg q).
      rewrite !Z.leb_le, !len_app; lia. }
  f_equal; unfold len in *.
  rewrite Nat2Z.id, take_app_length.
  replace (Z.to_nat _) with (length p + length o)%nat by lia.
  by rewrite <- drop_drop, drop_app_length, drop_app_length.
Qed.

Lemma splice_inv {A} i (d l l' : list A) :
  splice i d l = Ok l' ->
  0 <= i /\ i + len d <= len l /\
  l' = take (Z.to_nat i) l ++ d ++ drop (Z.to_nat (i + len d)) l.
Proof.
  unfold splice; case_match eqn:E; [|done]; intros [= <-].
  apply andb_true_iff in E as [?%Z.leb_le ?%Z.leb_le]; auto.
Qed.

Lemma vector_resize_grow {A} (x : A) n l :
  len l <= n <= max_size ->
  vector_resize x n l = Ok (l ++ replicate (Z.to_nat (n - len l)) x).
Proof.
  intros [??]; unfold vector_resize.
  rewrite (proj2 (Z.leb_le _ _)) by done.
  rewrite take_ge; [done|unfold len in *; lia].
Qed.

Lemma filter_all {A} (P : A -> Prop) `{!forall x, Decision (P x)} (l : list A) :
  Forall P l -> filter P l = l.
Proof. induction 1 as [|x l Hx _ IH]; [done|]; rewrite filter_cons_True by done; by rewrite IH. Qed.

Lemma filter_none {A} (P : A -> Prop) `{!forall x, Decision (P x)} (l : list A) :
  Forall (fun x => ~ P x) l -> filter P l = [].
Proof. induction 1 as [|x l Hx _ IH]; [done|]; by rewrite filter_cons_False. Qed.

(** ** Maps *)

Lemma alter_Some {K A} `{Countable K} (f : A -> A) (m : gmap K A) i x :
  m !! i = Some x -> alter f i m = <[i := f x]> m.
Proof.
  intros Hx; rewrite <- (insert_id m i x) at 1 by done; by rewrite alter_insert_eq.
Qed.

(** ** Bytes *)

Definition b2z (b : byte) : Z := Z.of_N (Byte.to_N b).

Definition z2b (z : Z) : byte :=
  match Byte.of_N (Z.to_N (z mod 256)) with
  | Some b => b
  | None => x00
  end.

#[export] Instance byte_eq_dec : EqDecision byte := Byte.byte_eq_dec.

#[export] Instance byte_countable : Countable byte :=
  inj_countable Byte.to_N Byte.of_N Byte.of_to_N.

Lemma b2z_range b : 0 <= b2z b < 256.
Proof. unfold b2z; pose proof (Byte.to_N_bounded b); lia. Qed.

Lemma z2b_b2z b : z2b (b2z b) = b.
Proof.
  unfold z2b; rewrite Z.mod_small by apply b2z_range.
  unfold b2z; by rewrite N2Z.id, Byte.of_to_N.
Qed.

Lemma b2z_z2b z : b2z (z2b z) = z mod 256.
Proof.
  unfold z2b, b2z.
  pose proof (Z.mod_pos_bound z 256 ltac:(lia)) as Hz.
  destruct (Byte.of_N (Z.to_N (z mod 256))) as [b|] eqn:E.
  - apply Byte.to_of_N in E; rewrite E; lia.
  - apply Byte.of_N_None_iff in E; lia.
Qed.

(** The bytes of a string literal. *)
Definition bytes_of_string (s : string) : list byte := String.list_byte_of_string s.

(** ** Tactics *)

(** Boolean tests of the code into propositions [lia] understands. *)
Ltac bool_hyps :=
  repeat match goal with
  | H : (_ && _)%bool = true |- _ => apply andb_true_iff in H as [? ?]
  | H : negb _ = true |- _ => apply negb_true_iff in H
  | H : negb _ = false |- _ => apply negb_false_iff in H
  | H : (_ || _)%bool = false |- _ => apply orb_false_iff in H as [? ?]
  | H : (_ =? _) = true |- _ => apply Z.eqb_eq in H
  | H : (_ =? _) = false |- _ => apply Z.eqb_neq in H
  | H : (_ <=? _) = true |- _ => apply Z.leb_le in H
  | H : (_ <=? _) = false |- _ => apply Z.leb_gt in H
  | H : (_ <? _) = true |- _ => apply Z.ltb_lt in H
  | H : (_ <? _) = false |- _ => apply Z.ltb_ge in H
  | H : bool_decide _ = true |- _ => apply bool_decide_eq_true in H
  | H : bool_decide _ = false |- _ => apply bool_decide_eq_false in H
  end.

(** Take a successful monadic computation in a hypothesis apart. *)
Ltac res_inv H :=
  repeat (
    let x := fresh "x" in let Hx := fresh "Hx" in
    apply res_bind_Ok in H as (x & Hx & H);
    try (apply cassert_Ok in Hx)).

(** Split the first test of the goal, remembering its value. *)
Ltac split_if :=
  match goal with
  | |- context [if ?b then _ else _] => let E := fresh "E" in destruct b eqn:E
  end; bool_hyps.

(** The shared hint database: facts about lengths and ranges. *)
Create HintDb cpp discriminated.
#[export] Hint Resolve len_nonneg b2z_range : cpp.
Create Rewrite HintDb len.
#[export] Hint Rewrite @len_app @len_nil @len_cons @len_replicate : len.
