(* ===== verification/Endian.v ===== *)
(** * Byte order (src/src/muduo/net/Endian.h)

    The host is little-endian (the only build target of the repository,
    x86-64): an integer of [n] bytes lies in memory least significant byte
    first, and glibc's [htobeNN]/[beNNtoh] reverse its bytes.  The theorems show
    that what the program puts on the wire is the big-endian form, and that the
    two conversions are inverse to each other. *)

From S2P Require Import Prelude.

(** The [n] bytes of an integer as they lie in the memory of the host. *)
Fixpoint le_bytes (n : nat) (v : Z) : list byte :=
  match n with
  | O => []
  | S n' => z2b v :: le_bytes n' (v / 256)
  end.

(** The unsigned integer whose memory image is [l]. *)
Fixpoint le_value (l : list byte) : Z :=
  match l with
  | [] => 0
  | b :: l' => b2z b + 256 * le_value l'
  end.

(** Big-endian (network order) image and value. *)
Definition be_bytes (n : nat) (v : Z) : list byte := rev (le_bytes n v).
Definition be_value (l : list byte) : Z := le_value (rev l).

(** Byte reversal of an [n]-byte unsigned integer: [__bswap_16/32/64]. *)
Definition bswap (n : nat) (v : Z) : Z := le_value (rev (le_bytes n v)).

Definition hostToNetwork64 (host64 : Z) : Z := bswap 8 (u64 host64).
Definition hostToNetwork32 (host32 : Z) : Z := bswap 4 (u32 host32).
Definition hostToNetwork16 (host16 : Z) : Z := bswap 2 (u16 host16).
Definition networkToHost64 (net64 : Z) : Z := bswap 8 (u64 net64).
Definition networkToHost32 (net32 : Z) : Z := bswap 4 (u32 net32).
Definition networkToHost16 (net16 : Z) : Z := bswap 2 (u16 net16).

Lemma length_le_bytes n v : length (le_bytes n v) = n.
Proof. revert v; induction n; intros; simpl; auto. Qed.

Lemma len_le_bytes n v : len (le_bytes n v) = Z.of_nat n.
Proof. unfold len; by rewrite length_le_bytes. Qed.

Lemma length_be_bytes n v : length (be_bytes n v) = n.
Proof. unfold be_bytes; by rewrite length_rev, length_le_bytes. Qed.

Lemma len_be_bytes n v : len (be_bytes n v) = Z.of_nat n.
Proof. unfold len; by rewrite length_be_bytes. Qed.

Lemma pow256_S n : 2 ^ (8 * Z.of_nat (S n)) = 256 * 2 ^ (8 * Z.of_nat n).
Proof.
  replace (8 * Z.of_nat (S n)) with (8 + 8 * Z.of_nat n) by lia.
  by rewrite Z.pow_add_r by lia.
Qed.

Lemma le_value_range l : 0 <= le_value l < 2 ^ (8 * len l).
Proof.
  induction l as [|b l IH]; [by vm_compute|].
  unfold len in *; simpl length; rewrite pow256_S; simpl.
  pose proof (b2z_range b); lia.
Qed.

Lemma le_value_bytes n v : le_value (le_bytes n v) = v mod 2 ^ (8 * Z.of_nat n).
Proof.
  revert v; induction n as [|n IH]; intros v; cbn [le_bytes le_value].
  { by rewrite Z.mod_1_r. }
  rewrite IH, b2z_z2b, pow256_S.
  rewrite Z.rem_mul_r by lia; lia.
Qed.

Lemma le_bytes_value l : le_bytes (length l) (le_value l) = l.
Proof.
  induction l as [|b l IH]; cbn [le_bytes le_value length]; [done|].
  pose proof (b2z_range b).
  f_equal.
  - rewrite <- (z2b_b2z b) at 2; unfold z2b.
    by rewrite Z.add_mod, Z.mul_comm, Z.mod_mul, Z.add_0_r, Z.mod_mod by lia.
  - etransitivity; [|exact IH]; f_equal.
    rewrite Z.mul_comm, Z.div_add by lia.
    rewrite Z.div_small by lia; lia.
Qed.

(** An integer is determined by the value of its bits. *)
Lemma le_bytes_mod n v : le_bytes n (v mod 2 ^ (8 * Z.of_nat n)) = le_bytes n v.
Proof.
  rewrite <- le_value_bytes.
  rewrite <- (length_le_bytes n v) at 1; apply le_bytes_value.
Qed.

Lemma le_bytes_u (n : nat) w v :
  w = 8 * Z.of_nat n -> le_bytes n (uwrap w v) = le_bytes n v.
Proof. intros ->; apply le_bytes_mod. Qed.

Lemma be_value_bytes n v : be_value (be_bytes n v) = v mod 2 ^ (8 * Z.of_nat n).
Proof. unfold be_value, be_bytes; by rewrite rev_involutive, le_value_bytes. Qed.

Lemma bswap_bytes n v : le_bytes n (bswap n v) = be_bytes n v.
Proof.
  unfold bswap, be_bytes.
  rewrite <- (length_le_bytes n v) at 1; rewrite <- length_rev.
  apply le_bytes_value.
Qed.

Lemma bswap_involutive n v : bswap n (bswap n v) = v mod 2 ^ (8 * Z.of_nat n).
Proof.
  unfold bswap at 1; rewrite bswap_bytes.
  unfold be_bytes; by rewrite rev_involutive, le_value_bytes.
Qed.

Lemma bswap_value n l : length l = n -> bswap n (le_value l) = be_value l.
Proof. intros <-; unfold bswap, be_value; by rewrite le_bytes_value. Qed.

(** The memory image of a converted integer is its network-order image. *)
Lemma hostToNetwork64_bytes x : le_bytes 8 (hostToNetwork64 x) = be_bytes 8 x.
Proof.
  unfold hostToNetwork64, u64; rewrite bswap_bytes; unfold be_bytes.
  by rewrite (le_bytes_u 8).
Qed.

Lemma hostToNetwork32_bytes x : le_bytes 4 (hostToNetwork32 x) = be_bytes 4 x.
Proof.
  unfold hostToNetwork32, u32; rewrite bswap_bytes; unfold be_bytes.
  by rewrite (le_bytes_u 4).
Qed.

Lemma hostToNetwork16_bytes x : le_bytes 2 (hostToNetwork16 x) = be_bytes 2 x.
Proof.
  unfold hostToNetwork16, u16; rewrite bswap_bytes; unfold be_bytes.
  by rewrite (le_bytes_u 2).
Qed.

Lemma le_value_u (n : nat) w l :
  length l = n -> w = 8 * Z.of_nat n -> uwrap w (le_value l) = le_value l.
Proof. intros <- ->; apply uwrap_small; exact (le_value_range l). Qed.

(** Reading the [n] bytes of the wire into an integer and converting it gives
    the big-endian value. *)
Lemma networkToHost64_value l :
  length l = 8%nat -> networkToHost64 (le_value l) = be_value l.
Proof.
  intros; unfold networkToHost64, u64.
  by rewrite (le_value_u 8), (bswap_value 8).
Qed.

Lemma networkToHost32_value l :
  length l = 4%nat -> networkToHost32 (le_value l) = be_value l.
Proof.
  intros; unfold networkToHost32, u32.
  by rewrite (le_value_u 4), (bswap_value 4).
Qed.

Lemma networkToHost16_value l :
  length l = 2%nat -> networkToHost16 (le_value l) = be_value l.
Proof.
  intros; unfold networkToHost16, u16.
  by rewrite (le_value_u 2), (bswap_value 2).
Qed.

(** The conversions of a port are inverse on 16-bit integers. *)
Lemma network_host16_roundtrip x :
  0 <= x < 65536 -> networkToHost16 (hostToNetwork16 x) = x.
Proof.
  intros Hx; unfold networkToHost16, hostToNetwork16, u16.
  rewrite (uwrap_small 16 x) by exact Hx.
  rewrite uwrap_small.
  - rewrite bswap_involutive; by apply Z.mod_small.
  - pose proof (le_value_range (rev (le_bytes 2 x))) as H.
    unfold bswap; revert H; unfold len; rewrite length_rev, length_le_bytes; done.
Qed.
