(* ===== verification/Formats.v ===== *)
(** * Number formatting

    Decimal and hexadecimal text, and the conversions of snprintf(3) that the
    program uses: [%d] with a minimal width, padded with blanks or zeros.  What
    the program's own conversion routines are compared with. *)

From S2P Require Import Prelude.

(** ** Digits in a base *)

Definition digit (d : Z) : byte := z2b (if d <? 10 then 48 + d else 55 + d).

Fixpoint digits_go (base : Z) (fuel : nat) (n : Z) (acc : list byte) : list byte :=
  match fuel with
  | O => acc
  | S f =>
      let acc := digit (n mod base) :: acc in
      if n / base =? 0 then acc else digits_go base f (n / base) acc
  end.

(** The text of a nonnegative number; a number has at most as many digits as bits. *)
Definition digits_of (base n : Z) : list byte := digits_go base (S (Z.to_nat (Z.log2 n))) n [].

Definition decimal (z : Z) : list byte :=
  (if z <? 0 then [x2d] else []) ++ digits_of 10 (Z.abs z).

(** ** snprintf(3) *)

(** [%<width>d], and [%0<width>d] when [zero]. *)
Definition format_d (zero : bool) (width : nat) (z : Z) : list byte :=
  let sign := if z <? 0 then [x2d] else [] in
  let ds := digits_of 10 (Z.abs z) in
  let pad := (width - length sign - length ds)%nat in
  if zero then sign ++ replicate pad x30 ++ ds else replicate pad x20 ++ sign ++ ds.

(** The text [snprintf] leaves in a buffer of [size] bytes, and what it returns. *)
Definition snprintf (size : Z) (text : list byte) : list byte * Z :=
  (take (Z.to_nat (size - 1)) text, len text).

(** ** What the text means *)

Definition digit_value (b : byte) : Z :=
  let c := b2z b in if c <? 58 then c - 48 else c - 55.

Definition value (base : Z) (ds : list byte) : Z :=
  foldl (fun acc b => acc * base + digit_value b) 0 ds.

Lemma digit_value_digit d : 0 <= d < 16 -> digit_value (digit d) = d.
Proof.
  intros Hd; unfold digit_value, digit; rewrite b2z_z2b, Z.mod_small by (case_match; lia).
  repeat case_match; bool_hyps; lia.
Qed.

Lemma value_app base l1 l2 :
  value base (l1 ++ l2) = foldl (fun acc b => acc * base + digit_value b) (value base l1) l2.
Proof. unfold value; by rewrite foldl_app. Qed.

Section Base.
Context (base : Z) (Hbase : 2 <= base <= 16).

Lemma log2_div n : base <= n -> Z.log2 (n / base) < Z.log2 n.
Proof.
  intros Hn. assert (n / base <= n / 2) by (apply Z.div_le_compat_l; lia).
  assert (0 < n / base) by (apply Z.div_str_pos; lia).
  assert (Z.log2 (n / 2) = Z.log2 n - 1) as E.
  { rewrite <- Z.shiftr_div_pow2 with (n := 1) by lia. rewrite Z.log2_shiftr by lia.
    assert (1 <= Z.log2 n) by (apply Z.log2_le_pow2; lia). lia. }
  pose proof (Z.log2_le_mono _ _ H). lia.
Qed.

(** One digit is produced per step, and the fuel is enough. *)
Lemma digits_go_value fuel n acc :
  0 <= n -> Z.log2 n < Z.of_nat fuel ->
  exists ds, digits_go base fuel n acc = ds ++ acc /\ value base ds = n /\ ds <> [] /\
    (forall k, (0 < k)%nat -> n < base ^ Z.of_nat k -> (length ds <= k)%nat) /\
    (forall k, base ^ Z.of_nat k <= n -> (k < length ds)%nat).
Proof.
  revert n acc; induction fuel as [|f IH]; intros n acc Hn Hf.
  { pose proof (Z.log2_nonneg n); lia. }
  pose proof (Z.mod_pos_bound n base ltac:(lia)) as Hm.
  pose proof (Z.div_mod n base ltac:(lia)) as Hd.
  cbn [digits_go]; split_if.
  - exists [digit (n mod base)]. split_and!; [done| |done| |].
    + unfold value; cbn [foldl]. rewrite digit_value_digit by lia. nia.
    + intros k Hk _; cbn; lia.
    + intros [|k] Hk; cbn; [lia|]. rewrite Nat2Z.inj_succ, Z.pow_succ_r in Hk by lia.
      assert (1 <= base ^ Z.of_nat k) by (pose proof (Z.pow_pos_nonneg base (Z.of_nat k)); lia). nia.
  - assert (base <= n) by (destruct (Z.lt_ge_cases n base); [rewrite Z.div_small in E by lia|]; lia).
    assert (0 <= n / base) by (apply Z.div_pos; lia).
    pose proof (log2_div n ltac:(lia)).
    destruct (IH (n / base) (digit (n mod base) :: acc)) as (ds & -> & Hv & Hnn & Hup & Hlo); [lia..|].
    exists (ds ++ [digit (n mod base)]). split_and!.
    + by rewrite <- app_assoc.
    + rewrite value_app, Hv; cbn [foldl]. rewrite digit_value_digit by lia. nia.
    + by destruct ds.
    + intros [|[|k]] Hk Hlt; [lia|cbn in Hlt; lia|].
      rewrite length_app; cbn. cut (length ds <= S k)%nat; [lia|]. apply Hup; [lia|].
      apply Z.div_lt_upper_bound; [lia|]. by rewrite <- Z.pow_succ_r, <- Nat2Z.inj_succ by lia.
    + intros [|k] Hk; rewrite length_app; cbn; [lia|].
      cut (k < length ds)%nat; [lia|]. apply Hlo.
      apply Z.div_le_lower_bound; [lia|]. by rewrite <- Z.pow_succ_r, <- Nat2Z.inj_succ by lia.
Qed.

Lemma digits_of_value n : 0 <= n -> value base (digits_of base n) = n.
Proof.
  intros Hn; unfold digits_of. pose proof (Z.log2_nonneg n).
  destruct (digits_go_value (S (Z.to_nat (Z.log2 n))) n []) as (ds & -> & Hv & _); [lia..|].
  by rewrite app_nil_r.
Qed.

Lemma digits_of_length_le n k :
  0 <= n < base ^ Z.of_nat k -> (0 < k)%nat -> (length (digits_of base n) <= k)%nat.
Proof.
  intros [Hn Hk] Hk0; unfold digits_of. pose proof (Z.log2_nonneg n).
  destruct (digits_go_value (S (Z.to_nat (Z.log2 n))) n []) as (ds & -> & _ & _ & Hup & _); [lia..|].
  rewrite app_nil_r; auto.
Qed.

Lemma digits_of_length_gt n k :
  base ^ Z.of_nat k <= n -> (k < length (digits_of base n))%nat.
Proof.
  intros Hk; unfold digits_of. pose proof (Z.log2_nonneg n).
  assert (0 < base ^ Z.of_nat k) by (apply Z.pow_pos_nonneg; lia).
  destruct (digits_go_value (S (Z.to_nat (Z.log2 n))) n []) as (ds & -> & _ & _ & _ & Hlo); [lia..|].
  rewrite app_nil_r; auto.
Qed.

Lemma digits_of_nonempty n : 0 <= n -> digits_of base n <> [].
Proof.
  intros Hn; unfold digits_of. pose proof (Z.log2_nonneg n).
  destruct (digits_go_value (S (Z.to_nat (Z.log2 n))) n []) as (ds & -> & _ & Hne & _); [lia..|].
  by rewrite app_nil_r.
Qed.

Lemma digits_go_range fuel n acc :
  Forall (fun b => 48 <= b2z b <= 70) acc -> Forall (fun b => 48 <= b2z b <= 70) (digits_go base fuel n acc).
Proof.
  revert n acc; induction fuel as [|f IH]; intros n acc Ha; cbn [digits_go]; [done|].
  pose proof (Z.mod_pos_bound n base ltac:(lia)).
  assert (Forall (fun b => 48 <= b2z b <= 70) (digit (n mod base) :: acc)).
  { constructor; [|done]. unfold digit; rewrite b2z_z2b, Z.mod_small; case_match; bool_hyps; lia. }
  split_if; auto.
Qed.

Lemma digits_of_range n : Forall (fun b => 48 <= b2z b <= 70) (digits_of base n).
Proof. apply digits_go_range, Forall_nil; done. Qed.

(** The fuel does not matter once it is enough. *)
Lemma digits_go_fuel f1 f2 n acc :
  0 <= n -> Z.log2 n < Z.of_nat f1 -> Z.log2 n < Z.of_nat f2 ->
  digits_go base f1 n acc = digits_go base f2 n acc.
Proof.
  revert f2 n acc; induction f1 as [|f1 IH]; intros [|f2] n acc Hn H1 H2;
    try (pose proof (Z.log2_nonneg n); lia).
  cbn [digits_go]; split_if; [done|].
  assert (base <= n) by (destruct (Z.lt_ge_cases n base); [rewrite Z.div_small in E by lia|]; lia).
  pose proof (log2_div n ltac:(lia)). apply IH; [apply Z.div_pos|..]; lia.
Qed.
End Base.

(** A field of the width that the number needs is exactly that wide. *)
Lemma format_d_length zero w z :
  0 <= z < 10 ^ Z.of_nat w -> (0 < w)%nat -> length (format_d zero w z) = w.
Proof.
  intros Hz Hw; unfold format_d. rewrite (proj2 (Z.ltb_ge z 0)), Z.abs_eq by lia.
  pose proof (digits_of_length_le 10 ltac:(lia) z w Hz Hw).
  destruct zero; rewrite !length_app, length_replicate; cbn [length]; lia.
Qed.

(** Leading zeros do not change the value. *)
Lemma value_zeros base n ds : value base (replicate n x30 ++ ds) = value base ds.
Proof.
  induction n as [|n IH]; [done|]. exact IH.
Qed.

Lemma format_d_value w z : 0 <= z -> value 10 (format_d true w z) = z.
Proof.
  intros Hz; unfold format_d. rewrite (proj2 (Z.ltb_ge z 0)), Z.abs_eq by lia. cbn [app].
  rewrite value_zeros. by apply digits_of_value; lia.
Qed.

(** Reading a decimal number back. *)
Definition parse_decimal (text : list byte) : Z :=
  match text with
  | x2d :: ds => - value 10 ds
  | ds => value 10 ds
  end.

Lemma parse_decimal_decimal z : parse_decimal (decimal z) = z.
Proof.
  unfold decimal. pose proof (digits_of_value 10 ltac:(lia) (Z.abs z) ltac:(lia)) as Hv.
  pose proof (digits_of_range 10 ltac:(lia) (Z.abs z)) as Hr.
  destruct (Z.ltb_spec z 0); cbn [app parse_decimal].
  { rewrite Hv. lia. }
  transitivity (Z.abs z); [|lia].
  destruct (digits_of 10 (Z.abs z)) as [|b ds]; [done|].
  apply Forall_cons in Hr as [Hb _]. unfold parse_decimal.
  destruct b; try exact Hv. cbn in Hb. lia.
Qed.
