(* ===== verification/StringPieces.v ===== *)
(** * String pieces (src/src/muduo/base/StringPiece.h)

    A piece is a pointer into memory and an [int] length, and owns nothing.  Memory is
    one list of bytes; the operations read it through [memcmp] and [strlen], which
    fault outside of it.  They are compared with the order of byte strings. *)

From S2P Require Import Prelude.

(** ** Memory *)

(** The [n] bytes at [p]; nothing is read when [n] is 0. *)
Definition range (mem : list byte) (p : option Z) (n : Z) : res (list byte) :=
  if n =? 0 then Ok []
  else match p with
  | Some a => if (0 <=? a) && (0 <=? n) && (a + n <=? len mem) then Ok (slice a (a + n) mem) else Fail OutOfRange
  | None => Fail OutOfRange
  end.

(** The difference of the first bytes that differ. *)
Fixpoint first_difference (a b : list byte) : Z :=
  match a, b with
  | x :: a, y :: b => if b2z x =? b2z y then first_difference a b else b2z x - b2z y
  | _, _ => 0
  end.

(** The count is a [size_t]: a negative one is huge. *)
Definition memcmp (mem : list byte) (p q : option Z) (n : Z) : res Z :=
  let! a := range mem p (u64 n) in
  let! b := range mem q (u64 n) in
  Ok (first_difference a b).

Fixpoint strnul (l : list byte) : option Z :=
  match l with
  | [] => None
  | b :: l => if bool_decide (b = x00) then Some 0 else Z.succ <$> strnul l
  end.

Definition strlen (mem : list byte) (p : option Z) : res Z :=
  match p with
  | Some a =>
      if (0 <=? a) && (a <=? len mem) then
        match strnul (drop (Z.to_nat a) mem) with Some n => Ok n | None => Fail OutOfRange end
      else Fail OutOfRange
  | None => Fail OutOfRange
  end.

(** ** StringPiece *)

Record StringPiece := mkPiece { ptr_ : option Z; length_ : Z }.

(** The constructors: none, a C string, a string (its buffer and size), a range. *)
Definition empty_piece : StringPiece := mkPiece None 0.
Definition piece_of_cstr (mem : list byte) (str : option Z) : res StringPiece :=
  let! n := strlen mem str in Ok (mkPiece str (i32 n)).
Definition piece_of_string (buffer size : Z) : StringPiece := mkPiece (Some buffer) (i32 size).
Definition piece_of_range (offset : option Z) (len : Z) : StringPiece := mkPiece offset len.

Definition empty (p : StringPiece) : bool := length_ p =? 0.

Definition clear (p : StringPiece) : StringPiece := mkPiece None 0.
Definition set_range (buffer : option Z) (len : Z) (p : StringPiece) : StringPiece := mkPiece buffer len.
Definition set_cstr (mem : list byte) (str : option Z) (p : StringPiece) : res StringPiece :=
  let! n := strlen mem str in Ok (mkPiece str (i32 n)).

Definition at_index (mem : list byte) (i : Z) (p : StringPiece) : res byte :=
  match ptr_ p with
  | Some a => if 0 <=? a + i then from_option Ok (Fail OutOfRange) (mem !! Z.to_nat (a + i)) else Fail OutOfRange
  | None => Fail OutOfRange
  end.

Definition remove_prefix (n : Z) (p : StringPiece) : StringPiece :=
  mkPiece ((fun a => a + n) <$> ptr_ p) (length_ p - n).

Definition remove_suffix (n : Z) (p : StringPiece) : StringPiece := mkPiece (ptr_ p) (length_ p - n).

Section Operators.
Variable mem : list byte.
Implicit Types p x : StringPiece.

Definition op_eq p x : res bool :=
  if length_ p =? length_ x then
    let! r := memcmp mem (ptr_ p) (ptr_ x) (length_ p) in Ok (r =? 0)
  else Ok false.

Definition op_ne p x : res bool := let! b := op_eq p x in Ok (negb b).

(** [STRINGPIECE_BINARY_PREDICATE(cmp, auxcmp)]. *)
Definition binary_predicate (cmp auxcmp : Z -> Z -> bool) p x : res bool :=
  let! r := memcmp mem (ptr_ p) (ptr_ x) (if length_ p <? length_ x then length_ p else length_ x) in
  Ok (auxcmp r 0 || ((r =? 0) && cmp (length_ p) (length_ x))).

Definition op_lt := binary_predicate Z.ltb Z.ltb.
Definition op_le := binary_predicate Z.leb Z.ltb.
Definition op_ge := binary_predicate Z.geb Z.gtb.
Definition op_gt := binary_predicate Z.gtb Z.gtb.

Definition compare p x : res Z :=
  let! r := memcmp mem (ptr_ p) (ptr_ x) (if length_ p <? length_ x then length_ p else length_ x) in
  Ok (if r =? 0 then
        (if length_ p <? length_ x then -1 else if length_ p >? length_ x then 1 else r)
      else r).

(** The [string] constructor takes the length as a [size_t]. *)
Definition as_string p : res (list byte) :=
  if u64 (length_ p) <=? max_size then range mem (ptr_ p) (u64 (length_ p)) else Fail (Thrown length_error).

Definition CopyToString p : res (list byte) :=
  if u64 (length_ p) <=? max_size then range mem (ptr_ p) (u64 (length_ p)) else Fail (Thrown length_error).

Definition starts_with p x : res bool :=
  if length_ p >=? length_ x then
    let! r := memcmp mem (ptr_ p) (ptr_ x) (length_ x) in Ok (r =? 0)
  else Ok false.
End Operators.

(** * Properties *)

(** ** The order of byte strings *)

Fixpoint lex (a b : list byte) : comparison :=
  match a, b with
  | [], [] => Eq
  | [], _ => Lt
  | _, [] => Gt
  | x :: a, y :: b => match b2z x ?= b2z y with Eq => lex a b | c => c end
  end.

Lemma b2z_inj x y : b2z x = b2z y -> x = y.
Proof. intros E. by rewrite <- (z2b_b2z x), E, z2b_b2z. Qed.

Lemma lex_refl a : lex a a = Eq.
Proof. induction a as [|x a IH]; [done|]. cbn. by rewrite Z.compare_refl. Qed.

Lemma lex_eq a b : lex a b = Eq <-> a = b.
Proof.
  split; [|intros ->; apply lex_refl]. revert b. induction a as [|x a IH]; intros [|y b]; cbn; try done.
  destruct (Z.compare_spec (b2z x) (b2z y)) as [E| |]; try done. intros H. f_equal; [by apply b2z_inj|by apply IH].
Qed.

Lemma lex_antisym a b : lex b a = CompOpp (lex a b).
Proof.
  revert b. induction a as [|x a IH]; intros [|y b]; cbn; try done.
  rewrite Z.compare_antisym. destruct (b2z x ?= b2z y); cbn; auto.
Qed.

Lemma lex_trans a b c : lex a b = Lt -> lex b c = Lt -> lex a c = Lt.
Proof.
  revert b c. induction a as [|x a IH]; intros [|y b] [|z c]; cbn; try done.
  destruct (Z.compare_spec (b2z x) (b2z y)) as [E1|E1|E1], (Z.compare_spec (b2z y) (b2z z)) as [E2|E2|E2]; try done.
  - rewrite E1, E2, Z.compare_refl. apply IH.
  - intros _ _. rewrite (proj2 (Z.compare_lt_iff _ _)) by lia. done.
  - intros _ _. rewrite (proj2 (Z.compare_lt_iff _ _)) by lia. done.
  - intros _ _. rewrite (proj2 (Z.compare_lt_iff _ _)) by lia. done.
Qed.

(** The way the code gets it: the common length first, then the lengths. *)
Lemma lex_by_length a b :
  let n := Nat.min (length a) (length b) in
  lex a b = match first_difference (take n a) (take n b) ?= 0 with Eq => len a ?= len b | c => c end.
Proof.
  revert b. induction a as [|x a IH]; intros [|y b]; cbn [lex length Nat.min take first_difference]; try done.
  destruct (Z.eqb_spec (b2z x) (b2z y)) as [E|E].
  - rewrite E, Z.compare_refl, IH. destruct (first_difference _ _ ?= 0); try done.
    rewrite !len_cons. destruct (Z.compare_spec (len a) (len b)); symmetry;
      [apply Z.compare_eq_iff|apply Z.compare_lt_iff|apply Z.compare_gt_iff]; lia.
  - destruct (Z.compare_spec (b2z x) (b2z y)) as [|E'|E'], (Z.compare_spec (b2z x - b2z y) 0); try lia; done.
Qed.

Lemma first_difference_eq a b : length a = length b -> first_difference a b = 0 <-> a = b.
Proof.
  revert b. induction a as [|x a IH]; intros [|y b] Hl; cbn; try done.
  destruct (Z.eqb_spec (b2z x) (b2z y)) as [E|E].
  - rewrite IH by (cbn in Hl; lia). apply b2z_inj in E as ->. split; [by intros ->|by intros [=]].
  - split; [lia|]. intros [= -> ->]. done.
Qed.

(** ** Pieces and the bytes they show *)

(** A piece that lies in memory. *)
Definition shows (mem : list byte) (p : StringPiece) (s : list byte) : Prop :=
  length_ p = len s /\ len s < 2 ^ 31 /\
  match ptr_ p with
  | Some a => 0 <= a /\ a + len s <= len mem /\ slice a (a + len s) mem = s
  | None => s = []
  end.

Lemma take_slice {A} a n m (l : list A) : 0 <= n <= m -> slice a (a + n) l = take (Z.to_nat n) (slice a (a + m) l).
Proof.
  intros Hn. unfold slice. rewrite take_take. f_equal. lia.
Qed.

Lemma range_shows mem p s n :
  shows mem p s -> 0 <= n <= len s -> range mem (ptr_ p) (u64 n) = Ok (take (Z.to_nat n) s).
Proof.
  intros (Hl & Hb & Hp) Hn. rewrite u64_small by lia. unfold range. destruct (Z.eqb_spec n 0) as [->|Hn0]; [done|].
  destruct (ptr_ p) as [a|]; [|subst s; change (len []) with 0 in *; lia]. destruct Hp as (Ha & Hm & Hs).
  rewrite (proj2 (andb_true_iff _ _)).
  - rewrite (take_slice a n (len s)), Hs by lia. done.
  - rewrite andb_true_iff, !Z.leb_le. lia.
Qed.

Lemma memcmp_shows mem p q s t n :
  shows mem p s -> shows mem q t -> 0 <= n <= len s -> n <= len t ->
  memcmp mem (ptr_ p) (ptr_ q) n = Ok (first_difference (take (Z.to_nat n) s) (take (Z.to_nat n) t)).
Proof.
  intros Hp Hq Hn Hn'. unfold memcmp. rewrite (range_shows mem p s), (range_shows mem q t) by (auto; lia). done.
Qed.

(** The comparison of the common length, as the operators make it. *)
Lemma memcmp_common mem p x s t :
  shows mem p s -> shows mem x t ->
  exists r, memcmp mem (ptr_ p) (ptr_ x) (if length_ p <? length_ x then length_ p else length_ x) = Ok r /\
    lex s t = match r ?= 0 with Eq => length_ p ?= length_ x | c => c end.
Proof.
  intros Hp Hx. pose proof (len_nonneg s). pose proof (len_nonneg t).
  assert (length_ p = len s) as Ep by apply Hp. assert (length_ x = len t) as Ex by apply Hx.
  set (n := if length_ p <? length_ x then length_ p else length_ x). assert (n = Z.min (len s) (len t)) as En.
  { unfold n. rewrite Ep, Ex. destruct (Z.ltb_spec (len s) (len t)); lia. }
  eexists. split; [apply (memcmp_shows mem p x s t); [done|done|lia|lia]|].
  rewrite Ep, Ex, (lex_by_length s t). cbv zeta.
  replace (Z.to_nat n) with (Nat.min (length s) (length t)) by (unfold len in *; lia). done.
Qed.

Lemma binary_predicate_spec mem cmp auxcmp p x s t :
  shows mem p s -> shows mem x t ->
  exists r, binary_predicate mem cmp auxcmp p x = Ok (auxcmp r 0 || ((r =? 0) && cmp (length_ p) (length_ x))) /\
    lex s t = match r ?= 0 with Eq => length_ p ?= length_ x | c => c end.
Proof.
  intros Hp Hx. destruct (memcmp_common mem p x s t Hp Hx) as (r & E & Hr).
  exists r. split; [|done]. unfold binary_predicate. by rewrite E.
Qed.

Lemma op_eq_spec mem p x s t : shows mem p s -> shows mem x t -> op_eq mem p x = Ok (bool_decide (s = t)).
Proof.
  intros Hp Hx. unfold op_eq. assert (length_ p = len s) as Ep by apply Hp. assert (length_ x = len t) as Ex by apply Hx.
  rewrite Ep, Ex. pose proof (len_nonneg s). destruct (Z.eqb_spec (len s) (len t)) as [E|E].
  - rewrite (memcmp_shows mem p x s t) by (auto; lia). cbn [res_bind]. f_equal.
    rewrite !take_ge by (unfold len in *; lia). unfold len in E.
    pose proof (first_difference_eq s t ltac:(lia)) as Hd. apply Bool.eq_true_iff_eq. rewrite Z.eqb_eq, bool_decide_eq_true. done.
  - rewrite bool_decide_false; [done|]. by intros ->.
Qed.

(** Both tests of an operator hold for the same outcomes of a comparison. *)
Lemma predicate_is mem cmp auxcmp (P : comparison -> bool) p x s t :
  (forall a b, auxcmp a b = P (a ?= b) && negb (a =? b)) -> (forall a b, cmp a b = P (a ?= b)) ->
  shows mem p s -> shows mem x t -> binary_predicate mem cmp auxcmp p x = Ok (P (lex s t)).
Proof.
  intros Ha Hc Hp Hx. destruct (binary_predicate_spec mem cmp auxcmp p x s t Hp Hx) as (r & -> & ->).
  f_equal. rewrite Ha, Hc. destruct (Z.compare_spec r 0) as [->|Hr|Hr].
  - cbn. by rewrite andb_false_r.
  - rewrite (proj2 (Z.eqb_neq r 0)) by lia. cbn. by rewrite andb_true_r, orb_false_r.
  - rewrite (proj2 (Z.eqb_neq r 0)) by lia. cbn. by rewrite andb_true_r, orb_false_r.
Qed.

Definition is_lt c := match c with Lt => true | _ => false end.
Definition is_gt c := match c with Gt => true | _ => false end.

Lemma ltb_aux a b : (a <? b) = is_lt (a ?= b) && negb (a =? b).
Proof. unfold Z.ltb. destruct (Z.compare_spec a b), (Z.eqb_spec a b); try done; lia. Qed.
Lemma gtb_aux a b : (a >? b) = is_gt (a ?= b) && negb (a =? b).
Proof. unfold Z.gtb. destruct (Z.compare_spec a b), (Z.eqb_spec a b); try done; lia. Qed.
Lemma ltb_aux' a b : (a <? b) = negb (is_gt (a ?= b)) && negb (a =? b).
Proof. unfold Z.ltb. destruct (Z.compare_spec a b), (Z.eqb_spec a b); try done; lia. Qed.
Lemma gtb_aux' a b : (a >? b) = negb (is_lt (a ?= b)) && negb (a =? b).
Proof. unfold Z.gtb. destruct (Z.compare_spec a b), (Z.eqb_spec a b); try done; lia. Qed.

(** the comparison operators of pieces are those of the byte strings they show: [==]
    is equality, [<], [<=], [>=] and [>] are the lexicographic order of unsigned
    bytes, in which a prefix comes first, and [compare] has its sign; none reads
    outside the pieces. *)
Theorem piece_order mem p x s t :
  shows mem p s -> shows mem x t ->
  op_eq mem p x = Ok (bool_decide (s = t)) /\ op_ne mem p x = Ok (bool_decide (s <> t)) /\
  op_lt mem p x = Ok (is_lt (lex s t)) /\ op_le mem p x = Ok (negb (is_gt (lex s t))) /\
  op_ge mem p x = Ok (negb (is_lt (lex s t))) /\ op_gt mem p x = Ok (is_gt (lex s t)) /\
  exists r, compare mem p x = Ok r /\ (r ?= 0) = lex s t.
Proof.
  intros Hp Hx. pose proof (op_eq_spec mem p x s t Hp Hx) as He. split_and!; [done| | | | | |].
  - unfold op_ne. rewrite He. cbn [res_bind]. f_equal. symmetry. by apply bool_decide_not.
  - by apply (predicate_is mem _ _ is_lt); [apply ltb_aux| |..].
  - apply (predicate_is mem _ _ (fun c => negb (is_gt c))); [apply ltb_aux'| |done..].
    intros a b. unfold Z.leb. by destruct (a ?= b).
  - apply (predicate_is mem _ _ (fun c => negb (is_lt c))); [apply gtb_aux'| |done..].
    intros a b. unfold Z.geb. by destruct (a ?= b).
  - by apply (predicate_is mem _ _ is_gt); [apply gtb_aux| |..].
  - destruct (memcmp_common mem p x s t Hp Hx) as (r & E & ->). unfold compare. rewrite E. cbn [res_bind].
    eexists. split; [reflexivity|]. destruct (Z.eqb_spec r 0) as [->|Hr].
    + cbn. unfold Z.ltb, Z.gtb. by destruct (length_ p ?= length_ x).
    + destruct (Z.compare_spec r 0); done.
Qed.

Lemma piece_order_witness :
  let mem := bytes_of_string "abcabd" in
  op_lt mem (mkPiece (Some 0) 3) (mkPiece (Some 3) 3) = Ok true /\
  op_ge mem (mkPiece (Some 0) 3) (mkPiece (Some 0) 2) = Ok true.
Proof.
  intros mem.
  assert (shows mem (mkPiece (Some 0) 3) (bytes_of_string "abc")) as H1 by (by vm_compute).
  assert (shows mem (mkPiece (Some 3) 3) (bytes_of_string "abd")) as H2 by (by vm_compute).
  assert (shows mem (mkPiece (Some 0) 2) (bytes_of_string "ab")) as H3 by (by vm_compute).
  destruct (piece_order mem _ _ _ _ H1 H2) as (_ & _ & -> & _).
  destruct (piece_order mem _ _ _ _ H1 H3) as (_ & _ & _ & _ & -> & _). by vm_compute.
Defined.

(** ** Making and changing pieces *)

(** A string and its piece show the same bytes, and the piece gives the string back. *)
Lemma as_string_shows mem p s : shows mem p s -> as_string mem p = Ok s.
Proof.
  intros Hp. unfold as_string. assert (length_ p = len s) as -> by apply Hp. pose proof (len_nonneg s).
  assert (len s < 2 ^ 31) as Hs by apply Hp. unfold max_size.
  rewrite (proj2 (Z.leb_le _ _)) by (rewrite u64_small; lia).
  rewrite (range_shows mem p s) by (auto; lia). f_equal. apply take_ge. unfold len. lia.
Qed.

Lemma piece_of_string_shows mem a s :
  0 <= a -> a + len s <= len mem -> slice a (a + len s) mem = s -> len s < 2 ^ 31 ->
  shows mem (piece_of_string a (len s)) s.
Proof.
  intros Ha Hm Hs Hl. pose proof (len_nonneg s). split_and!; cbn; try done.
  apply swrap_small; [lia|]. unfold in_signed. lia.
Qed.

(** Taking bytes off either end is taking them off the string, as long as the piece
    has that many. *)
Lemma remove_prefix_shows mem p s n :
  shows mem p s -> 0 <= n <= len s -> shows mem (remove_prefix n p) (drop (Z.to_nat n) s).
Proof.
  intros (Hl & Hb & Hp) Hn. split_and!; cbn [remove_prefix length_ ptr_].
  - rewrite len_drop; lia.
  - rewrite len_drop; lia.
  - destruct (ptr_ p) as [a|]; cbn.
    + destruct Hp as (Ha & Hm & Hs). rewrite len_drop by lia. split_and!; [lia|lia|].
      rewrite <- Hs at 2. unfold slice.
      replace (Z.to_nat (a + n)) with (Z.to_nat a + Z.to_nat n)%nat by lia. rewrite <- drop_drop, skipn_firstn_comm.
      f_equal. lia.
    + subst s. by rewrite drop_nil.
Qed.

Lemma remove_suffix_shows mem p s n :
  shows mem p s -> 0 <= n <= len s -> shows mem (remove_suffix n p) (take (Z.to_nat (len s - n)) s).
Proof.
  intros (Hl & Hb & Hp) Hn. split_and!; cbn [remove_suffix length_ ptr_].
  - rewrite len_take; lia.
  - rewrite len_take; lia.
  - destruct (ptr_ p) as [a|]; cbn.
    + destruct Hp as (Ha & Hm & Hs). rewrite len_take by lia. split_and!; [lia|lia|].
      rewrite (take_slice a (len s - n) (len s)), Hs by lia. done.
    + subst s. by rewrite take_nil.
Qed.

(** [starts_with] is the prefix test. *)
Theorem starts_with_spec mem p x s t :
  shows mem p s -> shows mem x t -> starts_with mem p x = Ok (bool_decide (t `prefix_of` s)).
Proof.
  intros Hp Hx. unfold starts_with.
  assert (length_ p = len s) as -> by apply Hp. assert (length_ x = len t) as -> by apply Hx.
  rewrite Z.geb_leb. pose proof (len_nonneg t). destruct (Z.leb_spec (len t) (len s)) as [Hle|Hlt].
  - rewrite (memcmp_shows mem p x s t) by (auto; lia). cbn [res_bind]. f_equal.
    rewrite (take_ge t) by (unfold len; lia). apply Bool.eq_true_iff_eq. rewrite Z.eqb_eq, bool_decide_eq_true.
    rewrite first_difference_eq by (rewrite length_take; unfold len in *; lia). split.
    + intros E. exists (drop (Z.to_nat (len t)) s). by rewrite <- E at 1; rewrite take_drop.
    + intros [k ->]. unfold len. by rewrite Nat2Z.id, take_app_length.
  - rewrite bool_decide_false; [done|]. intros Hpre. apply prefix_length in Hpre. unfold len in *. lia.
Qed.

(** Taking off more than there is leaves a negative length: the next comparison reads
    far outside. *)
Example remove_too_much :
  let mem := bytes_of_string "abc" in
  let p := remove_suffix 3 (mkPiece (Some 0) 2) in
  length_ p = -1 /\ op_eq mem p p = Fail OutOfRange /\ as_string mem p = Fail (Thrown length_error).
Proof. by vm_compute. Qed.
