(* ===== verification/Dates.v ===== *)
(** * Dates (src/src/muduo/base/Date.h, Date.cc)

    Conversion between civil dates and Julian day numbers, compared with the
    calendar as it is defined: months with their lengths, leap years, and the day
    after a day. *)

From S2P Require Import Prelude Formats.

Record YearMonthDay := mkYMD { year : Z; month : Z; day : Z }.

(** [int] arithmetic: division truncates, and a value that does not fit wraps, as
    the compilers do it; the standard leaves the overflow undefined, so the
    theorems below also say where there is none.  Additions and multiplications
    commute with the wrapping, which is written before each division and at each
    variable. *)
Definition getJulianDayNumber (year month day : Z) : Z :=
  let a := Z.quot (i32 (14 - month)) 12 in
  let y := i32 (year + 4800 - a) in
  let m := i32 (month + 12 * a - 3) in
  i32 (day + Z.quot (i32 (153 * m + 2)) 5 + y * 365 + Z.quot y 4 - Z.quot y 100
       + Z.quot y 400 - 32045).

Definition getYearMonthDay (julianDayNumber : Z) : YearMonthDay :=
  let a := i32 (julianDayNumber + 32044) in
  let b := Z.quot (i32 (4 * a + 3)) 146097 in
  let c := i32 (a - Z.quot (i32 (b * 146097)) 4) in
  let d := Z.quot (i32 (4 * c + 3)) 1461 in
  let e := i32 (c - Z.quot (i32 (1461 * d)) 4) in
  let m := Z.quot (i32 (5 * e + 2)) 153 in
  mkYMD (i32 (b * 100 + d - 4800 + Z.quot m 10)) (i32 (m + 3 - 12 * Z.quot m 10))
    (i32 (e - Z.quot (i32 (153 * m + 2)) 5 + 1)).

(** A [Date] is its [julianDayNumber_]. *)
Abbreviation Date := Z.

Definition kDaysPerWeek : Z := 7.
Definition kJulianDayOf1970_01_01 : Z := getJulianDayNumber 1970 1 1.

Definition newDate (y m d : Z) : Date := getJulianDayNumber y m d.
(** From a [struct tm], whose years count from 1900 and months from 0. *)
Definition dateOfTm (tm_year tm_mon tm_mday : Z) : Date :=
  getJulianDayNumber (tm_year + 1900) (tm_mon + 1) tm_mday.
Definition valid (date : Date) : bool := 0 <? date.
Definition yearMonthDay (date : Date) : YearMonthDay := getYearMonthDay date.
Definition weekDay (date : Date) : Z := Z.rem (date + 1) kDaysPerWeek.
Definition ltb (x y : Date) : bool := x <? y.
Definition eqb (x y : Date) : bool := x =? y.

Definition toIsoString (date : Date) : list byte :=
  let ymd := yearMonthDay date in
  fst (snprintf 32 (format_d false 4 (year ymd) ++ [x2d] ++ format_d true 2 (month ymd) ++ [x2d]
                    ++ format_d true 2 (day ymd))).

(** ** The calendar *)

Definition leap (y : Z) : bool :=
  (y mod 4 =? 0) && (negb (y mod 100 =? 0) || (y mod 400 =? 0)).

Definition days_in_month (y m : Z) : Z :=
  if m =? 2 then (if leap y then 29 else 28)
  else if (m =? 4) || (m =? 6) || (m =? 9) || (m =? 11) then 30 else 31.

(** Dates from 1 March 4801 BC (year -4800) on. *)
Definition in_calendar (d : YearMonthDay) : Prop :=
  (-4800 < year d \/ year d = -4800 /\ 3 <= month d) /\
  1 <= month d <= 12 /\ 1 <= day d <= days_in_month (year d) (month d).

Definition next_day (d : YearMonthDay) : YearMonthDay :=
  if day d <? days_in_month (year d) (month d) then mkYMD (year d) (month d) (day d + 1)
  else if month d <? 12 then mkYMD (year d) (month d + 1) 1
  else mkYMD (year d + 1) 1 1.

Definition julian (d : YearMonthDay) : Z := getJulianDayNumber (year d) (month d) (day d).

Lemma newDate_julian d : newDate (year d) (month d) (day d) = julian d.
Proof. reflexivity. Qed.

(** ** The formulas over the integers *)

Definition jdn (year month day : Z) : Z :=
  let a := Z.quot (14 - month) 12 in
  let y := year + 4800 - a in
  let m := month + 12 * a - 3 in
  day + Z.quot (153 * m + 2) 5 + y * 365 + Z.quot y 4 - Z.quot y 100 + Z.quot y 400 - 32045.

Definition ymd_of (j : Z) : YearMonthDay :=
  let a := j + 32044 in
  let b := Z.quot (4 * a + 3) 146097 in
  let c := a - Z.quot (b * 146097) 4 in
  let d := Z.quot (4 * c + 3) 1461 in
  let e := c - Z.quot (1461 * d) 4 in
  let m := Z.quot (5 * e + 2) 153 in
  mkYMD (b * 100 + d - 4800 + Z.quot m 10) (m + 3 - 12 * Z.quot m 10)
    (e - Z.quot (153 * m + 2) 5 + 1).

Definition day_number (d : YearMonthDay) : Z := jdn (year d) (month d) (day d).

(** Every value the two functions compute on the way, without the constants. *)
Definition jdn_values (d : YearMonthDay) : list Z :=
  let a := Z.quot (14 - month d) 12 in
  let y := year d + 4800 - a in
  let m := month d + 12 * a - 3 in
  let s1 := day d + Z.quot (153 * m + 2) 5 in
  let s2 := s1 + y * 365 in
  let s3 := s2 + Z.quot y 4 in
  let s4 := s3 - Z.quot y 100 in
  let s5 := s4 + Z.quot y 400 in
  [14 - month d; a; year d + 4800; y; 12 * a; month d + 12 * a; m; 153 * m; 153 * m + 2;
   s1; y * 365; s2; s3; s4; s5; s5 - 32045].

Definition ymd_values (j : Z) : list Z :=
  let a := j + 32044 in
  let b := Z.quot (4 * a + 3) 146097 in
  let c := a - Z.quot (b * 146097) 4 in
  let d := Z.quot (4 * c + 3) 1461 in
  let e := c - Z.quot (1461 * d) 4 in
  let m := Z.quot (5 * e + 2) 153 in
  [a; 4 * a; 4 * a + 3; b; b * 146097; c; 4 * c; 4 * c + 3; d; 1461 * d; e; 5 * e; 5 * e + 2;
   m; 153 * m; 153 * m + 2; e - Z.quot (153 * m + 2) 5; e - Z.quot (153 * m + 2) 5 + 1;
   m + 3; 12 * Z.quot m 10; m + 3 - 12 * Z.quot m 10; b * 100; b * 100 + d;
   b * 100 + d - 4800; b * 100 + d - 4800 + Z.quot m 10].

(** The last day number whose date is computed without overflow, 4 a + 3 being
    the largest value on the way: 18 October 1465102. *)
Definition maxJulian : Z := 536838867.

(** ** Lemmas *)

(** Days before the month [m'] of a year that starts in March. *)
Definition march_offset (m' : Z) : Z := (153 * m' + 2) / 5.

(** The day number split into centuries, years of the century and days since
    1 March. *)
Lemma julian_parts y m d : 0 <= y + 4800 - Z.quot (14 - m) 12 -> 1 <= m <= 12 ->
  let a := Z.quot (14 - m) 12 in
  let y' := y + 4800 - a in
  jdn y m d + 32044 =
    (d - 1 + march_offset (m + 12 * a - 3)) + 36524 * (y' / 100) + (y' / 100) / 4
    + 365 * (y' mod 100) + (y' mod 100) / 4.
Proof.
  intros Hy Hm a y'. unfold jdn, march_offset.
  change (Z.quot (14 - m) 12) with a. change (y + 4800 - a) with y'.
  assert (0 <= a <= 1 /\ (a = 1 <-> m <= 2)) as [Ha Ha'].
  { unfold a. rewrite Z.quot_div_nonneg by lia. Z.div_mod_to_equations; lia. }
  rewrite !Z.quot_div_nonneg by lia. clearbody a y'. clear - Hy. Z.div_mod_to_equations; lia.
Qed.

(** The inverse on such parts; a year has 366 days only before a leap February. *)
Lemma parts_inverse q r e :
  0 <= q -> 0 <= r < 100 -> 0 <= e <= 365 ->
  (e = 365 -> (r + 1) mod 4 = 0 /\ (r = 99 -> (q + 1) mod 4 = 0)) ->
  let a := e + 36524 * q + q / 4 + 365 * r + r / 4 in
  (4 * a + 3) / 146097 = q /\ a - (q * 146097) / 4 = e + 365 * r + r / 4 /\
  (4 * (e + 365 * r + r / 4) + 3) / 1461 = r /\ e + 365 * r + r / 4 - (1461 * r) / 4 = e.
Proof.
  intros Hq Hr He Hl a. unfold a; clear a. split_and!.
  - symmetry; apply Z.div_unique with
      (4 * (e + 36524 * q + q / 4 + 365 * r + r / 4) + 3 - 146097 * q); [|lia].
    left. Z.div_mod_to_equations; lia.
  - Z.div_mod_to_equations; lia.
  - symmetry; apply Z.div_unique with (4 * (e + 365 * r + r / 4) + 3 - 1461 * r); [|lia].
    left. Z.div_mod_to_equations; lia.
  - Z.div_mod_to_equations; lia.
Qed.

Lemma month_cases m : 1 <= m <= 12 ->
  m = 1 \/ m = 2 \/ m = 3 \/ m = 4 \/ m = 5 \/ m = 6 \/ m = 7 \/ m = 8 \/ m = 9 \/ m = 10 \/
  m = 11 \/ m = 12.
Proof. lia. Qed.

(** Split a goal over the twelve months. *)
Ltac months H := destruct (month_cases _ H) as [->|[->|[->|[->|[->|[->|[->|[->|[->|[->|[->| ->]]]]]]]]]]].

Lemma leap_spec y : leap y = true <-> y mod 4 = 0 /\ (y mod 100 = 0 -> y mod 400 = 0).
Proof.
  unfold leap. rewrite andb_true_iff, orb_true_iff, negb_true_iff, !Z.eqb_eq, Z.eqb_neq.
  split; [intuition lia|]. intros [? H]. split; [done|].
  destruct (Z.eq_dec (y mod 100) 0); [right; auto|by left].
Qed.

Lemma days_in_month_range y m : 1 <= m <= 12 ->
  28 <= days_in_month y m <= 31 /\ (m = 2 -> days_in_month y m = 29 -> leap y = true).
Proof.
  intros Hm. unfold days_in_month. split; [repeat case_match; lia|]. intros -> ; cbn.
  by case_match.
Qed.

(** Day and month from the day of a year that starts in March. *)
Lemma month_inverse y m d : 1 <= m <= 12 -> 1 <= d <= days_in_month y m ->
  let a := Z.quot (14 - m) 12 in
  let m' := m + 12 * a - 3 in
  let e := d - 1 + march_offset m' in
  0 <= e <= 365 /\ (e = 365 -> m = 2 /\ leap y = true) /\ (5 * e + 2) / 153 = m' /\
  m' + 3 - 12 * (m' / 10) = m /\ m' / 10 = a.
Proof.
  intros Hm Hd a m' e. unfold e, m', a; clear e m' a. destruct (days_in_month_range y m Hm) as [Hr Hl].
  unfold days_in_month in Hd.
  destruct (leap y) eqn:Hly.
  all: months Hm; cbn in Hd |- *; unfold march_offset; cbn; split_and!; try lia.
  all: Z.to_euclidean_division_equations; lia.
Qed.

(** The two conversions are inverse on the calendar. *)
Lemma ymd_of_day_number d : in_calendar d -> ymd_of (day_number d) = d.
Proof.
  destruct d as [y m d]; unfold in_calendar, day_number; cbn [year month day]; intros (Hy & Hm & Hd).
  destruct (month_inverse y m d Hm Hd) as (He & Hl & Hm' & Hmm & Ha).
  set (a := Z.quot (14 - m) 12) in *. set (m' := m + 12 * a - 3) in *.
  set (e := d - 1 + march_offset m') in *.
  assert (0 <= a <= 1 /\ (a = 1 <-> m <= 2)) as [Ha0 Ha1].
  { unfold a. rewrite Z.quot_div_nonneg by lia. Z.div_mod_to_equations; lia. }
  assert (0 <= y + 4800 - a) as Hy' by lia.
  pose proof (julian_parts y m d Hy' Hm) as Hj. cbv zeta in Hj. fold a in Hj. fold m' in Hj. fold e in Hj.
  set (y' := y + 4800 - a) in *.
  destruct (parts_inverse (y' / 100) (y' mod 100) e) as (H1 & H2 & H3 & H4).
  { apply Z.div_pos; lia. }
  { apply Z.mod_pos_bound; lia. }
  { done. }
  { intros [-> Hle]%Hl. apply leap_spec in Hle as [H4 H400].
    assert (y = y' - 4799) as E by lia. rewrite E in H4, H400. clearbody y'. clear - H4 H400 Hy'.
    Z.div_mod_to_equations; lia. }
  unfold ymd_of. cbv zeta in H1, H2 |- *. rewrite Hj.
  pose proof (Z.mod_pos_bound y' 100 ltac:(lia)). pose proof (Z.div_pos y' 100 ltac:(lia) ltac:(lia)).
  pose proof (Z.div_pos (y' / 100) 4 ltac:(lia) ltac:(lia)).
  pose proof (Z.div_pos (y' mod 100) 4 ltac:(lia) ltac:(lia)).
  assert (0 <= m') by lia.
  set (A := e + 36524 * (y' / 100) + y' / 100 / 4 + 365 * (y' mod 100) + y' mod 100 / 4) in *.
  set (C := e + 365 * (y' mod 100) + y' mod 100 / 4) in *.
  rewrite (Z.quot_div_nonneg (4 * A + 3)) by lia. rewrite H1.
  rewrite (Z.quot_div_nonneg (y' / 100 * 146097)) by lia. rewrite H2.
  rewrite (Z.quot_div_nonneg (4 * C + 3)) by lia. rewrite H3.
  rewrite (Z.quot_div_nonneg (1461 * (y' mod 100))) by lia. rewrite H4.
  rewrite (Z.quot_div_nonneg (5 * e + 2)) by lia. rewrite Hm'.
  rewrite !Z.quot_div_nonneg by lia. fold (march_offset m'). rewrite Ha.
  f_equal; [|lia|unfold e; lia]. pose proof (Z.div_mod y' 100 ltac:(lia)). unfold y' in *; lia.
Qed.

(** The last of February is followed by the first of March. *)
Lemma julian_march y : -4800 < y ->
  jdn y 3 1 = jdn y 2 (days_in_month y 2) + 1.
Proof.
  intros Hy. unfold jdn, days_in_month; cbn [Z.eqb Pos.eqb].
  change (Z.quot (14 - 2) 12) with 1. change (Z.quot (14 - 3) 12) with 0. cbv zeta.
  change (Z.quot (153 * (3 + 12 * 0 - 3) + 2) 5) with 0.
  change (Z.quot (153 * (2 + 12 * 1 - 3) + 2) 5) with 337.
  rewrite !Z.quot_div_nonneg by lia.
  destruct (leap y) eqn:Hl; [apply leap_spec in Hl|
    assert (~ (y mod 4 = 0 /\ (y mod 100 = 0 -> y mod 400 = 0))) as Hl' by
      (rewrite <- leap_spec, Hl; done); clear Hl].
  all: Z.div_mod_to_equations; lia.
Qed.

(** The day after a day of the calendar has the next number. *)
Lemma julian_next d : in_calendar d -> in_calendar (next_day d) /\ day_number (next_day d) = day_number d + 1.
Proof.
  destruct d as [y m d]; unfold in_calendar, next_day; cbn [year month day]; intros (Hy & Hm & Hd).
  destruct (days_in_month_range y m Hm) as [Hr _].
  destruct (Z.ltb_spec d (days_in_month y m)) as [Hlt|Hge]; [|assert (d = days_in_month y m) as -> by lia];
    [|destruct (Z.ltb_spec m 12) as [Hm12|Hm12]]; unfold day_number; cbn [year month day].
  - split; [lia|]. unfold jdn; lia.
  - pose proof (days_in_month_range y (m + 1) ltac:(lia)) as [Hr' _]. split; [lia|].
    clear Hr Hr' Hd Hge. months Hm; try lia; [|apply julian_march; lia|..].
    all: unfold jdn, days_in_month; cbn [Z.eqb Pos.eqb orb Z.add Pos.add Pos.succ].
    all: repeat match goal with |- context [Z.quot (14 - ?k) 12] =>
           let v := eval vm_compute in (Z.quot (14 - k) 12) in change (Z.quot (14 - k) 12) with v end.
    all: cbv zeta; repeat match goal with |- context [Z.quot (153 * ?k + 2) 5] =>
           let v := eval vm_compute in (Z.quot (153 * k + 2) 5) in
           change (Z.quot (153 * k + 2) 5) with v end; lia.
  - assert (m = 12) as -> by lia. split; [cbn; lia|].
    unfold jdn, days_in_month; cbn [Z.eqb Pos.eqb orb].
    change (Z.quot (14 - 1) 12) with 1; change (Z.quot (14 - 12) 12) with 0; cbv zeta.
    change (Z.quot (153 * (1 + 12 * 1 - 3) + 2) 5) with 306.
    change (Z.quot (153 * (12 + 12 * 0 - 3) + 2) 5) with 275.
    replace (y + 1 + 4800 - 1) with (y + 4800 - 0) by lia. lia.
Qed.

(** January and February belong to the year before that starts in March. *)
Lemma before_march m : 1 <= m <= 12 ->
  0 <= Z.quot (14 - m) 12 <= 1 /\ (m <= 2 -> Z.quot (14 - m) 12 = 1) /\
  (3 <= m -> Z.quot (14 - m) 12 = 0).
Proof. intros Hm; rewrite Z.quot_div_nonneg by lia; Z.div_mod_to_equations; lia. Qed.

(** The calendar starts with the number -32044. *)
Lemma day_number_min d : in_calendar d -> -32044 <= day_number d.
Proof.
  destruct d as [y m d]; unfold in_calendar, day_number, jdn; cbn [year month day].
  intros (Hy & Hm & Hd).
  pose proof (before_march m Hm) as Ha.
  set (a := Z.quot (14 - m) 12) in *; cbv zeta.
  rewrite !Z.quot_div_nonneg by lia; clearbody a; Z.div_mod_to_equations; lia.
Qed.

(** Every day number from the start of the calendar on is the number of a day. *)
Lemma julian_surjective (n : nat) :
  exists d, in_calendar d /\ day_number d = Z.of_nat n - 32044.
Proof.
  induction n as [|n (d & Hd & Hj)].
  { exists (mkYMD (-4800) 3 1). split; [unfold in_calendar; cbn; lia|reflexivity]. }
  exists (next_day d). destruct (julian_next d Hd) as [? ->]. split; [done|lia].
Qed.

Lemma day_number_ymd_of j : -32044 <= j ->
  in_calendar (ymd_of j) /\ day_number (ymd_of j) = j.
Proof.
  intros Hj. destruct (julian_surjective (Z.to_nat (j + 32044))) as (d & Hd & E).
  assert (j = day_number d) as -> by lia. by rewrite ymd_of_day_number.
Qed.

(** *** No overflow *)

Lemma ymd_values_int j : -32044 <= j <= maxJulian -> Forall (in_signed 32) (ymd_values j).
Proof.
  unfold maxJulian; intros Hj; unfold ymd_values; cbv zeta; set (a := j + 32044).
  set (b := Z.quot (4 * a + 3) 146097).
  assert (0 <= b /\ b * 146097 <= 4 * a + 3) as Hb.
  { unfold b. rewrite Z.quot_div_nonneg by lia. Z.div_mod_to_equations; lia. }
  set (c := a - Z.quot (b * 146097) 4).
  assert (0 <= c <= 36525) as Hc.
  { unfold c, b in *. rewrite !Z.quot_div_nonneg in * by lia. clear - Hj Hb. Z.div_mod_to_equations; lia. }
  set (d := Z.quot (4 * c + 3) 1461).
  assert (0 <= d /\ 1461 * d <= 4 * c + 3) as Hd.
  { unfold d. rewrite Z.quot_div_nonneg by lia. Z.div_mod_to_equations; lia. }
  set (e := c - Z.quot (1461 * d) 4).
  assert (0 <= e <= 366) as He.
  { unfold e, d in *. rewrite !Z.quot_div_nonneg in * by lia. clear - Hc Hd. Z.div_mod_to_equations; lia. }
  set (m := Z.quot (5 * e + 2) 153).
  assert (0 <= m <= 11) as Hm.
  { unfold m. rewrite Z.quot_div_nonneg by lia. clear - He. Z.div_mod_to_equations; lia. }
  assert (0 <= Z.quot m 10 <= 1) as Hm1.
  { rewrite Z.quot_div_nonneg by lia. clear - Hm. Z.div_mod_to_equations; lia. }
  assert (0 <= Z.quot (153 * m + 2) 5 <= 400) as Hm2.
  { rewrite Z.quot_div_nonneg by lia. clear - Hm. Z.div_mod_to_equations; lia. }
  clearbody b c d e m; unfold a in *.
  repeat (apply Forall_cons; split; [unfold in_signed; lia|]). by apply Forall_nil.
Qed.

Lemma i32_exact x : in_signed 32 x -> i32 x = x.
Proof. by apply swrap_small. Qed.

(** Remove the wrapping of the values that are known to fit. *)
Ltac drop_i32 :=
  repeat match goal with H : in_signed 32 ?x |- context [i32 ?x] =>
    rewrite !(i32_exact x H) end.

Lemma getYearMonthDay_exact j : -32044 <= j <= maxJulian -> getYearMonthDay j = ymd_of j.
Proof.
  intros Hj%ymd_values_int; unfold getYearMonthDay, ymd_of, ymd_values in *; cbv zeta in Hj |- *.
  rewrite !Forall_cons in Hj; destruct_and!.
  by drop_i32.
Qed.

(** The years a day number up to [maxJulian] can have, and back. *)
Lemma jdn_years d : in_calendar d ->
  (day_number d <= maxJulian -> year d < 1470000) /\
  (year d < 1465000 -> day_number d < maxJulian).
Proof.
  destruct d as [y m d]; unfold in_calendar, day_number, jdn, maxJulian; cbn [year month day].
  intros (Hy & Hm & Hd); destruct (days_in_month_range y m Hm) as [Hr _].
  pose proof (before_march m Hm) as Ha.
  set (a := Z.quot (14 - m) 12) in *; cbv zeta.
  assert (0 <= Z.quot (153 * (m + 12 * a - 3) + 2) 5 <= 400) as Hs.
  { rewrite Z.quot_div_nonneg by lia. clear - Hm Ha. Z.div_mod_to_equations; lia. }
  set (q := Z.quot (153 * _ + 2) 5) in *; set (y' := y + 4800 - a).
  assert (0 <= y') by lia.
  rewrite !Z.quot_div_nonneg by lia.
  clearbody q a; split; intros; Z.div_mod_to_equations; lia.
Qed.

Lemma jdn_values_int d :
  in_calendar d -> day_number d <= maxJulian -> Forall (in_signed 32) (jdn_values d).
Proof.
  intros Hd Hj; pose proof (proj1 (jdn_years d Hd) Hj) as Hmax.
  revert Hd Hmax; clear Hj; destruct d as [y m d].
  unfold in_calendar, jdn_values; cbn [year month day].
  intros (Hy & Hm & Hd) Hmax; destruct (days_in_month_range y m Hm) as [Hr _].
  pose proof (before_march m Hm) as Ha.
  set (a := Z.quot (14 - m) 12) in *; cbv zeta.
  assert (0 <= Z.quot (153 * (m + 12 * a - 3) + 2) 5 <= 400) as Hs.
  { rewrite Z.quot_div_nonneg by lia. clear - Hm Ha. Z.div_mod_to_equations; lia. }
  set (q := Z.quot (153 * _ + 2) 5) in *; set (y' := y + 4800 - a).
  assert (0 <= y' <= 1474800) as Hy' by lia.
  assert (0 <= Z.quot y' 4 <= 400000 /\ 0 <= Z.quot y' 100 <= 15000 /\ 0 <= Z.quot y' 400 <= 4000)
    as (? & ? & ?).
  { rewrite !Z.quot_div_nonneg by lia. clear - Hy'. Z.div_mod_to_equations; lia. }
  set (q4 := Z.quot y' 4) in *; set (q100 := Z.quot y' 100) in *; set (q400 := Z.quot y' 400) in *.
  clearbody q a q4 q100 q400; unfold y' in *.
  repeat (apply Forall_cons; split; [unfold in_signed; lia|]). by apply Forall_nil.
Qed.

Lemma julian_exact d : in_calendar d -> day_number d <= maxJulian -> julian d = day_number d.
Proof.
  intros Hd Hj; pose proof (jdn_values_int d Hd Hj) as Hi.
  unfold julian, day_number, getJulianDayNumber, jdn, jdn_values in *; cbv zeta in Hi |- *.
  rewrite !Forall_cons in Hi; destruct_and!.
  by drop_i32.
Qed.

Lemma julian_getYearMonthDay j : -32044 <= j <= maxJulian ->
  in_calendar (getYearMonthDay j) /\ julian (getYearMonthDay j) = j.
Proof.
  intros Hj; rewrite getYearMonthDay_exact by done.
  destruct (day_number_ymd_of j) as [Hd E]; [lia|]; split; [done|].
  rewrite julian_exact; [done..|lia].
Qed.

(** ** Theorems *)

(** C36: within [int], Julian day numbers implement the calendar from 1 March of the
    year -4800 (4801 BC) on: 1 January 1970 has the number 2440588; up to the year 1465000 the day
    after a day has the next number and converting a date to its number and back
    gives the date; for every number up to [maxJulian] the conversion to a date and
    back gives the number and the next number is the next day's; no [int]
    overflows on the way of any of these; and [maxJulian] is the limit: the next
    number overflows. *)
Theorem dates_match_calendar :
  kJulianDayOf1970_01_01 = 2440588 /\
  (forall d, in_calendar d -> year d < 1465000 ->
     julian (next_day d) = julian d + 1 /\ getYearMonthDay (julian d) = d /\
     Forall (in_signed 32) (jdn_values d)) /\
  (forall j, -32044 <= j <= maxJulian ->
     in_calendar (getYearMonthDay j) /\ julian (getYearMonthDay j) = j /\
     Forall (in_signed 32) (ymd_values j) /\
     (j < maxJulian -> getYearMonthDay (j + 1) = next_day (getYearMonthDay j))) /\
  ~ Forall (in_signed 32) (ymd_values (maxJulian + 1)).
Proof.
  split_and!; [reflexivity| | |].
  - intros d Hd Hy; pose proof (proj2 (jdn_years d Hd) Hy).
    destruct (julian_next d Hd) as [Hd' E]; pose proof (day_number_min d Hd).
    rewrite !julian_exact, E by (done || lia).
    rewrite getYearMonthDay_exact, ymd_of_day_number by (done || lia).
    split_and!; [done..|apply jdn_values_int; done || lia].
  - intros j Hj; destruct (julian_getYearMonthDay j Hj) as [Hd E].
    split_and!; [done..|by apply ymd_values_int|]; intros Hlt.
    rewrite !getYearMonthDay_exact in * by lia.
    destruct (julian_next _ Hd) as [Hd' E']; rewrite <- (ymd_of_day_number _ Hd'), E'.
    by rewrite (proj2 (day_number_ymd_of j ltac:(lia))).
  - unfold ymd_values; cbv zeta; rewrite !Forall_cons; intros (_ & _ & [_ H] & _).
    by vm_compute in H.
Qed.

(** The week starts with Sunday. *)
Lemma weekDay_range j : 0 <= j -> weekDay j = (j + 1) mod 7 /\ weekDay (j + 7) = weekDay j.
Proof.
  intros Hj. unfold weekDay, kDaysPerWeek. rewrite !Z.rem_mod_nonneg by lia.
  split; [done|]. replace (j + 7 + 1) with (j + 1 + 1 * 7) by lia. by rewrite Z.mod_add by lia.
Qed.

Lemma toIsoString_length j :
  -32044 <= j <= maxJulian -> 0 <= year (getYearMonthDay j) < 10000 -> length (toIsoString j) = 10%nat.
Proof.
  intros Hj Hy. destruct (julian_getYearMonthDay j Hj) as [(_ & Hm & Hd) _].
  destruct (days_in_month_range (year (getYearMonthDay j)) _ Hm) as [Hr _].
  unfold toIsoString, yearMonthDay, snprintf; cbn [fst].
  rewrite length_take, !length_app, !format_d_length; try done; try lia.
Qed.
