(* ===== verification/TimeZones.v ===== *)
(** * Time zones (src/src/muduo/base/TimeZone.h, TimeZone.cc)

    UTC broken-down time, zone files in the TZif format, and conversion between
    UTC and local time.  gmtime_r(3) and timegm(3) are parameters. *)

From Stdlib Require Import Sorting.Sorted.
From S2P Require Import Prelude Endian Formats Dates.

(** struct tm. *)
Record tm := mkTm {
  tm_sec : Z; tm_min : Z; tm_hour : Z; tm_mday : Z; tm_mon : Z; tm_year : Z;
  tm_wday : Z; tm_yday : Z; tm_isdst : bool; tm_gmtoff : Z; tm_zone : list byte;
}.

Definition kSecondsPerDay : Z := 24 * 60 * 60.

(** ** UTC *)

(** [fillHMS] as (seconds, minutes, hours). *)
Definition fillHMS (seconds : Z) : Z * Z * Z :=
  let minutes := seconds / 60 in (seconds mod 60, minutes mod 60, minutes / 60).

Definition toUtcTime (secondsSinceEpoch : Z) (yday : bool) : tm :=
  let seconds := i32 (Z.rem secondsSinceEpoch kSecondsPerDay) in
  let days := i32 (Z.quot secondsSinceEpoch kSecondsPerDay) in
  let '(seconds, days) :=
    if seconds <? 0 then (seconds + kSecondsPerDay, days - 1) else (seconds, days) in
  let '(s, mi, h) := fillHMS seconds in
  let date := days + kJulianDayOf1970_01_01 in
  let ymd := yearMonthDay date in
  mkTm s mi h (day ymd) (month ymd - 1) (year ymd - 1900) (weekDay date)
    (if yday then date - newDate (year ymd) 1 1 else 0) false 0 (bytes_of_string "GMT").

Definition fromUtcTime6 (year month day hour minute seconds : Z) : Z :=
  let date := newDate year month day in
  let secondsInDay := hour * 3600 + minute * 60 + seconds in
  let days := date - kJulianDayOf1970_01_01 in
  days * kSecondsPerDay + secondsInDay.

Definition fromUtcTime (utc : tm) : Z :=
  fromUtcTime6 (tm_year utc + 1900) (tm_mon utc + 1) (tm_mday utc) (tm_hour utc) (tm_min utc)
    (tm_sec utc).

(** ** Zone data *)

Record Transition := mkTransition { gmttime : Z; localtime : Z; localtimeIdx : Z }.
Record Localtime := mkLocaltime { gmtOffset : Z; isDst : bool; arrbIdx : Z }.
Record Data := mkData {
  transitions : list Transition;
  localtimes : list Localtime;
  abbreviation : list byte;
}.

Definition emptyData : Data := mkData [] [] [].

#[export] Instance Transition_eq_dec : EqDecision Transition.
Proof. solve_decision. Defined.
#[export] Instance Localtime_eq_dec : EqDecision Localtime.
Proof. solve_decision. Defined.

(** [Comp]: compare by UTC or by local time. *)
Definition key (compareGmt : bool) (t : Transition) : Z :=
  if compareGmt then gmttime t else localtime t.
Definition comp (compareGmt : bool) (lhs rhs : Transition) : bool :=
  key compareGmt lhs <? key compareGmt rhs.
Definition comp_equal (compareGmt : bool) (lhs rhs : Transition) : bool :=
  key compareGmt lhs =? key compareGmt rhs.

(** ** Zone files *)

(** Reading a file into the data: what has been stored so far survives an
    exception.  The state is the data and the bytes still unread. *)
Definition reader (A : Type) : Type := Data * list byte -> (Data * list byte) * res A.

Definition rret {A} (a : A) : reader A := fun s => (s, Ok a).
Definition rfail {A} (f : fault) : reader A := fun s => (s, Fail f).
Definition rbind {A B} (m : reader A) (k : A -> reader B) : reader B := fun s =>
  let '(s, r) := m s in match r with Ok a => k a s | Fail f => (s, Fail f) end.
Definition rmodify (g : Data -> Data) : reader unit := fun '(d, f) => ((g d, f), Ok tt).
Definition rdata : reader Data := fun s => (s, Ok (fst s)).

Declare Scope reader_scope.
Delimit Scope reader_scope with reader.
Notation "x <- m ; k" := (rbind m (fun x => k))
  (at level 80, m at level 79, k at level 200, right associativity) : reader_scope.
Local Open Scope reader_scope.

(** [fread] of [n] bytes; a short read consumes what there is. *)
Definition fread (n : Z) (what : string) : reader (list byte) := fun '(d, f) =>
  let got := take (Z.to_nat n) f in
  ((d, drop (Z.to_nat n) f),
   if len got =? n then Ok got else Fail (Thrown (logic_error what))).

(** A negative size is not a size of an array.  The array is on the stack, whose
    limit is the process's: a count beyond it, which a file of that size alone can
    satisfy, is not modelled. *)
Definition readBytes (n : Z) : reader (list byte) :=
  if n <? 0 then rfail OutOfRange else fread n "no enough data".
Definition readInt32 : reader Z :=
  x <- fread 4 "bad int32_t data"; rret (i32 (networkToHost32 (le_value x))).
Definition readUInt8 : reader Z := x <- fread 1 "bad uint8_t data"; rret (le_value x).

(** [for (int i = 0; i < n; ++i)] with the results collected. *)
Fixpoint times {A} (n : nat) (body : reader A) : reader (list A) :=
  match n with
  | O => rret []
  | S n => a <- body; l <- times n body; rret (a :: l)
  end.

(** [vector::reserve] of a negative [int] exceeds [max_size()]. *)
Definition reserve (n : Z) : reader unit :=
  if u64 n <=? max_size then rret tt else rfail (Thrown length_error).

Definition push_localtime (l : Localtime) (d : Data) : Data :=
  mkData (transitions d) (localtimes d ++ [l]) (abbreviation d).
Definition push_transition (t : Transition) (d : Data) : Data :=
  mkData (transitions d ++ [t]) (localtimes d) (abbreviation d).
Definition set_abbreviation (s : list byte) (d : Data) : Data :=
  mkData (transitions d) (localtimes d) s.

Definition readLocaltime : reader unit :=
  gmtoff <- readInt32; isdst <- readUInt8; abbrind <- readUInt8;
  rmodify (push_localtime (mkLocaltime gmtoff (negb (isdst =? 0)) abbrind)).

Fixpoint addTransitions (trans idxs : list Z) : reader unit :=
  match trans, idxs with
  | t :: trans, i :: idxs =>
      d <- rdata;
      match localtimes d !! Z.to_nat i with
      | None => rfail OutOfRange
      | Some l =>
          _ <- rmodify (push_transition (mkTransition t (t + gmtOffset l) i));
          addTransitions trans idxs
      end
  | _, _ => rret tt
  end.

Definition readBody : reader unit :=
  head <- readBytes 4;
  if negb (bool_decide (head = bytes_of_string "TZif"))
  then rfail (Thrown (logic_error "bad head"))
  else
    version <- readBytes 1; _ <- readBytes 15;
    isgmtcnt <- readInt32; isstdcnt <- readInt32; leapcnt <- readInt32;
    timecnt <- readInt32; typecnt <- readInt32; charcnt <- readInt32;
    _ <- reserve timecnt;
    trans <- times (Z.to_nat timecnt) readInt32;
    locals <- times (Z.to_nat timecnt) readUInt8;
    _ <- times (Z.to_nat typecnt) readLocaltime;
    _ <- addTransitions trans locals;
    s <- readBytes charcnt;
    rmodify (set_abbreviation s).

(** [readTimeZoneFile]: returns true whatever happens; [None] is a file that
    cannot be opened.  Exceptions derived from [logic_error] are caught. *)
Definition readTimeZoneFile (file : option (list byte)) (data : Data) : res (Data * bool) :=
  match file with
  | None => Ok (data, true)
  | Some bytes =>
      let '((d, _), r) := readBody (data, bytes) in
      match r with
      | Ok _ | Fail (Thrown (logic_error _)) | Fail (Thrown length_error) => Ok (d, true)
      | Fail f => Fail f
      end
  end.

(** A zone is null or points to its data. *)
Definition TimeZoneOfFile (file : option (list byte)) : res (option Data) :=
  let! '(d, ok) := readTimeZoneFile file emptyData in
  Ok (if ok : bool then Some d else None).

Definition TimeZoneFixed (eastOfUtc : Z) (name : list byte) : option Data :=
  Some (mkData [] [mkLocaltime eastOfUtc false 0] name).

Definition zone_valid (z : option Data) : bool := bool_decide (is_Some z).

(** ** Lookup *)

(** std::lower_bound of libstdc++ on a random-access range. *)
Fixpoint lower_bound (fuel : nat) (less : Transition -> bool) (l : list Transition)
    (first len : nat) : nat :=
  match fuel with
  | O => first
  | S f =>
      if (len =? 0)%nat then first
      else
        let half := Nat.div2 len in
        let middle := (first + half)%nat in
        match l !! middle with
        | Some x =>
            if less x then lower_bound f less l (S middle) (len - half - 1)
            else lower_bound f less l first half
        | None => first
        end
  end.

(** [v[i]] of a vector. *)
Definition vector_at {A} (l : list A) (i : Z) : res A :=
  if 0 <=? i then match l !! Z.to_nat i with Some x => Ok x | None => Fail OutOfRange end
  else Fail OutOfRange.

Definition findLocaltime (data : Data) (sentry : Transition) (gmt : bool) : res Localtime :=
  match transitions data with
  | [] => vector_at (localtimes data) 0
  | front :: _ =>
      if comp gmt sentry front then vector_at (localtimes data) 0
      else
        let n := length (transitions data) in
        let i := lower_bound n (fun x => comp gmt x sentry) (transitions data) 0 n in
        match transitions data !! i with
        | Some t =>
            let! j := (if negb (comp_equal gmt sentry t)
                       then assert! negb (i =? 0)%nat ;; Ok (i - 1)%nat else Ok i) in
            let! t := vector_at (transitions data) (Z.of_nat j) in
            vector_at (localtimes data) (localtimeIdx t)
        | None =>
            let! t := vector_at (transitions data) (Z.of_nat n - 1) in
            vector_at (localtimes data) (localtimeIdx t)
        end
  end.

Section Local.
Variable gmtime_r : Z -> tm.
Variable timegm : tm -> Z.

(** The C string at [&abbreviation[i]]. *)
Definition zone_name (d : Data) (i : Z) : res (list byte) :=
  if i <=? len (abbreviation d) then Ok (drop (Z.to_nat i) (abbreviation d)) else Fail OutOfRange.

Definition set_zone (t : tm) (l : Localtime) (zone : list byte) : tm :=
  mkTm (tm_sec t) (tm_min t) (tm_hour t) (tm_mday t) (tm_mon t) (tm_year t) (tm_wday t) (tm_yday t)
    (isDst l) (gmtOffset l) zone.

Definition toLocalTime (z : option Data) (seconds : Z) : res tm :=
  match z with
  | None => Fail AssertFailed
  | Some data =>
      let! local := findLocaltime data (mkTransition seconds 0 0) true in
      let localTime := gmtime_r (seconds + gmtOffset local) in
      let! name := zone_name data (arrbIdx local) in
      Ok (set_zone localTime local name)
  end.

Definition fromLocalTime (z : option Data) (localTm : tm) : res Z :=
  match z with
  | None => Fail AssertFailed
  | Some data =>
      let seconds := timegm localTm in
      let! local := findLocaltime data (mkTransition 0 seconds 0) false in
      let! seconds :=
        (if tm_isdst localTm then
           let! tryTm := toLocalTime z (seconds - gmtOffset local) in
           Ok (if negb (tm_isdst tryTm) && (tm_hour tryTm =? tm_hour localTm)
                  && (tm_min tryTm =? tm_min localTm)
               then seconds - 3600 else seconds)
         else Ok seconds) in
      Ok (seconds - gmtOffset local)
  end.
End Local.

(** ** UTC lemmas *)

(** Times whose day number is not before the start of Julian days and low enough
    for the conversion of dates to stay within [int]. *)
Definition utc_range (s : Z) : Prop := -210866803200 <= s < 31000000000000.

Lemma toUtcTime_floor s yday : utc_range s ->
  let days := s / kSecondsPerDay in
  let seconds := s mod kSecondsPerDay in
  let date := days + kJulianDayOf1970_01_01 in
  let ymd := getYearMonthDay date in
  toUtcTime s yday =
    mkTm (seconds mod 60) (seconds / 60 mod 60) (seconds / 60 / 60) (day ymd) (month ymd - 1)
      (year ymd - 1900) (weekDay date) (if yday then date - newDate (year ymd) 1 1 else 0) false 0
      (bytes_of_string "GMT").
Proof.
  unfold utc_range, toUtcTime, kSecondsPerDay; change (24 * 60 * 60) with 86400. intros Hs.
  pose proof (Z.quot_rem' s 86400). pose proof (Z.rem_bound_abs s 86400 ltac:(lia)).
  unfold i32. rewrite !swrap_small by (unfold in_signed; Z.quot_rem_to_equations; lia).
  assert ((if Z.rem s 86400 <? 0 then (Z.rem s 86400 + 86400, Z.quot s 86400 - 1)
           else (Z.rem s 86400, Z.quot s 86400)) = (s mod 86400, s / 86400)) as ->.
  { case_match; bool_hyps; f_equal; Z.to_euclidean_division_equations; lia. }
  reflexivity.
Qed.

(** ** Lookup lemmas *)

(** Sorted by one of the two times. *)
Definition sorted_by (gmt : bool) (l : list Transition) : Prop :=
  StronglySorted (fun a b => key gmt a < key gmt b) l.

Lemma sorted_lookup gmt l i j a b :
  sorted_by gmt l -> (i < j)%nat -> l !! i = Some a -> l !! j = Some b -> key gmt a < key gmt b.
Proof.
  intros Hs; revert i j; induction Hs as [|x l Hs IH Hx]; intros i j Hij Hi Hj; [done|].
  destruct j as [|j]; [lia|]. destruct i as [|i]; cbn in *.
  - simplify_eq. rewrite Forall_lookup in Hx. eauto.
  - eapply IH; [|done..]. lia.
Qed.

(** The invariant of the binary search. *)
Lemma lower_bound_spec less l fuel first n :
  (forall i j a b, (i < j)%nat -> l !! i = Some a -> l !! j = Some b -> less b = true -> less a = true) ->
  (n <= fuel)%nat -> (first + n <= length l)%nat ->
  (forall i a, (i < first)%nat -> l !! i = Some a -> less a = true) ->
  (forall i a, (first + n <= i)%nat -> l !! i = Some a -> less a = false) ->
  let r := lower_bound fuel less l first n in
  (r <= length l)%nat /\
  (forall i a, (i < r)%nat -> l !! i = Some a -> less a = true) /\
  (forall i a, (r <= i)%nat -> l !! i = Some a -> less a = false).
Proof.
  intros Hmono; revert first n; induction fuel as [|f IH]; intros first n Hn Hl H1 H2; cbn.
  { split_and!; [lia|done|]. intros; eapply H2; [|done]; lia. }
  destruct (Nat.eqb_spec n 0) as [->|Hn0].
  { split_and!; [lia|done|]. intros; eapply H2; [|done]; lia. }
  assert (Nat.div2 n < n)%nat by (apply Nat.lt_div2; lia). set (h := Nat.div2 n) in *; clearbody h.
  destruct (lookup_lt_is_Some_2 l (first + h)) as [x Hx]; [lia|]. rewrite Hx.
  destruct (less x) eqn:Hless; apply IH; try lia.
  - intros i a Hi Ha. destruct (decide (i = first + h)%nat) as [->|]; [congruence|].
    eapply (Hmono i (first + h)%nat); [lia|done..].
  - intros i a Hi Ha. eapply H2; [|done]; lia.
  - done.
  - intros i a Hi Ha. destruct (decide (i = first + h)%nat) as [->|]; [congruence|].
    destruct (less a) eqn:E; [|done].
    rewrite <- Hless. symmetry. eapply (Hmono (first + h)%nat i); [lia|done..].
Qed.

(** The transition in effect: the last one that is not later. *)
Definition in_effect (gmt : bool) (k : Z) (l : list Transition) : option Transition :=
  last (filter (fun t => key gmt t <= k) l).

(** How a search position splits a sorted list. *)
Lemma in_effect_split gmt k l r :
  sorted_by gmt l -> (r <= length l)%nat ->
  (forall i a, (i < r)%nat -> l !! i = Some a -> key gmt a < k) ->
  (forall i a, (r <= i)%nat -> l !! i = Some a -> k <= key gmt a) ->
  in_effect gmt k l =
    match l !! r with
    | Some t => if key gmt t =? k then Some t else last (take r l)
    | None => last l
    end.
Proof.
  intros Hs Hr Hlo Hhi. unfold in_effect.
  assert (Forall (fun t => key gmt t <= k) (take r l)) as Htake.
  { apply Forall_lookup. intros i a Ha. apply lookup_take_Some in Ha as [Ha Hi].
    specialize (Hlo i a Hi Ha). lia. }
  rewrite <- (take_drop r l) at 1. rewrite filter_app, (filter_all _ (take r l)) by done.
  destruct (l !! r) as [t|] eqn:Ht.
  - rewrite (drop_S _ _ _ Ht). assert (k <= key gmt t) by (eapply Hhi; [|done]; lia).
    assert (filter (fun t => key gmt t <= k) (drop (S r) l) = []) as Hdrop.
    { apply filter_none, Forall_lookup. intros i a Ha. rewrite lookup_drop in Ha.
      pose proof (sorted_lookup gmt l r (S r + i) t a Hs ltac:(lia) Ht Ha). lia. }
    destruct (Z.eqb_spec (key gmt t) k) as [<-|].
    + rewrite filter_cons_True, Hdrop by lia. by rewrite last_snoc.
    + rewrite filter_cons_False, Hdrop by lia. by rewrite app_nil_r.
  - apply lookup_ge_None_1 in Ht. rewrite drop_ge, take_ge by lia. by rewrite app_nil_r.
Qed.

Lemma last_take {A} (l : list A) r : (0 < r <= length l)%nat -> last (take r l) = l !! (r - 1)%nat.
Proof.
  intros. rewrite last_lookup, length_take, Nat.min_l by lia.
  rewrite lookup_take_lt by lia. f_equal; lia.
Qed.

Lemma vector_at_nat {A} (l : list A) i x : l !! i = Some x -> vector_at l (Z.of_nat i) = Ok x.
Proof. intros Hx. unfold vector_at. rewrite (proj2 (Z.leb_le _ _)) by lia. by rewrite Nat2Z.id, Hx. Qed.

Lemma findLocaltime_in_effect data s gmt :
  sorted_by gmt (transitions data) ->
  findLocaltime data s gmt =
    vector_at (localtimes data)
      (match in_effect gmt (key gmt s) (transitions data) with Some t => localtimeIdx t | None => 0 end).
Proof.
  intros Hs. unfold findLocaltime. destruct (transitions data) as [|front rest] eqn:Hd; [done|].
  rewrite <- Hd in *. assert (transitions data !! 0%nat = Some front) as Hf by (by rewrite Hd).
  unfold comp at 1. destruct (Z.ltb_spec (key gmt s) (key gmt front)) as [Hlt|Hge].
  { rewrite (in_effect_split _ _ _ 0 Hs); [|lia|lia|].
    - rewrite Hf. destruct (Z.eqb_spec (key gmt front) (key gmt s)); [lia|done].
    - intros [|i] a _ Ha; [simplify_eq; lia|].
      pose proof (sorted_lookup gmt _ 0 (S i) front a Hs ltac:(lia) Hf Ha). lia. }
  set (n := length (transitions data)). set (less := fun x => comp gmt x s).
  assert (forall a, less a = true <-> key gmt a < key gmt s) as Hless.
  { intros a. unfold less, comp. apply Z.ltb_lt. }
  destruct (lower_bound_spec less (transitions data) n 0 n) as (Hr & Hlo & Hhi); [..|lia|lia|lia| |].
  { intros i j a b Hij Ha Hb Hb'. apply Hless. apply Hless in Hb'.
    pose proof (sorted_lookup gmt _ i j a b Hs Hij Ha Hb). lia. }
  { intros i a Hi Ha. apply lookup_lt_Some in Ha. unfold n in *; lia. }
  set (r := lower_bound n less (transitions data) 0 n) in *.
  rewrite (in_effect_split _ _ _ r Hs Hr).
  2:{ intros i a Hi Ha. apply Hless. eauto. }
  2:{ intros i a Hi Ha. specialize (Hhi i a Hi Ha). unfold less, comp in Hhi. bool_hyps; lia. }
  destruct (transitions data !! r) as [t|] eqn:Ht.
  - unfold comp_equal. rewrite (Z.eqb_sym (key gmt s)). destruct (Z.eqb_spec (key gmt t) (key gmt s)); cbn [negb].
    + cbn [res_bind]. by rewrite (vector_at_nat _ _ _ Ht).
    + assert (r <> 0%nat) as Hr0 by (intros Hr0; rewrite Hr0 in Ht; simplify_eq;
        specialize (Hhi 0%nat front ltac:(lia) Hf); unfold less, comp in Hhi; bool_hyps; lia).
      rewrite (proj2 (Nat.eqb_neq _ _) Hr0). cbn [negb cassert res_bind].
      apply lookup_lt_Some in Ht. rewrite last_take by lia.
      destruct (lookup_lt_is_Some_2 (transitions data) (r - 1)) as [t' Ht']; [lia|].
      by rewrite (vector_at_nat _ _ _ Ht'), Ht'.
  - rewrite last_lookup. fold n. destruct (lookup_lt_is_Some_2 (transitions data) (pred n)) as [t' Ht'].
    { unfold n. rewrite Hd; cbn; lia. }
    rewrite Ht'. replace (Z.of_nat n - 1) with (Z.of_nat (pred n)) by (unfold n; rewrite Hd; cbn; lia).
    by rewrite (vector_at_nat _ _ _ Ht').
Qed.

(** ** Zone file lemmas *)

(** The zone file of a list of transitions (time and local time type), the types
    and the abbreviations. *)
Definition encode_localtime (l : Localtime) : list byte :=
  be_bytes 4 (gmtOffset l) ++ [if isDst l then x01 else x00; z2b (arrbIdx l)].

Definition encode_zone (trans : list (Z * Z)) (types : list Localtime) (abbr : list byte) : list byte :=
  bytes_of_string "TZif" ++ [x00] ++ replicate 15 x00 ++
  be_bytes 4 0 ++ be_bytes 4 0 ++ be_bytes 4 0 ++
  be_bytes 4 (len trans) ++ be_bytes 4 (len types) ++ be_bytes 4 (len abbr) ++
  concat ((fun p => be_bytes 4 (fst p)) <$> trans) ++ ((fun p => z2b (snd p)) <$> trans) ++
  concat (encode_localtime <$> types) ++ abbr.

Definition zone_ok (trans : list (Z * Z)) (types : list Localtime) (abbr : list byte) : Prop :=
  in_signed 32 (len trans) /\ in_signed 32 (len types) /\ in_signed 32 (len abbr) /\
  Forall (fun p => in_signed 32 (fst p) /\ 0 <= snd p < 256 /\ snd p < len types) trans /\
  Forall (fun l => in_signed 32 (gmtOffset l) /\ 0 <= arrbIdx l < 256) types.

Definition zone_data (trans : list (Z * Z)) (types : list Localtime) (abbr : list byte) : Data :=
  mkData ((fun p => mkTransition (fst p)
             (fst p + gmtOffset (default (mkLocaltime 0 false 0) (types !! Z.to_nat (snd p))))
             (snd p)) <$> trans) types abbr.

Lemma fread_app n what d x rest :
  len x = n -> fread n what (d, x ++ rest) = ((d, rest), Ok x).
Proof.
  intros <-. unfold fread, len. rewrite Nat2Z.id, take_app_length, drop_app_length.
  by rewrite Z.eqb_refl.
Qed.

Lemma readInt32_app d v rest :
  in_signed 32 v -> readInt32 (d, be_bytes 4 v ++ rest) = ((d, rest), Ok v).
Proof.
  intros Hv. unfold readInt32, rbind. rewrite fread_app by (by rewrite len_be_bytes).
  unfold rret. do 2 f_equal. rewrite <- bswap_bytes, le_value_bytes.
  assert (in_unsigned 32 (bswap 4 v)) as Hr.
  { unfold bswap. pose proof (le_value_range (rev (le_bytes 4 v))) as Hr.
    unfold len in Hr. rewrite length_rev, length_le_bytes in Hr. exact Hr. }
  rewrite Z.mod_small by exact Hr. unfold networkToHost32, u32. rewrite uwrap_small by done.
  rewrite bswap_involutive. change (v mod 2 ^ (8 * Z.of_nat 4)) with (uwrap 32 v).
  unfold i32. rewrite swrap_uwrap by lia. by apply swrap_small.
Qed.

Lemma readUInt8_app d v rest :
  0 <= v < 256 -> readUInt8 (d, z2b v :: rest) = ((d, rest), Ok v).
Proof.
  intros Hv. unfold readUInt8, rbind. change (z2b v :: rest) with ([z2b v] ++ rest).
  rewrite fread_app by done. unfold rret; cbn. rewrite b2z_z2b, Z.mod_small by lia.
  by rewrite Z.add_0_r.
Qed.

(** A loop reads the concatenation of what its rounds read. *)
Lemma times_app {A B} (body : reader B) (enc : A -> list byte) (dec : A -> B) (upd : A -> Data -> Data)
    (l : list A) d rest :
  (forall a d rest, a ∈ l -> body (d, enc a ++ rest) = ((upd a d, rest), Ok (dec a))) ->
  times (length l) body (d, concat (enc <$> l) ++ rest) = ((foldl (fun d a => upd a d) d l, rest), Ok (dec <$> l)).
Proof.
  revert d; induction l as [|a l IH]; intros d Hb; [done|].
  rewrite fmap_cons; cbn [length times concat foldl]. rewrite <- app_assoc. unfold rbind at 1.
  rewrite Hb by (by left). unfold rbind. rewrite IH by (intros; apply Hb; by right). done.
Qed.

Lemma times_pure {A B} (body : reader B) (enc : A -> list byte) (dec : A -> B) (l : list A) d rest :
  (forall a d rest, a ∈ l -> body (d, enc a ++ rest) = ((d, rest), Ok (dec a))) ->
  times (length l) body (d, concat (enc <$> l) ++ rest) = ((d, rest), Ok (dec <$> l)).
Proof.
  intros Hb. rewrite (times_app body enc dec (fun _ d => d)) by done. f_equal. f_equal.
  by induction l as [|a l IH]; [|apply IH; intros; apply Hb; right].
Qed.

Lemma readLocaltime_app d l rest :
  in_signed 32 (gmtOffset l) /\ 0 <= arrbIdx l < 256 ->
  readLocaltime (d, encode_localtime l ++ rest) = ((push_localtime l d, rest), Ok tt).
Proof.
  intros [Ho Ha]. destruct l as [o b a]; cbn [gmtOffset arrbIdx isDst] in *.
  unfold readLocaltime, encode_localtime; cbn [gmtOffset arrbIdx isDst].
  rewrite <- app_assoc. unfold rbind. rewrite readInt32_app by done. cbn [app].
  replace (if b then x01 else x00) with (z2b (Z.b2z b)) by (by destruct b).
  rewrite readUInt8_app by (destruct b; cbn; lia). rewrite readUInt8_app by done.
  unfold rmodify. by destruct b.
Qed.

Lemma push_localtimes_foldl types d :
  foldl (fun d l => push_localtime l d) d types =
    mkData (transitions d) (localtimes d ++ types) (abbreviation d).
Proof.
  revert d; induction types as [|l types IH]; intros d; cbn [foldl].
  - rewrite app_nil_r. by destruct d.
  - rewrite IH. unfold push_localtime; cbn. by rewrite <- app_assoc.
Qed.

Lemma addTransitions_ok trans d rest :
  Forall (fun p => in_signed 32 (fst p) /\ 0 <= snd p < 256 /\ snd p < len (localtimes d)) trans ->
  addTransitions (fst <$> trans) (snd <$> trans) (d, rest) =
    ((mkData (transitions d ++ transitions (zone_data trans (localtimes d) [])) (localtimes d)
        (abbreviation d), rest), Ok tt).
Proof.
  revert d; induction trans as [|[t i] trans IH]; intros d Hok.
  { cbn. rewrite app_nil_r. by destruct d. }
  apply Forall_cons in Hok as [(_ & Hi & Hlt) Hok]. rewrite !fmap_cons. cbn [fst snd addTransitions] in *.
  unfold rbind at 1, rdata; cbn [fst].
  destruct (lookup_lt_is_Some_2 (localtimes d) (Z.to_nat i)) as [l Hl]; [unfold len in Hlt; lia|].
  rewrite Hl. unfold rbind, rmodify. rewrite IH by done. unfold push_transition, zone_data; cbn.
  rewrite Hl; cbn. by rewrite <- app_assoc.
Qed.

Lemma readBody_encode trans types abbr rest :
  zone_ok trans types abbr ->
  readBody (emptyData, encode_zone trans types abbr ++ rest) =
    ((zone_data trans types abbr, rest), Ok tt).
Proof.
  intros (Ht & Hy & Ha & Htr & Hty).
  assert (in_signed 32 0) as H0 by (unfold in_signed; cbn; lia).
  unfold readBody, encode_zone, readBytes. rewrite <- !app_assoc.
  unfold rbind at 1. cbn [Z.ltb Z.compare]. rewrite fread_app by done. rewrite bool_decide_true by done.
  cbn [negb]. unfold rbind at 1. rewrite fread_app by done. unfold rbind at 1. rewrite fread_app by done.
  do 6 (unfold rbind at 1; rewrite readInt32_app by done).
  unfold rbind at 1, reserve. pose proof (len_nonneg trans). pose proof (len_nonneg abbr).
  rewrite u64_small by (unfold in_signed in Ht; cbn in *; lia).
  rewrite (proj2 (Z.leb_le _ _)) by (unfold in_signed, max_size in *; cbn in *; lia).
  replace (Z.to_nat (len trans)) with (length trans) by (unfold len; lia).
  replace (Z.to_nat (len types)) with (length types) by (unfold len; lia).
  unfold rret at 1. unfold rbind at 1. rewrite (times_pure readInt32 _ fst).
  2:{ intros p d r Hp. rewrite Forall_forall in Htr. apply readInt32_app, Htr, Hp. }
  unfold rbind at 1.
  assert (forall (l : list (Z * Z)) d r, Forall (fun p => 0 <= snd p < 256) l ->
    times (length l) readUInt8 (d, ((fun p => z2b (snd p)) <$> l) ++ r) = ((d, r), Ok (snd <$> l))) as Hidx.
  { clear. intros l d r Hl. induction Hl as [|p l Hp _ IH]; [done|].
    rewrite !fmap_cons; cbn [length times app]. unfold rbind. rewrite readUInt8_app by done.
    by rewrite IH. }
  rewrite Hidx by (eapply Forall_impl; [exact Htr|by intros p (? & ? & ?)]).
  unfold rbind at 1. rewrite (times_app readLocaltime _ (fun _ => tt) push_localtime).
  2:{ intros l d r Hl. rewrite Forall_forall in Hty. apply readLocaltime_app, Hty, Hl. }
  rewrite push_localtimes_foldl. cbn [transitions localtimes abbreviation emptyData app].
  unfold rbind at 1. rewrite addTransitions_ok by done. unfold rbind.
  rewrite (proj2 (Z.ltb_ge _ _)) by done. rewrite fread_app by done. reflexivity.
Qed.

(** ** Theorems *)

(** [toUtcTime] gives the civil time of every second of the supported range,
    before 1970 included, and [fromUtcTime] is its inverse. *)
Theorem utc_roundtrip s yday :
  utc_range s ->
  let t := toUtcTime s yday in
  fromUtcTime t = s /\
  0 <= tm_sec t < 60 /\ 0 <= tm_min t < 60 /\ 0 <= tm_hour t < 24 /\
  in_calendar (mkYMD (tm_year t + 1900) (tm_mon t + 1) (tm_mday t)) /\
  tm_wday t = (s / 86400 + 4) mod 7.
Proof.
  intros Hs t. unfold t. rewrite (toUtcTime_floor s yday Hs); clear t; cbv zeta.
  set (days := s / kSecondsPerDay). set (sec := s mod kSecondsPerDay).
  assert (s = days * 86400 + sec /\ 0 <= sec < 86400) as [Es Hsec].
  { unfold days, sec, kSecondsPerDay. Z.div_mod_to_equations; lia. }
  unfold utc_range in Hs. change kJulianDayOf1970_01_01 with 2440588.
  assert (0 <= days + 2440588) as Hj by lia.
  destruct (julian_getYearMonthDay (days + 2440588) ltac:(unfold maxJulian; lia)) as [Hcal Hjul].
  unfold fromUtcTime, fromUtcTime6; cbn [tm_sec tm_min tm_hour tm_mday tm_mon tm_year tm_wday].
  change kJulianDayOf1970_01_01 with 2440588. change kSecondsPerDay with 86400.
  set (ymd := getYearMonthDay (days + 2440588)) in *.
  replace (year ymd - 1900 + 1900) with (year ymd) by lia.
  replace (month ymd - 1 + 1) with (month ymd) by lia.
  clearbody ymd; rewrite newDate_julian, Hjul.
  assert (forall a b c d e, (a /\ b /\ c /\ d /\ e) -> (a /\ (0 <= sec mod 60 < 60) /\ b /\ c /\ d /\ e)) as Hsplit.
  { intros; split_and!; try tauto; apply Z.mod_pos_bound; lia. }
  apply Hsplit; clear Hsplit. split_and!.
  - clearbody days sec. clear - Es. Z.div_mod_to_equations; lia.
  - clearbody sec. clear. Z.div_mod_to_equations; lia.
  - clearbody sec. clear. Z.div_mod_to_equations; lia.
  - clearbody sec. clear - Hsec. Z.div_mod_to_equations; lia.
  - clearbody sec. clear - Hsec. Z.div_mod_to_equations; lia.
  - by destruct ymd.
  - destruct (weekDay_range _ Hj) as [-> _].
    replace (s / 86400) with days by reflexivity.
    replace (days + 2440588 + 1) with (days + 4 + 348655 * 7) by lia. by rewrite Z.mod_add by lia.
Qed.

Lemma utc_roundtrip_witness :
  let t := toUtcTime (-1) true in
  fromUtcTime t = -1 /\
  0 <= tm_sec t < 60 /\ 0 <= tm_min t < 60 /\ 0 <= tm_hour t < 24 /\
  in_calendar (mkYMD (tm_year t + 1900) (tm_mon t + 1) (tm_mday t)) /\
  tm_wday t = (-1 / 86400 + 4) mod 7.
Proof. apply (utc_roundtrip (-1) true). unfold utc_range. lia. Defined.

(** C37: Reading a zone file gives back the zone it was written from: transitions
    with their local times, local time types and abbreviations, whatever follows
    in the file. *)
Theorem zonefile_roundtrip trans types abbr rest :
  zone_ok trans types abbr ->
  TimeZoneOfFile (Some (encode_zone trans types abbr ++ rest)) = Ok (Some (zone_data trans types abbr)).
Proof.
  intros Hok. unfold TimeZoneOfFile, readTimeZoneFile. by rewrite readBody_encode.
Qed.

(** A zone with one change to daylight saving time. *)
Definition demo_trans : list (Z * Z) := [(1000000, 1); (9000000, 0)].
Definition demo_types : list Localtime := [mkLocaltime 3600 false 0; mkLocaltime 7200 true 4].
Definition demo_abbr : list byte := bytes_of_string "CET" ++ [x00] ++ bytes_of_string "CEST" ++ [x00].

Lemma demo_zone_ok : zone_ok demo_trans demo_types demo_abbr.
Proof.
  unfold zone_ok, demo_trans, demo_types, demo_abbr, in_signed, len; cbn. split_and!; try lia.
  all: repeat (apply Forall_cons; split; [cbn; lia|]); by apply Forall_nil.
Qed.

Lemma zonefile_roundtrip_witness :
  TimeZoneOfFile (Some (encode_zone demo_trans demo_types demo_abbr ++ [x0a])) =
    Ok (Some (zone_data demo_trans demo_types demo_abbr)).
Proof. apply zonefile_roundtrip. exact demo_zone_ok. Defined.

(** The binary search of [findLocaltime] finds the local time in effect: that
    of the last transition not later than the given time, in UTC or local time,
    and the first one before all transitions. *)
Theorem findLocaltime_correct data s gmt :
  sorted_by gmt (transitions data) -> localtimes data <> [] ->
  Forall (fun t => 0 <= localtimeIdx t < len (localtimes data)) (transitions data) ->
  exists l, findLocaltime data s gmt = Ok l /\
    localtimes data !! Z.to_nat (match in_effect gmt (key gmt s) (transitions data) with
                                 | Some t => localtimeIdx t | None => 0 end) = Some l.
Proof.
  intros Hs Hne Hidx. rewrite findLocaltime_in_effect by done.
  assert (0 <= match in_effect gmt (key gmt s) (transitions data) with
               | Some t => localtimeIdx t | None => 0 end < len (localtimes data)) as Hr.
  { destruct (in_effect _ _ _) as [t|] eqn:E.
    - unfold in_effect in E. apply last_Some_elem_of, list_elem_of_filter in E as [_ Ht].
      rewrite Forall_forall in Hidx. auto.
    - unfold len. destruct (localtimes data); [done|]. cbn; lia. }
  unfold vector_at. rewrite (proj2 (Z.leb_le _ _)) by lia.
  destruct (lookup_lt_is_Some_2 (localtimes data) (Z.to_nat
    (match in_effect gmt (key gmt s) (transitions data) with
     | Some t => localtimeIdx t | None => 0 end))) as [l Hl]; [unfold len in Hr; lia|].
  exists l. by rewrite Hl.
Qed.

Lemma demo_sorted gmt : sorted_by gmt (transitions (zone_data demo_trans demo_types demo_abbr)).
Proof.
  unfold sorted_by. destruct gmt; cbn; repeat constructor; cbn; lia.
Qed.

Lemma findLocaltime_correct_witness :
  let data := zone_data demo_trans demo_types demo_abbr in
  let s := mkTransition 1000000 0 0 in
  findLocaltime data s true = Ok (mkLocaltime 7200 true 4) /\
  exists l, findLocaltime data s true = Ok l /\
    localtimes data !! Z.to_nat (match in_effect true (key true s) (transitions data) with
                                 | Some t => localtimeIdx t | None => 0 end) = Some l.
Proof.
  intros data s. split; [reflexivity|]. apply findLocaltime_correct.
  - apply demo_sorted.
  - discriminate.
  - unfold data, zone_data, len; cbn. repeat (apply Forall_cons; split; [cbn; lia|]). apply Forall_nil. done.
Defined.

Section LocalTheorems.
Context (gmtime_r : Z -> tm) (timegm : tm -> Z).
(** timegm(3) undoes gmtime_r(3) and looks at the date and time of day only. *)
Hypothesis timegm_gmtime : forall s l zone, utc_range s -> timegm (set_zone (gmtime_r s) l zone) = s.

(** Away from the hours a zone change repeats or skips, converting a time to
    local time and back gives the time, in daylight saving time too. *)
Theorem local_roundtrip data s l tl :
  utc_range (s + gmtOffset l) ->
  findLocaltime data (mkTransition s 0 0) true = Ok l ->
  findLocaltime data (mkTransition 0 (s + gmtOffset l) 0) false = Ok l ->
  toLocalTime gmtime_r (Some data) s = Ok tl ->
  fromLocalTime gmtime_r timegm (Some data) tl = Ok s.
Proof using timegm_gmtime.
  intros Hr Hg Hl Htl. assert (Htl' := Htl). unfold toLocalTime in Htl. rewrite Hg in Htl; cbn [res_bind] in Htl.
  destruct (zone_name data (arrbIdx l)) as [name|] eqn:Hn; [|done]. cbn in Htl. injection Htl as <-.
  unfold fromLocalTime. rewrite timegm_gmtime by done. rewrite Hl; cbn [res_bind].
  replace (s + gmtOffset l - gmtOffset l) with s by lia.
  rewrite Htl'. cbn [res_bind]. destruct (tm_isdst _); cbn; f_equal; lia.
Qed.
End LocalTheorems.

(** The program's own conversion can stand for the C library's. *)
Lemma fromUtc_toUtc s l zone : utc_range s -> fromUtcTime (set_zone (toUtcTime s true) l zone) = s.
Proof.
  intros Hs. rewrite (toUtcTime_floor s true Hs); cbv zeta. unfold fromUtcTime, fromUtcTime6, set_zone.
  cbn [tm_sec tm_min tm_hour tm_mday tm_mon tm_year]. change kJulianDayOf1970_01_01 with 2440588.
  unfold utc_range in Hs. change kSecondsPerDay with 86400.
  destruct (julian_getYearMonthDay (s / 86400 + 2440588)) as [_ Hjul];
    [unfold maxJulian; Z.div_mod_to_equations; lia|].
  set (ymd := getYearMonthDay _) in *.
  replace (year ymd - 1900 + 1900) with (year ymd) by lia.
  replace (month ymd - 1 + 1) with (month ymd) by lia.
  clearbody ymd; rewrite newDate_julian, Hjul. clear. Z.div_mod_to_equations; lia.
Qed.

Lemma local_roundtrip_witness :
  let data := zone_data demo_trans demo_types demo_abbr in
  exists tl, toLocalTime (fun s => toUtcTime s true) (Some data) 5000000 = Ok tl /\
    tm_isdst tl = true /\
    fromLocalTime (fun s => toUtcTime s true) fromUtcTime (Some data) tl = Ok 5000000.
Proof.
  eexists. split; [reflexivity|]. split; [reflexivity|].
  apply (local_roundtrip (fun s => toUtcTime s true) fromUtcTime fromUtc_toUtc
    (zone_data demo_trans demo_types demo_abbr) 5000000 (mkLocaltime 7200 true 4)).
  - unfold utc_range; cbn; lia.
  - reflexivity.
  - reflexivity.
  - reflexivity.
Defined.

(** A zone whose file is missing or has the wrong magic number claims to be
    valid, and converting any time with it reads the front of an empty vector. *)
Theorem unreadable_zonefile gmtime_r file s :
  (forall bytes, file = Some bytes -> take 4 bytes <> bytes_of_string "TZif") ->
  exists z, TimeZoneOfFile file = Ok z /\ zone_valid z = true /\
    toLocalTime gmtime_r z s = Fail OutOfRange.
Proof.
  intros Hf. exists (Some emptyData). split; [|done].
  destruct file as [bytes|]; [|done]. specialize (Hf bytes eq_refl).
  unfold TimeZoneOfFile, readTimeZoneFile, readBody, readBytes, rbind; cbn [Z.ltb Z.compare].
  unfold fread. destruct (len _ =? 4); [|done]. change (Z.to_nat 4) with 4%nat.
  by rewrite bool_decide_false.
Qed.

Lemma unreadable_zonefile_witness :
  exists z, TimeZoneOfFile None = Ok z /\ zone_valid z = true /\
    toLocalTime (fun s => toUtcTime s true) z 0 = Fail OutOfRange.
Proof. apply unreadable_zonefile. discriminate. Defined.
