(* ===== verification/Timestamps.v ===== *)
(** * Time stamps (src/src/muduo/base/Timestamp.h, Timestamp.cc)

    A [Timestamp] is a signed 64-bit count of microseconds since the epoch. *)

From S2P Require Import Prelude Formats TimeZones.

(** [microSecondsSinceEpoch_]. *)
Abbreviation Timestamp := Z.

Definition kMicroSecondsPerSecond : Z := 1000 * 1000.

Definition invalid : Timestamp := 0.
Definition valid (t : Timestamp) : bool := 0 <? t.
Definition secondsSinceEpoch (t : Timestamp) : Z := Z.quot t kMicroSecondsPerSecond.
Definition fromUnixTime (t microseconds : Z) : Timestamp :=
  i64 (t * kMicroSecondsPerSecond + microseconds).
Definition lt (lhs rhs : Timestamp) : bool := lhs <? rhs.
Definition eqb (lhs rhs : Timestamp) : bool := lhs =? rhs.

(** [addTime]; [delta] is the number of microseconds the double stands for. *)
Definition addTime (t : Timestamp) (delta : Z) : Timestamp := i64 (t + delta).

(** [timeDifference] before its conversion to seconds. *)
Definition timeDifference (high low : Timestamp) : Z := i64 (high - low).

(** [now], from the timeval of gettimeofday(2). *)
Definition now (tv_sec tv_usec : Z) : Timestamp := i64 (tv_sec * kMicroSecondsPerSecond + tv_usec).

Lemma addTime_exact t d : in_signed 64 (t + d) -> addTime t d = t + d.
Proof. intros; by apply swrap_small. Qed.

(** Splitting into seconds and microseconds and back. *)
Lemma fromUnixTime_split t :
  in_signed 64 t ->
  fromUnixTime (secondsSinceEpoch t) (Z.rem t kMicroSecondsPerSecond) = t.
Proof.
  intros Ht; unfold fromUnixTime, secondsSinceEpoch.
  rewrite Z.mul_comm, <- Z.quot_rem' by done; by apply swrap_small.
Qed.

(** ** Text *)

Definition toString (t : Timestamp) : list byte :=
  let seconds := Z.quot t kMicroSecondsPerSecond in
  let microseconds := Z.rem t kMicroSecondsPerSecond in
  fst (snprintf 31 (format_d false 0 seconds ++ [x2e] ++ format_d true 6 microseconds)).

(** "%4d%02d%02d %02d:%02d:%02d" of a broken-down time. *)
Definition format_tm (t : tm) : list byte :=
  format_d false 4 (tm_year t + 1900) ++ format_d true 2 (tm_mon t + 1) ++ format_d true 2 (tm_mday t)
  ++ [x20] ++ format_d true 2 (tm_hour t) ++ [x3a] ++ format_d true 2 (tm_min t) ++ [x3a]
  ++ format_d true 2 (tm_sec t).

Definition toFormattedString (gmtime_r : Z -> tm) (t : Timestamp) (showMicroseconds : bool)
    : list byte :=
  let tm_time := gmtime_r (Z.quot t kMicroSecondsPerSecond) in
  if showMicroseconds then
    let microseconds := i32 (Z.rem t kMicroSecondsPerSecond) in
    fst (snprintf 64 (format_tm tm_time ++ [x2e] ++ format_d true 6 microseconds))
  else fst (snprintf 64 (format_tm tm_time)).

(** The fields of a time in a year of at most four digits. *)
Definition tm_ok (t : tm) : Prop :=
  0 <= tm_year t + 1900 < 10000 /\ 0 <= tm_mon t < 12 /\ 1 <= tm_mday t <= 31 /\
  0 <= tm_hour t < 24 /\ 0 <= tm_min t < 60 /\ 0 <= tm_sec t < 61.

Lemma format_tm_length t : tm_ok t -> len (format_tm t) = 17.
Proof.
  intros (Hy & Hm & Hd & Hh & Hmi & Hs). unfold len, format_tm.
  rewrite !length_app, !format_d_length; try lia. done.
Qed.

(** The text of a time after the epoch reads back as the time. *)
Lemma toString_value t :
  0 <= t < 2 ^ 63 ->
  exists s us, toString t = s ++ [x2e] ++ us /\ value 10 s * kMicroSecondsPerSecond + value 10 us = t /\
    length us = 6%nat.
Proof.
  intros Ht. unfold toString, kMicroSecondsPerSecond. change (1000 * 1000) with 1000000.
  rewrite Z.quot_div_nonneg, Z.rem_mod_nonneg by lia.
  assert (0 <= t / 1000000 < 10 ^ Z.of_nat 13) as Hq.
  { change (10 ^ Z.of_nat 13) with 10000000000000. Z.div_mod_to_equations; lia. }
  pose proof (Z.mod_pos_bound t 1000000 ltac:(lia)) as Hr.
  exists (digits_of 10 (t / 1000000)), (format_d true 6 (t mod 1000000)).
  assert (length (format_d true 6 (t mod 1000000)) = 6%nat) as H6 by (apply format_d_length; lia).
  split_and!; [|rewrite digits_of_value, format_d_value by lia; Z.div_mod_to_equations; lia|done].
  unfold snprintf; cbn [fst]. rewrite take_ge.
  - unfold format_d at 1. rewrite (proj2 (Z.ltb_ge _ _)), Z.abs_eq, Nat.sub_0_l by lia. done.
  - pose proof (digits_of_length_le 10 ltac:(lia) (t / 1000000) 13 Hq ltac:(lia)).
    rewrite !length_app, H6. unfold format_d. rewrite (proj2 (Z.ltb_ge _ _)), Z.abs_eq, Nat.sub_0_l by lia.
    cbn [replicate app length]. change (Z.to_nat (31 - 1)) with 30%nat. lia.
Qed.
