(* ===== verification/LogStreams.v ===== *)
(** * Log streams (src/src/muduo/base/LogStream.h, LogStream.cc)

    The fixed-size buffer a log line is formatted into, the conversions of
    integers and pointers to text, and the insertion operators. *)

From S2P Require Import Prelude Formats.

Definition kSmallBuffer : Z := 4000.
Definition kLargeBuffer : Z := 4000 * 1000.
Definition kMaxNumericSize : Z := 32.

(** [digits], with [zero] pointing at its middle, and [digitsHex]. *)
Definition digits : list byte := bytes_of_string "9876543210123456789".
Definition zero : Z := 9.
Definition digitsHex : list byte := bytes_of_string "0123456789ABCDEF".

Definition char_at (s : list byte) (i : Z) : res byte :=
  if 0 <=? i then
    match s !! Z.to_nat i with Some c => Ok c | None => Fail OutOfRange end
  else Fail OutOfRange.

(** The do-while loop of [convert]; every round at least halves [i]. *)
Fixpoint convert_loop (fuel : nat) (i : Z) (p : list byte) : res (list byte) :=
  match fuel with
  | O => Ok p
  | S f =>
      let lsd := Z.rem i 10 in
      let i := Z.quot i 10 in
      let! c := char_at digits (zero + lsd) in
      let p := p ++ [c] in
      if negb (i =? 0) then convert_loop f i p else Ok p
  end.

Definition loop_fuel (i : Z) : nat := S (Z.to_nat (Z.log2 (Z.abs i))).

(** The text [convert] leaves in [buf], without the terminating NUL. *)
Definition convert (v : Z) : res (list byte) :=
  let! p := convert_loop (loop_fuel v) v [] in
  let p := if v <? 0 then p ++ [x2d] else p in
  Ok (reverse p).

Fixpoint convertHex_loop (fuel : nat) (i : Z) (p : list byte) : res (list byte) :=
  match fuel with
  | O => Ok p
  | S f =>
      let lsd := Z.rem i 16 in
      let i := Z.quot i 16 in
      let! c := char_at digitsHex lsd in
      let p := p ++ [c] in
      if negb (i =? 0) then convertHex_loop f i p else Ok p
  end.

Definition convertHex (v : Z) : res (list byte) :=
  let! p := convertHex_loop (loop_fuel v) v [] in
  Ok (reverse p).

(** ** FixedBuffer *)

(** [data_] and the offset of [cur_] in it. *)
Record FixedBuffer := mkFixedBuffer { data_ : list byte; cur_ : Z }.

(** The array starts uninitialised; [init] is what it happens to hold. *)
Definition newFixedBuffer (init : list byte) : FixedBuffer := mkFixedBuffer init 0.

Definition length_ (b : FixedBuffer) : Z := cur_ b.
Definition avail (b : FixedBuffer) : Z := len (data_ b) - cur_ b.
Definition add (n : Z) (b : FixedBuffer) : FixedBuffer := mkFixedBuffer (data_ b) (cur_ b + n).
Definition reset (b : FixedBuffer) : FixedBuffer := mkFixedBuffer (data_ b) 0.
Definition bzero (b : FixedBuffer) : FixedBuffer :=
  mkFixedBuffer (replicate (length (data_ b)) x00) (cur_ b).

(** Bytes stored at [current() + off]. *)
Definition store_at (off : Z) (text : list byte) (b : FixedBuffer) : res FixedBuffer :=
  let! d := splice (cur_ b + off) text (data_ b) in Ok (mkFixedBuffer d (cur_ b)).

Definition append (text : list byte) (b : FixedBuffer) : res FixedBuffer :=
  if len text <? avail b then
    let! b := store_at 0 text b in Ok (add (len text) b)
  else Ok b.

Definition debugString (b : FixedBuffer) : res FixedBuffer := store_at 0 [x00] b.

Definition toString (b : FixedBuffer) : list byte := take (Z.to_nat (cur_ b)) (data_ b).

(** ** LogStream *)

Definition formatInteger (v : Z) (b : FixedBuffer) : res FixedBuffer :=
  if kMaxNumericSize <=? avail b then
    let! text := convert v in
    let! b := store_at 0 (text ++ [x00]) b in
    Ok (add (len text) b)
  else Ok b.

Definition put_pointer (v : Z) (b : FixedBuffer) : res FixedBuffer :=
  if kMaxNumericSize <=? avail b then
    let! b := store_at 0 [x30; x78] b in
    let! text := convertHex v in
    let! b := store_at 2 (text ++ [x00]) b in
    Ok (add (len text + 2) b)
  else Ok b.

(** [operator<<(double)]: [text] is the number in the format %.12g. *)
Definition put_double (text : list byte) (b : FixedBuffer) : res FixedBuffer :=
  if kMaxNumericSize <=? avail b then
    let '(written, n) := snprintf kMaxNumericSize text in
    let! b := store_at 0 (written ++ [x00]) b in
    Ok (add n b)
  else Ok b.

(** The constructor of [Fmt]: the text of the value and its length. *)
Definition Fmt (text : list byte) : res (list byte) :=
  let '(written, n) := snprintf 32 text in
  assert! n <? 32 ;; Ok written.

(** What can be inserted. *)
Inductive item :=
| Bool (v : bool)
| Integer (v : Z)                     (** short ... unsigned long long *)
| Pointer (v : Z)
| Double (text : list byte)
| Char (c : byte)
| CString (s : option (list byte))    (** a C string or a null pointer *)
| Str (s : list byte).                (** string, StringPiece, Buffer, Fmt, T *)

Definition put (b : FixedBuffer) (x : item) : res FixedBuffer :=
  match x with
  | Bool v => append (if v then [x31] else [x30]) b
  | Integer v => formatInteger v b
  | Pointer v => put_pointer v b
  | Double text => put_double text b
  | Char c => append [c] b
  | CString (Some s) => append s b
  | CString None => append (bytes_of_string "(null)") b
  | Str s => append s b
  end.

(** ** The abstract stream *)

(** The text of an item, and the room it wants. *)
Definition render (x : item) : list byte :=
  match x with
  | Bool v => if v then [x31] else [x30]
  | Integer v => decimal v
  | Pointer v => [x30; x78] ++ digits_of 16 v
  | Double text => text
  | Char c => [c]
  | CString s => default (bytes_of_string "(null)") s
  | Str s => s
  end.

Definition wants (x : item) : Z :=
  match x with
  | Integer _ | Pointer _ | Double _ => kMaxNumericSize
  | _ => len (render x) + 1
  end.

(** An item is inserted whole when there is room, and not at all otherwise. *)
Definition put_spec (size : Z) (text : list byte) (x : item) : list byte :=
  if wants x <=? size - len text then text ++ render x else text.

(** The ranges of the argument types; %.12g is at most 19 characters long. *)
Definition item_ok (x : item) : Prop :=
  match x with
  | Integer v => - 2 ^ 63 <= v < 2 ^ 64
  | Pointer v => 0 <= v < 2 ^ 64
  | Double text => len text < kMaxNumericSize
  | _ => True
  end.

(** ** Conversions *)

Lemma char_at_digits lsd : -10 < lsd < 10 -> char_at digits (zero + lsd) = Ok (digit (Z.abs lsd)).
Proof.
  intros H. assert (lsd ∈ [-9;-8;-7;-6;-5;-4;-3;-2;-1;0;1;2;3;4;5;6;7;8;9]) as Hin.
  { rewrite !elem_of_cons. lia. }
  repeat (apply elem_of_cons in Hin as [->|Hin]; [reflexivity|]). by apply not_elem_of_nil in Hin.
Qed.

Lemma char_at_hex lsd : 0 <= lsd < 16 -> char_at digitsHex lsd = Ok (digit lsd).
Proof.
  intros H. assert (lsd ∈ [0;1;2;3;4;5;6;7;8;9;10;11;12;13;14;15]) as Hin.
  { rewrite !elem_of_cons. lia. }
  repeat (apply elem_of_cons in Hin as [->|Hin]; [reflexivity|]). by apply not_elem_of_nil in Hin.
Qed.

Lemma rem_abs i b : 0 < b -> Z.abs (Z.rem i b) = Z.abs i mod b.
Proof.
  intros. rewrite <- Z.rem_abs, (Z.abs_eq b) by lia. apply Z.rem_mod_nonneg; lia.
Qed.

Lemma quot_abs i b : 0 < b -> Z.abs (Z.quot i b) = Z.abs i / b.
Proof.
  intros. rewrite <- Z.quot_abs, (Z.abs_eq b) by lia. apply Z.quot_div_nonneg; lia.
Qed.

(** The loop produces the digits of the absolute value, last one first. *)
Lemma convert_loop_digits fuel i p acc :
  reverse p = acc ->
  exists q, convert_loop fuel i p = Ok q /\ reverse q = digits_go 10 fuel (Z.abs i) acc.
Proof.
  revert i p acc; induction fuel as [|f IH]; intros i p acc Hp; cbn [convert_loop digits_go]; [eauto|].
  pose proof (Z.rem_bound_abs i 10 ltac:(lia)).
  rewrite char_at_digits by lia; cbn [res_bind].
  rewrite rem_abs, <- quot_abs by lia.
  assert (reverse (p ++ [digit (Z.abs i mod 10)]) = digit (Z.abs i mod 10) :: acc) as Hr.
  { by rewrite reverse_app, Hp. }
  replace (Z.abs (Z.quot i 10) =? 0) with (Z.quot i 10 =? 0)
    by (apply eq_iff_eq_true; rewrite !Z.eqb_eq; lia).
  destruct (Z.quot i 10 =? 0); cbn [negb]; [eauto|by apply IH].
Qed.

Lemma convertHex_loop_digits fuel i p acc :
  0 <= i -> reverse p = acc ->
  exists q, convertHex_loop fuel i p = Ok q /\ reverse q = digits_go 16 fuel i acc.
Proof.
  revert i p acc; induction fuel as [|f IH]; intros i p acc Hi Hp;
    cbn [convertHex_loop digits_go]; [eauto|].
  rewrite Z.rem_mod_nonneg, Z.quot_div_nonneg by lia.
  pose proof (Z.mod_pos_bound i 16 ltac:(lia)).
  rewrite char_at_hex by lia; cbn [res_bind].
  assert (reverse (p ++ [digit (i mod 16)]) = digit (i mod 16) :: acc) as Hr.
  { by rewrite reverse_app, Hp. }
  destruct (i / 16 =? 0); cbn [negb]; [eauto|]. apply IH; [apply Z.div_pos; lia|done].
Qed.

Lemma convert_decimal v : convert v = Ok (decimal v).
Proof.
  unfold convert, decimal, digits_of, loop_fuel.
  destruct (convert_loop_digits (S (Z.to_nat (Z.log2 (Z.abs v)))) v [] [] eq_refl) as (q & -> & Hq).
  cbn [res_bind]; f_equal. rewrite <- Hq. destruct (v <? 0); [by rewrite reverse_app|done].
Qed.

Lemma convertHex_digits v : 0 <= v -> convertHex v = Ok (digits_of 16 v).
Proof.
  intros Hv; unfold convertHex, digits_of, loop_fuel. rewrite Z.abs_eq by done.
  destruct (convertHex_loop_digits (S (Z.to_nat (Z.log2 v))) v [] [] Hv eq_refl) as (q & -> & Hq).
  cbn [res_bind]. by rewrite Hq.
Qed.

Lemma decimal_length v : - 2 ^ 63 <= v < 2 ^ 64 -> 0 < len (decimal v) <= 20.
Proof.
  intros Hv; unfold decimal.
  assert (Z.abs v < 10 ^ 20) by lia.
  pose proof (digits_of_nonempty 10 ltac:(lia) (Z.abs v) ltac:(lia)) as Hne.
  split.
  - destruct (digits_of 10 (Z.abs v)) as [|d ds] eqn:E; [done|].
    rewrite len_app, len_cons. pose proof (len_nonneg ds).
    pose proof (len_nonneg (if v <? 0 then [x2d] else [])). lia.
  - unfold len; rewrite length_app. case_match; bool_hyps.
    + pose proof (digits_of_length_le 10 ltac:(lia) (Z.abs v) 19 ltac:(cbn; lia) ltac:(lia)).
      cbn [length]; lia.
    + pose proof (digits_of_length_le 10 ltac:(lia) (Z.abs v) 20 ltac:(cbn; lia) ltac:(lia)).
      cbn [length]; lia.
Qed.

Lemma hex_length v : 0 <= v < 2 ^ 64 -> len (digits_of 16 v) <= 16.
Proof.
  intros Hv. pose proof (digits_of_length_le 16 ltac:(lia) v 16 ltac:(cbn; lia) ltac:(lia)).
  unfold len; lia.
Qed.

(** ** The buffer *)

(** Text is stored inside the array, and there is room left for a NUL. *)
Definition fixed_ok (size : Z) (b : FixedBuffer) : Prop :=
  len (data_ b) = size /\ 0 <= cur_ b < size.

Lemma toString_len size b : fixed_ok size b -> len (toString b) = cur_ b.
Proof. intros [? ?]; apply len_take; lia. Qed.

(** Storing [text] and a tail beyond it, then moving [cur_] past [text]. *)
Lemma store_add size b text tail :
  fixed_ok size b -> len text + len tail <= avail b -> len text < avail b ->
  exists b', store_at 0 (text ++ tail) b = Ok b' /\ fixed_ok size (add (len text) b') /\
    toString (add (len text) b') = toString b ++ text.
Proof.
  intros [Hs Hc] Hl Hl'; unfold avail in *. pose proof (len_nonneg text); pose proof (len_nonneg tail).
  unfold store_at; rewrite Z.add_0_r.
  assert (exists d, splice (cur_ b) (text ++ tail) (data_ b) = Ok d) as [d Hd].
  { unfold splice. rewrite len_app, (proj2 (andb_true_iff _ _)); [eauto|]. rewrite !Z.leb_le; lia. }
  rewrite Hd; cbn [res_bind]. eexists; split; [done|].
  apply splice_inv in Hd as (_ & Hle & ->). rewrite len_app in *.
  assert (len (take (Z.to_nat (cur_ b)) (data_ b)) = cur_ b) as Ht by (apply len_take; lia).
  split.
  - split; cbn [data_ cur_ add]; [|lia]. autorewrite with len. rewrite Ht, len_drop; lia.
  - unfold toString, add; cbn [data_ cur_]. rewrite <- app_assoc, app_assoc.
    apply take_app_length'. rewrite length_app. unfold len in *. lia.
Qed.

Lemma fixed_append_spec size b text :
  fixed_ok size b ->
  exists b', append text b = Ok b' /\ fixed_ok size b' /\
    toString b' = if len text + 1 <=? size - len (toString b) then toString b ++ text else toString b.
Proof.
  intros Hb. rewrite (toString_len _ _ Hb). unfold append.
  destruct (Z.ltb_spec (len text) (avail b)) as [Hl|Hl].
  - destruct (store_add size b text [] Hb) as (b' & E & Hb' & Ht); [unfold avail, len in *; cbn; lia|done|].
    rewrite app_nil_r in E; rewrite E; cbn [res_bind]. eexists; split_and!; [done..|].
    rewrite Ht, (proj2 (Z.leb_le _ _)); [done|]. destruct Hb; unfold avail in *; lia.
  - eexists; split_and!; [done..|]. rewrite (proj2 (Z.leb_gt _ _)); [done|].
    destruct Hb; unfold avail in *; lia.
Qed.

(** Two stores one behind the other are one store. *)
Lemma store_at_app a c b :
  0 <= cur_ b -> cur_ b + len a + len c <= len (data_ b) ->
  (let! b1 := store_at 0 a b in store_at (len a) c b1) = store_at 0 (a ++ c) b.
Proof.
  intros Hc Hl. pose proof (len_nonneg a); pose proof (len_nonneg c).
  destruct b as [d n]; unfold store_at; cbn [data_ cur_] in *; rewrite !Z.add_0_r.
  pose proof (slice_split n (n + len a) d ltac:(lia) ltac:(lia)) as Hs1.
  pose proof (slice_split (n + len a) (n + len a + len c) d ltac:(lia) ltac:(lia)) as Hs2.
  set (p := take (Z.to_nat n) d) in *. set (o1 := slice n (n + len a) d) in *.
  set (o2 := slice (n + len a) (n + len a + len c) d) in *.
  set (q := drop (Z.to_nat (n + len a + len c)) d) in *.
  assert (len p = n) as Hp by (apply len_take; lia).
  assert (len o1 = len a) as H1 by (unfold o1; rewrite len_slice; lia).
  assert (len o2 = len c) as H2 by (unfold o2; rewrite len_slice; lia).
  assert (d = p ++ o1 ++ o2 ++ q) as Hd.
  { etransitivity; [exact Hs2|]. rewrite (app_assoc p). f_equal. unfold p, o1, slice.
    replace (n + len a - n) with (len a) by lia.
    rewrite Z2Nat.inj_add by lia. by rewrite take_take_drop. }
  clearbody p o1 o2 q; subst d. rewrite splice_Ok by lia. cbn [res_bind data_ cur_].
  rewrite app_assoc, splice_Ok; [|rewrite len_app; lia|lia]. cbn [res_bind].
  rewrite (app_assoc o1 o2 q), splice_Ok; [|lia|rewrite !len_app; lia].
  cbn [res_bind]. by rewrite <- !app_assoc.
Qed.

(** A number goes in whole: there is room for its text and a NUL. *)
Lemma put_number size b text (f : FixedBuffer -> res FixedBuffer) :
  fixed_ok size b -> len text < kMaxNumericSize ->
  (kMaxNumericSize <= avail b ->
   f b = let! b' := store_at 0 (text ++ [x00]) b in Ok (add (len text) b')) ->
  (avail b < kMaxNumericSize -> f b = Ok b) ->
  exists b', f b = Ok b' /\ fixed_ok size b' /\
    toString b' = if kMaxNumericSize <=? size - len (toString b) then toString b ++ text else toString b.
Proof.
  intros Hb Hl Hroom Hfull. rewrite (toString_len _ _ Hb).
  assert (avail b = size - cur_ b) as Ha by (destruct Hb; unfold avail; lia).
  destruct (Z.leb_spec kMaxNumericSize (avail b)) as [H|H].
  - destruct (store_add size b text [x00] Hb) as (b' & E & Hb' & Ht); [unfold len in *; cbn; lia|lia|].
    rewrite Hroom, E by done; cbn [res_bind]. eexists; split_and!; [done..|].
    by rewrite Ht, (proj2 (Z.leb_le _ _)) by lia.
  - rewrite Hfull by done. eexists; split_and!; [done..|]. by rewrite (proj2 (Z.leb_gt _ _)) by lia.
Qed.

Lemma put_simulates size b x :
  fixed_ok size b -> item_ok x ->
  exists b', put b x = Ok b' /\ fixed_ok size b' /\ toString b' = put_spec size (toString b) x.
Proof.
  intros Hb Hx. destruct x as [v|v|v|text|c|[s|]|s]; cbn [put item_ok] in *;
    try (by apply fixed_append_spec); unfold put_spec; cbn [wants render].
  - apply (put_number size b (decimal v) (formatInteger v)); [done| | |].
    + pose proof (decimal_length v Hx). unfold kMaxNumericSize; lia.
    + intros Ha; unfold formatInteger. rewrite (proj2 (Z.leb_le _ _)) by done.
      by rewrite convert_decimal.
    + intros Ha; unfold formatInteger. by rewrite (proj2 (Z.leb_gt _ _)) by done.
  - pose proof (hex_length v Hx).
    apply (put_number size b ([x30; x78] ++ digits_of 16 v) (put_pointer v)); [done| | |].
    + rewrite len_app. unfold kMaxNumericSize, len in *; cbn [length]; lia.
    + intros Ha; unfold put_pointer. rewrite (proj2 (Z.leb_le _ _)) by done.
      rewrite convertHex_digits by lia. rewrite <- app_assoc, <- store_at_app.
      * rewrite res_bind_assoc. destruct (store_at 0 _ b); [|done]. cbn [res_bind].
        change (len [x30; x78]) with 2. destruct (store_at 2 _ _); [|done]. cbn [res_bind].
        rewrite len_app. change (len [x30; x78]) with 2. by rewrite Z.add_comm.
      * destruct Hb; lia.
      * unfold avail, kMaxNumericSize, len in *. rewrite length_app. cbn [length]. lia.
    + intros Ha; unfold put_pointer. by rewrite (proj2 (Z.leb_gt _ _)) by done.
  - apply (put_number size b text (put_double text)); [done..| |].
    + intros Ha; unfold put_double. rewrite (proj2 (Z.leb_le _ _)) by done.
      unfold snprintf. rewrite take_ge; [done|]. unfold kMaxNumericSize, len in *; lia.
    + intros Ha; unfold put_double. by rewrite (proj2 (Z.leb_gt _ _)) by done.
Qed.

Lemma puts_simulate size xs b :
  fixed_ok size b -> Forall item_ok xs ->
  exists b', res_fold put b xs = Ok b' /\ fixed_ok size b' /\
    toString b' = foldl (put_spec size) (toString b) xs.
Proof.
  intros Hb Hx; revert b Hb; induction Hx as [|x xs Hx _ IH]; intros b Hb; cbn [res_fold foldl]; [eauto|].
  destruct (put_simulates size b x Hb Hx) as (b1 & -> & Hb1 & <-). cbn [res_bind]. by apply IH.
Qed.

(** Nothing is dropped while there is room for one more number. *)
Lemma put_spec_all size xs text :
  Forall item_ok xs -> len text + len (concat (render <$> xs)) + kMaxNumericSize <= size ->
  foldl (put_spec size) text xs = text ++ concat (render <$> xs).
Proof.
  intros Hx; revert text; induction Hx as [|x xs Hx _ IH]; intros text Hl.
  { by rewrite app_nil_r. }
  rewrite fmap_cons in *; cbn [foldl concat] in *. rewrite len_app in Hl.
  pose proof (len_nonneg (render x)); pose proof (len_nonneg (concat (render <$> xs))).
  unfold put_spec at 2. rewrite (proj2 (Z.leb_le _ _)).
  - rewrite IH, app_assoc; [done|]. rewrite len_app; lia.
  - destruct x as [| | | | |[]|]; unfold wants, kMaxNumericSize in *; lia.
Qed.

(** ** Theorems *)

(** [convert] writes the decimal text of every integer of a 64-bit type, the
    most negative one included, as [%d] would; the text reads back as the number,
    and with its NUL it fits the room [formatInteger] asks for. *)
Theorem convert_correct v :
  - 2 ^ 63 <= v < 2 ^ 64 ->
  exists text, convert v = Ok text /\ text = format_d false 0 v /\ parse_decimal text = v /\
    len text + 1 <= kMaxNumericSize.
Proof.
  intros Hv. exists (decimal v). split_and!; [apply convert_decimal| |apply parse_decimal_decimal|].
  - unfold decimal, format_d. rewrite Nat.sub_0_l. done.
  - pose proof (decimal_length v Hv). unfold kMaxNumericSize; lia.
Qed.

Lemma convert_correct_witness :
  convert (- 2 ^ 63) = Ok (bytes_of_string "-9223372036854775808") /\
  exists text, convert (- 2 ^ 63) = Ok text /\ text = format_d false 0 (- 2 ^ 63) /\
    parse_decimal text = - 2 ^ 63 /\ len text + 1 <= kMaxNumericSize.
Proof. split; [reflexivity|]. apply (convert_correct (- 2 ^ 63)). lia. Defined.

(** A log stream implements the abstract stream: no sequence of insertions
    stores outside the buffer, every item is inserted whole or, when there is no
    room, not at all, and a line that leaves room for a number is complete. *)
Theorem stream_refines init xs :
  len init = kSmallBuffer -> Forall item_ok xs ->
  exists b, res_fold put (newFixedBuffer init) xs = Ok b /\ fixed_ok kSmallBuffer b /\
    toString b = foldl (put_spec kSmallBuffer) [] xs /\
    (len (concat (render <$> xs)) + kMaxNumericSize <= kSmallBuffer ->
     toString b = concat (render <$> xs)).
Proof.
  intros Hi Hx.
  destruct (puts_simulate kSmallBuffer xs (newFixedBuffer init)) as (b & E & Hb & Ht); [|done|].
  { split; cbn; [done|unfold kSmallBuffer; lia]. }
  exists b; split_and!; [done..|]. intros Hl. rewrite Ht. apply put_spec_all; [done|].
  change (len (toString (newFixedBuffer init))) with 0. lia.
Qed.

Lemma stream_refines_witness :
  let xs := [CString (Some (bytes_of_string "fd = ")); Integer (-7); Bool true; Pointer 4096] in
  exists b, res_fold put (newFixedBuffer (replicate 4000 x00)) xs = Ok b /\
    fixed_ok kSmallBuffer b /\ toString b = foldl (put_spec kSmallBuffer) [] xs /\
    (len (concat (render <$> xs)) + kMaxNumericSize <= kSmallBuffer ->
     toString b = concat (render <$> xs)).
Proof.
  intros xs. apply stream_refines; [vm_compute; reflexivity|].
  unfold xs. repeat (apply Forall_cons; split; [cbn; lia || done|]). apply Forall_nil. done.
Defined.
