(* ===== verification/Loggers.v ===== *)
(** * Log statements (src/src/muduo/base/Logging.h, Logging.cc, Thread.cc)

    One log statement: the constructor of [Logger] formats the head of the line
    into its stream, the user inserts items, and the destructor finishes the line
    and hands it to the output function.  The time of day is cached per thread and
    second.  gmtime_r(3) and strerror_r(3) are parameters. *)

From S2P Require Import Prelude Formats TimeZones Timestamps LogStreams.

Inductive LogLevel := TRACE | DEBUG | INFO | WARN | ERROR | FATAL.

#[export] Instance LogLevel_eq_dec : EqDecision LogLevel.
Proof. solve_decision. Defined.

Definition level_value (l : LogLevel) : Z :=
  match l with TRACE => 0 | DEBUG => 1 | INFO => 2 | WARN => 3 | ERROR => 4 | FATAL => 5 end.

Definition LogLevelName (l : LogLevel) : list byte :=
  bytes_of_string match l with
  | TRACE => "TRACE " | DEBUG => "DEBUG " | INFO => "INFO  "
  | WARN => "WARN  " | ERROR => "ERROR " | FATAL => "FATAL "
  end.

(** [initLogLevel], from the two environment variables. *)
Definition initLogLevel (MUDUO_LOG_TRACE MUDUO_LOG_DEBUG : bool) : LogLevel :=
  if MUDUO_LOG_TRACE then TRACE else if MUDUO_LOG_DEBUG then DEBUG else INFO.

(** The part of a file name after the last slash. *)
Fixpoint SourceFile (filename : list byte) : list byte :=
  match filename with
  | [] => []
  | c :: rest =>
      if bool_decide (x2f ∈ rest) then SourceFile rest
      else if bool_decide (c = x2f) then rest else filename
  end.

(** The globals, the state of the logging thread, and what was output. *)
Record Log := mkLog {
  g_logLevel : LogLevel;
  g_logTimeZone : option Data;
  t_cachedTid : Z;
  t_tidString : list byte;
  t_tidStringLength : Z;
  t_time : list byte;
  t_lastSecond : Z;
  output : list (list byte);
  flushes : nat;
}.

Definition setLogLevel (l : LogLevel) (s : Log) : Log :=
  mkLog l (g_logTimeZone s) (t_cachedTid s) (t_tidString s) (t_tidStringLength s) (t_time s)
    (t_lastSecond s) (output s) (flushes s).
Definition setTimeZone (z : option Data) (s : Log) : Log :=
  mkLog (g_logLevel s) z (t_cachedTid s) (t_tidString s) (t_tidStringLength s) (t_time s)
    (t_lastSecond s) (output s) (flushes s).
Definition set_time (sec : Z) (text : list byte) (s : Log) : Log :=
  mkLog (g_logLevel s) (g_logTimeZone s) (t_cachedTid s) (t_tidString s) (t_tidStringLength s) text
    sec (output s) (flushes s).
Definition emit (line : list byte) (s : Log) : Log :=
  mkLog (g_logLevel s) (g_logTimeZone s) (t_cachedTid s) (t_tidString s) (t_tidStringLength s)
    (t_time s) (t_lastSecond s) (output s ++ [line]) (flushes s).
Definition flush (s : Log) : Log :=
  mkLog (g_logLevel s) (g_logTimeZone s) (t_cachedTid s) (t_tidString s) (t_tidStringLength s)
    (t_time s) (t_lastSecond s) (output s) (S (flushes s)).

(** [CurrentThread::cacheTid]. *)
Definition cacheTid (gettid : Z) (s : Log) : Log :=
  if t_cachedTid s =? 0 then
    let '(text, n) := snprintf 32 (format_d false 5 gettid ++ [x20]) in
    mkLog (g_logLevel s) (g_logTimeZone s) gettid text n (t_time s) (t_lastSecond s) (output s)
      (flushes s)
  else s.

(** The constructor of [T]: a string of known length. *)
Definition T (str : list byte) (n : Z) : res item := assert! len str =? n ;; Ok (Str str).

Record Impl := mkImpl {
  stream_ : FixedBuffer; level_ : LogLevel; line_ : Z; basename_ : list byte;
}.

Section Logging.
Variable gmtime_r : Z -> tm.
Variable strerror_tl : Z -> list byte.
Variable gettid : Z.

(** The broken-down time a line shows. *)
Definition shown_time (z : option Data) (seconds : Z) : res tm :=
  if zone_valid z then toLocalTime gmtime_r z seconds else Ok (gmtime_r seconds).

Definition formatTime (time : Timestamp) (st : FixedBuffer) (s : Log) : res (FixedBuffer * Log) :=
  let seconds := Z.quot time kMicroSecondsPerSecond in
  let microseconds := i32 (Z.rem time kMicroSecondsPerSecond) in
  let! s :=
    (if negb (seconds =? t_lastSecond s) then
       let! tm_time := shown_time (g_logTimeZone s) seconds in
       let '(text, n) := snprintf 64 (format_tm tm_time) in
       assert! n =? 17 ;;
       Ok (set_time seconds text s)
     else Ok s) in
  let '(tail, n) := if zone_valid (g_logTimeZone s) then ([x20], 8) else ([x5a; x20], 9) in
  let! us := Fmt ([x2e] ++ format_d true 6 microseconds ++ tail) in
  assert! len us =? n ;;
  let! a := T (t_time s) 17 in
  let! b := T us n in
  let! st := res_fold put st [a; b] in
  Ok (st, s).

Definition newImpl (init : list byte) (level : LogLevel) (savedErrno : Z) (file : list byte) (line : Z)
    (time : Timestamp) (s : Log) : res (Impl * Log) :=
  let! '(st, s) := formatTime time (newFixedBuffer init) s in
  let s := cacheTid gettid s in
  let! t := T (t_tidString s) (t_tidStringLength s) in
  let! l := T (LogLevelName level) 6 in
  let! st := res_fold put st [t; l] in
  let! st := (if negb (savedErrno =? 0) then
                res_fold put st [CString (Some (strerror_tl savedErrno));
                  CString (Some (bytes_of_string " (errno=")); Integer savedErrno;
                  CString (Some (bytes_of_string ") "))]
              else Ok st) in
  Ok (mkImpl st level line (SourceFile file), s).

Definition finish (i : Impl) : res Impl :=
  let! st := res_fold put (stream_ i)
    [CString (Some (bytes_of_string " - ")); Str (basename_ i); Char x3a; Integer (line_ i);
     Char x0a] in
  Ok (mkImpl st (level_ i) (line_ i) (basename_ i)).

(** [~Logger]: true when it aborts the process. *)
Definition destroyLogger (i : Impl) (s : Log) : res (Log * bool) :=
  let! i := finish i in
  let s := emit (toString (stream_ i)) s in
  if bool_decide (level_ i = FATAL) then Ok (flush s, true) else Ok (s, false).

(** The constructors of [Logger]. *)
Inductive site :=
| Plain (level : LogLevel)                    (** with a level, or INFO without *)
| Traced (level : LogLevel) (func : list byte)
| System (toAbort : bool) (errno : Z).

Definition newLogger (init : list byte) (k : site) (file : list byte) (line : Z) (time : Timestamp)
    (s : Log) : res (Impl * Log) :=
  match k with
  | Plain level => newImpl init level 0 file line time s
  | Traced level func =>
      let! '(i, s) := newImpl init level 0 file line time s in
      let! st := res_fold put (stream_ i) [CString (Some func); Char x20] in
      Ok (mkImpl st (level_ i) (line_ i) (basename_ i), s)
  | System toAbort errno => newImpl init (if toAbort then FATAL else ERROR) errno file line time s
  end.

Definition site_level (k : site) : LogLevel :=
  match k with
  | Plain level | Traced level _ => level
  | System toAbort _ => if toAbort then FATAL else ERROR
  end.

(** The guard of the LOG_ macros. *)
Definition enabled (k : site) (s : Log) : bool :=
  match site_level k with
  | TRACE | DEBUG | INFO => level_value (g_logLevel s) <=? level_value (site_level k)
  | _ => true
  end.

(** [LOG_X << items]. *)
Definition log (init : list byte) (k : site) (file : list byte) (line : Z) (time : Timestamp)
    (items : list item) (s : Log) : res (Log * bool) :=
  if enabled k s then
    let! '(i, s) := newLogger init k file line time s in
    let! st := res_fold put (stream_ i) items in
    destroyLogger (mkImpl st (level_ i) (line_ i) (basename_ i)) s
  else Ok (s, false).

(** ** What a line should be *)

Definition us_text (time : Timestamp) (zone : bool) : list byte :=
  [x2e] ++ format_d true 6 (time mod kMicroSecondsPerSecond) ++ if zone then [x20] else [x5a; x20].

Definition head_items (level : LogLevel) (time : Timestamp) (t : tm) (zone : bool) : list item :=
  [Str (format_tm t); Str (us_text time zone); Str (format_d false 5 gettid ++ [x20]);
   Str (LogLevelName level)].

Definition errno_items (errno : Z) : list item :=
  if negb (errno =? 0)
  then [CString (Some (strerror_tl errno)); CString (Some (bytes_of_string " (errno="));
        Integer errno; CString (Some (bytes_of_string ") "))]
  else [].

Definition tail_items (file : list byte) (line : Z) : list item :=
  [CString (Some (bytes_of_string " - ")); Str (SourceFile file); Char x3a; Integer line; Char x0a].

Definition site_items (k : site) : list item :=
  match k with
  | Plain _ => []
  | Traced _ func => [CString (Some func); Char x20]
  | System _ errno => errno_items errno
  end.

Definition line_items (k : site) (file : list byte) (line : Z) (time : Timestamp) (t : tm) (zone : bool)
    (items : list item) : list item :=
  (head_items (site_level k) time t zone ++ site_items k) ++ items ++ tail_items file line.

(** The caches of the thread hold what their keys say. *)
Record log_ok (s : Log) : Prop := {
  lo_time : t_lastSecond s <> 0 ->
    exists t, shown_time (g_logTimeZone s) (t_lastSecond s) = Ok t /\ tm_ok t /\ t_time s = format_tm t;
  lo_tid : t_cachedTid s <> 0 ->
    t_cachedTid s = gettid /\ t_tidString s = format_d false 5 gettid ++ [x20] /\
    t_tidStringLength s = len (t_tidString s);
}.

Lemma snprintf_fits size text : len text < size -> snprintf size text = (text, len text).
Proof. intros H. unfold snprintf. rewrite take_ge; [done|]. unfold len in *; lia. Qed.

Lemma T_ok str n : len str = n -> T str n = Ok (Str str).
Proof. intros <-. unfold T. by rewrite Z.eqb_refl. Qed.

Lemma tid_text_length : 0 < gettid < 2 ^ 31 -> len (format_d false 5 gettid ++ [x20]) <= 12.
Proof.
  intros H. unfold len, format_d. rewrite (proj2 (Z.ltb_ge _ _)), Z.abs_eq by lia.
  pose proof (digits_of_length_le 10 ltac:(lia) gettid 10 ltac:(cbn; lia) ltac:(lia)).
  rewrite !length_app, length_replicate. cbn [length]. lia.
Qed.

(** [cacheTid] in a good state. *)
Lemma cacheTid_ok s : 0 < gettid < 2 ^ 31 -> log_ok s ->
  let s' := cacheTid gettid s in
  log_ok s' /\ t_tidString s' = format_d false 5 gettid ++ [x20] /\
  t_tidStringLength s' = len (t_tidString s') /\ output s' = output s /\
  g_logLevel s' = g_logLevel s /\ g_logTimeZone s' = g_logTimeZone s /\ flushes s' = flushes s.
Proof.
  intros Hg Hs. unfold cacheTid. pose proof (tid_text_length Hg).
  destruct (Z.eqb_spec (t_cachedTid s) 0) as [E|E].
  - rewrite snprintf_fits by lia. split_and!; try done.
    split; cbn; [apply (lo_time _ Hs)|done].
  - destruct (lo_tid _ Hs E) as (? & ? & ?). done.
Qed.

(** Only the caches and the output differ. *)
Definition same_settings (s s' : Log) : Prop :=
  g_logLevel s' = g_logLevel s /\ g_logTimeZone s' = g_logTimeZone s /\ output s' = output s /\
  flushes s' = flushes s.

Lemma us_text_length time zone : len (us_text time zone) = if zone then 8 else 9.
Proof.
  unfold us_text, kMicroSecondsPerSecond. change (1000 * 1000) with 1000000.
  pose proof (Z.mod_pos_bound time 1000000 ltac:(lia)).
  unfold len. rewrite !length_app, format_d_length by lia. by destruct zone.
Qed.

(** The cached time of day. *)
Lemma cached_time_ok sec s t :
  log_ok s -> 0 < sec -> shown_time (g_logTimeZone s) sec = Ok t -> tm_ok t ->
  exists s', (if negb (sec =? t_lastSecond s) then
     let! tm_time := shown_time (g_logTimeZone s) sec in
     let '(text, n) := snprintf 64 (format_tm tm_time) in
     assert! n =? 17 ;; Ok (set_time sec text s) else Ok s) = Ok s' /\
     log_ok s' /\ same_settings s s' /\ t_time s' = format_tm t.
Proof.
  intros Hs Hsec Hsh Htm. pose proof (format_tm_length t Htm) as Hl.
  destruct (Z.eqb_spec sec (t_lastSecond s)) as [->|E]; cbn [negb].
  - exists s. split_and!; try done.
    destruct (lo_time _ Hs) as (t' & Hsh' & _ & Ht'); [lia|].
    rewrite Hsh in Hsh'. by injection Hsh' as <-.
  - rewrite Hsh; cbn [res_bind]. rewrite snprintf_fits, Hl by lia. cbn [Z.eqb Pos.eqb cassert res_bind].
    eexists; split_and!; try done. split; cbn; [eauto|apply (lo_tid _ Hs)].
Qed.

Lemma formatTime_ok time st s t :
  log_ok s -> kMicroSecondsPerSecond <= time < 2 ^ 63 ->
  shown_time (g_logTimeZone s) (time / kMicroSecondsPerSecond) = Ok t -> tm_ok t ->
  exists s', formatTime time st s =
    (let! st := res_fold put st [Str (format_tm t); Str (us_text time (zone_valid (g_logTimeZone s)))] in
     Ok (st, s')) /\
    log_ok s' /\ same_settings s s'.
Proof.
  intros Hs Ht Hsh Htm. pose proof (us_text_length time (zone_valid (g_logTimeZone s))) as Hus.
  unfold formatTime, us_text, kMicroSecondsPerSecond in *. change (1000 * 1000) with 1000000 in *.
  rewrite Z.quot_div_nonneg, Z.rem_mod_nonneg by lia.
  pose proof (Z.mod_pos_bound time 1000000 ltac:(lia)) as Hm.
  unfold i32. rewrite (swrap_small 32 (time mod 1000000)) by (unfold in_signed; cbn; lia).
  destruct (cached_time_ok (time / 1000000) s t Hs) as (s' & -> & Hok & Hset & Htime);
    [Z.div_mod_to_equations; lia|done..|].
  exists s'. split; [|done]. cbn [res_bind]. destruct Hset as (_ & Hz & _). rewrite Hz, Htime.
  destruct (zone_valid (g_logTimeZone s)).
  all: unfold Fmt; rewrite snprintf_fits, Hus by lia; cbn [Z.ltb Z.compare Pos.compare Pos.compare_cont cassert res_bind].
  all: rewrite Hus, Z.eqb_refl; cbn [cassert res_bind].
  all: rewrite T_ok by (by apply format_tm_length); cbn [res_bind].
  all: by rewrite T_ok.
Qed.

Lemma newImpl_items init level errno file line time s t :
  0 < gettid < 2 ^ 31 -> log_ok s -> kMicroSecondsPerSecond <= time < 2 ^ 63 ->
  shown_time (g_logTimeZone s) (time / kMicroSecondsPerSecond) = Ok t -> tm_ok t ->
  exists s', log_ok s' /\ same_settings s s' /\
    newImpl init level errno file line time s =
      let! st := res_fold put (newFixedBuffer init)
        (head_items level time t (zone_valid (g_logTimeZone s)) ++ errno_items errno) in
      Ok (mkImpl st level line (SourceFile file), s').
Proof.
  intros Hg Hs Ht Hsh Htm.
  destruct (formatTime_ok time (newFixedBuffer init) s t Hs Ht Hsh Htm) as (s1 & E & Hs1 & Hset1).
  destruct (cacheTid_ok s1 Hg Hs1) as (Hs2 & Htid & Htl & Ho & Hlv & Hz & Hf).
  exists (cacheTid gettid s1). split_and!; [done|unfold same_settings in *; intuition congruence|].
  unfold newImpl. rewrite E, res_bind_assoc. cbn [res_bind].
  rewrite T_ok by done. cbn [res_bind]. rewrite T_ok by (by destruct level). cbn [res_bind]. rewrite Htid.
  set (zone := zone_valid (g_logTimeZone s)).
  change (head_items level time t zone) with ([Str (format_tm t); Str (us_text time zone)] ++
    [Str (format_d false 5 gettid ++ [x20]); Str (LogLevelName level)]).
  rewrite !res_fold_app, !res_bind_assoc.
  destruct (res_fold put (newFixedBuffer init) _) as [st|]; [|done]. cbn [res_bind].
  destruct (res_fold put st _) as [st'|]; [|done]. cbn [res_bind].
  unfold errno_items. by destruct (errno =? 0).
Qed.

(** The rest of a statement, from a logger with these insertions behind it. *)
Lemma log_rest head items file line level s' (r : res (Impl * Log)) b :
  r = (let! st := res_fold put b head in Ok (mkImpl st level line (SourceFile file), s')) ->
  (let! '(i, s) := r in
   let! st := res_fold put (stream_ i) items in
   destroyLogger (mkImpl st (level_ i) (line_ i) (basename_ i)) s) =
  (let! st := res_fold put b (head ++ items ++ tail_items file line) in
   Ok (if bool_decide (level = FATAL) then (flush (emit (toString st) s'), true)
       else (emit (toString st) s', false))).
Proof.
  intros ->. rewrite !(res_fold_app put _ head), !res_bind_assoc.
  destruct (res_fold put b _) as [st|]; [|done]. cbn [res_bind stream_ level_ line_ basename_].
  rewrite (res_fold_app put _ items), res_bind_assoc. destruct (res_fold put st items) as [st'|]; [|done].
  cbn [res_bind]. unfold destroyLogger, finish. rewrite res_bind_assoc. cbn [stream_ level_ line_ basename_].
  fold (tail_items file line).
  destruct (res_fold put st' _) as [st''|]; [|done]. cbn [res_bind stream_ level_ line_ basename_].
  by destruct (bool_decide _).
Qed.

(** The statement as one sequence of insertions. *)
Lemma log_items init k file line time items s t :
  0 < gettid < 2 ^ 31 -> log_ok s -> kMicroSecondsPerSecond <= time < 2 ^ 63 ->
  shown_time (g_logTimeZone s) (time / kMicroSecondsPerSecond) = Ok t -> tm_ok t -> enabled k s = true ->
  exists s', log_ok s' /\ same_settings s s' /\
    log init k file line time items s =
      let! st := res_fold put (newFixedBuffer init)
        (line_items k file line time t (zone_valid (g_logTimeZone s)) items) in
      Ok (if bool_decide (site_level k = FATAL) then (flush (emit (toString st) s'), true)
          else (emit (toString st) s', false)).
Proof.
  intros Hg Hs Ht Hsh Htm Hen. unfold log, line_items. rewrite Hen.
  destruct (newImpl_items init (site_level k) (if k is System _ errno then errno else 0) file line time s t)
    as (s' & Hs' & Hset & Hnew); [done..|].
  exists s'. split_and!; [done..|]. apply log_rest.
  destruct k as [level|level func|toAbort errno]; cbn [site_level newLogger site_items] in *.
  - exact Hnew.
  - rewrite Hnew. cbn [negb Z.eqb errno_items]. rewrite app_nil_r, res_fold_app, !res_bind_assoc.
    destruct (res_fold put (newFixedBuffer init) _) as [st|]; [|done].
    cbn [res_bind stream_ level_ line_ basename_]. by destruct (res_fold put st _).
  - exact Hnew.
Qed.

(** ** Theorems *)

(** A log statement whose level is enabled outputs exactly one line: time in
    the zone, microseconds, thread, level, error text, the items, file and line
    number, as far as the buffer has room for each, and completely when the line
    leaves room for a number; a fatal one also flushes and aborts.  The cached
    time of day is the one of the statement. *)
Theorem log_outputs_line init k file line time items s t :
  len init = kSmallBuffer -> 0 < gettid < 2 ^ 31 -> log_ok s ->
  kMicroSecondsPerSecond <= time < 2 ^ 63 ->
  shown_time (g_logTimeZone s) (time / kMicroSecondsPerSecond) = Ok t -> tm_ok t ->
  enabled k s = true -> Forall item_ok (line_items k file line time t (zone_valid (g_logTimeZone s)) items) ->
  let all := line_items k file line time t (zone_valid (g_logTimeZone s)) items in
  exists s', log init k file line time items s = Ok (s', bool_decide (site_level k = FATAL)) /\
    output s' = output s ++ [foldl (put_spec kSmallBuffer) [] all] /\
    (len (concat (render <$> all)) + kMaxNumericSize <= kSmallBuffer ->
     output s' = output s ++ [concat (render <$> all)]) /\
    log_ok s' /\ (site_level k = FATAL -> flushes s' = S (flushes s)).
Proof.
  intros Hi Hg Hs Ht Hsh Htm Hen Hall all.
  destruct (log_items init k file line time items s t) as (s' & Hs' & (Hl & Hz & Ho & Hf) & E); [done..|].
  fold all in E, Hall.
  destruct (puts_simulate kSmallBuffer all (newFixedBuffer init)) as (b & Eb & _ & Htxt); [|done|].
  { split; cbn; [done|unfold kSmallBuffer; lia]. }
  rewrite Eb in E; cbn [res_bind] in E. change (toString (newFixedBuffer init)) with (@nil byte) in Htxt.
  assert (forall s1, s1 = emit (toString b) s' \/ s1 = flush (emit (toString b) s') -> log_ok s1) as Hok.
  { intros s1 [->| ->]; (split; [apply (lo_time _ Hs')|apply (lo_tid _ Hs')]). }
  assert (len (concat (render <$> all)) + kMaxNumericSize <= kSmallBuffer ->
    output s' ++ [toString b] = output s ++ [concat (render <$> all)]) as Hcomplete.
  { intros Hroom. rewrite Ho, Htxt. do 2 f_equal. apply put_spec_all; [done|]. rewrite len_nil; lia. }
  rewrite E. case_bool_decide as Hfatal; eexists; split_and!; try done.
  - cbn. by rewrite Ho, Htxt.
  - apply Hok; eauto.
  - cbn. by rewrite Hf.
  - cbn. by rewrite Ho, Htxt.
  - apply Hok; eauto.
Qed.
End Logging.

(** The state a thread starts to log in. *)
Definition newLog (zone : option Data) : Log := mkLog INFO zone 0 [] 6 [] 0 [] 0.

Lemma newLog_ok gmtime_r gettid zone : log_ok gmtime_r gettid (newLog zone).
Proof. split; by cbn. Qed.

Lemma log_outputs_line_witness :
  exists s', log (fun s => toUtcTime s true) (fun _ => []) 42 (replicate 4000 x00) (Plain WARN)
      (bytes_of_string "src/net/a.cc") 7 1000000000123456 [Integer (-3)] (newLog None) = Ok (s', false) /\
    output s' = [bytes_of_string "20010909 01:46:40.123456Z    42 WARN  -3 - a.cc:7" ++ [x0a]].
Proof.
  destruct (log_outputs_line (fun s => toUtcTime s true) (fun _ => []) 42 (replicate 4000 x00) (Plain WARN)
    (bytes_of_string "src/net/a.cc") 7 1000000000123456 [Integer (-3)] (newLog None)
    (toUtcTime 1000000000 true)) as (s' & E & _ & Ho & _).
  - vm_compute; reflexivity.
  - lia.
  - apply newLog_ok.
  - unfold kMicroSecondsPerSecond; lia.
  - vm_compute; reflexivity.
  - unfold tm_ok; vm_compute; intuition discriminate.
  - reflexivity.
  - unfold line_items, head_items, site_items, tail_items; cbn [app].
    repeat (apply Forall_cons; split; [cbn; lia || exact I|]). apply Forall_nil. exact I.
  - exists s'. split; [exact E|]. rewrite Ho; vm_compute; [reflexivity|discriminate].
Defined.
