(* ===== verification/LogFiles.v ===== *)
(** * Files (src/src/muduo/base/FileUtil.h, FileUtil.cc, LogFile.h, LogFile.cc)

    Appending to a file, reading a small file, and the log file that rolls over
    by size and by day.  fwrite(3), read(2), pread(2) and the clock are
    parameters. *)

From S2P Require Import Prelude Formats TimeZones Timestamps.

(** ** AppendFile *)

(** The bytes that reached the stream of the file. *)
Record AppendFile := mkAppendFile { filename : list byte; contents : list byte; writtenBytes_ : Z }.

Definition newAppendFile (name : list byte) : AppendFile := mkAppendFile name [] 0.

Section Append.
(** How many of the given bytes the k-th fwrite_unlocked(3) takes. *)
Variable fwrite : nat -> Z -> Z.

(** The loop of [append] over what remains; [k] counts the calls.  Every round
    that goes on writes at least one byte. *)
Fixpoint append_loop (fuel : nat) (k : nat) (logline : list byte) (n : Z) (c : list byte)
    : nat * list byte :=
  match fuel with
  | O => (k, c)
  | S f =>
      let remain := len logline - n in
      if 0 <? remain then
        let x := fwrite k remain in
        if x =? 0 then (S k, c)
        else append_loop f (S k) logline (n + x) (c ++ slice n (n + x) logline)
      else (k, c)
  end.

Definition appendFile (k : nat) (logline : list byte) (f : AppendFile) : nat * AppendFile :=
  let n := fwrite k (len logline) in
  let '(k, c) := append_loop (S (length logline)) (S k) logline n
                   (contents f ++ slice 0 n logline) in
  (k, mkAppendFile (filename f) c (writtenBytes_ f + len logline)).

(** ** LogFile *)

Definition kRollPerSeconds_ : Z := 60 * 60 * 24.

(** The file being written and the ones before it; [flushed] bytes of the former have
    left the buffer of its stream for certain; [calls] counts fwrite calls. *)
Record LogFile := mkLogFile {
  basename_ : list byte;
  rollSize_ : Z;
  flushInterval_ : Z;
  checkEveryN_ : Z;
  count_ : Z;
  startOfPeriod_ : Z;
  lastRoll_ : Z;
  lastFlush_ : Z;
  file_ : option AppendFile;
  closed : list AppendFile;
  flushed : Z;
  calls : nat;
}.

Variable gmtime_r : Z -> tm.
Variable hostname : list byte.
Variable pid : Z.

(** strftime ".%Y%m%d-%H%M%S." *)
Definition timebuf (t : tm) : list byte :=
  [x2e] ++ format_d false 0 (tm_year t + 1900) ++ format_d true 2 (tm_mon t + 1)
  ++ format_d true 2 (tm_mday t) ++ [x2d] ++ format_d true 2 (tm_hour t)
  ++ format_d true 2 (tm_min t) ++ format_d true 2 (tm_sec t) ++ [x2e].

Definition getLogFileName (basename : list byte) (now : Z) : list byte :=
  basename ++ timebuf (gmtime_r now) ++ hostname ++ fst (snprintf 32 ([x2e] ++ format_d false 0 pid))
  ++ bytes_of_string ".log".

(** [rollFile] at time [now]. *)
Definition rollFile (now : Z) (l : LogFile) : LogFile * bool :=
  let name := getLogFileName (basename_ l) now in
  let start := Z.quot now kRollPerSeconds_ * kRollPerSeconds_ in
  if lastRoll_ l <? now then
    (mkLogFile (basename_ l) (rollSize_ l) (flushInterval_ l) (checkEveryN_ l) (count_ l) start now now
       (Some (newAppendFile name)) (closed l ++ option_list (file_ l)) 0 (calls l), true)
  else (l, false).

Definition newLogFile (basename : list byte) (rollSize flushInterval checkEveryN now : Z)
    : res LogFile :=
  assert! negb (bool_decide (x2f ∈ basename)) ;;
  Ok (fst (rollFile now (mkLogFile basename rollSize flushInterval checkEveryN 0 0 0 0 None [] 0 0))).

Definition set_file (f : AppendFile) (k : nat) (l : LogFile) : LogFile :=
  mkLogFile (basename_ l) (rollSize_ l) (flushInterval_ l) (checkEveryN_ l) (count_ l)
    (startOfPeriod_ l) (lastRoll_ l) (lastFlush_ l) (Some f) (closed l) (flushed l) k.
Definition set_count (n : Z) (l : LogFile) : LogFile :=
  mkLogFile (basename_ l) (rollSize_ l) (flushInterval_ l) (checkEveryN_ l) n
    (startOfPeriod_ l) (lastRoll_ l) (lastFlush_ l) (file_ l) (closed l) (flushed l) (calls l).
Definition set_lastFlush (t : Z) (l : LogFile) : LogFile :=
  mkLogFile (basename_ l) (rollSize_ l) (flushInterval_ l) (checkEveryN_ l) (count_ l)
    (startOfPeriod_ l) (lastRoll_ l) t (file_ l) (closed l) (flushed l) (calls l).

(** [file_->flush()]: fflush(3) hands all bytes of the stream to the kernel. *)
Definition flushFile (l : LogFile) : LogFile :=
  mkLogFile (basename_ l) (rollSize_ l) (flushInterval_ l) (checkEveryN_ l) (count_ l)
    (startOfPeriod_ l) (lastRoll_ l) (lastFlush_ l) (file_ l) (closed l)
    (match file_ l with Some f => len (contents f) | None => 0 end) (calls l).

(** [append_unlocked]; [now] is what time(2) returns. *)
Definition append_unlocked (logline : list byte) (now : Z) (l : LogFile) : res LogFile :=
  match file_ l with
  | None => Fail OutOfRange
  | Some f =>
      let '(k, f) := appendFile (calls l) logline f in
      let l := set_file f k l in
      if rollSize_ l <? writtenBytes_ f then Ok (fst (rollFile now l))
      else
        let l := set_count (count_ l + 1) l in
        if checkEveryN_ l <=? count_ l then
          let l := set_count 0 l in
          let thisPeriod := Z.quot now kRollPerSeconds_ * kRollPerSeconds_ in
          if negb (thisPeriod =? startOfPeriod_ l) then Ok (fst (rollFile now l))
          else if flushInterval_ l <? now - lastFlush_ l then Ok (flushFile (set_lastFlush now l))
          else Ok l
        else Ok l
  end.

(** [append] and [flush]: with a mutex under it, without one straight. *)
Definition append (mutex_ : bool) (logline : list byte) (now : Z) (l : LogFile) : res LogFile :=
  if mutex_ then append_unlocked logline now l else append_unlocked logline now l.
Definition flush (mutex_ : bool) (l : LogFile) : LogFile :=
  if mutex_ then flushFile l else flushFile l.
End Append.

(** ** ReadSmallFile *)

Definition kBufferSize : Z := 64 * 1024.

(** The parts of struct stat that are used. *)
Inductive file_kind := Regular (size : Z) | Directory | Other.
Record stat := mkStat { st_kind : file_kind; st_mtime : Z; st_ctime : Z }.
Definition EISDIR : Z := 21.

(** What a read returns: bytes or an errno. *)
Abbreviation io := (list byte + Z)%type.

Section Read.
Context {K : Type}.
(** read(2) of at most so many bytes, in a state of the kernel. *)
Variable read : K -> Z -> io * K.

(** The loop of [readToString]; a round that goes on adds at least one byte. *)
Fixpoint read_loop (fuel : nat) (k : K) (maxSize : Z) (content : list byte) (err : Z)
    : list byte * Z * K :=
  match fuel with
  | O => (content, err, k)
  | S f =>
      if len content <? maxSize then
        let toRead := Z.min (maxSize - len content) kBufferSize in
        match read k toRead with
        | (inl chunk, k) =>
            if 0 <? len chunk then read_loop f k maxSize (content ++ chunk) err
            else (content, err, k)
        | (inr e, k) => (content, e, k)
        end
      else (content, err, k)
  end.

(** [readToString]; [fd] is the descriptor or errno of open(2), [fstat] the result
    of fstat(2) when the caller wants the file size.  The result is the content,
    errno and the three optional outputs.  A negative [maxSize] is a huge size_t. *)
Definition readToString (k : K) (fd : Z + Z) (maxSize : Z) (fstat : option (stat + Z)) (content : list byte)
    : res (list byte * Z * option Z * option (Z * Z) * K) :=
  match fd with
  | inr err => Ok (content, err, None, None, k)
  | inl _ =>
      let! '(err, size, times) :=
        match fstat with
        | None => Ok (0, None, None)
        | Some (inr errno) => Ok (errno, None, None)
        | Some (inl st) =>
            let! '(err, size) :=
              match st_kind st with
              | Regular size =>
                  let n := i32 (Z.min maxSize size) in
                  if u64 n <=? max_size then Ok (0, Some size) else Fail (Thrown length_error)
              | Directory => Ok (EISDIR, None)
              | Other => Ok (0, None)
              end in
            Ok (err, size, Some (st_mtime st, st_ctime st))
        end in
      let '(content, err, k) := read_loop (S (Z.to_nat (u64 maxSize))) k (u64 maxSize) [] err in
      Ok (content, err, size, times, k)
  end.

(** [readToBuffer]: the bytes before the NUL, and errno. *)
Definition readToBuffer (fd : Z + Z) (pread : Z -> io) : list byte * Z :=
  match fd with
  | inr err => ([], err)
  | inl _ =>
      match pread (kBufferSize - 1) with
      | inl chunk => (chunk, 0)
      | inr e => ([], e)
      end
  end.
End Read.

(** Reads that are numbered. *)
Definition counted (read : nat -> Z -> io) (k : nat) (n : Z) : io * nat := (read k n, S k).

(** ** Lemmas *)

(** fwrite(3) takes at most what it is given; a stream without error takes all
    in the end: only a stream with an error takes nothing. *)
Definition fwrite_ok (fwrite : nat -> Z -> Z) : Prop :=
  forall k n, 0 <= n -> 0 <= fwrite k n <= n /\ (0 < n -> 0 < fwrite k n).

Lemma slice_extend {A} (l : list A) i j : 0 <= i <= j -> j <= len l ->
  take (Z.to_nat i) l ++ slice i j l = take (Z.to_nat j) l.
Proof.
  intros H1 H2. unfold slice. replace (Z.to_nat j) with (Z.to_nat i + Z.to_nat (j - i))%nat by lia.
  by rewrite take_take_drop.
Qed.

Section AppendProofs.
Context (fwrite : nat -> Z -> Z) (Hfw : fwrite_ok fwrite).

Lemma append_loop_all fuel k line n c :
  0 <= n <= len line -> len line - n < Z.of_nat fuel ->
  snd (append_loop fwrite fuel k line n (c ++ take (Z.to_nat n) line)) = c ++ line.
Proof using Hfw.
  revert k n; induction fuel as [|f IH]; intros k n Hn Hf; [lia|]. cbn [append_loop].
  destruct (Z.ltb_spec 0 (len line - n)) as [Hr|Hr].
  - pose proof (Hfw k (len line - n) ltac:(lia)). rewrite (proj2 (Z.eqb_neq _ _)) by lia.
    rewrite <- app_assoc, slice_extend by lia. apply IH; lia.
  - cbn. f_equal. apply take_ge. unfold len in *; lia.
Qed.

Lemma appendFile_all k line f :
  snd (appendFile fwrite k line f) =
    mkAppendFile (filename f) (contents f ++ line) (writtenBytes_ f + len line).
Proof using Hfw.
  unfold appendFile. destruct (append_loop _ _ _ _ _ _) as [k' c] eqn:E. cbn [snd].
  pose proof (len_nonneg line). f_equal.
  destruct (Z.eq_dec (len line) 0) as [H0|H0].
  - apply len_0_nil in H0 as ->. pose proof (Hfw k 0 ltac:(lia)).
    assert (fwrite k (len (@nil byte)) = 0) as H1 by (rewrite len_nil; lia). rewrite H1 in E.
    by injection E as _ <-.
  - assert (slice 0 (fwrite k (len line)) line = take (Z.to_nat (fwrite k (len line))) line) as Hs.
    { unfold slice. by rewrite Z.sub_0_r, drop_0. }
    rewrite Hs in E. destruct (Hfw k (len line) ltac:(lia)) as [Hw Hw'].
    assert (len line - fwrite k (len line) < Z.of_nat (S (length line))) as Hlt.
    { set (n := fwrite k (len line)) in *; clearbody n. unfold len. lia. }
    pose proof (append_loop_all (S (length line)) (S k) line (fwrite k (len line)) (contents f) Hw Hlt) as Hall.
    by rewrite E in Hall.
Qed.

Context (gmtime_r : Z -> tm) (hostname : list byte) (pid : Z).
Abbreviation rollFile := (rollFile gmtime_r hostname pid).
Abbreviation append_unlocked := (append_unlocked fwrite gmtime_r hostname pid).

(** Everything written so far, oldest file first. *)
Definition all_files (l : LogFile) : list AppendFile := closed l ++ option_list (file_ l).
Definition log_text (l : LogFile) : list byte := concat (contents <$> all_files l).

(** What holds between appends: there is a file, opened by the last roll, whose
    size is known and which was opened in the period the clock says. *)
Record logfile_ok (l : LogFile) : Prop := {
  lf_file : exists f, file_ l = Some f /\ writtenBytes_ f = len (contents f) /\
    filename f = getLogFileName gmtime_r hostname pid (basename_ l) (lastRoll_ l);
  lf_period : startOfPeriod_ l = Z.quot (lastRoll_ l) kRollPerSeconds_ * kRollPerSeconds_;
  lf_count : 0 <= count_ l < Z.max 1 (checkEveryN_ l);
}.

Lemma rollFile_fresh now l :
  logfile_ok l ->
  exists fresh, logfile_ok (fst (rollFile now l)) /\
    all_files (fst (rollFile now l)) = all_files l ++ fresh /\
    Forall (fun g => contents g = []) fresh /\ basename_ (fst (rollFile now l)) = basename_ l /\
    rollSize_ (fst (rollFile now l)) = rollSize_ l /\ checkEveryN_ (fst (rollFile now l)) = checkEveryN_ l /\
    (lastRoll_ l < now -> lastRoll_ (fst (rollFile now l)) = now /\ fresh <> []).
Proof.
  intros Hl. unfold LogFiles.rollFile. destruct (Z.ltb_spec (lastRoll_ l) now); cbn [fst].
  - exists [newAppendFile (getLogFileName gmtime_r hostname pid (basename_ l) now)].
    split_and!; try done; [|by repeat constructor].
    split; cbn; [eauto|done|apply (lf_count _ Hl)].
  - exists []. rewrite app_nil_r. split_and!; try done. lia.
Qed.

(** Counters and flush times do not concern the files. *)
Lemma logfile_ok_count n l : logfile_ok l -> 0 <= n < Z.max 1 (checkEveryN_ l) -> logfile_ok (set_count n l).
Proof. intros [? ? ?] ?. by split. Qed.

(** One line: it goes whole to the current file; a new file follows when the size
    is exceeded, or a check finds a new day, unless the file is of this second. *)
Lemma append_unlocked_spec line now l f :
  logfile_ok l -> file_ l = Some f ->
  exists l' fresh, append_unlocked line now l = Ok l' /\ logfile_ok l' /\
    all_files l' = closed l ++ [mkAppendFile (filename f) (contents f ++ line) (writtenBytes_ f + len line)]
                   ++ fresh /\
    Forall (fun g => contents g = []) fresh /\ basename_ l' = basename_ l /\ rollSize_ l' = rollSize_ l /\
    checkEveryN_ l' = checkEveryN_ l /\
    (lastRoll_ l < now ->
     rollSize_ l < len (contents f ++ line) \/
     checkEveryN_ l <= count_ l + 1 /\ Z.quot now kRollPerSeconds_ <> Z.quot (lastRoll_ l) kRollPerSeconds_ ->
     lastRoll_ l' = now /\ fresh <> []).
Proof using Hfw.
  intros Hl Hf. destruct (lf_file _ Hl) as (f' & Hf' & Hw & Hn). rewrite Hf in Hf'; injection Hf' as <-.
  unfold LogFiles.append_unlocked. rewrite Hf.
  destruct (appendFile fwrite (calls l) line f) as [k g] eqn:E.
  assert (g = mkAppendFile (filename f) (contents f ++ line) (writtenBytes_ f + len line)) as Hg.
  { pose proof (appendFile_all (calls l) line f) as H. by rewrite E in H. }
  set (l1 := set_file g k l). assert (logfile_ok l1) as Hl1.
  { split; [exists g; subst g; cbn; by rewrite len_app, Hw|apply (lf_period _ Hl)|apply (lf_count _ Hl)]. }
  assert (all_files l1 = closed l ++ [g]) as Hall by done. rewrite <- Hg.
  assert (writtenBytes_ g = len (contents f ++ line)) as Hwg by (subst g; cbn; rewrite len_app; lia).
  assert (forall l2, logfile_ok l2 -> all_files l2 = closed l ++ [g] -> lastRoll_ l2 = lastRoll_ l ->
    basename_ l2 = basename_ l -> rollSize_ l2 = rollSize_ l -> checkEveryN_ l2 = checkEveryN_ l ->
    exists fresh, logfile_ok (fst (rollFile now l2)) /\
      all_files (fst (rollFile now l2)) = closed l ++ [g] ++ fresh /\
      Forall (fun g => contents g = []) fresh /\ basename_ (fst (rollFile now l2)) = basename_ l /\
      rollSize_ (fst (rollFile now l2)) = rollSize_ l /\ checkEveryN_ (fst (rollFile now l2)) = checkEveryN_ l /\
      (lastRoll_ l < now -> lastRoll_ (fst (rollFile now l2)) = now /\ fresh <> [])) as Hroll.
  { intros l2 Hl2 Ha Hr Hb Hs Hc. destruct (rollFile_fresh now l2 Hl2) as (fresh & H).
    exists fresh. rewrite Ha, Hr, Hb, Hs, Hc, <- app_assoc in H. exact H. }
  destruct (Z.ltb_spec (rollSize_ l1) (writtenBytes_ g)) as [Hbig|Hbig].
  { destruct (Hroll l1) as (fresh & ?); [done..|]. eexists _, fresh. intuition eauto. }
  destruct (Z.leb_spec (checkEveryN_ l1) (count_ l1 + 1)) as [Hc|Hc].
  - cbn [count_ set_count checkEveryN_ startOfPeriod_ set_file].
    rewrite (proj2 (Z.leb_le _ _)) by done. pose proof (lf_count _ Hl).
    assert (logfile_ok (set_count 0 (set_count (count_ l1 + 1) l1))) as Hl2.
    { destruct Hl1. split; cbn; try done. lia. }
    set (l2 := set_count 0 (set_count (count_ l1 + 1) l1)) in *.
    destruct (Z.eqb_spec (Z.quot now kRollPerSeconds_ * kRollPerSeconds_) (startOfPeriod_ l1)) as [Hp|Hp]; cbn [negb].
    + assert (Z.quot now kRollPerSeconds_ = Z.quot (lastRoll_ l) kRollPerSeconds_) as Hsame.
      { change (startOfPeriod_ l1) with (startOfPeriod_ l) in Hp. rewrite (lf_period _ Hl) in Hp.
        unfold kRollPerSeconds_ in *. lia. }
      change (rollSize_ l1) with (rollSize_ l) in Hbig.
      assert (logfile_ok (flushFile (set_lastFlush now l2))) by (destruct Hl2; by split).
      destruct (flushInterval_ l2 <? now - lastFlush_ l2); eexists _, []; (split; [reflexivity|]);
        split_and!; try done; intros _ [?|[_ ?]]; [lia|done|lia|done].
    + destruct (Hroll l2) as (fresh & ?); [done..|].
      eexists _, fresh. intuition eauto.
  - cbn [count_ set_count checkEveryN_ set_file]. rewrite (proj2 (Z.leb_gt _ _)) by done.
    eexists _, []; split_and!; try done.
    + apply logfile_ok_count; [done|]. pose proof (lf_count _ Hl). cbn in *. lia.
    + intros _ [?|[? _]]; cbn in *; lia.
Qed.

(** The lines in each file so far. *)
Definition holds (groups : list (list (list byte))) (l : LogFile) : Prop :=
  logfile_ok l /\ contents <$> all_files l = (@concat byte) <$> groups.

Lemma append_unlocked_holds line now l groups :
  holds groups l ->
  exists l' groups', append_unlocked line now l = Ok l' /\ holds groups' l' /\
    concat groups' = concat groups ++ [line].
Proof using Hfw.
  intros [Hl Hg]. destruct (lf_file _ Hl) as (f & Hf & _).
  destruct (append_unlocked_spec line now l f Hl Hf) as (l' & fresh & E & Hl' & Hall & Hfresh & _).
  unfold all_files in Hg. rewrite Hf in Hg; cbn [option_list] in Hg. rewrite fmap_app in Hg; cbn in Hg.
  destruct groups as [|last groups _] using rev_ind; [by destruct (contents <$> closed l)|].
  rewrite fmap_app in Hg; cbn in Hg. apply app_inj_tail in Hg as [Hc Hlast].
  exists l', (groups ++ [last ++ [line]] ++ replicate (length fresh) []). split_and!; [done| |].
  - split; [done|]. rewrite Hall, !fmap_app; cbn. rewrite Hc. f_equal. f_equal.
    + by rewrite Hlast, concat_app; cbn; rewrite app_nil_r.
    + clear - Hfresh. induction Hfresh as [|g fresh Hg _ IH]; [done|].
      rewrite fmap_cons; cbn. by rewrite Hg, IH.
  - rewrite !concat_app; cbn. rewrite !app_nil_r, <- !app_assoc. do 2 f_equal. cbn. f_equal.
    clear. induction (length fresh) as [|n IH]; [done|]. exact IH.
Qed.

Lemma appends_hold (lines : list (list byte * Z)) l groups :
  holds groups l ->
  exists l' groups', res_fold (fun l p => append_unlocked (fst p) (snd p) l) l lines = Ok l' /\
    contents <$> all_files l' = (@concat byte) <$> groups' /\
    concat groups' = concat groups ++ (fst <$> lines).
Proof using Hfw.
  revert l groups; induction lines as [|[line now] lines IH]; intros l groups Hl.
  - exists l, groups. split_and!; [done|apply Hl|by rewrite app_nil_r].
  - destruct (append_unlocked_holds line now l groups Hl) as (l1 & g1 & E & Hl1 & Hc).
    destruct (IH l1 g1 Hl1) as (l2 & g2 & E2 & Hg2 & Hc2).
    exists l2, g2. cbn [res_fold fst snd]. rewrite E; cbn [res_bind]. split_and!; [done..|].
    rewrite Hc2, Hc, fmap_cons, <- app_assoc. done.
Qed.

(** A log file keeps every line, in order and whole: after any sequence of
    appends, at any times and with however short writes, the files one after the
    other hold the lines, each in one file. *)
Theorem logfile_keeps_lines basename rollSize flushInterval checkEveryN now0 (lines : list (list byte * Z)) :
  x2f ∉ basename -> 0 < now0 ->
  exists l0 l groups,
    newLogFile gmtime_r hostname pid basename rollSize flushInterval checkEveryN now0 = Ok l0 /\
    res_fold (fun l p => append_unlocked (fst p) (snd p) l) l0 lines = Ok l /\
    contents <$> all_files l = (@concat byte) <$> groups /\ concat groups = fst <$> lines.
Proof using Hfw.
  intros Hb H0. unfold newLogFile. rewrite bool_decide_false by done. cbn [negb cassert res_bind].
  set (l0 := fst _). assert (holds [[]] l0) as H1.
  { unfold l0, LogFiles.rollFile. cbn [lastRoll_]. rewrite (proj2 (Z.ltb_lt _ _)) by done. cbn [fst].
    split; [|done]. split; cbn; [eauto|done|lia]. }
  destruct (appends_hold lines l0 [[]] H1) as (l & groups & E & Hg & Hc). eauto 10.
Qed.
End AppendProofs.

(** A stream that takes at most three bytes at a time, and a tiny roll size. *)
Definition demo_fwrite (k : nat) (n : Z) : Z := Z.min n 3.

Lemma logfile_keeps_lines_witness :
  exists l0 l groups,
    newLogFile (fun s => toUtcTime s true) (bytes_of_string "host") 1 (bytes_of_string "log") 5 3 2 100 = Ok l0 /\
    res_fold (fun l p => append_unlocked demo_fwrite (fun s => toUtcTime s true) (bytes_of_string "host") 1
                (fst p) (snd p) l) l0
      [(bytes_of_string "hello", 100); (bytes_of_string "world", 101); (bytes_of_string "again", 102)] = Ok l /\
    contents <$> all_files l = (@concat byte) <$> groups /\
    concat groups = [bytes_of_string "hello"; bytes_of_string "world"; bytes_of_string "again"].
Proof.
  apply (logfile_keeps_lines demo_fwrite) with
    (lines := [(bytes_of_string "hello", 100); (bytes_of_string "world", 101); (bytes_of_string "again", 102)]).
  - intros k n Hn. unfold demo_fwrite. lia.
  - refine (bool_decide_unpack (x2f ∉ bytes_of_string "log") _). vm_compute. exact I.
  - lia.
Defined.

(** [readToString] never returns more than it was asked for. *)
Lemma read_loop_bound {K} (read : K -> Z -> io * K) fuel k maxSize content err :
  (forall k n chunk k', read k n = (inl chunk, k') -> len chunk <= n) ->
  len content <= maxSize -> len (fst (fst (read_loop read fuel k maxSize content err))) <= maxSize.
Proof.
  intros Hr. revert k content; induction fuel as [|f IH]; intros k content Hc; cbn [read_loop]; [done|].
  destruct (Z.ltb_spec (len content) maxSize); [|done].
  destruct (read k _) as [[chunk|e] k'] eqn:E; [|done]. apply Hr in E.
  destruct (0 <? len chunk); [|done]. apply IH. rewrite len_app. lia.
Qed.
