(* ===== verification/SmallFiles.v ===== *)
(** * Reading a file whole (src/src/muduo/base/FileUtil.h, FileUtil.cc)

    [readFile] opens a file, reads it with [readToString] and closes it when the
    object goes out of scope, also by an exception.  open(2), read(2), fstat(2) and
    close(2) are an interface with laws: a descriptor has a file and an offset, and a
    read delivers the bytes at the offset, perhaps fewer than asked for, but some
    unless it is at the end or fails. *)

From S2P Require Import Prelude LogFiles.

(** ** The kernel *)

Inductive node :=
| NFile (data : list byte) (mtime ctime : Z)
| NDir (mtime ctime : Z).

Definition node_stat (nd : node) : stat :=
  match nd with
  | NFile data m c => mkStat (Regular (len data)) m c
  | NDir m c => mkStat Directory m c
  end.

Class Files := {
  F : Type;
  open_files : F -> gmap Z (node * Z);
  path_node : F -> list byte -> option node;
  sys_open : list byte -> F -> (Z + Z) * F;
  sys_read : Z -> F -> Z -> io * F;
  sys_fstat : Z -> F -> stat + Z;
  sys_close : Z -> F -> F;
}.

Class FilesLaws `{Files} := {
  open_law name f : match sys_open name f with
    | (inl fd, f') => 0 <= fd /\ open_files f !! fd = None /\ exists nd, path_node f name = Some nd /\
        open_files f' = <[fd := (nd, 0)]> (open_files f)
    | (inr e, f') => 0 < e /\ open_files f' = open_files f
    end;
  read_law fd f n data m c off :
    open_files f !! fd = Some (NFile data m c, off) -> 0 <= off <= len data -> 0 < n ->
    match sys_read fd f n with
    | (inl chunk, f') => len chunk <= n /\ off + len chunk <= len data /\ chunk = slice off (off + len chunk) data /\
        (chunk = [] -> off = len data) /\ open_files f' = <[fd := (NFile data m c, off + len chunk)]> (open_files f)
    | (inr e, f') => 0 < e /\ open_files f' = open_files f
    end;
  read_dir_law fd f n m c off :
    open_files f !! fd = Some (NDir m c, off) ->
    exists f', sys_read fd f n = (inr EISDIR, f') /\ open_files f' = open_files f;
  fstat_law fd f nd off :
    open_files f !! fd = Some (nd, off) -> sys_fstat fd f = inl (node_stat nd);
  close_law fd f : open_files (sys_close fd f) = delete fd (open_files f);
}.

(** ** readFile *)

(** The object: the descriptor, or errno. *)
Record ReadSmallFile := mkReadSmallFile { fd_ : Z; err_ : Z }.

Section ReadFile.
Context `{Files}.

Definition newReadSmallFile (name : list byte) (f : F) : ReadSmallFile * F :=
  match sys_open name f with
  | (inl fd, f) => (mkReadSmallFile fd 0, f)
  | (inr errno, f) => (mkReadSmallFile (-1) errno, f)
  end.

Definition destroyReadSmallFile (o : ReadSmallFile) (f : F) : F :=
  if 0 <=? fd_ o then sys_close (fd_ o) f else f.

(** The result is the content, errno, the size and the times; [wantSize] tells whether
    the caller passes a pointer for the size.  An exception comes before any read. *)
Definition readFile (name : list byte) (maxSize : Z) (wantSize : bool) (content : list byte) (f : F)
    : res (list byte * Z * option Z * option (Z * Z)) * F :=
  let '(file, f) := newReadSmallFile name f in
  let fd := if 0 <=? fd_ file then inl (fd_ file) else inr (err_ file) in
  let fstat := if wantSize then Some (sys_fstat (fd_ file) f) else None in
  match readToString (sys_read (fd_ file)) f fd maxSize fstat content with
  | Ok (content, err, size, times, f) => (Ok (content, err, size, times), destroyReadSmallFile file f)
  | Fail e => (Fail e, destroyReadSmallFile file f)
  end.
End ReadFile.

(** ** Properties *)

Section Proofs.
Context `{FilesLaws}.

(** A read at the offset [off] of the file [nd] open as [fd] failed with [e]. *)
Definition read_failed (fd : Z) (nd : node) (off e : Z) : Prop :=
  exists f n f', open_files f !! fd = Some (nd, off) /\ 0 < n <= kBufferSize /\
    sys_read fd f n = (inr e, f').

(** The loop goes through the file from the offset. *)
Lemma read_loop_file fuel fd f data m c content err maxSize :
  open_files f !! fd = Some (NFile data m c, len content) -> content = take (Z.to_nat (len content)) data ->
  len content <= maxSize -> len content <= len data -> maxSize - len content < Z.of_nat fuel ->
  exists content' err' f' off, read_loop (sys_read fd) fuel f maxSize content err = (content', err', f') /\
    open_files f' = <[fd := (NFile data m c, off)]> (open_files f) /\
    content' `prefix_of` data /\ len content' <= maxSize /\
    (err' = err /\ content' = take (Z.to_nat maxSize) data \/
     0 < err' /\ read_failed fd (NFile data m c) (len content') err').
Proof.
  revert f content; induction fuel as [|fuel IH]; intros f content Hf Hc Hl Hd Hfuel; [lia|]. cbn [read_loop].
  assert (content `prefix_of` data) as Hpre by (rewrite Hc; apply prefix_take).
  destruct (Z.ltb_spec (len content) maxSize) as [Hlt|Hge].
  - assert (0 < Z.min (maxSize - len content) kBufferSize) as Hn by (unfold kBufferSize; lia).
    pose proof (len_nonneg content).
    pose proof (read_law fd f _ data m c (len content) Hf ltac:(lia) Hn) as Hr.
    destruct (sys_read fd f _) as [[chunk|e] f1] eqn:Er.
    + destruct Hr as (R1 & R2 & R3 & R4 & R5). pose proof (len_nonneg chunk). destruct (Z.ltb_spec 0 (len chunk)) as [Hpos|Hz].
      * assert (content ++ chunk = take (Z.to_nat (len (content ++ chunk))) data) as Hc'.
        { rewrite len_app. rewrite R3 at 1. rewrite Hc at 1. rewrite slice_extend by lia. done. }
        destruct (IH f1 (content ++ chunk)) as (c' & e' & f' & off & E & Ho & Hp & Hm & Hcase);
          rewrite ?len_app; [by rewrite R5, lookup_insert_eq|by rewrite <- len_app|lia..|].
        exists c', e', f', off. rewrite Ho, R5, insert_insert_eq. by split_and!.
      * assert (chunk = []) as -> by (apply len_0_nil; lia). specialize (R4 eq_refl).
        exists content, err, f1, (len content). split_and!; try done.
        -- rewrite R5. f_equal. f_equal. rewrite len_nil. lia.
        -- left. split; [done|]. rewrite Hc. rewrite !take_ge; [done|unfold len in *; lia..].
    + destruct Hr as [He Ho]. exists content, e, f1, (len content). split_and!; try done.
      * rewrite Ho, insert_id; done.
      * right. split; [done|]. eexists f, _, f1. split; [done|]. split; [|exact Er]. lia.
  - exists content, err, f, (len content). split_and!; try done; [by rewrite insert_id|].
    left. split; [done|]. assert (maxSize = len content) as -> by lia. done.
Qed.

(** C38: [readFile] reads what is there and keeps nothing open: whatever the reads
    deliver at a time, for a file it returns a prefix of the file of at most
    [maxSize] bytes: all of it and 0, or, if a read fails, what was read before and the
    errno of that read; for a directory it returns EISDIR as soon as it reads or is
    asked for the size; for a path that cannot be opened it
    returns errno and leaves the content alone; with a [maxSize] of 0 or more it never
    throws, and afterwards the descriptors are those of before. *)
Theorem readFile_reads name maxSize wantSize content f :
  0 <= maxSize < 2 ^ 31 ->
  exists c err size times f',
    readFile name maxSize wantSize content f = (Ok (c, err, size, times), f') /\ open_files f' = open_files f /\
    match fst (sys_open name f) with
    | inr e => c = content /\ err = e /\ size = None
    | inl fd =>
        match path_node f name with
        | Some (NFile data m t) =>
            c `prefix_of` data /\ len c <= maxSize /\
            (err = 0 /\ c = take (Z.to_nat maxSize) data \/
             0 < err /\ read_failed fd (NFile data m t) (len c) err) /\
            (wantSize = true -> len data < 2 ^ 63 -> size = Some (len data) /\ times = Some (m, t))
        | Some (NDir m t) => err = (if (0 <? maxSize) || wantSize then EISDIR else 0) /\ c = []
        | None => False
        end
    end.
Proof.
  intros Hmax. pose proof (open_law name f) as Ho. unfold readFile, newReadSmallFile.
  destruct (sys_open name f) as [[fd|e] f1]; cbn [fst fd_ err_].
  2:{ destruct Ho as [He Ho]. cbn. eexists _, _, _, _, _. split_and!; [reflexivity|done..]. }
  destruct Ho as (Hfd & Hnew & nd & Hnd & Ho). rewrite Hnd, (proj2 (Z.leb_le _ _)) by done. unfold destroyReadSmallFile. cbn [fd_].
  rewrite (proj2 (Z.leb_le _ _)) by done.
  assert (open_files f1 !! fd = Some (nd, 0)) as Hf1 by (by rewrite Ho, lookup_insert_eq).
  assert (forall f2 off nd', open_files f2 = <[fd := (nd', off)]> (open_files f1) -> open_files (sys_close fd f2) = open_files f) as Hclose.
  { intros f2 off nd' E2. by rewrite close_law, E2, Ho, insert_insert_eq, delete_insert_id. }
  assert (u64 maxSize = maxSize) as Hu by (unfold u64, uwrap; apply Z.mod_small; lia).
  unfold readToString. rewrite Hu, (fstat_law fd f1 nd 0 Hf1).
  destruct nd as [data m t|m t].
  - destruct (read_loop_file (S (Z.to_nat maxSize)) fd f1 data m t [] 0 maxSize) as (c & err & f2 & off & E & E2 & Hp & Hl & Hcase);
      [by rewrite len_nil|done|rewrite len_nil; lia|rewrite len_nil; apply len_nonneg|rewrite len_nil; lia|].
    pose proof (len_nonneg data) as Hdata.
    destruct wantSize; cbn [res_bind node_stat st_kind st_mtime st_ctime].
    + assert ((u64 (i32 (Z.min maxSize (len data))) <=? max_size) = true) as ->.
      { apply Z.leb_le. unfold i32. rewrite swrap_small by (unfold in_signed; simpl; lia).
        unfold u64, uwrap. rewrite Z.mod_small by lia. unfold max_size. lia. }
      cbn [res_bind]. rewrite E. eexists _, _, _, _, _. split_and!; [reflexivity|by eapply Hclose|done..].
    + rewrite E. eexists _, _, _, _, _. split_and!; [reflexivity|by eapply Hclose|done..].
  - assert (exists e2 f2, read_loop (sys_read fd) (S (Z.to_nat maxSize)) f1 maxSize [] (if wantSize then EISDIR else 0) = ([], e2, f2) /\
      open_files f2 = open_files f1 /\ e2 = (if (0 <? maxSize) || wantSize then EISDIR else 0)) as (e2 & f2 & E & E2 & He).
    { cbn [read_loop]. rewrite len_nil. destruct (Z.ltb_spec 0 maxSize).
      - destruct (read_dir_law fd f1 (Z.min (maxSize - 0) kBufferSize) m t 0 Hf1) as (f2 & -> & E2). eexists _, _. by split_and!.
      - eexists _, _. by split_and!. }
    assert (open_files (sys_close fd f2) = open_files f) as Hcl by (by rewrite close_law, E2, Ho, delete_insert_id).
    destruct wantSize; cbn [res_bind node_stat st_kind]; rewrite E; eexists _, _, _, _, _; split_and!; try reflexivity; done.
Qed.
End Proofs.

(** ** A file system *)

(** Three bytes in a file, read at most two at a time. *)
Definition demo_name : list byte := bytes_of_string "/etc/motd".
Definition demo_node : node := NFile [x61; x62; x63] 10 20.
Definition demo_tree (name : list byte) : option node :=
  if bool_decide (name = demo_name) then Some demo_node else None.

Definition free_fd (m : gmap Z (node * Z)) : Z := 1 + map_fold (fun fd _ acc => Z.max fd acc) 0 m.

Lemma free_fd_spec m : 0 <= free_fd m /\ m !! free_fd m = None.
Proof.
  unfold free_fd.
  assert (0 <= map_fold (fun fd (_ : node * Z) acc => Z.max fd acc) 0 m /\
    forall fd x, m !! fd = Some x -> fd <= map_fold (fun fd (_ : node * Z) acc => Z.max fd acc) 0 m) as [H0 Hm].
  { apply (map_fold_weak_ind (fun (acc : Z) (m : gmap Z (node * Z)) => 0 <= acc /\ forall fd x, m !! fd = Some x -> fd <= acc)).
    - split; [lia|]. intros fd x. by rewrite lookup_empty.
    - intros i x m' acc Hi [Ha Hacc]. split; [lia|]. intros fd x'. destruct (decide (fd = i)) as [->|Hne]; [lia|].
      rewrite lookup_insert_ne by done. intros Hfd%Hacc. lia. }
  split; [lia|]. destruct (m !! _) as [x|] eqn:E; [|done]. apply Hm in E. lia.
Qed.

#[export] Instance demo_files : Files := {|
  F := gmap Z (node * Z);
  open_files := fun f => f;
  path_node := fun _ => demo_tree;
  sys_open := fun name f =>
    match demo_tree name with
    | Some nd => (inl (free_fd f), <[free_fd f := (nd, 0)]> f)
    | None => (inr 2, f)
    end;
  sys_read := fun fd f n =>
    match f !! fd with
    | Some (NFile data m c, off) =>
        let chunk := slice off (off + Z.min (Z.min n 2) (len data - off)) data in
        (inl chunk, <[fd := (NFile data m c, off + len chunk)]> f)
    | Some (NDir _ _, _) => (inr EISDIR, f)
    | None => (inr 9, f)
    end;
  sys_fstat := fun fd f => match f !! fd with Some (nd, _) => inl (node_stat nd) | None => inr 9 end;
  sys_close := fun fd f => delete fd f;
|}.

#[export] Instance demo_laws : FilesLaws.
Proof.
  split; cbn.
  - intros name f. destruct (demo_tree name) as [nd|]; [|done]. destruct (free_fd_spec f). split_and!; eauto.
  - intros fd f n data m c off Hf Ho Hn. rewrite Hf. set (d := Z.min (Z.min n 2) (len data - off)).
    assert (len (slice off (off + d) data) = d) as Hlen by (rewrite len_slice; lia). rewrite Hlen. split_and!; try done; try lia.
    intros E. rewrite E in Hlen. change (len (@nil byte)) with 0 in Hlen. lia.
  - intros fd f n m c off Hf. rewrite Hf. eauto.
  - intros fd f nd off Hf. by rewrite Hf.
  - done.
Qed.

Lemma readFile_reads_witness :
  exists c f', readFile demo_name 100 true [] (∅ : F) = (Ok (c, 0, Some 3, Some (10, 20)), f') /\
    open_files f' = ∅ /\ c = [x61; x62; x63].
Proof.
  destruct (readFile_reads demo_name 100 true [] (∅ : F) ltac:(lia)) as (c & err & size & times & f' & E & Ho & Hr).
  change (fst (sys_open demo_name (∅ : F))) with (inl 1 : Z + Z) in Hr. change (path_node (∅ : F) demo_name) with (Some demo_node) in Hr.
  destruct Hr as (_ & _ & Hc & Hs). destruct (Hs eq_refl ltac:(reflexivity)) as [-> ->].
  assert (err = 0) as -> by (apply (f_equal fst) in E; vm_compute in E; by injection E).
  exists c, f'. split_and!; [exact E|exact Ho|]. destruct Hc as [[_ ->]|[Hc _]]; [reflexivity|lia].
Defined.
