(* ===== verification/ProcessInfos.v ===== *)
(** * Process information (src/src/muduo/base/ProcessInfo.cc)

    What the functions make of the texts and directories under /proc and of the results
    of system calls; these results are parameters. *)

From stdpp Require Import sorting.
From S2P Require Import Prelude Formats LogFiles StringPieces.

(** ** Text *)

Definition isdigit (b : byte) : bool := (48 <=? b2z b) && (b2z b <=? 57).

Definition isspace (b : byte) : bool := bool_decide (b = x20) || ((9 <=? b2z b) && (b2z b <=? 13)).

Fixpoint take_while (p : byte -> bool) (s : list byte) : list byte :=
  match s with b :: s => if p b then b :: take_while p s else [] | [] => [] end.

Fixpoint drop_while (p : byte -> bool) (s : list byte) : list byte :=
  match s with b :: r => if p b then drop_while p r else s | [] => [] end.

(** atoi(3): [strtol], which stops at the limits of [long], cut to an [int]. *)
Definition atoi (s : list byte) : Z :=
  let s := drop_while isspace s in
  let '(neg, s) := match s with x2d :: r => (true, r) | x2b :: r => (false, r) | _ => (false, s) end in
  let v := value 10 (take_while isdigit s) in
  i32 (Z.max (- 2 ^ 63) (Z.min (2 ^ 63 - 1) (if neg : bool then - v else v))).

(** [string::find] and [string::rfind] of a character, and [find] of a text. *)
Fixpoint find_char (c : byte) (s : list byte) : option Z :=
  match s with
  | [] => None
  | b :: s => if bool_decide (b = c) then Some 0 else Z.succ <$> find_char c s
  end.

Fixpoint rfind_char (c : byte) (s : list byte) : option Z :=
  match s with
  | [] => None
  | b :: s =>
      match rfind_char c s with
      | Some i => Some (Z.succ i)
      | None => if bool_decide (b = c) then Some 0 else None
      end
  end.

Fixpoint find_text (pat s : list byte) : option Z :=
  if bool_decide (pat `prefix_of` s) then Some 0
  else match s with
  | [] => None
  | _ :: s => Z.succ <$> find_text pat s
  end.

(** The bytes of a buffer up to the first zero. *)
Definition c_string (buf : list byte) : list byte := take_while (fun b => negb (bool_decide (b = x00))) buf.

(** ** Directories *)

(** [d_name[0]]. *)
Definition first_char (d_name : list byte) : byte := default x00 (head d_name).

Definition fdDirFilter (d_name : list byte) (t_numOpenedFiles : Z) : Z * Z :=
  (0, if isdigit (first_char d_name) then t_numOpenedFiles + 1 else t_numOpenedFiles).

Definition taskDirFilter (d_name : list byte) (t_pids : list Z) : Z * list Z :=
  (0, if isdigit (first_char d_name) then t_pids ++ [atoi d_name] else t_pids).

(** scandir(3) calls the filter on every entry and collects those it accepts;
    [namelist] stays NULL if there are none, or if the directory cannot be read. *)
Definition scanDir {S} (entries : option (list (list byte))) (filter : list byte -> S -> Z * S) (s : S) : res (Z * S) :=
  match entries with
  | None => Ok (-1, s)
  | Some l =>
      let '(namelist, s) := foldl (fun '(namelist, s) d_name =>
        let '(r, s) := filter d_name s in
        ((if r =? 0 then namelist else namelist ++ [d_name]), s)) ([], s) l in
      assert! bool_decide (namelist = []) ;;
      Ok (len namelist, s)
  end.

Definition openedFiles (fd_dir : option (list (list byte))) : res Z :=
  let! '(_, t_numOpenedFiles) := scanDir fd_dir fdDirFilter 0 in Ok t_numOpenedFiles.

(** [rlim_cur] is a 64-bit number; RLIM_INFINITY is all ones. *)
Definition maxOpenFiles (rlim_cur : option Z) (fd_dir : option (list (list byte))) : res Z :=
  match rlim_cur with
  | None => openedFiles fd_dir
  | Some n => Ok (i32 n)
  end.

(** [std::sort]. *)
Definition sort_pids (l : list Z) : list Z := merge_sort Z.le l.

Definition threads (task_dir : option (list (list byte))) : res (list Z) :=
  let! '(_, pids) := scanDir task_dir taskDirFilter [] in Ok (sort_pids pids).

(** ** Names and files *)

Definition pidString (pid : Z) : list byte := fst (snprintf 32 (decimal pid)).

Definition username (pw_name : option (list byte)) : list byte :=
  match pw_name with Some name => name | None => bytes_of_string "unknownuser" end.

(** [gethostname] fills a buffer of 256 bytes, which it may leave without a zero. *)
Definition hostname (gethostname : option (list byte)) : list byte :=
  match gethostname with
  | Some buf => c_string (take 255 buf ++ [x00])
  | None => bytes_of_string "unknownhost"
  end.

(** The piece points into [stat]. *)
Definition procname (stat : list byte) : StringPiece :=
  match find_char x28 stat, rfind_char x29 stat with
  | Some lp, Some rp => if lp <? rp then set_range (Some (lp + 1)) (i32 (rp - lp - 1)) empty_piece else empty_piece
  | _, _ => empty_piece
  end.

(** readlink(2) into a buffer of 1024 bytes. *)
Definition exePath (readlink : option (list byte)) : list byte :=
  match readlink with Some target => take 1024 target | None => [] end.

Section Files.
Variable read : nat -> Z -> list byte + Z.
Variable fd : Z + Z.

Definition read_proc : res (list byte) :=
  let! '(content, _, _, _, _) := readToString (counted read) 0%nat fd 65536 None [] in Ok content.

Definition procStatus : res (list byte) := read_proc.
Definition procStat : res (list byte) := read_proc.

(** The path of the file, and what it holds. *)
Definition threadStat (tid : Z) : res (list byte * list byte) :=
  let path := fst (snprintf 64 (bytes_of_string "/proc/self/task/" ++ decimal tid ++ bytes_of_string "/stat")) in
  let! result := read_proc in
  Ok (path, result).

Definition procname_self : res (list byte) :=
  let! stat := procStat in as_string stat (procname stat).

Definition numThreads : res Z :=
  let! status := procStatus in
  Ok match find_text (bytes_of_string "Threads:") status with
     | Some pos => atoi (c_string (drop (Z.to_nat (pos + 8)) status))
     | None => 0
     end.
End Files.

(** * Properties *)

(** ** Numbers *)

Lemma decimal_digits n : 0 <= n -> Forall (fun b => isdigit b = true) (digits_of 10 n).
Proof.
  intros Hn. unfold digits_of. generalize (S (Z.to_nat (Z.log2 n))). intros fuel.
  assert (Forall (fun b => isdigit b = true) []) as Hacc by constructor. revert Hacc. generalize (@nil byte).
  revert n Hn. induction fuel as [|f IH]; intros n Hn acc Hacc; [done|]. cbn [digits_go].
  assert (Forall (fun b => isdigit b = true) (digit (n mod 10) :: acc)).
  { constructor; [|done]. pose proof (Z.mod_pos_bound n 10 ltac:(lia)). unfold isdigit, digit.
    rewrite b2z_z2b, (proj2 (Z.ltb_lt _ 10)), Z.mod_small by lia. apply andb_true_iff. rewrite !Z.leb_le. lia. }
  destruct (n / 10 =? 0); [done|]. apply IH; [apply Z.div_pos; lia|done].
Qed.

Lemma take_while_app p s1 s2 :
  Forall (fun b => p b = true) s1 -> match s2 with b :: _ => p b = false | [] => True end ->
  take_while p (s1 ++ s2) = s1.
Proof.
  induction 1 as [|b s1 Hb _ IH]; intros H2; cbn.
  - destruct s2 as [|b s2]; [done|]. cbn. by rewrite H2.
  - rewrite Hb. f_equal. by apply IH.
Qed.

Lemma not_digit_cases b : isdigit b = true -> isspace b = false /\ b <> x2d /\ b <> x2b.
Proof. by destruct b. Qed.

(** A number reads back, after blanks and before anything that is no digit. *)
Lemma atoi_decimal sp n rest :
  Forall (fun b => isspace b = true) sp -> 0 <= n < 2 ^ 31 ->
  match rest with b :: _ => isdigit b = false | [] => True end ->
  atoi (sp ++ decimal n ++ rest) = n.
Proof.
  intros Hsp Hn Hr. unfold atoi.
  assert (drop_while isspace (sp ++ decimal n ++ rest) = decimal n ++ rest) as ->.
  { induction Hsp as [|b sp Hb _ IH]; [|cbn; by rewrite Hb].
    unfold decimal. rewrite (proj2 (Z.ltb_ge n 0)), Z.abs_eq by lia. cbn [app].
    pose proof (digits_of_nonempty 10 ltac:(lia) n ltac:(lia)) as Hne.
    pose proof (decimal_digits n ltac:(lia)) as Hd. destruct (digits_of 10 n) as [|b ds]; [done|].
    apply Forall_cons in Hd as [Hb _]. cbn. by rewrite (proj1 (not_digit_cases b Hb)). }
  unfold decimal. rewrite (proj2 (Z.ltb_ge n 0)), Z.abs_eq by lia. cbn [app].
  pose proof (digits_of_nonempty 10 ltac:(lia) n ltac:(lia)) as Hne.
  pose proof (decimal_digits n ltac:(lia)) as Hd.
  pose proof (take_while_app isdigit (digits_of 10 n) rest Hd Hr) as Ht.
  pose proof (digits_of_value 10 ltac:(lia) n ltac:(lia)) as Hv.
  destruct (digits_of 10 n) as [|b ds]; [done|]. apply Forall_cons in Hd as [Hb _].
  destruct (not_digit_cases b Hb) as (_ & H1 & H2).
  assert (match (b :: ds) ++ rest with x2d :: r => (true, r) | x2b :: r => (false, r) | _ => (false, (b :: ds) ++ rest) end
    = (false, (b :: ds) ++ rest)) as ->.
  { cbn. destruct b; try done. }
  rewrite Ht, Hv, Z.min_r, Z.max_r by lia. apply swrap_small; [lia|]. unfold in_signed. lia.
Qed.

(** ** Reading a file of /proc *)

(** The reads deliver [text] in some pieces, and then its end. *)
Definition delivers (read : nat -> Z -> list byte + Z) (k : nat) (text : list byte) : Prop :=
  exists chunks, concat chunks = text /\ Forall (fun c => c <> []) chunks /\
    (forall i c n, chunks !! i = Some c -> read (k + i)%nat n = inl c) /\
    (forall n, read (k + length chunks)%nat n = inl []).

Lemma read_loop_delivers read text fuel k content err :
  delivers read k text -> len content + len text <= 65536 -> len text < Z.of_nat fuel ->
  fst (read_loop (counted read) fuel k 65536 content err) = (content ++ text, err).
Proof.
  intros (chunks & <- & Hne & Hr & He). revert fuel k content Hr He.
  induction Hne as [|c chunks Hc Hne IH]; intros fuel k content Hr He Hlen Hf.
  - cbn [concat]. rewrite app_nil_r. destruct fuel; [done|]. cbn [read_loop].
    destruct (Z.ltb_spec (len content) 65536); [|done]. specialize (He (Z.min (65536 - len content) kBufferSize)).
    rewrite Nat.add_0_r in He. unfold counted. rewrite He. done.
  - cbn [concat] in Hlen, Hf |- *. rewrite len_app in Hlen, Hf. pose proof (len_nonneg (concat chunks)).
    assert (0 < len c) as Hc0 by (destruct c; [done|rewrite len_cons; pose proof (len_nonneg c); lia]).
    destruct fuel as [|fuel]; [lia|]. cbn [read_loop]. rewrite (proj2 (Z.ltb_lt (len content) 65536)) by lia.
    pose proof (Hr 0%nat c (Z.min (65536 - len content) kBufferSize) eq_refl) as E. rewrite Nat.add_0_r in E. unfold counted at 1. rewrite E.
    rewrite (proj2 (Z.ltb_lt 0 _)) by lia. rewrite IH; [by rewrite app_assoc| | |rewrite len_app; lia|lia].
    + intros i c' n Hi. replace (S k + i)%nat with (k + S i)%nat by lia. by apply Hr.
    + intros n. replace (S k + length chunks)%nat with (k + length (c :: chunks))%nat by (cbn; lia). apply He.
Qed.

Lemma read_proc_delivers read fd text :
  delivers read 0 text -> len text <= 65536 -> read_proc read (inl fd) = Ok text.
Proof.
  intros Hd Hl. unfold read_proc, readToString. cbn [res_bind]. change (u64 65536) with 65536.
  pose proof (read_loop_delivers read text (S (Z.to_nat 65536)) 0 [] 0 Hd ltac:(change (len []) with 0; lia) ltac:(lia)) as E.
  destruct (read_loop _ _ _ _ _ _) as [[c e] k]. cbn [fst] in E. by injection E as -> ->.
Qed.

(** ** The name of the process *)

Lemma find_char_app c s1 s2 : c ∉ s1 -> find_char c (s1 ++ c :: s2) = Some (len s1).
Proof.
  induction s1 as [|b s1 IH]; intros H; cbn [app find_char].
  - by rewrite bool_decide_true.
  - apply not_elem_of_cons in H as [Hb H]. rewrite bool_decide_false, IH by done. cbn. f_equal. rewrite len_cons. lia.
Qed.

Lemma rfind_char_none c s : c ∉ s -> rfind_char c s = None.
Proof.
  induction s as [|b s IH]; intros H; [done|]. apply not_elem_of_cons in H as [Hb H]. cbn.
  by rewrite IH, bool_decide_false.
Qed.

Lemma rfind_char_app c s1 s2 : c ∉ s2 -> rfind_char c (s1 ++ c :: s2) = Some (len s1).
Proof.
  intros H. induction s1 as [|b s1 IH]; cbn [app rfind_char].
  - by rewrite rfind_char_none, bool_decide_true.
  - rewrite IH. f_equal. rewrite len_cons. lia.
Qed.

Lemma procname_shows pid name rest :
  (x28 ∉ pid) /\ (x29 ∉ rest) -> len name < 2 ^ 31 ->
  let stat := pid ++ [x28] ++ name ++ [x29] ++ rest in shows stat (procname stat) name.
Proof.
  intros [H1 H2] Hl stat. unfold procname, stat. cbn [app]. rewrite find_char_app by done.
  replace (pid ++ x28 :: name ++ x29 :: rest) with ((pid ++ [x28] ++ name) ++ x29 :: rest) by (by rewrite <- !app_assoc).
  rewrite rfind_char_app by done. pose proof (len_nonneg name). pose proof (len_nonneg rest). rewrite !len_app. change (len [x28]) with 1.
  rewrite (proj2 (Z.ltb_lt _ _)) by lia.
  replace (len pid + (1 + len name) - len pid - 1) with (len name) by lia.
  assert (i32 (len name) = len name) as -> by (apply swrap_small; [lia|unfold in_signed; lia]).
  split_and!; cbn [set_range length_ ptr_]; [done|done|]. pose proof (len_nonneg pid). split_and!.
  - lia.
  - rewrite !len_app. change (len [x28]) with 1. rewrite len_cons. lia.
  - replace ((pid ++ [x28] ++ name) ++ x29 :: rest) with ((pid ++ [x28]) ++ name ++ x29 :: rest) by (by rewrite <- !app_assoc).
    apply slice_middle; rewrite len_app; done.
Qed.

(** the name of the process is found in /proc/self/stat whatever bytes it has,
    parentheses and blanks included, and however the file is read. *)
Theorem procname_any read fd pid name rest :
  let stat := pid ++ [x28] ++ name ++ [x29] ++ rest in
  (x28 ∉ pid) /\ (x29 ∉ rest) -> delivers read 0 stat -> len stat <= 65536 ->
  procname_self read (inl fd) = Ok name.
Proof.
  intros stat H Hd Hl. unfold procname_self, procStat. rewrite (read_proc_delivers read fd stat Hd Hl). cbn [res_bind].
  apply as_string_shows, procname_shows; [done|]. unfold stat in Hl. rewrite !len_app in Hl.
  pose proof (len_nonneg pid). pose proof (len_nonneg rest). change (len [x28]) with 1 in Hl. change (len [x29]) with 1 in Hl. lia.
Qed.

(** A file that one read delivers whole. *)
Definition one_read (text : list byte) (k : nat) (n : Z) : list byte + Z := inl (match k with O => text | _ => [] end).

Lemma one_read_delivers text : text <> [] -> delivers (one_read text) 0 text.
Proof.
  intros Ht. exists [text]. split_and!; [cbn; by rewrite app_nil_r|by repeat constructor| |done].
  intros [|i] c n Hi; cbn in Hi; by simplify_eq.
Qed.

Lemma procname_any_witness :
  procname_self (one_read (bytes_of_string "42 (a) (b) S 1 2")) (inl 3) = Ok (bytes_of_string "a) (b").
Proof.
  apply (procname_any _ 3 (bytes_of_string "42 ") (bytes_of_string "a) (b") (bytes_of_string " S 1 2")).
  - split; apply (bool_decide_unpack _); by vm_compute.
  - by apply one_read_delivers.
  - by vm_compute.
Defined.

(** ** Directories *)

Lemma scanDir_fold {S} (filter : list byte -> S -> Z * S) l s :
  (forall d s, fst (filter d s) = 0) ->
  scanDir (Some l) filter s = Ok (0, foldl (fun s d => snd (filter d s)) s l).
Proof.
  intros Hf. unfold scanDir.
  assert (forall l s, foldl (fun '(namelist, s) d_name => let '(r, s) := filter d_name s in
      ((if r =? 0 then namelist else namelist ++ [d_name]), s)) ([], s) l =
    ([], foldl (fun s d => snd (filter d s)) s l)) as E.
  { clear l s. induction l as [|d l IH]; intros s; [done|]. cbn [foldl]. rewrite <- IH.
    specialize (Hf d s). destruct (filter d s) as [r s']. cbn in Hf |- *. by subst r. }
  by rewrite E.
Qed.

Definition numeric (d : list byte) : bool := isdigit (first_char d).

Lemma threads_pids l :
  threads (Some l) = Ok (sort_pids (atoi <$> filter (fun d => Is_true (numeric d)) l)).
Proof.
  unfold threads. rewrite scanDir_fold by done. cbn [res_bind]. do 2 f_equal.
  assert (forall acc, foldl (fun s d => snd (taskDirFilter d s)) acc l =
    acc ++ (atoi <$> filter (fun d => Is_true (numeric d)) l)) as ->; [|done].
  induction l as [|d l IH]; intros acc; [by rewrite app_nil_r|]. cbn [foldl]. rewrite IH, filter_cons.
  unfold taskDirFilter. fold (numeric d). cbn [snd]. destruct (numeric d).
  - rewrite decide_True by done. cbn. by rewrite <- app_assoc.
  - by rewrite decide_False by (by intros []).
Qed.

Lemma numeric_decimal n : 0 <= n -> numeric (decimal n) = true.
Proof.
  intros Hn. unfold numeric, decimal. rewrite (proj2 (Z.ltb_ge n 0)), Z.abs_eq by lia. cbn [app].
  pose proof (digits_of_nonempty 10 ltac:(lia) n Hn). pose proof (decimal_digits n Hn) as Hd.
  destruct (digits_of 10 n) as [|b ds]; [done|]. by apply Forall_cons in Hd as [? _].
Qed.

(** the thread ids are those of /proc/self/task, in ascending order, whatever order
    the directory lists them in and wherever it has "." and ".."; the assert on
    scandir's list holds. *)
Theorem threads_sorted l tids :
  l ≡ₚ [[x2e]; [x2e; x2e]] ++ (decimal <$> tids) -> Forall (fun t => 0 < t < 2 ^ 31) tids ->
  exists r, threads (Some l) = Ok r /\ Sorted Z.le r /\ r ≡ₚ tids.
Proof.
  intros Hl Ht. rewrite threads_pids. eexists. split; [reflexivity|]. unfold sort_pids.
  split; [apply Sorted_merge_sort; intros a b; lia|].
  rewrite merge_sort_Permutation, Hl. cbn [app].
  rewrite !filter_cons, !decide_False by (by intros []).
  rewrite filter_all.
  - clear Hl. induction Ht as [|t tids Hb _ IH]; [done|]. cbn [fmap list_fmap]. rewrite IH. cbv beta in Hb.
    assert (atoi (decimal t) = t) as E; [|by rewrite E].
    rewrite <- (app_nil_r (decimal t)). apply (atoi_decimal []); [done|lia|done].
  - apply Forall_fmap. eapply Forall_impl; [exact Ht|]. intros t Hb. unfold compose. cbv beta in Hb |- *. rewrite numeric_decimal by lia. done.
Qed.

Lemma threads_sorted_witness :
  exists r, threads (Some (bytes_of_string <$> ["."; "10"; "7"; ".."; "9"])) = Ok r /\ Sorted Z.le r /\ r ≡ₚ [10; 7; 9].
Proof.
  apply threads_sorted; [|repeat constructor; lia].
  change (bytes_of_string <$> ["."; "10"; "7"; ".."; "9"]) with
    ([[x2e]] ++ [decimal 10; decimal 7] ++ [[x2e; x2e]] ++ [decimal 9]).
  change ([[x2e]; [x2e; x2e]] ++ (decimal <$> [10; 7; 9])) with ([[x2e]] ++ [[x2e; x2e]] ++ [decimal 10; decimal 7] ++ [decimal 9]).
  apply Permutation_app_head. rewrite !app_assoc. apply Permutation_app_tail, Permutation_app_comm.
Defined.

(** the open files are the numeric entries. *)
Theorem openedFiles_count l :
  openedFiles (Some l) = Ok (len (filter (fun d => Is_true (numeric d)) l)).
Proof.
  unfold openedFiles. rewrite scanDir_fold by done. cbn [res_bind]. f_equal.
  assert (forall n, foldl (fun s d => snd (fdDirFilter d s)) n l = n + len (filter (fun d => Is_true (numeric d)) l)) as ->; [|lia].
  induction l as [|d l IH]; intros n; [cbn [foldl]; change (n = n + 0); lia|]. cbn [foldl]. rewrite IH, filter_cons.
  unfold fdDirFilter. fold (numeric d). cbn [snd]. destruct (numeric d).
  - rewrite decide_True by done. rewrite len_cons. lia.
  - by rewrite decide_False by (by intros []).
Qed.

(** No limit on open files is reported as -1. *)
Example maxOpenFiles_infinity : maxOpenFiles (Some (2 ^ 64 - 1)) None = Ok (-1).
Proof. reflexivity. Qed.

(** ** The number of threads *)

Lemma find_text_first pat pre post :
  (forall i, (i < length pre)%nat -> ~ pat `prefix_of` drop i (pre ++ pat ++ post)) ->
  find_text pat (pre ++ pat ++ post) = Some (len pre).
Proof.
  induction pre as [|b pre IH]; intros Hno.
  - change (len []) with 0. cbn [app]. destruct pat as [|c pat]; cbn [app find_text].
    + destruct post; cbn; by rewrite bool_decide_true by apply prefix_nil.
    + rewrite bool_decide_true; [done|]. by exists post.
  - cbn [app find_text]. rewrite bool_decide_false by (apply (Hno 0%nat); cbn; lia).
    rewrite IH; [cbn; f_equal; rewrite len_cons; lia|]. intros i Hi. apply (Hno (S i)). cbn. lia.
Qed.

(** the number of threads is read from the first "Threads:" of /proc/self/status. *)
Theorem numThreads_first read fd pre n post :
  let status := pre ++ bytes_of_string "Threads:" ++ x09 :: decimal n ++ x0a :: post in
  (forall i, (i < length pre)%nat -> ~ bytes_of_string "Threads:" `prefix_of` drop i status) ->
  delivers read 0 status -> len status <= 65536 -> 0 <= n < 2 ^ 31 -> x00 ∉ post ->
  numThreads read (inl fd) = Ok n.
Proof.
  intros status Hno Hd Hl Hn Hz. unfold numThreads, procStatus. rewrite (read_proc_delivers read fd status Hd Hl).
  cbn [res_bind]. unfold status at 1. rewrite find_text_first by done. f_equal. unfold status.
  replace (Z.to_nat (len pre + 8)) with (length pre + 8)%nat by (unfold len; lia).
  rewrite <- drop_drop, drop_app_length. change (drop 8 (bytes_of_string "Threads:" ++ ?x)) with x.
  unfold c_string. rewrite <- (app_nil_r (x09 :: _)), take_while_app; [| |done].
  - apply (atoi_decimal [x09]); [by repeat constructor|done|done].
  - constructor; [done|]. apply Forall_app. split.
    + unfold decimal. rewrite (proj2 (Z.ltb_ge n 0)), Z.abs_eq by lia. cbn [app].
      eapply Forall_impl; [apply decimal_digits; lia|]. intros b. by destruct b.
    + constructor; [done|]. apply Forall_forall. intros b Hb. apply negb_true_iff, bool_decide_eq_false. intros ->. done.
Qed.

(** The first line of that file is the name of the process, which the process chooses:
    one that contains "Threads:" is read as the number of threads. *)
Example numThreads_spoofed :
  numThreads (one_read (bytes_of_string "Name:	Threads:99" ++ [x0a] ++ bytes_of_string "Threads:	3" ++ [x0a])) (inl 3) = Ok 99.
Proof. by vm_compute. Qed.
