(* ===== verification/AsyncLog.v ===== *)
(** * Asynchronous logging (src/src/muduo/base/AsyncLogging.h, AsyncLogging.cc)

    Front-end threads append lines to the current buffer under the mutex; the
    logging thread takes the filled buffers in one critical section and writes
    them outside of it.  The steps are the critical sections and what the logging
    thread does in between, interleaved in any order.  A [unique_ptr] is an
    option; moving from it leaves [None].  The buffers have [size] bytes
    ([kLargeBuffer] in the program). *)

From S2P Require Import Prelude LogStreams.

(** What the logging thread handed to its log file. *)
Inductive entry :=
| Lines (text : list byte)
| Dropped (buffers : Z).       (** "Dropped log messages at ..." *)

(** Where the logging thread is. *)
Inductive backend :=
| Top                          (** about to test [running_] *)
| Waiting                      (** in the critical section, perhaps waiting *)
| Writing                      (** writing [buffersToWrite] *)
| Done.                        (** returned from [threadFunc] *)

Record AsyncLogging := mkAsync {
  running_ : bool;
  currentBuffer_ : option FixedBuffer;
  nextBuffer_ : option FixedBuffer;
  buffers_ : list FixedBuffer;
  newBuffer1 : option FixedBuffer;
  newBuffer2 : option FixedBuffer;
  buffersToWrite : list FixedBuffer;
  pc : backend;
  outputs : list entry;
  accepted : list (list byte);   (** every line appended so far *)
  lost : Z;                      (** buffers thrown away so far *)
}.

Section Async.
Variable size : nat.

Definition newBuffer : FixedBuffer := newFixedBuffer (replicate size x00).

(** After [start()]: the thread has entered [threadFunc]. *)
Definition started : AsyncLogging :=
  mkAsync true (Some newBuffer) (Some newBuffer) [] (Some newBuffer) (Some newBuffer) [] Top [] [] 0.

Definition deref {A} (p : option A) : res A :=
  match p with Some a => Ok a | None => Fail OutOfRange end.

Definition set_front (cur next : option FixedBuffer) (bufs : list FixedBuffer) (s : AsyncLogging)
    : AsyncLogging :=
  mkAsync (running_ s) cur next bufs (newBuffer1 s) (newBuffer2 s) (buffersToWrite s) (pc s) (outputs s)
    (accepted s) (lost s).
Definition accept (line : list byte) (s : AsyncLogging) : AsyncLogging :=
  mkAsync (running_ s) (currentBuffer_ s) (nextBuffer_ s) (buffers_ s) (newBuffer1 s) (newBuffer2 s)
    (buffersToWrite s) (pc s) (outputs s) (accepted s ++ [line]) (lost s).
Definition set_back (b1 b2 : option FixedBuffer) (w : list FixedBuffer) (p : backend)
    (out : list entry) (n : Z) (s : AsyncLogging) : AsyncLogging :=
  mkAsync (running_ s) (currentBuffer_ s) (nextBuffer_ s) (buffers_ s) b1 b2 w p out (accepted s) n.

(** [AsyncLogging::append]. *)
Definition append_line (line : list byte) (s : AsyncLogging) : res AsyncLogging :=
  let s := accept line s in
  let! cur := deref (currentBuffer_ s) in
  if len line <? avail cur then
    let! cur := append line cur in
    Ok (set_front (Some cur) (nextBuffer_ s) (buffers_ s) s)
  else
    let bufs := buffers_ s ++ [cur] in
    let '(cur, next) :=
      match nextBuffer_ s with
      | Some b => (b, None)
      | None => (newBuffer, None)
      end in
    let! cur := append line cur in
    Ok (set_front (Some cur) next bufs s).

Definition stop (s : AsyncLogging) : AsyncLogging :=
  mkAsync false (currentBuffer_ s) (nextBuffer_ s) (buffers_ s) (newBuffer1 s) (newBuffer2 s)
    (buffersToWrite s) (pc s) (outputs s) (accepted s) (lost s).

Definition empty_buffer (b : option FixedBuffer) : bool :=
  match b with Some b => length_ b =? 0 | None => false end.

(** [while (running_)] and the asserts at the start of the body. *)
Definition testRunning (s : AsyncLogging) : res AsyncLogging :=
  if running_ s then
    assert! empty_buffer (newBuffer1 s) ;;
    assert! empty_buffer (newBuffer2 s) ;;
    assert! bool_decide (buffersToWrite s = []) ;;
    Ok (set_back (newBuffer1 s) (newBuffer2 s) (buffersToWrite s) Waiting (outputs s) (lost s) s)
  else Ok (set_back (newBuffer1 s) (newBuffer2 s) (buffersToWrite s) Done (outputs s) (lost s) s).

(** The critical section, once the wait is over. *)
Definition swapBuffers (s : AsyncLogging) : res AsyncLogging :=
  let! cur := deref (currentBuffer_ s) in
  let bufs := buffers_ s ++ [cur] in
  let cur := newBuffer1 s in
  let '(next, b2) :=
    match nextBuffer_ s with
    | Some b => (Some b, newBuffer2 s)
    | None => (newBuffer2 s, None)
    end in
  let s := set_front cur next (buffersToWrite s) s in
  assert! negb (bool_decide (bufs = [])) ;;
  Ok (set_back None b2 bufs Writing (outputs s) (lost s) s).

(** Refill an empty [newBuffer] from the back of [buffersToWrite]. *)
Definition refill (b : option FixedBuffer) (w : list FixedBuffer)
    : res (option FixedBuffer * list FixedBuffer) :=
  match b with
  | Some b => Ok (Some b, w)
  | None =>
      assert! negb (bool_decide (w = [])) ;;
      let! back := deref (last w) in
      Ok (Some (reset back), take (length w - 1) w)
  end.

(** The rest of the loop body. *)
Definition writeBuffers (s : AsyncLogging) : res AsyncLogging :=
  let w := buffersToWrite s in
  let '(w, out, n) :=
    if 25 <? len w
    then (take 2 w, outputs s ++ [Dropped (len w - 2)], lost s + (len w - 2))
    else (w, outputs s, lost s) in
  let out := out ++ (Lines ∘ toString <$> w) in
  let w := if 2 <? len w then take 2 w else w in
  let! '(b1, w) := refill (newBuffer1 s) w in
  let! '(b2, w) := refill (newBuffer2 s) w in
  Ok (set_back b1 b2 [] Top out n s).

(** ** All threads *)

Definition backStep (s : AsyncLogging) : res AsyncLogging :=
  match pc s with
  | Top => testRunning s
  | Waiting => swapBuffers s
  | Writing => writeBuffers s
  | Done => Ok s
  end.

Inductive input :=
| Append (line : list byte)
| Stop
| Back.

Definition step (s : AsyncLogging) (i : input) : res AsyncLogging :=
  match i with
  | Append line => append_line line s
  | Stop => Ok (stop s)
  | Back => backStep s
  end.

(** ** Invariant *)

Definition text (l : list FixedBuffer) : list byte := concat (toString <$> l).

Definition entry_text (e : entry) : list byte := match e with Lines t => t | Dropped _ => [] end.
Definition written (s : AsyncLogging) : list byte := concat (entry_text <$> outputs s).

(** Lines too long for a buffer are dropped by the buffer. *)
Definition fitting (lines : list (list byte)) : list byte :=
  concat (filter (fun l => len l < Z.of_nat size) lines).

Definition good (b : FixedBuffer) : Prop := fixed_ok (Z.of_nat size) b.
Definition spare (b : option FixedBuffer) : Prop := exists x, b = Some x /\ good x /\ cur_ x = 0.

(** A spare buffer is missing only while a filled one waits for the thread. *)
Record async_inv (s : AsyncLogging) : Prop := {
  ai_cur : exists b, currentBuffer_ s = Some b /\ good b;
  ai_next : match nextBuffer_ s with Some b => good b /\ cur_ b = 0 | None => buffers_ s <> [] end;
  ai_bufs : Forall good (buffers_ s);
  ai_write : Forall good (buffersToWrite s);
  ai_back : match pc s with
    | Writing => newBuffer1 s = None /\ buffersToWrite s <> [] /\
        (spare (newBuffer2 s) \/ newBuffer2 s = None /\ 2 <= len (buffersToWrite s))
    | _ => spare (newBuffer1 s) /\ spare (newBuffer2 s) /\ buffersToWrite s = []
    end;
  ai_lost : 0 <= lost s;
  ai_text : lost s = 0 ->
    written s ++ text (buffersToWrite s) ++ text (buffers_ s) ++
      match currentBuffer_ s with Some b => toString b | None => [] end = fitting (accepted s);
}.

(** ** Lemmas *)

#[local] Arguments text : simpl never.
#[local] Arguments fitting : simpl never.
#[local] Arguments written : simpl never.
#[local] Arguments toString : simpl never.

Hypothesis size_pos : (0 < size)%nat.

Lemma newBuffer_good : good newBuffer /\ cur_ newBuffer = 0.
Proof using size_pos.
  split; [|done]. split; cbn; [by rewrite len_replicate|lia].
Qed.

Lemma spare_newBuffer : spare (Some newBuffer).
Proof using size_pos. destruct newBuffer_good. by exists newBuffer. Qed.

Lemma started_inv : async_inv started.
Proof using size_pos.
  pose proof newBuffer_good as [? ?]. pose proof spare_newBuffer. split; cbn; try done; eauto.
Qed.

Lemma text_app l1 l2 : text (l1 ++ l2) = text l1 ++ text l2.
Proof. unfold text. by rewrite fmap_app, concat_app. Qed.

Lemma text_singleton b : text [b] = toString b.
Proof. unfold text; cbn. by rewrite app_nil_r. Qed.

Lemma fitting_snoc lines line :
  fitting (lines ++ [line]) = fitting lines ++ if len line <? Z.of_nat size then line else [].
Proof.
  unfold fitting. rewrite filter_app, concat_app. f_equal. rewrite filter_cons, filter_nil.
  destruct (Z.ltb_spec (len line) (Z.of_nat size)).
  - rewrite decide_True by done. cbn. by rewrite app_nil_r.
  - by rewrite decide_False by lia.
Qed.

Lemma toString_empty b : cur_ b = 0 -> toString b = [].
Proof. unfold toString. by intros ->. Qed.

(** A buffer takes a line when the line is shorter than what is left. *)
Lemma append_good line b : good b ->
  exists b', append line b = Ok b' /\ good b' /\
    toString b' = toString b ++ (if len line <? avail b then line else []).
Proof.
  intros Hb. destruct (fixed_append_spec _ b line Hb) as (b' & E & Hb' & Ht). exists b'. split_and!; [done..|].
  rewrite Ht, (toString_len _ _ Hb). destruct Hb as [Hs Hc]. unfold avail. rewrite Hs.
  destruct (Z.leb_spec (len line + 1) (Z.of_nat size - cur_ b)),
    (Z.ltb_spec (len line) (Z.of_nat size - cur_ b)); try lia; [done|by rewrite app_nil_r].
Qed.

Lemma append_line_inv line s :
  async_inv s -> exists s', append_line line s = Ok s' /\ async_inv s' /\ pc s' = pc s /\
    accepted s' = accepted s ++ [line] /\ running_ s' = running_ s /\ outputs s' = outputs s.
Proof using size_pos.
  intros Hs. destruct (ai_cur _ Hs) as (b & Hb & Hgb). pose proof (ai_text _ Hs) as Ht. rewrite Hb in Ht.
  unfold append_line, deref. cbn [accept currentBuffer_]. rewrite Hb; cbn [res_bind].
  assert (avail b = Z.of_nat size - cur_ b /\ 0 <= cur_ b) as [Ha Hc] by (destruct Hgb; unfold avail; lia).
  destruct (Z.ltb_spec (len line) (avail b)) as [Hl|Hl].
  - destruct (append_good line b Hgb) as (b' & -> & Hb' & Htxt); cbn [res_bind].
    rewrite (proj2 (Z.ltb_lt _ _)) in Htxt by done.
    eexists; split; [done|]. split; [|done]. destruct Hs. split; cbn; try done; eauto.
    intros H0. rewrite fitting_snoc, (proj2 (Z.ltb_lt _ _)), <- Ht, Htxt by (done || lia).
    by rewrite <- !app_assoc.
  - assert (exists c, good c /\ cur_ c = 0 /\
      (match nextBuffer_ s with Some b => (b, None) | None => (newBuffer, None) end) = (c, @None FixedBuffer))
      as (c & Hgc & Hc0 & Hnext).
    { pose proof (ai_next _ Hs) as Hn. destruct (nextBuffer_ s) as [c|]; [destruct Hn; by exists c|].
      destruct newBuffer_good. by exists newBuffer. }
    cbn [nextBuffer_ accept buffers_]. rewrite Hnext.
    destruct (append_good line c Hgc) as (c' & -> & Hc' & Htxt); cbn [res_bind].
    assert (avail c = Z.of_nat size) as Hac by (destruct Hgc; unfold avail; lia). rewrite Hac in Htxt.
    eexists; split; [done|]. split; [|done]. destruct Hs. split; cbn; try done; eauto.
    + by destruct (buffers_ s).
    + apply Forall_app; split; [done|by apply Forall_singleton].
    + intros H0. rewrite fitting_snoc, <- Ht, Htxt, text_app, text_singleton, (toString_empty c) by done.
      cbn [app]. by rewrite <- !app_assoc.
Qed.

Lemma stop_inv s : async_inv s -> async_inv (stop s).
Proof. intros []. by split. Qed.

Lemma spare_empty b : spare b -> empty_buffer b = true.
Proof. intros (x & -> & _ & Hx). unfold empty_buffer, length_. by rewrite Hx. Qed.

Lemma testRunning_inv s : async_inv s -> pc s = Top ->
  exists s', testRunning s = Ok s' /\ async_inv s' /\ accepted s' = accepted s /\
    pc s' = (if running_ s then Waiting else Done) /\ outputs s' = outputs s.
Proof.
  intros Hs Hpc. pose proof (ai_back _ Hs) as Hb. rewrite Hpc in Hb. destruct Hb as (H1 & H2 & H3).
  unfold testRunning. destruct (running_ s).
  - rewrite (spare_empty _ H1), (spare_empty _ H2), bool_decide_true by done. cbn [cassert res_bind].
    eexists; split; [done|]. split; [|done]. destruct Hs. by split.
  - eexists; split; [done|]. split; [|done]. destruct Hs. by split.
Qed.

Lemma swapBuffers_inv s : async_inv s -> pc s = Waiting ->
  exists s', swapBuffers s = Ok s' /\ async_inv s' /\ accepted s' = accepted s /\ pc s' = Writing /\
    outputs s' = outputs s /\ buffers_ s' = [] /\ lost s' = lost s /\
    (exists b, currentBuffer_ s' = Some b /\ toString b = []).
Proof.
  intros Hs Hpc. pose proof (ai_back _ Hs) as Hb. rewrite Hpc in Hb.
  destruct Hb as ((x & H1 & Hx & Hx0) & H2 & H3).
  destruct (ai_cur _ Hs) as (c & Hc & Hgc). pose proof (ai_text _ Hs) as Ht. rewrite Hc, H3 in Ht.
  unfold swapBuffers, deref. rewrite Hc; cbn [res_bind].
  rewrite bool_decide_false by (by destruct (buffers_ s)). cbn [negb cassert res_bind].
  assert (Forall good (buffers_ s ++ [c])) as Hall.
  { apply Forall_app; split; [apply (ai_bufs _ Hs)|by apply Forall_singleton]. }
  pose proof (ai_next _ Hs) as Hn. pose proof (ai_lost _ Hs) as Hl0.
  destruct (nextBuffer_ s) as [n|] eqn:En; eexists; (split; [reflexivity|]).
  all: split_and!; try done; [|exists x; split; [done|by apply toString_empty]].
  all: split; cbn; rewrite ?H1, ?H3; try done; eauto.
  - split_and!; [done|by destruct (buffers_ s)|by left].
  - intros H0. rewrite <- Ht, text_app, text_singleton, (toString_empty x), app_nil_r by done. done.
  - destruct H2 as (y & -> & Hy & Hy0). done.
  - split_and!; [done|by destruct (buffers_ s)|right; split; [done|]].
    rewrite len_app. change (len [c]) with 1. destruct (buffers_ s); [done|]. rewrite len_cons.
    pose proof (len_nonneg l). lia.
  - intros H0. rewrite <- Ht, text_app, text_singleton, (toString_empty x), app_nil_r by done. done.
Qed.

Lemma refill_None w : w <> [] -> Forall good w ->
  exists b w', refill None w = Ok (b, w') /\ spare b /\ Forall good w' /\ length w' = (length w - 1)%nat.
Proof.
  intros Hne Hw. unfold refill. rewrite bool_decide_false by done. cbn [negb cassert res_bind].
  destruct (last w) as [x|] eqn:E; [|by apply last_None in E].
  cbn [deref res_bind]. assert (good x) as [Hx Hx'].
  { apply last_Some_elem_of in E. rewrite Forall_forall in Hw. auto. }
  eexists _, _. split_and!; [reflexivity| |by apply Forall_take|rewrite length_take; lia].
  eexists; split; [done|]. split; [|done]. split; cbn; lia.
Qed.

Lemma written_lines out w :
  concat (entry_text <$> (out ++ (Lines ∘ toString <$> w))) = concat (entry_text <$> out) ++ text w.
Proof.
  rewrite fmap_app, concat_app. f_equal. unfold text. f_equal.
  rewrite <- list_fmap_compose. by apply list_fmap_ext.
Qed.

Lemma writeBuffers_inv s : async_inv s -> pc s = Writing ->
  exists s', writeBuffers s = Ok s' /\ async_inv s' /\ accepted s' = accepted s /\ pc s' = Top /\
    running_ s' = running_ s /\ (lost s' = 0 -> written s' = written s ++ text (buffersToWrite s)).
Proof.
  intros Hs Hpc. pose proof (ai_back _ Hs) as Hb. rewrite Hpc in Hb. destruct Hb as (H1 & H2 & H3).
  pose proof (ai_write _ Hs) as Hw. pose proof (ai_lost _ Hs) as Hlost. pose proof (ai_text _ Hs) as Ht.
  unfold writeBuffers. set (w0 := buffersToWrite s) in *.
  destruct (if 25 <? len w0 then (take 2 w0, outputs s ++ [Dropped (len w0 - 2)], lost s + (len w0 - 2))
            else (w0, outputs s, lost s)) as [[w out] n] eqn:E.
  assert (Forall good w /\ w <> [] /\ (2 <= len w0 -> 2 <= len w) /\ 0 <= n /\
    (n = 0 -> lost s = 0 /\ out = outputs s /\ w = w0)) as (Hgw & Hwne & Hw2 & Hn & Hn0).
  { destruct (Z.ltb_spec 25 (len w0)); injection E as <- <- <-; [|done].
    split_and!; [by apply Forall_take|by destruct w0| |lia|lia].
    intros. unfold len in *. rewrite length_take. lia. }
  set (w' := if 2 <? len w then take 2 w else w).
  assert (Forall good w' /\ w' <> [] /\ (2 <= len w0 -> 2 <= len w')) as (Hgw' & Hwne' & Hw2').
  { unfold w'. destruct (Z.ltb_spec 2 (len w)); [|done].
    split_and!; [by apply Forall_take|by destruct w|]. intros. unfold len in *. rewrite length_take. lia. }
  rewrite H1. destruct (refill_None w' Hwne' Hgw') as (b1 & w1 & -> & Hb1 & Hg1 & Hl1); cbn [res_bind].
  assert (exists b2 w2, refill (newBuffer2 s) w1 = Ok (b2, w2) /\ spare b2) as (b2 & w2 & -> & Hb2).
  { destruct H3 as [(x & Hx & Hgx)|[-> H3]].
    - rewrite Hx. eexists _, _; split; [done|]. by exists x.
    - destruct (refill_None w1) as (b2 & w2 & -> & Hb2 & _); [|done|eauto].
      intros ->. specialize (Hw2' H3). unfold len in Hw2'. cbn in Hl1. lia. }
  cbn [res_bind]. eexists; split; [done|].
  assert (n = 0 -> concat (entry_text <$> (out ++ (Lines ∘ toString <$> w))) = written s ++ text w0) as Hout.
  { intros (_ & -> & ->)%Hn0. by rewrite written_lines. }
  split_and!; try done.
  destruct Hs. split; cbn; try done.
  intros H0. destruct (Hn0 H0) as (Hl & _). rewrite <- (Ht Hl). unfold written at 1; cbn. rewrite Hout by done.
  by rewrite <- !app_assoc.
Qed.

Lemma step_inv s i : async_inv s -> exists s', step s i = Ok s' /\ async_inv s'.
Proof using size_pos.
  intros Hs. destruct i as [line| |]; cbn [step].
  - destruct (append_line_inv line s Hs) as (s' & E & Hs' & _). eauto.
  - eauto using stop_inv.
  - unfold backStep. destruct (pc s) eqn:Hpc; [..|eauto].
    + destruct (testRunning_inv s Hs Hpc) as (s' & E & Hs' & _); eauto.
    + destruct (swapBuffers_inv s Hs Hpc) as (s' & E & Hs' & _); eauto.
    + destruct (writeBuffers_inv s Hs Hpc) as (s' & E & Hs' & _); eauto.
Qed.

Lemma steps_inv s evs : async_inv s -> exists s', res_fold step s evs = Ok s' /\ async_inv s'.
Proof using size_pos.
  revert s; induction evs as [|i evs IH]; intros s Hs; cbn [res_fold]; [eauto|].
  destruct (step_inv s i Hs) as (s1 & -> & Hs1). cbn [res_bind]. by apply IH.
Qed.

(** ** Theorems *)

(** In every interleaving of appending threads, [stop] and the logging thread
    no assert fails and no null buffer is used, and unless more than 25 buffers
    piled up the lines are written in the order they were appended: what is
    written, followed by what the buffers still hold, is every line that fits a
    buffer, once. *)
Theorem async_keeps_lines evs :
  exists s, res_fold step started evs = Ok s /\
    (lost s = 0 ->
     written s ++ text (buffersToWrite s) ++ text (buffers_ s)
       ++ match currentBuffer_ s with Some b => toString b | None => [] end = fitting (accepted s)).
Proof using size_pos.
  destruct (steps_inv started evs started_inv) as (s & E & Hs). exists s. split; [done|]. apply (ai_text _ Hs).
Qed.

(** Once the logging thread waits, its next round writes everything appended
    before it took the buffers. *)
Theorem async_round_writes evs s :
  res_fold step started evs = Ok s -> pc s = Waiting -> len (buffers_ s) < 25 -> lost s = 0 ->
  exists s', res_fold step s [Back; Back] = Ok s' /\ written s' = fitting (accepted s) /\ pc s' = Top.
Proof using size_pos.
  intros E Hpc Hlen H0. destruct (steps_inv started evs started_inv) as (s1 & E1 & Hs).
  rewrite E in E1; injection E1 as <-.
  destruct (swapBuffers_inv s Hs Hpc) as (s1 & E1 & Hs1 & Ha1 & Hpc1 & Ho1 & Hb1 & Hl1 & (b & Hc & Hb)).
  destruct (writeBuffers_inv s1 Hs1 Hpc1) as (s2 & E2 & Hs2 & Ha2 & Hpc2 & _ & Hw2).
  cbn [res_fold step]. unfold backStep. rewrite Hpc, E1; cbn [res_bind]. rewrite Hpc1, E2; cbn [res_bind].
  exists s2. split_and!; [done| |done].
  pose proof (ai_text _ Hs1 ltac:(lia)) as Ht. rewrite Hb1, Hc, Hb, Ha1 in Ht.
  assert (lost s2 = 0) as Hl2.
  { unfold writeBuffers in E2. unfold swapBuffers in E1.
    destruct (ai_cur _ Hs) as (c & Hcur & _). rewrite Hcur in E1; cbn [deref res_bind] in E1.
    rewrite bool_decide_false in E1 by (by destruct (buffers_ s)). cbn [negb cassert res_bind] in E1.
    assert (buffersToWrite s1 = buffers_ s ++ [c]) as Hbw by
      (destruct (nextBuffer_ s); injection E1 as <-; done).
    rewrite Hbw in E2. rewrite (proj2 (Z.ltb_ge _ _)) in E2 by (rewrite len_app; change (len [c]) with 1; lia).
    apply res_bind_Ok in E2 as ([b1 w1] & _ & E2). apply res_bind_Ok in E2 as ([b2 w2] & _ & E2).
    injection E2 as <-. cbn. lia. }
  rewrite Hw2 by done. rewrite <- Ht. change (text []) with (@nil byte). by rewrite !app_nil_r.
Qed.
End Async.

(** ** Witnesses *)

Definition demo_line : list byte := bytes_of_string "hello".

Lemma async_keeps_lines_witness :
  exists s, res_fold (step 8) (started 8) [Append demo_line; Append demo_line; Back; Back; Append demo_line; Back]
      = Ok s /\
    (lost s = 0 ->
     written s ++ text (buffersToWrite s) ++ text (buffers_ s)
       ++ match currentBuffer_ s with Some b => toString b | None => [] end = fitting 8 (accepted s)).
Proof. apply async_keeps_lines. lia. Defined.

Lemma async_round_writes_witness :
  exists s s', res_fold (step 8) (started 8) [Append demo_line; Append demo_line; Back] = Ok s /\
    res_fold (step 8) s [Back; Back] = Ok s' /\ written s' = fitting 8 (accepted s) /\ pc s' = Top.
Proof.
  eexists.
  destruct (async_round_writes 8 ltac:(lia) [Append demo_line; Append demo_line; Back] _ eq_refl)
    as (s' & H); [vm_compute; reflexivity..|].
  exists s'. split; [reflexivity|exact H].
Defined.

(** [stop] can lose lines: a line appended while the thread writes, before
    [stop], is in no output when the thread has returned. *)
Theorem stop_loses_lines :
  exists s, res_fold (step 64) (started 64) [Back; Back; Append demo_line; Stop; Back; Back] = Ok s /\
    pc s = Done /\ accepted s = [demo_line] /\ lost s = 0 /\ written s = [].
Proof. eexists. split; [vm_compute; reflexivity|]. done. Qed.
