(* ===== verification/LogPipelines.v ===== *)
(** * From the front end of the logger to the files (src/src/muduo/base/AsyncLogging.cc,
    LogFile.cc)

    The logging thread of AsyncLog with the [LogFile output] it writes to: what each
    round hands over is appended buffer by buffer, with the clock that file sees, and
    flushed at the end of the round.  The composition says what a crash of the process
    can lose. *)

From S2P Require Import Prelude Formats TimeZones Timestamps LogStreams LogFiles AsyncLog.

(** The text of an entry; [when] is the time of a drop in letters. *)
Definition entry_bytes (when : list byte) (e : entry) : list byte :=
  match e with
  | Lines t => t
  | Dropped n =>
      fst (snprintf 256 (bytes_of_string "Dropped log messages at " ++ when ++ bytes_of_string ", "
        ++ decimal n ++ bytes_of_string " larger buffers" ++ [x0a]))
  end.

Record pipeline := mkPipeline { async : AsyncLogging; output : LogFile }.

Section Pipeline.
(** The size of a buffer, fwrite(3), and what file names are made of. *)
Variable (size : nat) (fwrite : nat -> Z -> Z) (gmtime_r : Z -> tm) (hostname : list byte) (pid : Z).

(** The log file has no mutex: only the logging thread uses it. *)
Definition output_append (when : list byte) (now : Z) (l : LogFile) (e : entry) : res LogFile :=
  LogFiles.append fwrite gmtime_r hostname pid false (entry_bytes when e) now l.

(** What a round of the logging thread does to its file: appends, then a flush; when
    the thread ends it flushes once more. *)
Definition output_round (s s' : AsyncLogging) (when : list byte) (now : Z) (l : LogFile) : res LogFile :=
  let! l := res_fold (output_append when now) l (drop (length (outputs s)) (outputs s')) in
  match pc s, pc s' with
  | Writing, _ | Top, Done => Ok (flush false l)
  | _, _ => Ok l
  end.

(** A step of any thread; [when] and [now] are the time it is. *)
Definition pipe_step (p : pipeline) (x : input * list byte * Z) : res pipeline :=
  let '(i, when, now) := x in
  let! s := step size (async p) i in
  let! l := output_round (async p) s when now (output p) in
  Ok (mkPipeline s l).

(** The thread has made its file. *)
Definition begin_pipeline (basename : list byte) (rollSize flushInterval checkEveryN now : Z) : res pipeline :=
  let! l := newLogFile gmtime_r hostname pid basename rollSize flushInterval checkEveryN now in
  Ok (mkPipeline (started size) l).
End Pipeline.

(** * Properties *)

(** What is in the files for certain when the process dies: closed files whole, of the
    last one what was flushed. *)
Definition durable_text (l : LogFile) : list byte :=
  concat (contents <$> closed l) ++
  match file_ l with Some f => take (Z.to_nat (flushed l)) (contents f) | None => [] end.

Definition is_lines (e : entry) : Prop := match e with Lines _ => True | Dropped _ => False end.

(** A step adds entries at the end, and drops buffers only with a notice. *)
Lemma step_outputs size s i s' :
  step size s i = Ok s' ->
  exists new, outputs s' = outputs s ++ new /\ lost s <= lost s' /\ (lost s' = lost s -> Forall is_lines new) /\
    (pc s = Writing -> i = Back -> pc s' = Top) /\ (new <> [] -> pc s = Writing).
Proof.
  intros E. destruct i as [line| |]; cbn [step] in E.
  - unfold append_line in E. res_inv E. destruct (_ <? _).
    + res_inv E. simplify_eq. exists []. cbn. rewrite app_nil_r. split_and!; done || lia.
    + cbn [nextBuffer_ accept] in E. destruct (nextBuffer_ s); res_inv E; simplify_eq; exists []; cbn; rewrite app_nil_r; split_and!; done || lia.
  - simplify_eq. exists []. cbn. rewrite app_nil_r. split_and!; done || lia.
  - unfold backStep in E. destruct (pc s) eqn:Hpc.
    + unfold testRunning in E. destruct (running_ s); res_inv E; simplify_eq; exists []; cbn; rewrite app_nil_r; split_and!; done || lia.
    + unfold swapBuffers in E. res_inv E. destruct (nextBuffer_ s); res_inv E; simplify_eq; exists []; cbn; rewrite app_nil_r; split_and!; done || lia.
    + unfold writeBuffers in E. destruct (Z.ltb_spec 25 (len (buffersToWrite s))) as [Hl|Hl].
      * res_inv E. destruct x as [b1 w1]. res_inv E. destruct x as [b2 w2]. injection E as <-.
        eexists. cbn [outputs set_back lost pc]. rewrite <- app_assoc. split; [reflexivity|]. split_and!; done || lia.
      * res_inv E. destruct x as [b1 w1]. res_inv E. destruct x as [b2 w2]. injection E as <-.
        eexists. cbn [outputs set_back lost pc]. split; [reflexivity|]. split_and!; try done || lia.
        intros _. apply Forall_fmap, Forall_true. done.
    + simplify_eq. exists []. rewrite app_nil_r. split_and!; done || lia.
Qed.

Section Proofs.
Context (size : nat) (size_pos : (0 < size)%nat).
Context (fwrite : nat -> Z -> Z) (Hfw : fwrite_ok fwrite) (gmtime_r : Z -> tm) (hostname : list byte) (pid : Z).

Local Abbreviation holds := (holds gmtime_r hostname pid).
Local Abbreviation pstep := (pipe_step size fwrite gmtime_r hostname pid).

(** Flushing changes no file, and leaves nothing that is not durable. *)
Lemma flush_holds groups l : holds groups l -> holds groups (flush false l).
Proof. intros [[H1 H2 H3] Hg]. split; [by split|done]. Qed.

Lemma flush_durable groups l : holds groups l -> durable_text (flush false l) = concat (concat groups).
Proof.
  intros [Hl Hg]. destruct (lf_file _ _ _ _ Hl) as (f & Hf & _). unfold durable_text. cbn [flush flushFile closed file_ flushed].
  rewrite Hf, take_ge by (unfold len; lia). unfold all_files in Hg. rewrite Hf in Hg. change (option_list (Some f)) with [f] in Hg.
  assert (concat (contents <$> closed l) ++ contents f = concat (contents <$> (closed l ++ [f]))) as ->.
  { rewrite fmap_app, concat_app. cbn. by rewrite app_nil_r. }
  rewrite Hg. clear. induction groups as [|g groups IH]; [done|]. cbn. by rewrite IH, concat_app.
Qed.

Lemma output_appends when now new l groups :
  holds groups l ->
  exists l' groups', res_fold (output_append fwrite gmtime_r hostname pid when now) l new = Ok l' /\ holds groups' l' /\
    concat groups' = concat groups ++ (entry_bytes when <$> new).
Proof.
  revert l groups. induction new as [|e new IH]; intros l groups Hl.
  - exists l, groups. by rewrite app_nil_r.
  - destruct (append_unlocked_holds fwrite Hfw gmtime_r hostname pid (entry_bytes when e) now l groups Hl) as (l1 & g1 & E & Hl1 & Hc).
    destruct (IH l1 g1 Hl1) as (l2 & g2 & E2 & Hl2 & Hc2). exists l2, g2. cbn [res_fold]. unfold output_append at 1. cbn [append].
    unfold append. rewrite E. cbn [res_bind]. split_and!; [done|done|]. by rewrite Hc2, Hc, <- app_assoc.
Qed.

(** The files hold what was handed over; what was handed over is durable. *)
Record pipe_inv (p : pipeline) (groups : list (list (list byte))) : Prop := {
  pv_async : async_inv size (async p);
  pv_holds : holds groups (output p);
  pv_lines : lost (async p) = 0 -> concat groups = entry_text <$> outputs (async p);
  pv_durable : durable_text (output p) = concat (concat groups);
}.

Lemma entry_bytes_lines when new : Forall is_lines new -> entry_bytes when <$> new = entry_text <$> new.
Proof. induction 1 as [|e new He _ IH]; [done|]. cbn. rewrite IH. by destruct e. Qed.

Lemma pipe_step_inv p groups x : pipe_inv p groups -> exists p' groups', pstep p x = Ok p' /\ pipe_inv p' groups'.
Proof.
  intros [Ha Hh Hl Hd]. destruct x as [[i when] now]. cbn [pipe_step].
  destruct (step_inv size size_pos (async p) i Ha) as (s & E & Hs). rewrite E. cbn [res_bind].
  destruct (step_outputs size (async p) i s E) as (new & Ho & Hlost & Hnew & Hpc & Hne).
  unfold output_round. rewrite Ho, drop_app_length.
  destruct (output_appends when now new (output p) groups Hh) as (l & groups' & E2 & Hh' & Hc). rewrite E2. cbn [res_bind].
  assert (lost s = 0 -> concat groups' = entry_text <$> outputs s) as Hl'.
  { intros H0. pose proof (ai_lost _ _ Ha). rewrite Hc, Ho, fmap_app, Hl by lia. f_equal.
    apply entry_bytes_lines, Hnew. lia. }
  assert (pipe_inv (mkPipeline s (flush false l)) groups') as Hf.
  { split; cbn [async output]; [done|by apply flush_holds|done|by apply flush_durable]. }
  assert (pc (async p) = Writing \/ new = []) as [Hw| ->].
  { destruct new; [by right|left; by apply Hne]. }
  - rewrite Hw. eexists _, _. split; [reflexivity|exact Hf].
  - cbn [res_fold] in E2. simplify_eq. rewrite app_nil_r in Hc.
    assert (pipe_inv (mkPipeline s (output p)) groups') as Hn.
    { split; cbn [async output]; [done|done|done|]. by rewrite Hd, Hc. }
    destruct (pc (async p)), (pc s); eexists _, _; (split; [reflexivity|done]).
Qed.
End Proofs.

(** C24: the logger from [append] to the files: however front-end threads, the logging
    thread and [stop] interleave, whatever the clock and however short the writes, as
    long as fwrite(3) meets no error, no assert fails, and unless more than 25 buffers piled up, what the files hold for
    certain, followed by what the buffers in memory hold, is every line that fits a
    buffer, once and in order: a crash loses the lines in memory and no others.  Each
    buffer that was written is whole in one file. *)
Theorem log_pipeline size fwrite gmtime_r hostname pid basename rollSize flushInterval checkEveryN now0 xs :
  (0 < size)%nat -> fwrite_ok fwrite -> x2f ∉ basename -> 0 < now0 ->
  exists p0 p groups,
    begin_pipeline size gmtime_r hostname pid basename rollSize flushInterval checkEveryN now0 = Ok p0 /\
    res_fold (pipe_step size fwrite gmtime_r hostname pid) p0 xs = Ok p /\
    let s := async p in
    (lost s = 0 ->
     durable_text (output p) ++ text (buffersToWrite s) ++ text (buffers_ s) ++
       match currentBuffer_ s with Some b => toString b | None => [] end = fitting size (accepted s)) /\
    contents <$> all_files (output p) = (@concat byte) <$> groups /\
    (lost s = 0 -> concat groups = entry_text <$> outputs s).
Proof.
  intros Hsz Hfw Hb H0. unfold begin_pipeline, newLogFile. rewrite bool_decide_false by done. cbn [negb cassert res_bind].
  set (l0 := fst _). assert (holds gmtime_r hostname pid [[]] l0) as H1.
  { unfold l0, rollFile. cbn [lastRoll_]. rewrite (proj2 (Z.ltb_lt _ _)) by done. cbn [fst].
    split; [|done]. split; cbn; [eauto|done|lia]. }
  assert (pipe_inv size gmtime_r hostname pid (mkPipeline (started size) l0) [[]]) as Hp.
  { split; cbn [async output]; [by apply started_inv|done|done|].
    unfold l0, rollFile. cbn [lastRoll_]. rewrite (proj2 (Z.ltb_lt _ _)) by done. done. }
  exists (mkPipeline (started size) l0). set (p0 := mkPipeline (started size) l0) in *. clearbody p0.
  assert (exists p groups, res_fold (pipe_step size fwrite gmtime_r hostname pid) p0 xs = Ok p /\
    pipe_inv size gmtime_r hostname pid p groups) as (p & groups & E & [Ha [_ Hg] Hl Hd]).
  { clear H1 l0. generalize dependent (@nil (list byte) :: []). revert p0. induction xs as [|x xs IH]; intros p0 groups Hp; [by exists p0, groups|].
    destruct (pipe_step_inv size Hsz fwrite Hfw gmtime_r hostname pid p0 groups x Hp) as (p1 & g1 & E1 & Hp1).
    cbn [res_fold]. rewrite E1. cbn [res_bind]. by eapply IH. }
  exists p, groups. split_and!; [done|done| |done|done].
  intros Hz. rewrite Hd, Hl by done. exact (ai_text _ _ Ha Hz).
Qed.

Definition demo_inputs : list (input * list byte * Z) :=
  (fun i => (i, [], 200)) <$>
  [Append (bytes_of_string "one "); Append (bytes_of_string "two "); Back; Back; Append (bytes_of_string "three ");
   Back; Back; Back; Append (bytes_of_string "four ")].

Lemma log_pipeline_witness :
  exists p0 p groups,
    begin_pipeline 16 (fun s => toUtcTime s true) (bytes_of_string "host") 1 (bytes_of_string "log") 5 3 2 100 = Ok p0 /\
    res_fold (pipe_step 16 demo_fwrite (fun s => toUtcTime s true) (bytes_of_string "host") 1) p0 demo_inputs = Ok p /\
    durable_text (output p) ++ text (buffersToWrite (async p)) ++ text (buffers_ (async p)) ++
      match currentBuffer_ (async p) with Some b => toString b | None => [] end = bytes_of_string "one two three four " /\
    contents <$> all_files (output p) = (@concat byte) <$> groups.
Proof.
  destruct (log_pipeline 16 demo_fwrite (fun s => toUtcTime s true) (bytes_of_string "host") 1 (bytes_of_string "log") 5 3 2 100 demo_inputs)
    as (p0 & p & groups & H1 & H2 & H3 & H4 & _).
  - lia.
  - intros k n Hn. unfold demo_fwrite. lia.
  - refine (bool_decide_unpack (x2f ∉ bytes_of_string "log") _). vm_compute. exact I.
  - lia.
  - exists p0, p, groups. split_and!; [done|done| |done].
    assert (lost (async p) = 0 /\ accepted (async p) = bytes_of_string <$> ["one "; "two "; "three "; "four "]) as [E1 E2].
    { vm_compute in H1. injection H1 as <-. vm_compute in H2. injection H2 as <-. done. }
    rewrite H3 by done. rewrite E2. reflexivity.
Defined.
