(* ===== verification/NetBuffer.v ===== *)
(** * The network buffer (src/src/muduo/net/Buffer.h, Buffer.cc)

    [Buffer] keeps a byte vector with a reader and a writer index; the bytes in
    between are the content.  Pointers into the vector are modelled as offsets
    from [begin()].  Every operation of the class is a function on the record,
    its asserts and out-of-object accesses are faults.

    The theorems: [inv] is kept by every operation; the class refines a byte
    string with queue operations ([buffer_refines]); integers written in network
    order are read back; [readFd] appends exactly the bytes the kernel
    delivered. *)

From S2P Require Import Prelude Endian.

(** ** State *)

Record Buffer := mkBuffer {
  buffer_ : list byte;
  readerIndex_ : Z;
  writerIndex_ : Z;
}.

Definition kCheapPrepend : Z := 8.
Definition kInitialSize : Z := 1024.
Definition kCRLF : list byte := [x0d; x0a].

(** [std::vector<char>(n)] value-initialises [n] bytes. *)
Definition newBuffer (initialSize : Z) : Buffer :=
  mkBuffer (replicate (Z.to_nat (kCheapPrepend + initialSize)) x00)
    kCheapPrepend kCheapPrepend.

(** ** Observers *)

Definition size (b : Buffer) : Z := len (buffer_ b).

Definition readableBytes (b : Buffer) : Z :=
  u64 (writerIndex_ b - readerIndex_ b).

Definition writableBytes (b : Buffer) : Z :=
  u64 (size b - writerIndex_ b).

Definition prependableBytes (b : Buffer) : Z := readerIndex_ b.

Definition peek (b : Buffer) : Z := readerIndex_ b.

Definition beginWrite (b : Buffer) : Z := writerIndex_ b.

(** The bytes at [p .. p+n), a fault if they are not all inside the vector. *)
Definition load (b : Buffer) (p n : Z) : res (list byte) :=
  if (0 <=? p) && (0 <=? n) && (p + n <=? size b)
  then Ok (slice p (p + n) (buffer_ b))
  else Fail OutOfRange.

(** [std::search(first, last, pat, pat + |pat|)] on a byte range: the offset of
    the first occurrence, the length of the range when there is none. *)
Fixpoint std_search (pat l : list byte) : Z :=
  if bool_decide (take (length pat) l = pat) then 0
  else match l with
       | [] => 0
       | _ :: l' => 1 + std_search pat l'
       end.

(** [memchr]. *)
Fixpoint memchr (c : byte) (l : list byte) : option Z :=
  match l with
  | [] => None
  | b :: l' =>
      if bool_decide (b = c) then Some 0
      else match memchr c l' with
           | Some i => Some (1 + i)
           | None => None
           end
  end.

Definition findCRLF_from (b : Buffer) (start : Z) : res (option Z) :=
  assert! peek b <=? start ;;
  assert! start <=? beginWrite b ;;
  let! l := load b start (beginWrite b - start) in
  let crlf := start + std_search kCRLF l in
  Ok (if crlf =? beginWrite b then None else Some crlf).

Definition findCRLF (b : Buffer) : res (option Z) :=
  let! l := load b (peek b) (beginWrite b - peek b) in
  let crlf := peek b + std_search kCRLF l in
  Ok (if crlf =? beginWrite b then None else Some crlf).

Definition findEOL (b : Buffer) : res (option Z) :=
  let! l := load b (peek b) (readableBytes b) in
  Ok (match memchr x0a l with Some i => Some (peek b + i) | None => None end).

Definition findEOL_from (b : Buffer) (start : Z) : res (option Z) :=
  assert! peek b <=? start ;;
  assert! start <=? beginWrite b ;;
  let! l := load b start (beginWrite b - start) in
  Ok (match memchr x0a l with Some i => Some (start + i) | None => None end).

(** ** Consuming *)

Definition retrieveAll (b : Buffer) : Buffer :=
  mkBuffer (buffer_ b) kCheapPrepend kCheapPrepend.

Definition retrieve (b : Buffer) (n : Z) : res Buffer :=
  assert! n <=? readableBytes b ;;
  if n <? readableBytes b
  then Ok (mkBuffer (buffer_ b) (u64 (readerIndex_ b + n)) (writerIndex_ b))
  else Ok (retrieveAll b).

Definition retrieveUntil (b : Buffer) (e : Z) : res Buffer :=
  assert! peek b <=? e ;;
  assert! e <=? beginWrite b ;;
  retrieve b (e - peek b).

Definition retrieveInt64 (b : Buffer) : res Buffer := retrieve b 8.
Definition retrieveInt32 (b : Buffer) : res Buffer := retrieve b 4.
Definition retrieveInt16 (b : Buffer) : res Buffer := retrieve b 2.
Definition retrieveInt8 (b : Buffer) : res Buffer := retrieve b 1.

Definition retrieveAsString (b : Buffer) (n : Z) : res (list byte * Buffer) :=
  assert! n <=? readableBytes b ;;
  let! result := load b (peek b) n in
  let! b' := retrieve b n in
  Ok (result, b').

Definition retrieveAllAsString (b : Buffer) : res (list byte * Buffer) :=
  retrieveAsString b (readableBytes b).

(** [StringPiece(peek(), static_cast<int>(readableBytes()))]: the length goes
    through a 32-bit signed integer. *)
Definition toStringPiece (b : Buffer) : Z * Z :=
  (peek b, i32 (readableBytes b)).

(** ** Producing *)

Definition makeSpace (b : Buffer) (n : Z) : res Buffer :=
  if u64 (writableBytes b + prependableBytes b) <? u64 (n + kCheapPrepend)
  then
    let! v := vector_resize x00 (u64 (writerIndex_ b + n)) (buffer_ b) in
    Ok (mkBuffer v (readerIndex_ b) (writerIndex_ b))
  else
    assert! kCheapPrepend <? readerIndex_ b ;;
    let readable := readableBytes b in
    let! data := load b (readerIndex_ b) (writerIndex_ b - readerIndex_ b) in
    let! v := splice kCheapPrepend data (buffer_ b) in
    let b' := mkBuffer v kCheapPrepend (u64 (kCheapPrepend + readable)) in
    assert! readable =? readableBytes b' ;;
    Ok b'.

Definition ensureWritableBytes (b : Buffer) (n : Z) : res Buffer :=
  let! b' := (if writableBytes b <? n then makeSpace b n else Ok b) in
  assert! n <=? writableBytes b' ;;
  Ok b'.

Definition hasWritten (b : Buffer) (n : Z) : res Buffer :=
  assert! n <=? writableBytes b ;;
  Ok (mkBuffer (buffer_ b) (readerIndex_ b) (u64 (writerIndex_ b + n))).

Definition unwrite (b : Buffer) (n : Z) : res Buffer :=
  assert! n <=? readableBytes b ;;
  Ok (mkBuffer (buffer_ b) (readerIndex_ b) (u64 (writerIndex_ b - n))).

(** [std::copy(data, data + len, p)] into the vector. *)
Definition store (b : Buffer) (p : Z) (data : list byte) : res Buffer :=
  let! v := splice p data (buffer_ b) in
  Ok (mkBuffer v (readerIndex_ b) (writerIndex_ b)).

(** [append(const char* data, size_t len)]; [src n] reads [n] bytes at [data]. *)
Definition append_from (b : Buffer) (src : Z -> res (list byte)) (n : Z) : res Buffer :=
  let! b1 := ensureWritableBytes b n in
  let! data := src n in
  let! b2 := store b1 (beginWrite b1) data in
  hasWritten b2 n.

(** [append] of a range that holds [data]. *)
Definition append (b : Buffer) (data : list byte) : res Buffer :=
  append_from b (fun _ => Ok data) (len data).

Definition prepend (b : Buffer) (data : list byte) : res Buffer :=
  assert! len data <=? prependableBytes b ;;
  let b1 := mkBuffer (buffer_ b) (u64 (readerIndex_ b - len data)) (writerIndex_ b) in
  store b1 (readerIndex_ b1) data.

Definition appendInt64 (b : Buffer) (x : Z) : res Buffer :=
  append b (le_bytes 8 (hostToNetwork64 x)).
Definition appendInt32 (b : Buffer) (x : Z) : res Buffer :=
  append b (le_bytes 4 (hostToNetwork32 x)).
Definition appendInt16 (b : Buffer) (x : Z) : res Buffer :=
  append b (le_bytes 2 (hostToNetwork16 x)).
Definition appendInt8 (b : Buffer) (x : Z) : res Buffer :=
  append b (le_bytes 1 x).

Definition prependInt64 (b : Buffer) (x : Z) : res Buffer :=
  prepend b (le_bytes 8 (hostToNetwork64 x)).
Definition prependInt32 (b : Buffer) (x : Z) : res Buffer :=
  prepend b (le_bytes 4 (hostToNetwork32 x)).
Definition prependInt16 (b : Buffer) (x : Z) : res Buffer :=
  prepend b (le_bytes 2 (hostToNetwork16 x)).
Definition prependInt8 (b : Buffer) (x : Z) : res Buffer :=
  prepend b (le_bytes 1 x).

(** ** Reading integers *)

Definition peekInt64 (b : Buffer) : res Z :=
  assert! 8 <=? readableBytes b ;;
  let! be64 := load b (peek b) 8 in
  Ok (i64 (networkToHost64 (le_value be64))).

Definition peekInt32 (b : Buffer) : res Z :=
  assert! 4 <=? readableBytes b ;;
  let! be32 := load b (peek b) 4 in
  Ok (i32 (networkToHost32 (le_value be32))).

Definition peekInt16 (b : Buffer) : res Z :=
  assert! 2 <=? readableBytes b ;;
  let! be16 := load b (peek b) 2 in
  Ok (i16 (networkToHost16 (le_value be16))).

Definition peekInt8 (b : Buffer) : res Z :=
  assert! 1 <=? readableBytes b ;;
  let! x := load b (peek b) 1 in
  Ok (i8 (le_value x)).

Definition readInt64 (b : Buffer) : res (Z * Buffer) :=
  let! result := peekInt64 b in
  let! b' := retrieveInt64 b in
  Ok (result, b').

Definition readInt32 (b : Buffer) : res (Z * Buffer) :=
  let! result := peekInt32 b in
  let! b' := retrieveInt32 b in
  Ok (result, b').

Definition readInt16 (b : Buffer) : res (Z * Buffer) :=
  let! result := peekInt16 b in
  let! b' := retrieveInt16 b in
  Ok (result, b').

Definition readInt8 (b : Buffer) : res (Z * Buffer) :=
  let! result := peekInt8 b in
  let! b' := retrieveInt8 b in
  Ok (result, b').

(** ** Shrinking, swapping, reading from a descriptor *)

Definition swap (b rhs : Buffer) : Buffer * Buffer := (rhs, b).

Definition shrink (b : Buffer) (reserve : Z) : res Buffer :=
  let other := newBuffer kInitialSize in
  let! other := ensureWritableBytes other (u64 (readableBytes b + reserve)) in
  let '(ptr, n) := toStringPiece b in
  let! other := append_from other (load b ptr) (u64 n) in
  Ok (fst (swap b other)).

(** What [readv(2)] returned: the bytes transferred, or an [errno].  [readv] is
    given the lengths of the buffers it may fill. *)
Inductive io_read : Type :=
| ReadBytes (data : list byte)
| ReadError (errno : Z).

Definition extrabuf_size : Z := 65536.

Definition readFd (readv : list Z -> io_read) (b : Buffer) : res (Z * Z * Buffer) :=
  let writable := writableBytes b in
  let iov := if writable <? extrabuf_size then [writable; extrabuf_size]
             else [writable] in
  match readv iov with
  | ReadError errno => Ok (-1, errno, b)
  | ReadBytes data =>
      let n := len data in
      let! b1 := store b (writerIndex_ b) (take (Z.to_nat writable) data) in
      if n <=? writable
      then Ok (n, 0, mkBuffer (buffer_ b1) (readerIndex_ b1) (u64 (writerIndex_ b1 + n)))
      else
        let b2 := mkBuffer (buffer_ b1) (readerIndex_ b1) (size b1) in
        let! b3 := append b2 (drop (Z.to_nat writable) data) in
        Ok (n, 0, b3)
  end.

(** ** Representation invariant *)

Definition inv (b : Buffer) : Prop :=
  0 <= readerIndex_ b /\ readerIndex_ b <= writerIndex_ b /\
  writerIndex_ b <= size b /\ kCheapPrepend <= size b <= max_size.

(** The readable bytes: the abstract value of a buffer. *)
Definition content (b : Buffer) : list byte :=
  slice (readerIndex_ b) (writerIndex_ b) (buffer_ b).

(** The vector cut at the two indices. *)
Definition rep (b : Buffer) (p c q : list byte) : Prop :=
  buffer_ b = p ++ c ++ q /\ readerIndex_ b = len p /\
  writerIndex_ b = len p + len c /\ kCheapPrepend <= size b <= max_size.

Ltac buf_lia :=
  unfold inv, rep, size, max_size, kCheapPrepend, extrabuf_size in *; simpl in *;
  autorewrite with len in *; lia.

Lemma inv_rep b :
  inv b ->
  rep b (take (Z.to_nat (readerIndex_ b)) (buffer_ b)) (content b)
    (drop (Z.to_nat (writerIndex_ b)) (buffer_ b)).
Proof.
  intros (? & ? & ? & ?); unfold rep, content, size in *.
  rewrite len_take, len_slice by lia.
  repeat split; try lia; apply slice_split; lia.
Qed.

Lemma rep_inv b p c q : rep b p c q -> inv b.
Proof.
  intros (E & Hr & Hw & Hs); unfold inv, size in *.
  rewrite E, !len_app in *.
  pose proof (len_nonneg p); pose proof (len_nonneg c); pose proof (len_nonneg q).
  lia.
Qed.

Lemma rep_content b p c q : rep b p c q -> content b = c.
Proof. intros (E & Hr & Hw & _); unfold content; rewrite E; by apply slice_middle. Qed.

Lemma rep_bytes b p c q :
  rep b p c q ->
  readableBytes b = len c /\ writableBytes b = len q /\ prependableBytes b = len p /\
  size b = len p + len c + len q.
Proof.
  intros (E & Hr & Hw & Hs).
  unfold readableBytes, writableBytes, prependableBytes, size in *.
  rewrite E, Hr, Hw, !len_app in *; unfold max_size in *.
  pose proof (len_nonneg p); pose proof (len_nonneg c); pose proof (len_nonneg q).
  rewrite !u64_small by lia; lia.
Qed.

Lemma readableBytes_content b : inv b -> readableBytes b = len (content b).
Proof. intros H%inv_rep; apply (rep_bytes _ _ _ _ H). Qed.

Lemma rep_load b p c q i n :
  rep b p c q -> 0 <= i -> 0 <= n -> i + n <= len c ->
  load b (peek b + i) n = Ok (slice i (i + n) c).
Proof.
  intros H Hi Hn Hin; pose proof (rep_bytes _ _ _ _ H) as (_ & _ & _ & Hs).
  destruct H as (E & Hr & Hw & _); unfold load, peek; rewrite Hr, Hs.
  pose proof (len_nonneg p); pose proof (len_nonneg q).
  rewrite (proj2 (Z.leb_le 0 (len p + i))), (proj2 (Z.leb_le 0 n)),
    (proj2 (Z.leb_le (len p + i + n) _)) by lia; simpl.
  f_equal; rewrite E; unfold slice.
  replace (Z.to_nat (len p + i)) with (length p + Z.to_nat i)%nat by (unfold len; lia).
  rewrite <- drop_drop, drop_app_length, drop_app_le by (unfold len in *; lia).
  rewrite take_app_le by (rewrite length_drop; unfold len in *; lia).
  f_equal; lia.
Qed.

(** The prefix of the content is what a load at [peek()] reads. *)
Lemma load_peek b n :
  inv b -> 0 <= n <= len (content b) ->
  load b (peek b) n = Ok (take (Z.to_nat n) (content b)).
Proof.
  intros H%inv_rep [??].
  rewrite <- (Z.add_0_r (peek b)).
  rewrite (rep_load _ _ _ _ 0 n H) by lia.
  unfold slice; rewrite drop_0; do 2 f_equal; lia.
Qed.

(** ** Functional specifications of the operations *)

(** The computation returns a well-formed buffer with content [c] in a vector
    of at most [s] bytes, with at least [room] prependable bytes. *)
Definition yields (r : res Buffer) (c : list byte) (s room : Z) : Prop :=
  exists b', r = Ok b' /\ inv b' /\ content b' = c /\ size b' <= s /\
    room <= prependableBytes b'.

(** The prepend room an operation on [b] that may compact it still leaves. *)
Definition keptRoom (b : Buffer) : Z := Z.min (prependableBytes b) kCheapPrepend.

Lemma rep_yields b p c q s room :
  rep b p c q -> size b <= s -> room <= len p -> yields (Ok b) c s room.
Proof.
  intros H Hs Hr; exists b; split_and!; eauto using rep_inv, rep_content.
  by rewrite (proj1 (proj2 (proj2 (rep_bytes _ _ _ _ H)))).
Qed.

Lemma newBuffer_rep n :
  0 <= n -> kCheapPrepend + n <= max_size ->
  rep (newBuffer n) (replicate 8 x00) [] (replicate (Z.to_nat n) x00).
Proof.
  intros Hn Hm; unfold rep, newBuffer, size; cbn [buffer_ readerIndex_ writerIndex_].
  rewrite !len_replicate; unfold kCheapPrepend in *.
  replace (Z.to_nat (8 + n)) with (8 + Z.to_nat n)%nat by lia.
  rewrite replicate_add; repeat split; simpl; lia.
Qed.

Lemma retrieveAll_spec b :
  inv b -> yields (Ok (retrieveAll b)) [] (size b) kCheapPrepend.
Proof.
  intros (? & ? & ? & ?).
  apply (rep_yields _ (take 8 (buffer_ b)) [] (drop 8 (buffer_ b))); [|done|];
    [|unfold size, kCheapPrepend, len in *; rewrite length_take; lia].
  unfold rep, retrieveAll; cbn [buffer_ readerIndex_ writerIndex_].
  rewrite app_nil_l, take_drop; unfold size, kCheapPrepend, len in *; simpl.
  rewrite length_take; repeat split; lia.
Qed.

Lemma retrieve_spec b n :
  inv b -> 0 <= n <= len (content b) ->
  yields (retrieve b n) (drop (Z.to_nat n) (content b)) (size b) (keptRoom b).
Proof.
  intros Hi Hn; unfold retrieve; rewrite readableBytes_content by done.
  rewrite (proj2 (Z.leb_le _ _)) by lia; simpl.
  destruct (Z.ltb_spec n (len (content b))).
  - pose proof (inv_rep _ Hi) as H0; set (c := content b) in *.
    set (p := take _ _) in H0; set (q := drop _ _) in H0.
    destruct H0 as (E & Hr & Hw & Hs); pose proof (len_nonneg p).
    assert (len (take (Z.to_nat n) c) = n) as Ht by (apply len_take; lia).
    assert (len (drop (Z.to_nat n) c) = len c - n) as Hd by (apply len_drop; lia).
    apply (rep_yields _ (p ++ take (Z.to_nat n) c) _ q); [|done|];
      [|unfold keptRoom, prependableBytes; rewrite len_app; lia].
    destruct Hi as (? & ? & ? & ?); rewrite u64_small by buf_lia.
    unfold rep; cbn [buffer_ readerIndex_ writerIndex_].
    rewrite <- app_assoc, (app_assoc (take _ c)), take_drop.
    split; [done|]; buf_lia.
  - replace n with (len (content b)) by lia.
    rewrite drop_ge by (unfold len; lia).
    destruct (retrieveAll_spec b Hi) as (b' & ? & ? & ? & ? & ?).
    exists b'; split_and!; try done; unfold keptRoom; lia.
Qed.

(** [makeSpace], first branch: the vector grows at its end. *)
Lemma makeSpace_grow b p c q n :
  rep b p c q -> len q < n -> n <= max_size -> len p + len c + n <= max_size ->
  len q + len p < n + kCheapPrepend ->
  exists b', makeSpace b n = Ok b' /\
    rep b' p c (q ++ replicate (Z.to_nat (n - len q)) x00).
Proof.
  intros H Hq Hn Hn' Hlt; pose proof (rep_bytes _ _ _ _ H) as (Hrd & Hw & Hp & Hs).
  pose proof (len_nonneg p); pose proof (len_nonneg c); pose proof (len_nonneg q).
  destruct H as (E & Er & Ew & Esz); unfold makeSpace; rewrite Hw, Hp.
  rewrite !u64_small by buf_lia.
  rewrite (proj2 (Z.ltb_lt _ _)) by done.
  rewrite vector_resize_grow by (rewrite ?E; buf_lia); simpl.
  eexists; split; [done|].
  replace (writerIndex_ b + n - len (buffer_ b)) with (n - len q) by (rewrite E; buf_lia).
  unfold rep, size; cbn [buffer_ readerIndex_ writerIndex_].
  rewrite E, <- !app_assoc; repeat split; try done; buf_lia.
Qed.

(** The vector seen from the compacted content: eight bytes, the place the
    content moves to, the rest. *)
Lemma compact_split (p c q : list byte) :
  8 < len p ->
  p ++ c ++ q = take 8 p ++ take (length c) (drop 8 (p ++ c ++ q)) ++
                drop (8 + length c) (p ++ c ++ q) /\
  len (take 8 p) = 8 /\
  len (take (length c) (drop 8 (p ++ c ++ q))) = len c /\
  len (drop (8 + length c) (p ++ c ++ q)) = len p + len q - 8.
Proof.
  intros Hp; unfold len in *; split_and!.
  - replace (take 8 p) with (take 8 (p ++ c ++ q)) by (rewrite take_app_le; [done|lia]).
    by rewrite <- drop_drop, take_drop, take_drop.
  - rewrite length_take; lia.
  - rewrite length_take, length_drop, !length_app; lia.
  - rewrite length_drop, !length_app; lia.
Qed.

(** [makeSpace], second branch: the content moves to the front.  The assert on
    the reader index holds by the two tests that lead to this branch. *)
Lemma makeSpace_compact b p c q n :
  rep b p c q -> len q < n -> n <= max_size ->
  n + kCheapPrepend <= len q + len p ->
  exists b' p' q', makeSpace b n = Ok b' /\ rep b' p' c q' /\
    len p' = kCheapPrepend /\ len q' = len p + len q - kCheapPrepend /\ size b' = size b.
Proof.
  intros H Hq Hn Hge; pose proof (rep_bytes _ _ _ _ H) as (Hrd & Hw & Hp & Hs).
  pose proof (len_nonneg p); pose proof (len_nonneg c); pose proof (len_nonneg q).
  assert (load b (readerIndex_ b) (writerIndex_ b - readerIndex_ b) = Ok c) as HL.
  { pose proof (rep_load b p c q 0 (len c) H ltac:(lia) ltac:(lia) ltac:(lia)) as HL.
    rewrite slice_all in HL by lia; rewrite <- HL; unfold peek.
    destruct H as (_ & -> & -> & _); f_equal; lia. }
  destruct H as (E & Er & Ew & Esz); unfold makeSpace; rewrite Hw, Hp.
  rewrite !u64_small by buf_lia.
  rewrite (proj2 (Z.ltb_ge _ _)) by done.
  rewrite (proj2 (Z.ltb_lt kCheapPrepend _)) by buf_lia; cbn [res_bind cassert]; rewrite HL; cbn [res_bind].
  destruct (compact_split p c q ltac:(buf_lia)) as (Ev & Lv & Lo & Lq).
  set (v := take 8 p) in *; set (w := drop (8 + length c) _) in *; set (o := take (length c) _) in *.
  rewrite E, Ev, (splice_Ok _ c v o w) by done; cbn [res_bind]; rewrite Hrd.
  assert (rep (mkBuffer (v ++ c ++ w) kCheapPrepend (kCheapPrepend + len c)) v c w)
    as Hrep.
  { unfold rep, size; cbn [buffer_ readerIndex_ writerIndex_].
    rewrite Lv; repeat split; try done; buf_lia. }
  pose proof (rep_bytes _ _ _ _ Hrep) as (Hrd' & Hw' & Hp' & Hs').
  rewrite Hrd', Z.eqb_refl; cbn [res_bind cassert].
  eexists _, v, w; split; [done|]; split; [done|]; buf_lia.
Qed.

(** Growing or compacting keeps the content and makes [n] bytes writable. *)
Lemma ensureWritableBytes_rep b n :
  inv b -> 0 <= n -> size b + n <= max_size ->
  exists b' p q, ensureWritableBytes b n = Ok b' /\ rep b' p (content b) q /\
    n <= len q /\ size b' <= size b + n /\ keptRoom b <= len p.
Proof.
  intros Hi Hn0 Hn; pose proof (inv_rep _ Hi) as H0.
  set (p := take _ _) in H0; set (q := drop _ _) in H0; set (c := content b) in *.
  pose proof (rep_bytes _ _ _ _ H0) as (Hrd & Hw & Hp & Hs).
  pose proof (len_nonneg p); pose proof (len_nonneg c); pose proof (len_nonneg q).
  unfold ensureWritableBytes, keptRoom; rewrite Hw, Hp.
  assert (exists b' p' q', (if len q <? n then makeSpace b n else Ok b) = Ok b' /\
            rep b' p' c q' /\ n <= len q' /\ size b' <= size b + n /\
            Z.min (len p) kCheapPrepend <= len p')
    as (b' & p' & q' & -> & Hrep & Hq & Hs' & Hroom).
  { destruct (Z.ltb_spec (len q) n); [|exists b, p, q; split_and!; try done; lia].
    destruct (Z.lt_ge_cases (len q + len p) (n + kCheapPrepend)) as [Hlt|Hge].
    - destruct (makeSpace_grow b p c q n) as (b' & -> & Hrep); try done; [buf_lia..|].
      pose proof (rep_bytes _ _ _ _ Hrep) as (_ & _ & _ & Hs').
      do 3 eexists; split; [done|]; split; [exact Hrep|]; buf_lia.
    - destruct (makeSpace_compact b p c q n) as (b' & p' & q' & -> & Hrep & Hlp & Hl & Hs');
        try done; [buf_lia|].
      do 3 eexists; split; [done|]; split; [exact Hrep|]; buf_lia. }
  simpl; rewrite (proj1 (proj2 (rep_bytes _ _ _ _ Hrep))).
  rewrite (proj2 (Z.leb_le _ _)) by done; simpl; eauto 10.
Qed.

(** Writing [data] at the writer index and advancing it. *)
Lemma write_rep b p c q data :
  rep b p c q -> len data <= len q ->
  exists b2, store b (beginWrite b) data = Ok b2 /\
    rep b2 p c (data ++ drop (length data) q) /\
    exists b3, hasWritten b2 (len data) = Ok b3 /\
      rep b3 p (c ++ data) (drop (length data) q) /\ size b3 = size b.
Proof.
  intros H Hd; pose proof (rep_bytes _ _ _ _ H) as (_ & _ & _ & Hs).
  destruct H as (E & Er & Ew & Esz).
  pose proof (len_nonneg p); pose proof (len_nonneg c); pose proof (len_nonneg data).
  unfold store, beginWrite; rewrite E, Ew.
  replace (p ++ c ++ q) with ((p ++ c) ++ take (length data) q ++ drop (length data) q)
    by (by rewrite take_drop, app_assoc).
  assert (len data = len (take (length data) q)) as Hlt
    by (unfold len in *; rewrite length_take; lia).
  rewrite (splice_Ok _ data (p ++ c)) by (rewrite ?len_app; lia); simpl.
  assert (len (drop (length data) q) = len q - len data) as Hld
    by (unfold len in *; rewrite length_drop; lia).
  eexists; split; [done|].
  match goal with |- rep ?b2 _ _ _ /\ _ => assert (rep b2 p c (data ++ drop (length data) q)) as Hrep end.
  { unfold rep, size; cbn [buffer_ readerIndex_ writerIndex_].
    rewrite <- !app_assoc; repeat split; try done; buf_lia. }
  split; [exact Hrep|]; unfold hasWritten.
  rewrite (proj1 (proj2 (rep_bytes _ _ _ _ Hrep))), len_app.
  rewrite (proj2 (Z.leb_le _ _)) by (pose proof (len_nonneg (drop (length data) q)); lia).
  simpl; eexists; split; [done|].
  unfold rep, size; cbn [buffer_ readerIndex_ writerIndex_].
  rewrite u64_small by buf_lia.
  rewrite <- !app_assoc; repeat split; try done; buf_lia.
Qed.

Lemma append_from_spec b src data :
  inv b -> size b + len data <= max_size -> src (len data) = Ok data ->
  yields (append_from b src (len data)) (content b ++ data) (size b + len data) (keptRoom b).
Proof.
  intros Hi Hd Hsrc; unfold append_from.
  destruct (ensureWritableBytes_rep b (len data)) as (b1 & p & q & -> & H1 & Hq & Hs1 & Hr1);
    auto with cpp.
  cbn [res_bind]; rewrite Hsrc; cbn [res_bind].
  destruct (write_rep b1 p (content b) q data) as (b2 & -> & _ & b3 & H3 & Hrep & Hs3);
    [done..|].
  cbn [res_bind]; rewrite H3; eapply rep_yields; [exact Hrep|lia|done].
Qed.

Lemma append_spec b data :
  inv b -> size b + len data <= max_size ->
  yields (append b data) (content b ++ data) (size b + len data) (keptRoom b).
Proof. intros; by apply append_from_spec. Qed.

Lemma prepend_spec b data :
  inv b -> len data <= prependableBytes b ->
  exists b', prepend b data = Ok b' /\ inv b' /\ content b' = data ++ content b /\
    size b' = size b /\ prependableBytes b' = prependableBytes b - len data.
Proof.
  intros Hi Hd; pose proof (inv_rep _ Hi) as H0.
  set (p := take _ _) in H0; set (q := drop _ _) in H0; set (c := content b) in *.
  pose proof (rep_bytes _ _ _ _ H0) as (Hrd & Hw & Hp & Hs).
  pose proof (len_nonneg data); pose proof (len_nonneg c); pose proof (len_nonneg q).
  destruct H0 as (E & Er & Ew & Esz); unfold prepend; rewrite Hp in *.
  rewrite (proj2 (Z.leb_le _ _)) by done; cbn [res_bind cassert readerIndex_].
  unfold store; cbn [buffer_ readerIndex_ writerIndex_].
  rewrite Er, u64_small by buf_lia.
  set (k := Z.to_nat (len p - len data)).
  assert (len (take k p) = len p - len data) as Lt by (apply len_take; lia).
  assert (len (drop k p) = len data) as Ld by (unfold k; rewrite len_drop; lia).
  replace (buffer_ b) with (take k p ++ drop k p ++ (c ++ q))
    by (by rewrite app_assoc, take_drop).
  rewrite (splice_Ok _ data) by lia; cbn [res_bind].
  match goal with |- context [Ok ?b2] => assert (rep b2 (take k p) (data ++ c) q) as Hrep end.
  { unfold rep; cbn [buffer_ readerIndex_ writerIndex_].
    rewrite <- !app_assoc; repeat split; try done; buf_lia. }
  pose proof (rep_bytes _ _ _ _ Hrep) as (_ & _ & Hp' & Hs').
  eexists; split_and!; [done|by eapply rep_inv|by eapply rep_content|buf_lia|buf_lia].
Qed.

Lemma unwrite_spec b n :
  inv b -> 0 <= n <= len (content b) ->
  yields (unwrite b n) (take (Z.to_nat (len (content b) - n)) (content b)) (size b)
    (prependableBytes b).
Proof.
  intros Hi Hn; unfold unwrite; rewrite readableBytes_content by done.
  rewrite (proj2 (Z.leb_le _ _)) by lia; cbn [res_bind cassert].
  pose proof (inv_rep _ Hi) as H0; set (c := content b) in *.
  set (p := take _ _) in H0; set (q := drop _ _) in H0.
  destruct H0 as (E & Hr & Hw & Hs); pose proof (len_nonneg p).
  set (k := Z.to_nat (len c - n)).
  assert (len (take k c) = len c - n) as Ht by (apply len_take; lia).
  apply (rep_yields _ p (take k c) (drop k c ++ q)); [|done|by unfold prependableBytes; lia].
  destruct Hi as (? & ? & ? & ?); rewrite u64_small by buf_lia.
  unfold rep; cbn [buffer_ readerIndex_ writerIndex_].
  rewrite (app_assoc (take _ c)), take_drop; split; [done|]; buf_lia.
Qed.

(** [hasWritten] exposes the first [n] bytes behind the writer index. *)
Lemma hasWritten_spec b n :
  inv b -> 0 <= n <= writableBytes b ->
  yields (hasWritten b n)
    (content b ++ slice (writerIndex_ b) (writerIndex_ b + n) (buffer_ b)) (size b)
    (prependableBytes b).
Proof.
  intros Hi Hn; pose proof (inv_rep _ Hi) as H0; set (c := content b) in *.
  set (p := take _ _) in H0; set (q := drop _ _) in H0.
  pose proof (rep_bytes _ _ _ _ H0) as (Hrd & Hw & Hp & Hs).
  unfold hasWritten; rewrite (proj2 (Z.leb_le _ _)) by lia; cbn [res_bind cassert].
  rewrite Hw in Hn; destruct H0 as (E & Er & Ew & Esz).
  assert (slice (writerIndex_ b) (writerIndex_ b + n) (buffer_ b) = take (Z.to_nat n) q) as ->.
  { unfold slice, q; do 2 f_equal; lia. }
  apply (rep_yields _ p _ (drop (Z.to_nat n) q)); [|done|by unfold prependableBytes; lia].
  pose proof (len_nonneg p); pose proof (len_nonneg c).
  rewrite u64_small by buf_lia.
  unfold rep; cbn [buffer_ readerIndex_ writerIndex_].
  rewrite <- (app_assoc c), take_drop; split; [done|].
  rewrite len_app, len_take by lia; buf_lia.
Qed.

(** The default-constructed buffer. *)
Lemma defaultBuffer_spec :
  inv (newBuffer kInitialSize) /\ content (newBuffer kInitialSize) = [] /\
  size (newBuffer kInitialSize) = 1032 /\ keptRoom (newBuffer kInitialSize) = 8.
Proof.
  pose proof (newBuffer_rep kInitialSize ltac:(done) ltac:(done)) as R.
  split_and!; [by eapply rep_inv|by eapply rep_content|done|done].
Qed.

Lemma shrink_spec b reserve :
  inv b -> 0 <= reserve -> len (content b) < 2 ^ 31 ->
  kCheapPrepend + kInitialSize + (len (content b) + reserve) + len (content b) <= max_size ->
  yields (shrink b reserve) (content b)
    (kCheapPrepend + kInitialSize + (len (content b) + reserve) + len (content b)) kCheapPrepend.
Proof.
  intros Hi Hr0 Hc Hr.
  change (kCheapPrepend + kInitialSize) with 1032 in *.
  pose proof (len_nonneg (content b)); unfold shrink.
  rewrite readableBytes_content by done; rewrite u64_small by (unfold max_size in *; lia).
  destruct defaultBuffer_spec as (Hi0 & Hc0 & Hs0 & Hk0).
  generalize dependent (newBuffer kInitialSize); intros nb Hi0 Hc0 Hs0 Hk0.
  destruct (ensureWritableBytes_rep nb (len (content b) + reserve))
    as (b1 & p & q & -> & H1 & Hq & Hs1 & Hr1); [done|lia|lia|].
  cbn [res_bind]; unfold toStringPiece; rewrite readableBytes_content by done.
  assert (i32 (len (content b)) = len (content b)) as ->.
  { apply swrap_small; unfold in_signed; simpl; lia. }
  rewrite u64_small by lia.
  destruct (append_from_spec b1 (load b (peek b)) (content b))
    as (b2 & -> & Hi2 & Hc2 & Hs2 & Hr2).
  - by eapply rep_inv.
  - lia.
  - rewrite load_peek by (done || lia); by rewrite take_ge by (unfold len; lia).
  - cbn [res_bind swap fst]; eexists; split_and!; [done|done| |lia|].
    + by rewrite Hc2, (rep_content _ _ _ _ H1), Hc0.
    + unfold keptRoom in Hr2; rewrite (proj1 (proj2 (proj2 (rep_bytes _ _ _ _ H1)))) in Hr2.
      unfold kCheapPrepend in *; lia.
Qed.

(** ** [readFd] *)

(** POSIX: [readv] never transfers more bytes than its buffers hold. *)
Definition readv_ok (readv : list Z -> io_read) : Prop :=
  forall iov data, Forall (Z.le 0) iov -> readv iov = ReadBytes data ->
    len data <= foldr Z.add 0 iov.

Lemma readFd_data readv b data :
  inv b -> readv_ok readv ->
  readv (if writableBytes b <? extrabuf_size then [writableBytes b; extrabuf_size]
         else [writableBytes b]) = ReadBytes data ->
  size b + extrabuf_size <= max_size ->
  exists b', readFd readv b = Ok (len data, 0, b') /\ inv b' /\
    content b' = content b ++ data /\ keptRoom b <= prependableBytes b' /\
    size b' <= size b + extrabuf_size.
Proof.
  intros Hi Hok Hrd Hmax.
  assert (0 <= writableBytes b) as Hw0 by (apply uwrap_range; lia).
  assert (len data <= foldr Z.add 0 (if writableBytes b <? extrabuf_size
            then [writableBytes b; extrabuf_size] else [writableBytes b])) as Hlen.
  { apply (Hok _ _); [|done]; by destruct (_ <? _); repeat constructor. }
  unfold readFd; rewrite Hrd.
  pose proof (inv_rep _ Hi) as H0; set (p := take _ _) in H0; set (q := drop _ _) in H0.
  pose proof (rep_bytes _ _ _ _ H0) as (_ & Hw & Hp & Hs); rewrite Hw in *.
  pose proof (len_nonneg p); pose proof (len_nonneg (content b)).
  set (k := Z.to_nat (len q)).
  assert (len (take k data) <= len q) as Hk by (unfold k, len; rewrite length_take; lia).
  destruct (write_rep b p (content b) q (take k data) H0 Hk)
    as (b1 & Hst & R1 & b2 & Hw2 & R2 & Hs2).
  unfold beginWrite in Hst; rewrite Hst; cbn [res_bind].
  destruct (Z.leb_spec (len data) (len q)).
  - rewrite take_ge in R2, Hw2 by (unfold k, len in *; lia).
    unfold hasWritten in Hw2; apply res_bind_Ok in Hw2 as (? & _ & [= <-]).
    eexists; split; [done|]; split; [by eapply rep_inv|]; split; [by eapply rep_content|].
    rewrite (proj1 (proj2 (proj2 (rep_bytes _ _ _ _ R2)))); unfold keptRoom, extrabuf_size.
    unfold size in *; cbn [buffer_] in *; lia.
  - assert (length (take k data) = k) as Hlk by (rewrite length_take; unfold k, len in *; lia).
    assert (size b1 = size b) as Hsz.
    { rewrite (proj2 (proj2 (proj2 (rep_bytes _ _ _ _ R1)))), Hs, len_app.
      rewrite Hlk; unfold len in *; rewrite length_drop, Hlk; unfold k; lia. }
    assert (drop k q = []) as Hnil by (apply drop_ge; unfold k, len; lia).
    assert (rep (mkBuffer (buffer_ b1) (readerIndex_ b1) (size b1)) p
              (content b ++ take k data) []) as R3.
    { destruct R1 as (E1 & Er1 & Ew1 & Es1); unfold rep; cbn [buffer_ readerIndex_ writerIndex_].
      rewrite Hlk, Hnil, app_nil_r in E1; rewrite E1, app_nil_r; unfold size in *.
      cbn [buffer_]; rewrite E1 in *; repeat split; try done; buf_lia. }
    assert (len (drop k data) <= extrabuf_size) as Hdk.
    { destruct (Z.ltb_spec (len q) extrabuf_size); simpl in Hlen;
        unfold k, len in *; rewrite length_drop; lia. }
    destruct (append_spec _ (drop k data) (rep_inv _ _ _ _ R3)) as (b4 & R4 & Hi4 & Hc4 & Hs4 & Hr4).
    { unfold size in *; cbn [buffer_]; rewrite Hsz; lia. }
    rewrite R4; cbn [res_bind]; eexists; split_and!; [done|done| | |].
    + by rewrite Hc4, (rep_content _ _ _ _ R3), <- app_assoc, take_drop.
    + unfold keptRoom in *; rewrite (proj1 (proj2 (proj2 (rep_bytes _ _ _ _ R3)))) in Hr4.
      lia.
    + unfold size in *; cbn [buffer_] in *; rewrite Hsz in Hs4; lia.
Qed.

(** The same without a bound on the size: the operations can only give up with
    [length_error]. *)
Lemma ensureWritableBytes_safe b n :
  inv b -> 0 <= n <= max_size ->
  safe (ensureWritableBytes b n) (fun b' => exists p q, rep b' p (content b) q /\ n <= len q).
Proof.
  intros Hi Hn; pose proof (inv_rep _ Hi) as H0.
  set (p := take _ _) in H0; set (q := drop _ _) in H0; set (c := content b) in *.
  pose proof (rep_bytes _ _ _ _ H0) as (Hrd & Hw & Hp & Hs).
  pose proof (len_nonneg p); pose proof (len_nonneg c); pose proof (len_nonneg q).
  unfold ensureWritableBytes; rewrite Hw.
  apply safe_bind' with (fun b' => exists p q, rep b' p c q /\ n <= len q).
  - destruct (Z.ltb_spec (len q) n); [|by exists p, q].
    destruct (Z.lt_ge_cases (len q + len p) (n + kCheapPrepend)) as [Hlt|Hge].
    + destruct (Z.le_gt_cases (len p + len c + n) max_size).
      * destruct (makeSpace_grow b p c q n) as (b' & -> & Hrep); try done; [lia|].
        simpl; do 2 eexists; split; [exact Hrep|]; rewrite len_app, len_replicate; lia.
      * destruct H0 as (E & Er & Ew & Esz); unfold makeSpace; rewrite Hw, Hp.
        rewrite !u64_small by buf_lia.
        rewrite (proj2 (Z.ltb_lt _ _)) by done; unfold vector_resize.
        by rewrite (proj2 (Z.leb_gt _ _)) by lia.
    + destruct (makeSpace_compact b p c q n) as (b' & p' & q' & -> & Hrep & Hlp & Hl & Hs');
        try done; [lia|].
      simpl; exists p', q'; split; [done|lia].
  - intros b' (p' & q' & Hrep & Hq); apply safe_assert; [|simpl; eauto].
    rewrite (proj1 (proj2 (rep_bytes _ _ _ _ Hrep))); by apply Z.leb_le.
Qed.

Lemma append_safe b data :
  inv b -> len data <= max_size ->
  safe (append b data) (fun b' => inv b' /\ content b' = content b ++ data).
Proof.
  intros Hi Hd; unfold append, append_from.
  eapply safe_bind'; [apply ensureWritableBytes_safe; auto with cpp|].
  intros b1 (p & q & Hrep & Hq); cbn [res_bind].
  destruct (write_rep b1 p (content b) q data Hrep Hq) as (b2 & -> & _ & b3 & H3 & R3 & _).
  cbn [res_bind]; rewrite H3; simpl; eauto using rep_inv, rep_content.
Qed.

Lemma readFd_safe readv b :
  inv b -> readv_ok readv ->
  safe (readFd readv b) (fun '(n, e, b') => inv b' /\
    match readv (if writableBytes b <? extrabuf_size then [writableBytes b; extrabuf_size]
                 else [writableBytes b]) with
    | ReadBytes data => n = len data /\ content b' = content b ++ data
    | ReadError errno => n = -1 /\ e = errno /\ b' = b
    end).
Proof.
  intros Hi Hok; destruct (Z.le_gt_cases (size b + extrabuf_size) max_size) as [Hle|Hgt].
  { destruct (readv _) as [data|e] eqn:E.
    - destruct (readFd_data readv b data) as (b' & -> & ? & ? & _); simpl; auto.
    - unfold readFd; rewrite E; simpl; auto. }
  set (iov := if _ <? _ then _ else _) in *; unfold readFd; fold iov.
  destruct (readv iov) as [data|e] eqn:E; [|simpl; auto].
  assert (0 <= writableBytes b) as Hw0 by (apply uwrap_range; lia).
  assert (len data <= foldr Z.add 0 iov) as Hlen.
  { apply (Hok _ _); [|done]; unfold iov; destruct (_ <? _); repeat constructor; done. }
  pose proof (inv_rep _ Hi) as H0; set (p := take _ _) in H0; set (q := drop _ _) in H0.
  pose proof (rep_bytes _ _ _ _ H0) as (_ & Hw & Hp & Hs).
  assert (len (take (Z.to_nat (len q)) data) <= len q) as Hk
    by (unfold len; rewrite length_take; lia).
  destruct (write_rep b p (content b) q _ H0 Hk) as (b1 & Hst & R1 & b2 & Hw2 & R2 & Hs2).
  unfold beginWrite in Hst; rewrite Hw, Hst; cbn [res_bind].
  destruct (Z.leb_spec (len data) (len q)).
  - rewrite take_ge in R2, Hw2 by (unfold len in *; lia).
    unfold hasWritten in Hw2; apply res_bind_Ok in Hw2 as (? & _ & [= <-]).
    simpl; split_and!; [by eapply rep_inv|done|by eapply rep_content].
  - assert (rep (mkBuffer (buffer_ b1) (readerIndex_ b1) (size b1)) p
              (content b ++ take (Z.to_nat (len q)) data) []) as R3.
    { assert (length (take (Z.to_nat (len q)) data) = Z.to_nat (len q)) as Hlk
        by (rewrite length_take; unfold len in *; lia).
      assert (drop (Z.to_nat (len q)) q = []) as Hnil by (apply drop_ge; unfold len; lia).
      destruct R1 as (E1 & Er1 & Ew1 & Es1); rewrite Hlk, Hnil, app_nil_r in E1.
      unfold rep, size in *; cbn [buffer_ readerIndex_ writerIndex_].
      rewrite E1, app_nil_r in *; repeat split; try done; buf_lia. }
    eapply safe_bind'; [apply append_safe; [by eapply rep_inv|]|].
    + transitivity (len data); [unfold len; rewrite length_drop; lia|].
      transitivity (writableBytes b + extrabuf_size).
      * unfold iov, extrabuf_size in *; destruct (_ <? _); simpl in Hlen; lia.
      * rewrite Hw; unfold iov in *; rewrite Hw in *.
        destruct (Z.ltb_spec (len q) extrabuf_size); simpl in Hlen; [|lia].
        unfold extrabuf_size, max_size in *; lia.
    + intros b4 (Hi4 & Hc4); simpl; split_and!; [done|done|].
      by rewrite Hc4, (rep_content _ _ _ _ R3), <- app_assoc, take_drop.
Qed.

(** ** Integers in network order *)

(** The four integer widths of the class, with the operations of each. *)
Inductive width := W8 | W16 | W32 | W64.

Definition wbytes (w : width) : nat :=
  match w with W8 => 1 | W16 => 2 | W32 => 4 | W64 => 8 end.

Definition appendInt (w : width) : Buffer -> Z -> res Buffer :=
  match w with
  | W8 => appendInt8 | W16 => appendInt16 | W32 => appendInt32 | W64 => appendInt64
  end.

Definition prependInt (w : width) : Buffer -> Z -> res Buffer :=
  match w with
  | W8 => prependInt8 | W16 => prependInt16 | W32 => prependInt32 | W64 => prependInt64
  end.

Definition peekInt (w : width) : Buffer -> res Z :=
  match w with
  | W8 => peekInt8 | W16 => peekInt16 | W32 => peekInt32 | W64 => peekInt64
  end.

Definition readInt (w : width) : Buffer -> res (Z * Buffer) :=
  match w with
  | W8 => readInt8 | W16 => readInt16 | W32 => readInt32 | W64 => readInt64
  end.

Lemma appendInt_eq w b x : appendInt w b x = append b (be_bytes (wbytes w) x).
Proof.
  destruct w; cbn [appendInt wbytes]; unfold appendInt8, appendInt16, appendInt32, appendInt64;
    by rewrite ?hostToNetwork16_bytes, ?hostToNetwork32_bytes, ?hostToNetwork64_bytes.
Qed.

Lemma prependInt_eq w b x : prependInt w b x = prepend b (be_bytes (wbytes w) x).
Proof.
  destruct w; cbn [prependInt wbytes];
    unfold prependInt8, prependInt16, prependInt32, prependInt64;
    by rewrite ?hostToNetwork16_bytes, ?hostToNetwork32_bytes, ?hostToNetwork64_bytes.
Qed.

Lemma readInt_eq w b :
  readInt w b = let! result := peekInt w b in
                let! b' := retrieve b (Z.of_nat (wbytes w)) in Ok (result, b').
Proof. by destruct w. Qed.

Lemma swrap_be w x :
  swrap (8 * Z.of_nat w) (be_value (be_bytes w x)) = swrap (8 * Z.of_nat w) x.
Proof. rewrite be_value_bytes; apply swrap_uwrap; lia. Qed.

(** A peek reads the big-endian value of the first bytes. *)
Lemma peekInt_value w b :
  inv b -> Z.of_nat (wbytes w) <= len (content b) ->
  peekInt w b =
    Ok (swrap (8 * Z.of_nat (wbytes w)) (be_value (take (wbytes w) (content b)))).
Proof.
  intros Hi Hl; set (l := take (wbytes w) (content b)).
  assert (load b (peek b) (Z.of_nat (wbytes w)) = Ok l) as HL
    by (rewrite load_peek by (done || lia); by rewrite Nat2Z.id).
  assert (length l = wbytes w) as Hlen
    by (unfold l; rewrite length_take; unfold len in Hl; lia).
  destruct w; cbn [peekInt wbytes] in *;
    unfold peekInt8, peekInt16, peekInt32, peekInt64; rewrite readableBytes_content by done;
    rewrite (proj2 (Z.leb_le _ _)) by lia; cbn [res_bind cassert];
    match type of HL with load _ _ ?n = _ =>
      let m := eval vm_compute in n in change n with m in HL end;
    rewrite HL; cbn [res_bind];
    rewrite ?networkToHost16_value, ?networkToHost32_value, ?networkToHost64_value by done;
    try done.
  by destruct l as [|x [|? ?]].
Qed.

Lemma peekInt_spec w b x rest :
  inv b -> content b = be_bytes (wbytes w) x ++ rest ->
  peekInt w b = Ok (swrap (8 * Z.of_nat (wbytes w)) x).
Proof.
  intros Hi Hc; pose proof (len_nonneg rest).
  rewrite peekInt_value; [|done|rewrite Hc, len_app, len_be_bytes; lia].
  rewrite Hc, take_app_length' by (symmetry; apply length_be_bytes); by rewrite swrap_be.
Qed.

Lemma readInt_spec w b x rest :
  inv b -> content b = be_bytes (wbytes w) x ++ rest ->
  in_signed (8 * Z.of_nat (wbytes w)) x ->
  exists b', readInt w b = Ok (x, b') /\ inv b' /\ content b' = rest.
Proof.
  intros Hi Hc Hx; rewrite readInt_eq, (peekInt_spec w b x rest) by done.
  rewrite swrap_small by (destruct w; done || lia); cbn [res_bind].
  destruct (retrieve_spec b (Z.of_nat (wbytes w))) as (b' & -> & Hi' & Hc' & _); [done| |].
  { rewrite Hc, len_app, len_be_bytes; pose proof (len_nonneg rest); lia. }
  cbn [res_bind]; exists b'; split_and!; [done|done|].
  rewrite Hc', Hc, Nat2Z.id, drop_app_length'; [done|].
  symmetry; apply length_be_bytes.
Qed.

(** ** Searching *)

Definition has_crlf_at (c : list byte) (i : Z) : Prop :=
  exists u v, c = u ++ kCRLF ++ v /\ i = len u.

Lemma std_search_found l i :
  has_crlf_at l i -> 0 <= std_search kCRLF l <= i /\ has_crlf_at l (std_search kCRLF l).
Proof.
  intros (u & v & -> & ->); induction u as [|x u IH].
  - assert (std_search kCRLF ([] ++ kCRLF ++ v) = 0) as ->.
    { unfold kCRLF; cbn [app std_search]; by rewrite bool_decide_eq_true_2. }
    split; [done|]; exists [], v; done.
  - cbn [app std_search]; case_bool_decide as E.
    + split; [pose proof (len_nonneg (x :: u)); lia|].
      rewrite <- (take_drop (length kCRLF) (x :: u ++ kCRLF ++ v)), E.
      eexists [], _; done.
    + destruct IH as (Hb & u' & v' & Eu & Ei); split; [autorewrite with len; lia|].
      exists (x :: u'), v'; split; [cbn [app]; by rewrite <- Eu|].
      autorewrite with len; lia.
Qed.

Lemma std_search_none l :
  (forall i, ~ has_crlf_at l i) -> std_search kCRLF l = len l.
Proof.
  induction l as [|x l IH]; intros H.
  { cbn [std_search]; by case_bool_decide. }
  cbn [std_search]; case_bool_decide as E.
  - destruct (H 0); rewrite <- (take_drop (length kCRLF) (x :: l)), E.
    eexists [], _; done.
  - rewrite IH; [autorewrite with len; lia|].
    intros i (u & v & -> & ->); apply (H (1 + len u)).
    exists (x :: u), v; autorewrite with len; done.
Qed.

Lemma has_crlf_at_bound c i : has_crlf_at c i -> 0 <= i <= len c - 2.
Proof.
  intros (u & v & -> & ->); pose proof (len_nonneg u); pose proof (len_nonneg v).
  autorewrite with len; change (len kCRLF) with 2; lia.
Qed.

(** [has_crlf_at] is decidable, by running the search. *)
Lemma crlf_dec c : (exists i, has_crlf_at c i) \/ (forall i, ~ has_crlf_at c i).
Proof.
  destruct (decide (std_search kCRLF c = len c)) as [E|E].
  - right; intros i Hi; destruct (std_search_found _ _ Hi) as [_ H%has_crlf_at_bound]; lia.
  - left; exists (std_search kCRLF c); induction c as [|x c IH]; [done|].
    cbn [std_search] in *; case_bool_decide as T.
    + rewrite <- (take_drop (length kCRLF) (x :: c)), T; eexists [], _; done.
    + destruct IH as (u & v & -> & Hu); [rewrite len_cons in E; lia|].
      exists (x :: u), v; split; [done|autorewrite with len; lia].
Qed.

Lemma load_content b : inv b -> load b (peek b) (beginWrite b - peek b) = Ok (content b).
Proof.
  intros Hi; pose proof (load_peek b (len (content b)) Hi) as H.
  rewrite take_ge in H by (unfold len; lia).
  rewrite <- H by (split; auto with cpp; lia); f_equal.
  destruct (inv_rep _ Hi) as (_ & Hr & Hw & _); unfold peek, beginWrite; lia.
Qed.

(** The position of the first CRLF and of the first LF of a byte string, by
    definition. *)
Fixpoint first_crlf (c : list byte) : option Z :=
  match c with
  | [] => None
  | x :: c' =>
      match x, c' with
      | x0d, x0a :: _ => Some 0
      | _, _ => Z.succ <$> first_crlf c'
      end
  end.

Definition first_lf (c : list byte) : option Z :=
  (fun '(i, _) => Z.of_nat i) <$> list_find (.= x0a) c.

(** The search of an infix from offset [i]. *)
Definition from (f : list byte -> option Z) (i : Z) (c : list byte) : option Z :=
  Z.add i <$> f (drop (Z.to_nat i) c).

Lemma std_search_first c :
  first_crlf c = if std_search kCRLF c =? len c then None else Some (std_search kCRLF c).
Proof.
  induction c as [|x c IH]; [reflexivity|].
  cbn [std_search first_crlf]; case_bool_decide as E.
  - destruct c as [|y c]; [by destruct x|].
    injection E as -> ->; rewrite (proj2 (Z.eqb_neq _ _)); [done|].
    autorewrite with len; pose proof (len_nonneg c); lia.
  - assert (Z.succ <$> first_crlf c =
      if 1 + std_search kCRLF c =? len (x :: c) then None
      else Some (1 + std_search kCRLF c)) as <-.
    { rewrite IH, len_cons.
      destruct (Z.eqb_spec (std_search kCRLF c) (len c)) as [->|Hne];
        destruct (Z.eqb_spec (1 + std_search kCRLF c) (1 + len c)); try lia; try done;
        cbn; try (f_equal; lia); by destruct (Z.eqb_spec (1 + len c) (1 + len c)). }
    destruct c as [|y c]; [by destruct x|].
    destruct x; try done; destruct y; done.
Qed.

Lemma memchr_first c : memchr x0a c = first_lf c.
Proof.
  unfold first_lf; induction c as [|x c IH]; [done|].
  cbn [memchr list_find]; case_bool_decide as E.
  - by rewrite decide_True.
  - rewrite decide_False, IH by done.
    destruct (list_find _ c) as [[i y]|]; [|done]; cbn; f_equal; lia.
Qed.

Lemma beginWrite_content b : inv b -> beginWrite b = peek b + len (content b).
Proof. intros Hi; destruct (inv_rep _ Hi) as (_ & Hr & Hw & _); unfold peek, beginWrite; lia. Qed.

Lemma load_from b i :
  inv b -> 0 <= i <= len (content b) ->
  load b (peek b + i) (beginWrite b - (peek b + i)) = Ok (drop (Z.to_nat i) (content b)).
Proof.
  intros Hi Hb; rewrite beginWrite_content by done.
  replace (peek b + len (content b) - (peek b + i)) with (len (content b) - i) by lia.
  rewrite (rep_load _ _ _ _ i (len (content b) - i) (inv_rep _ Hi)) by lia.
  unfold slice; f_equal; apply take_ge; rewrite length_drop; unfold len; lia.
Qed.

(** The four searches find what the definitions above find. *)
Lemma findCRLF_from_spec b i :
  inv b -> 0 <= i <= len (content b) ->
  findCRLF_from b (peek b + i) = Ok (Z.add (peek b) <$> from first_crlf i (content b)).
Proof.
  intros Hi Hb; unfold findCRLF_from, from; rewrite load_from, beginWrite_content by done.
  rewrite !(proj2 (Z.leb_le _ _)) by lia; cbn [res_bind cassert]; f_equal.
  rewrite std_search_first, len_drop by lia.
  destruct (Z.eqb_spec (std_search kCRLF (drop (Z.to_nat i) (content b))) (len (content b) - i));
    destruct (Z.eqb_spec (peek b + i + std_search kCRLF (drop (Z.to_nat i) (content b)))
      (peek b + len (content b))); try lia; try done; cbn; f_equal; lia.
Qed.

Lemma findEOL_from_spec b i :
  inv b -> 0 <= i <= len (content b) ->
  findEOL_from b (peek b + i) = Ok (Z.add (peek b) <$> from first_lf i (content b)).
Proof.
  intros Hi Hb; unfold findEOL_from, from; rewrite load_from, beginWrite_content by done.
  rewrite !(proj2 (Z.leb_le _ _)) by lia; cbn [res_bind cassert]; f_equal.
  rewrite memchr_first; destruct (first_lf _); [|done]; cbn; f_equal; lia.
Qed.

Lemma find_eqs b :
  inv b -> findCRLF b = findCRLF_from b (peek b + 0) /\ findEOL b = findEOL_from b (peek b + 0).
Proof.
  intros Hi; pose proof (len_nonneg (content b)); rewrite Z.add_0_r.
  unfold findCRLF, findCRLF_from, findEOL, findEOL_from.
  rewrite !(proj2 (Z.leb_le _ _)), readableBytes_content
    by (rewrite ?beginWrite_content by done; lia || done).
  cbn [res_bind cassert]; rewrite beginWrite_content by done.
  by replace (peek b + len (content b) - peek b) with (len (content b)) by lia.
Qed.

(** ** The abstract specification: a byte string with cheap prepend *)

(** What the class promises: the bytes, how many may still be prepended, and a
    bound of the memory used. *)
Record aqueue := mkAqueue { a_bytes : list byte; a_room : Z; a_cap : Z }.

(** The operations of the class.  A pointer into the readable bytes is given and
    returned as its offset from [peek()]; [OWrite n d] is the direct use of
    [ensureWritableBytes(n)], [beginWrite()] and [hasWritten(|d|)]. *)
Inductive op :=
| OAppend (d : list byte)
| OAppendInt (w : width) (x : Z)
| OPrepend (d : list byte)
| OPrependInt (w : width) (x : Z)
| OEnsure (n : Z)
| OWrite (n : Z) (d : list byte)
| OReadable
| OPeekInt (w : width)
| OReadInt (w : width)
| OFindCRLF
| OFindCRLFFrom (i : Z)
| OFindEOL
| OFindEOLFrom (i : Z)
| OToStringPiece
| ORetrieve (n : Z)
| ORetrieveInt (w : width)
| ORetrieveUntil (i : Z)
| ORetrieveAll
| ORetrieveAsString (n : Z)
| ORetrieveAllAsString
| OUnwrite (n : Z)
| OShrink (reserve : Z)
| OReadFd (d : list byte)
| OReadFdFails (errno : Z).

(** What a call returns. *)
Inductive answer :=
| ANone
| AInt (x : Z)
| ABytes (l : list byte)
| AFound (o : option Z)
| ARead (n savedErrno : Z).

(** A kernel that has [d] to deliver fills the buffers it is given. *)
Definition deliver (d : list byte) (iov : list Z) : io_read :=
  ReadBytes (take (Z.to_nat (foldr Z.add 0 iov)) d).

Lemma deliver_ok d : readv_ok (deliver d).
Proof.
  intros iov data Hiov [= <-]; unfold len; rewrite length_take.
  assert (0 <= foldr Z.add 0 iov) by (induction Hiov; simpl; lia); lia.
Qed.

Definition retrieveInt (w : width) : Buffer -> res Buffer :=
  match w with
  | W8 => retrieveInt8 | W16 => retrieveInt16 | W32 => retrieveInt32 | W64 => retrieveInt64
  end.

Definition silent (r : res Buffer) : res (answer * Buffer) := let! b := r in Ok (ANone, b).

Definition offset (b : Buffer) (r : res (option Z)) : res (answer * Buffer) :=
  let! o := r in Ok (AFound ((fun p => p - peek b) <$> o), b).

Definition exec (b : Buffer) (o : op) : res (answer * Buffer) :=
  match o with
  | OAppend d => silent (append b d)
  | OAppendInt w x => silent (appendInt w b x)
  | OPrepend d => silent (prepend b d)
  | OPrependInt w x => silent (prependInt w b x)
  | OEnsure n => silent (ensureWritableBytes b n)
  | OWrite n d =>
      silent (let! b1 := ensureWritableBytes b n in
              let! b2 := store b1 (beginWrite b1) d in
              hasWritten b2 (len d))
  | OReadable => Ok (AInt (readableBytes b), b)
  | OPeekInt w => let! x := peekInt w b in Ok (AInt x, b)
  | OReadInt w => let! '(x, b') := readInt w b in Ok (AInt x, b')
  | OFindCRLF => offset b (findCRLF b)
  | OFindCRLFFrom i => offset b (findCRLF_from b (peek b + i))
  | OFindEOL => offset b (findEOL b)
  | OFindEOLFrom i => offset b (findEOL_from b (peek b + i))
  | OToStringPiece =>
      let '(ptr, n) := toStringPiece b in
      let! l := load b ptr n in Ok (ABytes l, b)
  | ORetrieve n => silent (retrieve b n)
  | ORetrieveInt w => silent (retrieveInt w b)
  | ORetrieveUntil i => silent (retrieveUntil b (peek b + i))
  | ORetrieveAll => silent (Ok (retrieveAll b))
  | ORetrieveAsString n => let! '(l, b') := retrieveAsString b n in Ok (ABytes l, b')
  | ORetrieveAllAsString => let! '(l, b') := retrieveAllAsString b in Ok (ABytes l, b')
  | OUnwrite n => silent (unwrite b n)
  | OShrink reserve => silent (shrink b reserve)
  | OReadFd d => let! '(n, e, b') := readFd (deliver d) b in Ok (ARead n e, b')
  | OReadFdFails errno =>
      let! '(n, e, b') := readFd (fun _ => ReadError errno) b in Ok (ARead n e, b')
  end.

Definition guarded {A} (g : bool) (a : A) : option A := if g then Some a else None.

Definition abs_exec (a : aqueue) (o : op) : option (answer * aqueue) :=
  let c := a_bytes a in
  let write n d := guarded ((len d <=? n) && (a_cap a + n <=? max_size))
                     (ANone, mkAqueue (c ++ d) (a_room a) (a_cap a + n)) in
  let push d := guarded (len d <=? a_room a)
                  (ANone, mkAqueue (d ++ c) (a_room a - len d) (a_cap a)) in
  let take_out n ans := guarded ((0 <=? n) && (n <=? len c))
                          (ans, mkAqueue (drop (Z.to_nat n) c) (a_room a) (a_cap a)) in
  let look (n : Z) ans := guarded ((0 <=? n) && (n <=? len c)) (ans, a) in
  let value w := AInt (swrap (8 * Z.of_nat (wbytes w)) (be_value (take (wbytes w) c))) in
  match o with
  | OAppend d => write (len d) d
  | OAppendInt w x => write (Z.of_nat (wbytes w)) (be_bytes (wbytes w) x)
  | OPrepend d => push d
  | OPrependInt w x => push (be_bytes (wbytes w) x)
  | OEnsure n => write n []
  | OWrite n d => write n d
  | OReadable => Some (AInt (len c), a)
  | OPeekInt w => look (Z.of_nat (wbytes w)) (value w)
  | OReadInt w => take_out (Z.of_nat (wbytes w)) (value w)
  | OFindCRLF => Some (AFound (first_crlf c), a)
  | OFindCRLFFrom i => look i (AFound (from first_crlf i c))
  | OFindEOL => Some (AFound (first_lf c), a)
  | OFindEOLFrom i => look i (AFound (from first_lf i c))
  | OToStringPiece => guarded (len c <? 2 ^ 31) (ABytes c, a)
  | ORetrieve n => take_out n ANone
  | ORetrieveInt w => take_out (Z.of_nat (wbytes w)) ANone
  | ORetrieveUntil i => take_out i ANone
  | ORetrieveAll => Some (ANone, mkAqueue [] kCheapPrepend (a_cap a))
  | ORetrieveAsString n => take_out n (ABytes (take (Z.to_nat n) c))
  | ORetrieveAllAsString => take_out (len c) (ABytes c)
  | OUnwrite n => guarded ((0 <=? n) && (n <=? len c))
                    (ANone, mkAqueue (take (Z.to_nat (len c - n)) c) (a_room a) (a_cap a))
  | OShrink reserve =>
      let s := kCheapPrepend + kInitialSize + (len c + reserve) + len c in
      guarded ((0 <=? reserve) && (len c <? 2 ^ 31) && (s <=? max_size))
        (ANone, mkAqueue c kCheapPrepend s)
  | OReadFd d => guarded ((len d <=? extrabuf_size) && (a_cap a + extrabuf_size <=? max_size))
                   (ARead (len d) 0, mkAqueue (c ++ d) (a_room a) (a_cap a + extrabuf_size))
  | OReadFdFails errno => Some (ARead (-1) errno, a)
  end.

(** What of a buffer the specification sees, and the simulation: the same bytes,
    at least the promised prepend room, at most the promised memory. *)
Definition view (b : Buffer) : aqueue := mkAqueue (content b) (keptRoom b) (size b).

Definition sim (b : Buffer) (a : aqueue) : Prop :=
  inv b /\ content b = a_bytes a /\ a_room a <= keptRoom b /\ size b <= a_cap a.

Lemma view_sim b : inv b -> sim b (view b).
Proof. intros Hi; unfold sim, view; simpl; split_and!; done || lia. Qed.

Lemma guarded_Some {A} g (a a' : A) : guarded g a = Some a' <-> g = true /\ a' = a.
Proof. destruct g; simpl; split; [by intros [= <-]|by intros [_ ->]|done|by intros []]. Qed.

(** The call returns [ans] and a buffer that simulates [a]. *)
Definition answers (r : res (answer * Buffer)) (ans : answer) (a : aqueue) : Prop :=
  exists b', r = Ok (ans, b') /\ sim b' a.

Lemma yields_sim r c s room a :
  yields r c s room -> c = a_bytes a -> a_room a <= Z.min room kCheapPrepend ->
  s <= a_cap a -> exists b', r = Ok b' /\ sim b' a.
Proof.
  intros (b' & -> & Hi & Hc & Hs & Hr) -> Ha Hcap.
  exists b'; unfold sim, keptRoom; split_and!; try done; lia.
Qed.

Lemma silent_answers r a : (exists b', r = Ok b' /\ sim b' a) -> answers (silent r) ANone a.
Proof. intros (b' & -> & H); by exists b'. Qed.

Lemma same_answers b a ans : sim b a -> answers (Ok (ans, b)) ans a.
Proof. intros H; by exists b. Qed.

Lemma write_sim b a n d :
  sim b a -> len d <= n -> a_cap a + n <= max_size ->
  exists b', (let! b1 := ensureWritableBytes b n in
              let! b2 := store b1 (beginWrite b1) d in
              hasWritten b2 (len d)) = Ok b' /\
    sim b' (mkAqueue (a_bytes a ++ d) (a_room a) (a_cap a + n)).
Proof.
  intros (Hi & Hc & Hr & Hs) Hd Hcap; pose proof (len_nonneg d).
  destruct (ensureWritableBytes_rep b n) as (b1 & p & q & -> & H1 & Hq & Hs1 & Hr1);
    [done|lia|lia|].
  cbn [res_bind].
  destruct (write_rep b1 p (content b) q d) as (b2 & -> & _ & b3 & H3 & Hrep & Hs3);
    [done|lia|].
  cbn [res_bind]; rewrite H3.
  eapply yields_sim; [eapply rep_yields; [exact Hrep|reflexivity|reflexivity]|..]; simpl.
  - by rewrite Hc.
  - unfold keptRoom in *; lia.
  - lia.
Qed.

Lemma ensure_sim b a n :
  sim b a -> 0 <= n -> a_cap a + n <= max_size ->
  exists b', ensureWritableBytes b n = Ok b' /\
    sim b' (mkAqueue (a_bytes a ++ []) (a_room a) (a_cap a + n)).
Proof.
  intros (Hi & Hc & Hr & Hs) Hn Hcap.
  destruct (ensureWritableBytes_rep b n) as (b1 & p & q & -> & H1 & Hq & Hs1 & Hr1);
    [done|lia|lia|].
  eapply yields_sim; [eapply rep_yields; [exact H1|reflexivity|reflexivity]|..]; simpl.
  - by rewrite app_nil_r.
  - unfold keptRoom in *; lia.
  - lia.
Qed.

Lemma push_sim b a d :
  sim b a -> len d <= a_room a ->
  exists b', prepend b d = Ok b' /\
    sim b' (mkAqueue (d ++ a_bytes a) (a_room a - len d) (a_cap a)).
Proof.
  intros (Hi & Hc & Hr & Hs) Hd; unfold keptRoom in *.
  destruct (prepend_spec b d) as (b' & -> & Hi' & Hc' & Hs' & Hp'); [done|lia|].
  exists b'; unfold sim, keptRoom; split_and!; simpl; try done; try lia.
  - by rewrite Hc', Hc.
  - pose proof (len_nonneg d); lia.
Qed.

Lemma retrieve_sim b a n :
  sim b a -> 0 <= n <= len (a_bytes a) ->
  exists b', retrieve b n = Ok b' /\
    sim b' (mkAqueue (drop (Z.to_nat n) (a_bytes a)) (a_room a) (a_cap a)).
Proof.
  intros (Hi & Hc & Hr & Hs) Hn.
  eapply yields_sim; [apply retrieve_spec; [done|by rewrite Hc]|..]; simpl; try lia.
  - by rewrite Hc.
  - unfold keptRoom in *; lia.
Qed.

Lemma retrieveUntil_sim b a i :
  sim b a -> 0 <= i <= len (a_bytes a) ->
  exists b', retrieveUntil b (peek b + i) = Ok b' /\
    sim b' (mkAqueue (drop (Z.to_nat i) (a_bytes a)) (a_room a) (a_cap a)).
Proof.
  intros Hsim Hn; pose proof Hsim as (Hi & Hc & _).
  unfold retrieveUntil; rewrite beginWrite_content, Hc, !(proj2 (Z.leb_le _ _)) by done || lia.
  cbn [res_bind cassert]; replace (peek b + i - peek b) with i by lia.
  by apply retrieve_sim.
Qed.

Lemma retrieveAsString_sim b a n :
  sim b a -> 0 <= n <= len (a_bytes a) ->
  exists b', retrieveAsString b n = Ok (take (Z.to_nat n) (a_bytes a), b') /\
    sim b' (mkAqueue (drop (Z.to_nat n) (a_bytes a)) (a_room a) (a_cap a)).
Proof.
  intros Hsim Hn; pose proof Hsim as (Hi & Hc & _).
  destruct (retrieve_sim b a n Hsim Hn) as (b' & E & Hsim'); exists b'; split; [|done].
  unfold retrieveAsString.
  rewrite readableBytes_content, load_peek, E by (rewrite ?Hc; done).
  rewrite (proj2 (Z.leb_le _ _)) by (rewrite Hc; lia); by rewrite Hc.
Qed.

Lemma readInt_sim b a w :
  sim b a -> Z.of_nat (wbytes w) <= len (a_bytes a) ->
  exists b', readInt w b = Ok (swrap (8 * Z.of_nat (wbytes w))
                                 (be_value (take (wbytes w) (a_bytes a))), b') /\
    sim b' (mkAqueue (drop (wbytes w) (a_bytes a)) (a_room a) (a_cap a)).
Proof.
  intros Hsim Hn; pose proof Hsim as (Hi & Hc & _).
  destruct (retrieve_sim b a (Z.of_nat (wbytes w)) Hsim) as (b' & E & Hsim'); [lia|].
  exists b'; rewrite readInt_eq, peekInt_value, E by (rewrite ?Hc; done).
  rewrite Nat2Z.id in Hsim'; cbn [res_bind]; by rewrite Hc.
Qed.

Lemma offset_answers b a f r :
  sim b a -> r = Ok (Z.add (peek b) <$> f) -> answers (offset b r) (AFound f) a.
Proof.
  intros Hsim ->; unfold offset; cbn [res_bind]; exists b; split; [|done].
  do 3 f_equal; destruct f; [|done]; cbn; f_equal; lia.
Qed.

Lemma from_0 f c : from f 0 c = f c.
Proof. unfold from; rewrite drop_0; by destruct (f c). Qed.

Lemma readFd_sim b a d :
  sim b a -> len d <= extrabuf_size -> a_cap a + extrabuf_size <= max_size ->
  answers (exec b (OReadFd d)) (ARead (len d) 0)
    (mkAqueue (a_bytes a ++ d) (a_room a) (a_cap a + extrabuf_size)).
Proof.
  intros (Hi & Hc & Hr & Hs) Hd Hcap; cbn [exec].
  pose proof (inv_rep _ Hi) as R; pose proof (rep_bytes _ _ _ _ R) as (_ & Hw & _ & _).
  assert (0 <= writableBytes b) as Hw0 by (rewrite Hw; auto with cpp).
  destruct (readFd_data (deliver d) b d) as (b' & -> & Hi' & Hc' & Hk & Hs');
    try done; try lia; [apply deliver_ok| |].
  - unfold deliver; f_equal; apply take_ge.
    destruct (Z.ltb_spec (writableBytes b) extrabuf_size); simpl;
      unfold len, extrabuf_size in *; lia.
  - cbn [res_bind]; exists b'; split; [done|].
    unfold sim, keptRoom in *; simpl; rewrite Hc', Hc; split_and!; try done; lia.
Qed.

Lemma toStringPiece_answers b a :
  sim b a -> len (a_bytes a) < 2 ^ 31 ->
  answers (exec b OToStringPiece) (ABytes (a_bytes a)) a.
Proof.
  intros Hsim Hl; pose proof Hsim as (Hi & Hc & _); pose proof (len_nonneg (a_bytes a)).
  cbn [exec toStringPiece]; unfold toStringPiece; rewrite readableBytes_content, Hc by done.
  rewrite (swrap_small 32) by (unfold in_signed; lia).
  rewrite load_peek, Hc by (rewrite ?Hc; done || lia).
  cbn [res_bind]; rewrite take_ge by (unfold len; lia); by apply same_answers.
Qed.

(** One operation of the class simulates one operation of the specification. *)
Lemma exec_sim b a o ans a' :
  sim b a -> abs_exec a o = Some (ans, a') -> answers (exec b o) ans a'.
Proof.
  intros Hsim Habs; pose proof Hsim as (Hi & Hc & Hr & Hs).
  pose proof (find_eqs b Hi) as [EC EL]; pose proof (len_nonneg (a_bytes a)) as Hl.
  destruct o; cbn [abs_exec] in Habs;
    try (apply guarded_Some in Habs as [G [= -> ->]]; bool_hyps);
    try (injection Habs as <- <-);
    cbn [exec]; try apply silent_answers.
  - by apply (write_sim b a (len d) d).
  - rewrite appendInt_eq, <- (len_be_bytes (wbytes w) x).
    apply (write_sim b a _ (be_bytes (wbytes w) x)); rewrite ?len_be_bytes; done.
  - by apply push_sim.
  - rewrite prependInt_eq; by apply push_sim.
  - apply ensure_sim; done.
  - by apply write_sim.
  - rewrite readableBytes_content, Hc by done; by apply same_answers.
  - rewrite peekInt_value, Hc by (rewrite ?Hc; done); by apply same_answers.
  - destruct (readInt_sim b a w) as (b' & -> & Hs'); [done..|].
    rewrite Nat2Z.id; by exists b'.
  - rewrite EC; apply offset_answers; [done|].
    rewrite findCRLF_from_spec, from_0 by (rewrite ?Hc; done || lia); by rewrite Hc.
  - apply offset_answers; [done|]; rewrite findCRLF_from_spec by (rewrite ?Hc; done); by rewrite Hc.
  - rewrite EL; apply offset_answers; [done|].
    rewrite findEOL_from_spec, from_0 by (rewrite ?Hc; done || lia); by rewrite Hc.
  - apply offset_answers; [done|]; rewrite findEOL_from_spec by (rewrite ?Hc; done); by rewrite Hc.
  - by apply toStringPiece_answers.
  - by apply retrieve_sim.
  - replace (retrieveInt w b) with (retrieve b (Z.of_nat (wbytes w))) by (by destruct w).
    by apply retrieve_sim.
  - by apply retrieveUntil_sim.
  - eapply yields_sim; [by apply retrieveAll_spec|..]; simpl; try done; lia.
  - destruct (retrieveAsString_sim b a n) as (b' & -> & Hs'); [done..|]; by exists b'.
  - unfold retrieveAllAsString; rewrite readableBytes_content, Hc by done.
    destruct (retrieveAsString_sim b a (len (a_bytes a))) as (b' & -> & Hs'); [done|lia|].
    exists b'; split; [|done]; cbn [res_bind]; by rewrite take_ge by (unfold len; lia).
  - eapply yields_sim; [apply unwrite_spec; [done|rewrite Hc; lia]|..]; simpl; try lia.
    + by rewrite Hc.
    + unfold keptRoom in *; lia.
  - eapply yields_sim; [apply shrink_spec; try done; rewrite Hc; lia|..]; simpl; try done;
      rewrite ?Hc; lia.
  - by apply readFd_sim.
  - by apply same_answers.
Qed.

(** A sequence of operations, with the answers of all of them. *)
Fixpoint run (b : Buffer) (ops : list op) : res (list answer * Buffer) :=
  match ops with
  | [] => Ok ([], b)
  | o :: ops' =>
      let! '(ans, b1) := exec b o in
      let! '(rest, b2) := run b1 ops' in
      Ok (ans :: rest, b2)
  end.

Fixpoint abs_run (a : aqueue) (ops : list op) : option (list answer * aqueue) :=
  match ops with
  | [] => Some ([], a)
  | o :: ops' =>
      '(ans, a1) ← abs_exec a o;
      '(rest, a2) ← abs_run a1 ops';
      Some (ans :: rest, a2)
  end.

Lemma run_sim ops b a anss a' :
  sim b a -> abs_run a ops = Some (anss, a') ->
  exists b', run b ops = Ok (anss, b') /\ sim b' a'.
Proof.
  revert b a anss; induction ops as [|o ops IH]; intros b a anss Hsim; cbn [run abs_run].
  { intros [= <- <-]; eauto. }
  destruct (abs_exec a o) as [[ans a1]|] eqn:E; [|done]; cbn.
  destruct (abs_run a1 ops) as [[rest a2]|] eqn:E2; [|done]; cbn; intros [= <- <-].
  destruct (exec_sim _ _ _ _ _ Hsim E) as (b1 & -> & Hsim1); cbn [res_bind].
  by destruct (IH _ _ _ Hsim1 E2) as (b2 & -> & Hsim2); exists b2.
Qed.

(** ** Theorems *)

(** C19: from any well-formed buffer, on every sequence of operations that the
    specification allows (the byte string, with the guards the asserts demand and
    room for the memory), the class neither faults nor loses a byte: every call
    returns what it returns on the byte string - the integers, strings, pieces,
    search results and read counts -, and in the end the readable bytes are those
    of the specification, the indices are ordered, the promised prepend room is
    there and the vector is within the computed bound. *)
Theorem buffer_refines b ops anss a' :
  inv b -> abs_run (view b) ops = Some (anss, a') ->
  exists b', run b ops = Ok (anss, b') /\ sim b' a'.
Proof. intros Hi; apply run_sim; by apply view_sim. Qed.

Lemma buffer_refines_witness :
  exists b', run (mkBuffer (replicate 9 x00 ++ [x7a; x0d; x0a] ++ replicate 4 x00) 9 12)
    [OFindCRLF; ORetrieveUntil 1; OFindEOLFrom 1; ORetrieveAllAsString;
     OAppend [x61; x62; x63]; OPrependInt W32 3; OReadInt W32; OReadFd (replicate 40 x41);
     OUnwrite 1; ORetrieve 41; OShrink 4; OAppendInt W16 (-2); OPeekInt W8; ORetrieveInt W8;
     OWrite 9 [x0a]; OToStringPiece; OFindCRLF; OReadFdFails 11; OReadable] =
    Ok ([AFound (Some 1); ANone; AFound (Some 1); ABytes [x0d; x0a];
         ANone; ANone; AInt 3; ARead 40 0;
         ANone; ANone; ANone; ANone; AInt 65; ANone;
         ANone; ABytes [xff; xfe; x0a]; AFound None; ARead (-1) 11; AInt 3], b') /\
  sim b' (mkAqueue [xff; xfe; x0a] 8 1049).
Proof.
  apply buffer_refines; [vm_compute; intuition discriminate|vm_compute; reflexivity].
Defined.

(** an integer of any of the four widths, appended behind any content or
    prepended in front of it, is read back with its value, and nothing else of
    the content changes. *)
Theorem int_roundtrip w b x :
  inv b -> size b + Z.of_nat (wbytes w) <= max_size ->
  in_signed (8 * Z.of_nat (wbytes w)) x ->
  (exists b1 b2 b3, appendInt w b x = Ok b1 /\ retrieve b1 (len (content b)) = Ok b2 /\
     readInt w b2 = Ok (x, b3) /\ content b3 = []) /\
  (Z.of_nat (wbytes w) <= prependableBytes b ->
   exists b1 b2, prependInt w b x = Ok b1 /\ readInt w b1 = Ok (x, b2) /\
     content b2 = content b).
Proof.
  intros Hi Hs Hx; rewrite appendInt_eq, prependInt_eq; split; [|intros Hp].
  - destruct (append_spec b (be_bytes (wbytes w) x)) as (b1 & H1 & Hi1 & Hc1 & _ & _);
      [done|by rewrite len_be_bytes|].
    destruct (retrieve_spec b1 (len (content b))) as (b2 & H2 & Hi2 & Hc2 & _); [done| |].
    { rewrite Hc1, len_app; pose proof (len_nonneg (content b)).
      pose proof (len_nonneg (be_bytes (wbytes w) x)); lia. }
    destruct (readInt_spec w b2 x []) as (b3 & H3 & _ & Hc3); [done| |done|eauto 10].
    rewrite Hc2, Hc1, app_nil_r; unfold len; by rewrite Nat2Z.id, drop_app_length.
  - destruct (prepend_spec b (be_bytes (wbytes w) x)) as (b1 & H1 & Hi1 & Hc1 & _);
      [done|by rewrite len_be_bytes|].
    destruct (readInt_spec w b1 x (content b)) as (b2 & H2 & _ & Hc2); [done..|eauto 10].
Qed.

Lemma int_roundtrip_witness :
  exists b1 b2, prependInt W32 (newBuffer 4) (-559038737) = Ok b1 /\
    readInt W32 b1 = Ok (-559038737, b2) /\ content b2 = [].
Proof.
  refine (proj2 (int_roundtrip W32 (newBuffer 4) (-559038737) _ _ _) _).
  - vm_compute; intuition discriminate.
  - vm_compute; discriminate.
  - vm_compute; intuition discriminate.
  - vm_compute; discriminate.
Defined.

(** [readFd] appends to the content exactly the bytes the kernel delivered,
    whether they fit into the vector or spill into the 64 KiB stack buffer, and
    reports their number; on an error it leaves the buffer as it was and reports
    [errno]. *)
Theorem readFd_appends readv b :
  inv b -> readv_ok readv -> size b + extrabuf_size <= max_size ->
  let iov := if writableBytes b <? extrabuf_size then [writableBytes b; extrabuf_size]
             else [writableBytes b] in
  match readv iov with
  | ReadBytes data => exists b', readFd readv b = Ok (len data, 0, b') /\ inv b' /\
                        content b' = content b ++ data
  | ReadError errno => readFd readv b = Ok (-1, errno, b)
  end.
Proof.
  intros Hi Hok Hs iov; destruct (readv iov) as [data|errno] eqn:E.
  - destruct (readFd_data readv b data) as (b' & H & Hi' & Hc & _); eauto.
  - unfold readFd; fold iov; by rewrite E.
Qed.

Lemma readFd_appends_witness :
  exists b', readFd (deliver [x61; x62; x63; x64; x65]) (newBuffer 2) = Ok (5, 0, b') /\
    inv b' /\ content b' = [x61; x62; x63; x64; x65].
Proof.
  refine (readFd_appends (deliver [x61; x62; x63; x64; x65]) (newBuffer 2) _ _ _).
  - vm_compute; intuition discriminate.
  - apply deliver_ok.
  - vm_compute; discriminate.
Defined.

(** [findCRLF] returns the position of the first CRLF of the content, and
    NULL exactly when the content has none; taking everything up to it with
    [retrieveUntil] leaves the CRLF in front. *)
Theorem findCRLF_first b :
  inv b ->
  (exists i b', findCRLF b = Ok (Some (peek b + i)) /\ has_crlf_at (content b) i /\
     (forall j, has_crlf_at (content b) j -> i <= j) /\
     retrieveUntil b (peek b + i) = Ok b' /\ inv b' /\
     content b' = drop (Z.to_nat i) (content b)) \/
  (findCRLF b = Ok None /\ forall i, ~ has_crlf_at (content b) i).
Proof.
  intros Hi; unfold findCRLF; rewrite load_content by done; cbn [res_bind].
  assert (beginWrite b = peek b + len (content b)) as Hw.
  { destruct (inv_rep _ Hi) as (_ & Hr & Hw & _); unfold peek, beginWrite; lia. }
  destruct (crlf_dec (content b)) as [[i0 H0]|Hno].
  - left; destruct (std_search_found _ _ H0) as [_ H].
    set (i := std_search kCRLF (content b)) in *.
    pose proof (has_crlf_at_bound _ _ H).
    destruct (retrieve_spec b i) as (b' & Hret & Hi' & Hc' & _); [done|lia|].
    exists i, b'; split_and!; try done.
    + rewrite Hw, (proj2 (Z.eqb_neq _ _)) by lia; done.
    + intros j Hj; by apply std_search_found.
    + unfold retrieveUntil; rewrite Hw, !(proj2 (Z.leb_le _ _)) by lia.
      cbn [res_bind cassert]; rewrite <- Hret; f_equal; lia.
  - right; split; [|done].
    by rewrite std_search_none, Hw, Z.eqb_refl.
Qed.

Lemma findCRLF_first_witness :
  exists b, inv b /\ content b = [x61; x0d; x0d; x0a; x62] /\
  ((exists i b', findCRLF b = Ok (Some (peek b + i)) /\ has_crlf_at (content b) i /\
     (forall j, has_crlf_at (content b) j -> i <= j) /\
     retrieveUntil b (peek b + i) = Ok b' /\ inv b' /\
     content b' = drop (Z.to_nat i) (content b)) \/
   (findCRLF b = Ok None /\ forall i, ~ has_crlf_at (content b) i)).
Proof.
  exists (mkBuffer (replicate 8 x00 ++ [x61; x0d; x0d; x0a; x62; x00]) 8 13).
  split; [|split; [reflexivity|]].
  2: apply findCRLF_first.
  all: vm_compute; intuition discriminate.
Defined.

(** using the class outside its contract is caught by its asserts and by
    nothing later: consuming, un-writing or peeking more than is readable,
    prepending more than fits, and announcing more than is writable. *)
Theorem misuse_asserts b n w d :
  (readableBytes b < n -> retrieve b n = Fail AssertFailed /\
     unwrite b n = Fail AssertFailed /\ retrieveAsString b n = Fail AssertFailed) /\
  (readableBytes b < Z.of_nat (wbytes w) ->
     peekInt w b = Fail AssertFailed /\ readInt w b = Fail AssertFailed) /\
  (prependableBytes b < len d -> prepend b d = Fail AssertFailed) /\
  (writableBytes b < n -> hasWritten b n = Fail AssertFailed).
Proof.
  split_and!; intros H.
  - unfold retrieve, unwrite, retrieveAsString; by rewrite (proj2 (Z.leb_gt _ _)).
  - rewrite readInt_eq.
    assert (peekInt w b = Fail AssertFailed) as ->; [|done].
    by destruct w; cbn [peekInt wbytes] in *;
      unfold peekInt8, peekInt16, peekInt32, peekInt64; rewrite (proj2 (Z.leb_gt _ _)).
  - unfold prepend; by rewrite (proj2 (Z.leb_gt _ _)).
  - unfold hasWritten; by rewrite (proj2 (Z.leb_gt _ _)).
Qed.
