(* ===== verification/ZlibStreams.v ===== *)
(** * Compressed output, gzip files and the protobuf output stream
    (src/src/muduo/net/ZlibStream.h, src/src/muduo/base/GzipFile.h,
    src/src/muduo/net/protobuf/BufferStream.h)

    zlib is an interface, [Zlib], with the laws its manual states.  The stream hands it
    the input and the room in the output buffer, and keeps the pointer to the input
    between calls. *)

From S2P Require Import Prelude NetBuffer.

(** ** zlib *)

Definition Z_OK : Z := 0.
Definition Z_STREAM_END : Z := 1.
Definition Z_NO_FLUSH : Z := 0.
Definition Z_FINISH : Z := 4.

(** What one call of [deflate] did: its code, the new state, the number of input bytes
    it took and the bytes it put out. *)
Record deflated (S : Type) := mkDeflated { z_code : Z; z_state : S; z_used : Z; z_out : list byte }.
Arguments mkDeflated {S} z_code z_state z_used z_out.
Arguments z_code {S} d.
Arguments z_state {S} d.
Arguments z_used {S} d.
Arguments z_out {S} d.

Class Zlib := {
  zstate : Type;
  deflateInit : Z * zstate;
  deflate : zstate -> list byte -> Z -> Z -> deflated zstate;
  deflateEnd : zstate -> Z;
  deflateBound : Z -> Z;
  inflate : list byte -> option (list byte);
}.

(** Where a stream is: open, or told to finish with [rest] of the input still to be
    taken, or ended. *)
Inductive zphase := Open | Finishing (rest : list byte) | Ended.

(** What a stream may still be called with: once told to finish, the same input
    again and [Z_FINISH] until it ends, and after that nothing. *)
Definition takes (ph : zphase) (data : list byte) (flush : Z) : Prop :=
  match ph with
  | Open => True
  | Finishing rest => flush = Z_FINISH /\ data = rest
  | Ended => False
  end.

Definition after (flush : Z) (rest : list byte) : zphase :=
  if flush =? Z_FINISH then Finishing rest else Open.

(** The manual: [z_hist st ph i o] says that the stream in state [st] has taken [i],
    put out [o] and is at [ph].  It is open if [deflateInit] succeeded.  A call it
    takes, with room and with input or [Z_FINISH], stays inside the input and the
    room, and makes progress and returns [Z_OK], or, under [Z_FINISH] once
    everything is out, returns [Z_STREAM_END] and ends the stream: the output inflates
    to the input, and the stream can be freed.  The output stays within
    [deflateBound]. *)
Class ZlibLaws `{Zlib} := {
  z_hist : zstate -> zphase -> list byte -> list byte -> Prop;
  z_init : fst deflateInit = Z_OK -> z_hist (snd deflateInit) Open [] [];
  z_bound st ph i o : z_hist st ph i o -> len o <= deflateBound (len i);
  z_bound_mono n m : 0 <= n <= m -> deflateBound n <= deflateBound m;
  z_step st ph i o data flush room :
    z_hist st ph i o -> takes ph data flush -> 0 < room ->
    flush = Z_NO_FLUSH /\ data <> [] \/ flush = Z_FINISH ->
    let d := deflate st data flush room in
    0 <= z_used d <= len data /\ len (z_out d) <= room /\
    exists ph',
    z_hist (z_state d) ph' (i ++ take (Z.to_nat (z_used d)) data) (o ++ z_out d) /\
    (z_code d = Z_OK /\ 1 <= z_used d + len (z_out d) /\
     ph' = after flush (drop (Z.to_nat (z_used d)) data) \/
     z_code d = Z_STREAM_END /\ ph' = Ended /\ flush = Z_FINISH /\ z_used d = len data /\
     inflate (o ++ z_out d) = Some (i ++ data) /\ deflateEnd (z_state d) = Z_OK);
}.

(** ** ZlibOutputStream *)

Section Stream.
Context `{Zlib}.

(** [next_in] points into an array of bytes; the counts of [z_stream] are kept beside
    zlib's own state. *)
Record ZlibOutputStream := mkZ {
  output_ : Buffer; next_in : option (list byte * Z); avail_in : Z;
  total_in : Z; total_out : Z; zstream_ : zstate; zerror_ : Z; bufferSize_ : Z;
}.

Definition newZlibOutputStream (output : Buffer) : ZlibOutputStream :=
  mkZ output None 0 0 0 (snd deflateInit) (fst deflateInit) 1024.

Definition set_input (p : option (list byte * Z)) (n : Z) (s : ZlibOutputStream) : ZlibOutputStream :=
  mkZ (output_ s) p n (total_in s) (total_out s) (zstream_ s) (zerror_ s) (bufferSize_ s).

Definition set_zerror (e : Z) (s : ZlibOutputStream) : ZlibOutputStream :=
  mkZ (output_ s) (next_in s) (avail_in s) (total_in s) (total_out s) (zstream_ s) e (bufferSize_ s).

(** The input zlib reads. *)
Definition input_bytes (s : ZlibOutputStream) : res (list byte) :=
  if avail_in s =? 0 then Ok []
  else match next_in s with
  | Some (a, off) => if (0 <=? off) && (off + avail_in s <=? len a) then Ok (slice off (off + avail_in s) a) else Fail OutOfRange
  | None => Fail OutOfRange
  end.

(** The new state, and the code [deflate] returned; [avail_out] is unsigned. *)
Definition compress (flush : Z) (s : ZlibOutputStream) : res (Z * ZlibOutputStream) :=
  let! out := ensureWritableBytes (output_ s) (bufferSize_ s) in
  let avail_out := u32 (i32 (writableBytes out)) in
  let! data := input_bytes s in
  let d := deflate (zstream_ s) data flush avail_out in
  let! out := store out (beginWrite out) (z_out d) in
  let! out := hasWritten out (u64 (writableBytes out - (avail_out - len (z_out d)))) in
  let bufferSize := if (writableBytes out =? 0) && (bufferSize_ s <? 65536) then bufferSize_ s * 2 else bufferSize_ s in
  Ok (z_code d,
      mkZ out (prod_map id (Z.add (z_used d)) <$> next_in s) (avail_in s - z_used d)
        (total_in s + z_used d) (total_out s + len (z_out d)) (z_state d) (zerror_ s) bufferSize).

(** The loop of [write]; a turn takes input or puts something out. *)
Fixpoint write_loop (fuel : nat) (s : ZlibOutputStream) : res ZlibOutputStream :=
  if (0 <? avail_in s) && (zerror_ s =? Z_OK) then
    match fuel with
    | O => Fail Aborted
    | S f => let! '(e, s) := compress Z_NO_FLUSH s in write_loop f (set_zerror e s)
    end
  else Ok s.

(** How often a loop can turn: once per byte in, once per byte out. *)
Definition turns (s : ZlibOutputStream) : nat :=
  Z.to_nat (avail_in s + (deflateBound (total_in s + avail_in s) - total_out s)).

Definition write_piece (buf : list byte) (s : ZlibOutputStream) : res (bool * ZlibOutputStream) :=
  if negb (zerror_ s =? Z_OK) then Ok (false, s)
  else
    assert! bool_decide (next_in s = None) && (avail_in s =? 0) ;;
    let s := set_input (Some (buf, 0)) (len buf) s in
    let! s := write_loop (turns s) s in
    let! s := (if avail_in s =? 0 then
                 assert! bool_decide (next_in s = Some (buf, len buf)) ;;
                 Ok (set_input None 0 s)
               else Ok s) in
    Ok (zerror_ s =? Z_OK, s).

(** [write(Buffer* input)], with what is left of the input. *)
Definition write_buffer (input : Buffer) (s : ZlibOutputStream) : res (bool * Buffer * ZlibOutputStream) :=
  if negb (zerror_ s =? Z_OK) then Ok (false, input, s)
  else
    let! data := load input (peek input) (readableBytes input) in
    let s := set_input (Some (data, 0)) (u32 (i32 (readableBytes input))) s in
    let! s := (if (0 <? avail_in s) && (zerror_ s =? Z_OK)
               then let! '(e, s) := compress Z_NO_FLUSH s in Ok (set_zerror e s)
               else Ok s) in
    let! input := retrieve input (u64 (readableBytes input - avail_in s)) in
    Ok (zerror_ s =? Z_OK, input, s).

Fixpoint finish_loop (fuel : nat) (s : ZlibOutputStream) : res ZlibOutputStream :=
  if zerror_ s =? Z_OK then
    match fuel with
    | O => Fail Aborted
    | S f => let! '(e, s) := compress Z_FINISH s in finish_loop f (set_zerror e s)
    end
  else Ok s.

Definition finish (s : ZlibOutputStream) : res (bool * ZlibOutputStream) :=
  if negb (zerror_ s =? Z_OK) then Ok (false, s)
  else
    let! s := finish_loop (S (turns s)) s in
    let s := set_zerror (deflateEnd (zstream_ s)) s in
    let ok := zerror_ s =? Z_OK in
    Ok (ok, set_zerror Z_STREAM_END s).

Definition destroyZlibOutputStream (s : ZlibOutputStream) : res ZlibOutputStream :=
  let! '(_, s) := finish s in Ok s.
End Stream.

(** ** BufferOutputStream *)

Record BufferOutputStream := mkStream { buffer : Buffer; originalSize_ : Z }.

(** [CHECK_NOTNULL] aborts on a null pointer. *)
Definition newBufferOutputStream (buf : option Buffer) : res BufferOutputStream :=
  match buf with
  | Some b => Ok (mkStream b (readableBytes b))
  | None => Fail Aborted
  end.

(** The area handed out: its address and size, an [int]. *)
Definition Next (s : BufferOutputStream) : res (Z * Z * BufferOutputStream) :=
  let! b := ensureWritableBytes (buffer s) 4096 in
  let data := beginWrite b in
  let size := i32 (writableBytes b) in
  let! b := hasWritten b (u64 size) in
  Ok (data, size, mkStream b (originalSize_ s)).

Definition BackUp (count : Z) (s : BufferOutputStream) : res BufferOutputStream :=
  let! b := unwrite (buffer s) (u64 count) in Ok (mkStream b (originalSize_ s)).

Definition ByteCount (s : BufferOutputStream) : Z := i64 (u64 (readableBytes (buffer s) - originalSize_ s)).

(** ** GzipFile *)

(** The objects of the program, each with its file or none, and the files closed. *)
Record gzip_world := mkGz { files : list (option Z); closed : list Z }.

Inductive gzip_op :=
| GzOpen (file : option Z)
| GzMove (rhs : nat)
| GzAssign (i rhs : nat)
| GzDestroy (i : nat).

Definition gz_valid (file_ : option Z) : bool := bool_decide (file_ <> None).

(** [openForRead] and the like: what [gzopen] returned. *)
Definition gz_open (file : option Z) (y : gzip_world) : gzip_world := mkGz (files y ++ [file]) (closed y).

(** The move constructor. *)
Definition gz_move (rhs : nat) (y : gzip_world) : res gzip_world :=
  match files y !! rhs with
  | Some f => Ok (mkGz (<[rhs := None]> (files y) ++ [f]) (closed y))
  | None => Fail OutOfRange
  end.

(** Move assignment and [swap]. *)
Definition gz_swap (i rhs : nat) (y : gzip_world) : res gzip_world :=
  match files y !! i, files y !! rhs with
  | Some f, Some g => Ok (mkGz (<[rhs := f]> (<[i := g]> (files y))) (closed y))
  | _, _ => Fail OutOfRange
  end.

(** The destructor; an object that is gone has no file. *)
Definition gz_destroy (i : nat) (y : gzip_world) : res gzip_world :=
  match files y !! i with
  | Some f => Ok (mkGz (<[i := None]> (files y)) (closed y ++ option_list f))
  | None => Fail OutOfRange
  end.

Definition gz_step (y : gzip_world) (o : gzip_op) : res gzip_world :=
  match o with
  | GzOpen file => Ok (gz_open file y)
  | GzMove rhs => gz_move rhs y
  | GzAssign i rhs => gz_swap i rhs y
  | GzDestroy i => gz_destroy i y
  end.

(** * Properties *)

(** ** Room in the output *)

(** The vector grows only as far as it must. *)
Lemma ensureWritableBytes_size b n b' :
  inv b -> 0 <= n -> size b + n <= max_size -> ensureWritableBytes b n = Ok b' ->
  size b' <= Z.max (size b) (writerIndex_ b + n) /\ writerIndex_ b' <= writerIndex_ b.
Proof.
  intros Hi Hn Hm E. unfold ensureWritableBytes in E. res_inv E. simplify_eq.
  destruct (writableBytes b <? n); [|by simplify_eq; lia].
  unfold makeSpace in Hx. destruct (_ <? _).
  - res_inv Hx. simplify_eq. cbn [size writerIndex_]. unfold size in *. cbn [buffer_].
    destruct Hi as (H1 & H2 & H3 & H4). unfold size in *. rewrite u64_small in Hx1 by (unfold max_size in *; lia).
    unfold vector_resize in Hx1. destruct (_ <=? max_size); [|done]. simplify_eq.
    rewrite len_app, len_replicate. split; [|lia]. unfold len in *. rewrite length_take. lia.
  - res_inv Hx. simplify_eq. apply splice_inv in Hx3 as (? & ? & ->). cbn [size writerIndex_].
    unfold load in Hx2. destruct (_ && _); [|done]. simplify_eq. bool_hyps. unfold readableBytes, size in *. cbn [buffer_].
    destruct Hi as (? & ? & ? & ?). unfold size, kCheapPrepend, max_size in *. clear Hx4 Hx0.
    rewrite (u64_small (writerIndex_ b - readerIndex_ b)) by lia. rewrite u64_small by lia.
    split; [|lia]. rewrite !len_app. rewrite len_slice in * by lia. rewrite len_take, len_drop by lia. lia.
Qed.

(** ** The stream *)

Section Correct.
Context `{ZlibLaws}.
(** The size of the buffer and its content when the stream is made, and how much is
    written in all. *)
Variables (s0 : Z) (c0 : list byte) (N : Z).
Hypothesis cap : 0 <= s0 /\ s0 + deflateBound N + 262144 < 2 ^ 31.

(** The stream is at [ph], has taken [i] and put out [o]. *)
Record zinv (ph : zphase) (s : ZlibOutputStream) (i o : list byte) : Prop := {
  zi_inv : inv (output_ s);
  zi_content : content (output_ s) = c0 ++ o;
  zi_hist : z_hist (zstream_ s) ph i o;
  zi_in : total_in s = len i;
  zi_out : total_out s = len o;
  zi_buffer : 1024 <= bufferSize_ s <= 131072;
  zi_writer : writerIndex_ (output_ s) <= s0 + len o;
  zi_size : size (output_ s) <= s0 + deflateBound N + 131072;
}.

Lemma out_bound st ph i o : z_hist st ph i o -> len i <= N -> len o <= deflateBound N.
Proof.
  intros Hh Hi. etransitivity; [by eapply z_bound|]. apply z_bound_mono. pose proof (len_nonneg i). lia.
Qed.

Lemma zinv_zerror ph s i o e : zinv ph s i o -> zinv ph (set_zerror e s) i o.
Proof. intros []. by split. Qed.

(** One call of [compress]: what [deflate] puts out is appended. *)
Lemma compress_ok ph s i o data flush :
  zinv ph s i o -> input_bytes s = Ok data -> takes ph data flush -> len i + len data <= N ->
  flush = Z_NO_FLUSH /\ data <> [] \/ flush = Z_FINISH ->
  exists d s' ph', compress flush s = Ok (z_code d, s') /\
    0 <= z_used d <= len data /\
    zinv ph' s' (i ++ take (Z.to_nat (z_used d)) data) (o ++ z_out d) /\
    avail_in s' = avail_in s - z_used d /\ next_in s' = prod_map id (Z.add (z_used d)) <$> next_in s /\
    zerror_ s' = zerror_ s /\ zstream_ s' = z_state d /\
    (z_code d = Z_OK /\ 1 <= z_used d + len (z_out d) /\
     ph' = after flush (drop (Z.to_nat (z_used d)) data) \/
     z_code d = Z_STREAM_END /\ ph' = Ended /\ flush = Z_FINISH /\ z_used d = len data /\
     inflate (o ++ z_out d) = Some (i ++ data) /\ deflateEnd (z_state d) = Z_OK).
Proof.
  intros [Hi Hc Hh Hti Hto Hb Hw Hs] Hd Htk HN Hne. pose proof (len_nonneg data) as Hd0. pose proof (len_nonneg i) as Hi0.
  assert (len o <= deflateBound N) as Ho by (eapply out_bound; [exact Hh|lia]).
  destruct (ensureWritableBytes_rep (output_ s) (bufferSize_ s)) as (b1 & p & q & E1 & R1 & Hq & _ & _);
    [done|lia|unfold max_size; lia|].
  destruct (ensureWritableBytes_size (output_ s) (bufferSize_ s) b1 Hi) as [Hs1 Hw1]; [lia|unfold max_size; lia|done|].
  pose proof (rep_bytes _ _ _ _ R1) as (_ & Hwr & _ & Hsz).
  assert (len q <= size b1) as Hq2.
  { rewrite Hsz. pose proof (len_nonneg p). pose proof (len_nonneg (content (output_ s))). lia. }
  assert (u32 (i32 (writableBytes b1)) = len q) as Ea.
  { rewrite Hwr. unfold i32, u32. rewrite swrap_small by (unfold in_signed; lia). apply uwrap_small. unfold in_unsigned. lia. }
  assert (0 < len q) as Hq0 by lia.
  pose proof (z_step (zstream_ s) ph i o data flush (len q) Hh Htk Hq0 Hne) as Hz. cbv zeta in Hz.
  set (d := deflate (zstream_ s) data flush (len q)) in *. destruct Hz as (Hu & Hr & ph' & Hh' & Hcode).
  destruct (write_rep b1 p _ q (z_out d) R1 Hr) as (b2 & E2 & R2 & b3 & E3 & R3 & Hs3).
  assert (writableBytes b2 = len q) as Hw2.
  { rewrite (proj1 (proj2 (rep_bytes _ _ _ _ R2))), len_app. unfold len in *. rewrite length_drop. lia. }
  pose proof (len_nonneg (z_out d)) as Hz0.
  unfold compress. rewrite E1. cbn [res_bind]. rewrite Hd. cbn [res_bind]. rewrite Ea. fold d. rewrite E2. cbn [res_bind].
  rewrite Hw2. replace (len q - (len q - len (z_out d))) with (len (z_out d)) by lia.
  rewrite u64_small by lia. rewrite E3. cbn [res_bind].
  eexists d, _, ph'. split; [reflexivity|]. split; [done|]. split; [|by split_and!].
  assert (writerIndex_ b1 = len p + len (content (output_ s))) as Ew1 by apply R1.
  assert (writerIndex_ b3 = len p + len (content (output_ s) ++ z_out d)) as Ew3 by apply R3. rewrite len_app in Ew3.
  assert (len (i ++ take (Z.to_nat (z_used d)) data) = len i + z_used d) as Eli by (rewrite len_app, len_take by lia; lia).
  split; cbn [output_ total_in total_out zstream_ bufferSize_].
  - by eapply rep_inv.
  - rewrite (rep_content _ _ _ _ R3), Hc. by rewrite app_assoc.
  - done.
  - lia.
  - rewrite len_app. lia.
  - destruct (_ && _) eqn:E; bool_hyps; lia.
  - rewrite len_app. lia.
  - rewrite Hs3. lia.
Qed.

(** A stream with [data] before it, at the place [next_in] points to. *)
Lemma input_bytes_at s a off n :
  next_in s = Some (a, off) -> avail_in s = n -> 0 <= off -> 0 <= n -> off + n <= len a ->
  input_bytes s = Ok (slice off (off + n) a).
Proof.
  intros Hn Ha Ho Hm Hl. unfold input_bytes. rewrite Hn, Ha. destruct (Z.eqb_spec n 0) as [->|Hne].
  - unfold slice. by replace (Z.to_nat (off + 0 - off)) with 0%nat by lia.
  - rewrite (proj2 (andb_true_iff _ _)); [done|]. rewrite !Z.leb_le. lia.
Qed.

(** The loop of [write] ends with all of the input taken. *)
Lemma write_loop_ok fuel s i o buf off :
  zinv Open s i o -> next_in s = Some (buf, off) -> avail_in s = len buf - off -> 0 <= off <= len buf ->
  len i + (len buf - off) <= N -> zerror_ s = Z_OK ->
  (len buf - off) + (deflateBound (len i + (len buf - off)) - len o) <= Z.of_nat fuel ->
  exists s' o', write_loop fuel s = Ok s' /\
    zinv Open s' (i ++ drop (Z.to_nat off) buf) o' /\ next_in s' = Some (buf, len buf) /\ avail_in s' = 0 /\
    zerror_ s' = Z_OK.
Proof.
  revert s i o off. induction fuel as [|f IH]; intros s i o off Hz Hn Ha Hoff HN He Hf.
  - assert (len o <= deflateBound (len i + (len buf - off))) as Ho.
    { etransitivity; [eapply z_bound, (zi_hist _ _ _ _ Hz)|]. apply z_bound_mono. pose proof (len_nonneg i). lia. }
    assert (off = len buf) as -> by lia. cbn [write_loop]. rewrite Ha, Z.sub_diag. cbn.
    exists s, o. rewrite drop_ge, app_nil_r by (unfold len; lia). split_and!; try done. lia.
  - cbn [write_loop]. rewrite Ha, He. destruct (Z.ltb_spec 0 (len buf - off)) as [Hlt|Hge]; cbn [andb Z.eqb Z_OK].
    2:{ assert (off = len buf) as -> by lia. exists s, o.
        rewrite drop_ge, app_nil_r by (unfold len; lia). split_and!; try done. lia. }
    pose proof (input_bytes_at s buf off (len buf - off) Hn Ha ltac:(lia) ltac:(lia) ltac:(lia)) as Hin.
    set (data := slice off (off + (len buf - off)) buf) in *.
    assert (data = drop (Z.to_nat off) buf) as Ed.
    { unfold data, slice. apply take_ge. rewrite length_drop. unfold len. lia. }
    assert (len data = len buf - off) as Eld by (rewrite Ed; apply len_drop; lia).
    destruct (compress_ok Open s i o data Z_NO_FLUSH Hz Hin I) as (d & s' & ph' & E & Hu & Hz' & Ha' & Hn' & He' & _ & Hcode); [lia| |].
    { left. split; [done|]. intros E. rewrite E in Eld. change (len []) with 0 in Eld. lia. }
    destruct Hcode as [(Hc & Hprog & ->)|(_ & _ & ? & _)]; [|done]. rewrite E. cbn [res_bind]. rewrite Hc.
    rewrite Hn in Hn'. cbn in Hn'.
    assert (len (take (Z.to_nat (z_used d)) data) = z_used d) as Elt by (apply len_take; lia).
    destruct (IH (set_zerror Z_OK s') (i ++ take (Z.to_nat (z_used d)) data) (o ++ z_out d) (off + z_used d))
      as (s'' & o' & E' & Hz'' & Hrest).
    + by apply zinv_zerror.
    + cbn. by rewrite Hn', Z.add_comm.
    + cbn. lia.
    + lia.
    + rewrite len_app. lia.
    + done.
    + rewrite !len_app, Elt. replace (len i + z_used d + (len buf - (off + z_used d))) with (len i + (len buf - off)) by lia. lia.
    + exists s'', o'. split; [exact E'|]. split; [|exact Hrest].
      rewrite <- app_assoc, Ed in Hz''. rewrite <- (take_drop (Z.to_nat (z_used d)) (drop (Z.to_nat off) buf)).
      rewrite drop_drop. replace (Z.to_nat off + Z.to_nat (z_used d))%nat with (Z.to_nat (off + z_used d)) by lia. done.
Qed.

(** A write takes all of it. *)
Lemma write_piece_ok s i o buf :
  zinv Open s i o -> zerror_ s = Z_OK -> next_in s = None -> avail_in s = 0 -> len i + len buf <= N ->
  exists s' o', write_piece buf s = Ok (true, s') /\ zinv Open s' (i ++ buf) o' /\
    zerror_ s' = Z_OK /\ next_in s' = None /\ avail_in s' = 0.
Proof.
  intros Hz He Hn Ha HN. unfold write_piece. rewrite He, Hn, Ha. cbn [negb Z.eqb Z_OK].
  rewrite bool_decide_true by done. cbn [andb cassert res_bind].
  set (s1 := set_input (Some (buf, 0)) (len buf) s).
  assert (zinv Open s1 i o) as Hz1 by (by destruct Hz; split). pose proof (len_nonneg buf).
  destruct (write_loop_ok (turns s1) s1 i o buf 0 Hz1) as (s' & o' & E & Hz' & Hn' & Ha' & He'); try done.
  - cbn. lia.
  - lia.
  - unfold turns. cbn [s1 set_input avail_in total_in total_out].
    rewrite (zi_in _ _ _ _ Hz), (zi_out _ _ _ _ Hz), Z.sub_0_r. lia.
  - rewrite E. cbn [res_bind]. rewrite Ha', Hn'. cbn [Z.eqb]. rewrite bool_decide_true by done. cbn [cassert res_bind].
    exists (set_input None 0 s'), o'. cbn [set_input zerror_]. rewrite He'. split_and!; try done.
    by destruct Hz'; split.
Qed.

(** [finish] ends the stream: what was put out inflates to what was taken. *)
Lemma finish_loop_ok fuel ph s i o :
  zinv ph s i o -> takes ph [] Z_FINISH -> zerror_ s = Z_OK -> avail_in s = 0 -> len i <= N ->
  deflateBound (len i) - len o < Z.of_nat fuel ->
  exists s' o', finish_loop fuel s = Ok s' /\ zinv Ended s' i o' /\ zerror_ s' = Z_STREAM_END /\
    inflate o' = Some i /\ deflateEnd (zstream_ s') = Z_OK.
Proof.
  revert ph s o. induction fuel as [|f IH]; intros ph s o Hz Htk He Ha HN Hf.
  - assert (len o <= deflateBound (len i)) by (eapply z_bound, (zi_hist _ _ _ _ Hz)). lia.
  - cbn [finish_loop]. rewrite He. cbn [Z.eqb Z_OK].
    assert (input_bytes s = Ok []) as Hin by (unfold input_bytes; by rewrite Ha).
    destruct (compress_ok ph s i o [] Z_FINISH Hz Hin Htk) as (d & s' & ph' & E & Hu & Hz' & Ha' & _ & He' & Hst & Hcode);
      [change (len []) with 0; lia|by right|].
    change (len []) with 0 in *. assert (z_used d = 0) as Eu by lia.
    rewrite Eu in Hz', Ha'. cbn [Z.to_nat take] in Hz'. rewrite app_nil_r in Hz'.
    rewrite E. cbn [res_bind]. destruct Hcode as [(Hc & Hprog & ->)|(Hc & -> & _ & _ & Hinf & Hend)]; rewrite Hc.
    + eapply (IH (Finishing []) _ (o ++ z_out d)); [apply zinv_zerror; by rewrite drop_nil in Hz'|done|done|cbn; lia|done|rewrite len_app; lia].
    + exists (set_zerror Z_STREAM_END s'), (o ++ z_out d). rewrite app_nil_r in Hinf.
      split_and!; [by destruct f|by apply zinv_zerror|done|done|cbn; by rewrite Hst].
Qed.

Lemma finish_ok s i o :
  zinv Open s i o -> zerror_ s = Z_OK -> avail_in s = 0 -> len i <= N ->
  exists s' o', finish s = Ok (true, s') /\ zinv Ended s' i o' /\ zerror_ s' = Z_STREAM_END /\ inflate o' = Some i.
Proof.
  intros Hz He Ha HN. unfold finish. rewrite He. cbn [negb Z.eqb Z_OK].
  destruct (finish_loop_ok (S (turns s)) Open s i o Hz I He Ha HN) as (s' & o' & E & Hz' & He' & Hinf & Hend).
  { unfold turns. rewrite Ha, (zi_in _ _ _ _ Hz), (zi_out _ _ _ _ Hz), Z.add_0_r. lia. }
  rewrite E. cbn [res_bind set_zerror zerror_]. rewrite Hend. exists (set_zerror Z_STREAM_END (set_zerror Z_OK s')), o'.
  split_and!; try done. by do 2 apply zinv_zerror.
Qed.

(** Writing from a buffer takes some of it, and what it takes leaves the buffer. *)
Lemma write_buffer_ok s i o input :
  zinv Open s i o -> zerror_ s = Z_OK -> inv input -> size input < 2 ^ 31 -> len i + len (content input) <= N ->
  exists s' o' input' k, write_buffer input s = Ok (true, input', s') /\ 0 <= k <= len (content input) /\
    zinv Open s' (i ++ take (Z.to_nat k) (content input)) o' /\ inv input' /\
    content input' = drop (Z.to_nat k) (content input) /\ size input' <= size input /\
    zerror_ s' = Z_OK /\ avail_in s' = len (content input) - k /\ next_in s' <> None /\
    (0 < len (content input) -> 1 <= k + (len o' - len o)) /\ len o <= len o'.
Proof.
  intros Hz He Hi Hsz HN. unfold write_buffer. rewrite He. cbn [negb Z.eqb Z_OK].
  set (c := content input) in *. pose proof (len_nonneg c) as Hc0.
  assert (readableBytes input = len c) as Er by (by apply readableBytes_content).
  assert (len c < 2 ^ 31) as Hc.
  { pose proof (inv_rep _ Hi) as R. apply rep_bytes in R as (_ & _ & _ & Es). fold c in Es.
    pose proof (len_nonneg (take (Z.to_nat (readerIndex_ input)) (buffer_ input))).
    pose proof (len_nonneg (drop (Z.to_nat (writerIndex_ input)) (buffer_ input))). lia. }
  rewrite Er, load_peek by (auto; fold c; lia). fold c. rewrite take_ge by (unfold len; lia). cbn [res_bind].
  assert (u32 (i32 (len c)) = len c) as ->.
  { unfold i32, u32. rewrite swrap_small by (unfold in_signed; lia). apply uwrap_small. unfold in_unsigned. lia. }
  set (s1 := set_input (Some (c, 0)) (len c) s). assert (zinv Open s1 i o) as Hz1 by (by destruct Hz; split).
  change (avail_in s1) with (len c). change (zerror_ s1) with (zerror_ s). rewrite He. cbn [Z.eqb Z_OK].
  destruct (Z.ltb_spec 0 (len c)) as [Hpos|Hneg]; cbn [andb].
  - assert (input_bytes s1 = Ok c) as Hin.
    { rewrite (input_bytes_at s1 c 0 (len c)) by (done || lia). f_equal. by apply slice_all. }
    destruct (compress_ok Open s1 i o c Z_NO_FLUSH Hz1 Hin I) as (d & s' & ph' & E & Hu & Hz' & Ha' & Hn' & He' & _ & Hcode); [lia| |].
    { left. split; [done|]. intros E. rewrite E in Hpos. change (len []) with 0 in Hpos. lia. }
    destruct Hcode as [(Hcd & Hprog & ->)|(_ & _ & ? & _)]; [|done]. rewrite E. cbn [res_bind]. rewrite Hcd. cbn [set_zerror avail_in].
    rewrite Ha'. change (avail_in s1) with (len c). replace (len c - (len c - z_used d)) with (z_used d) by lia.
    rewrite u64_small by lia. destruct (retrieve_spec input (z_used d) Hi Hu) as (b' & Eb & Hb & Hcb & Hsb & _).
    rewrite Eb. cbn [res_bind set_zerror zerror_]. exists (set_zerror Z_OK s'), (o ++ z_out d), b', (z_used d).
    split; [done|]. split; [done|]. split; [by apply zinv_zerror|]. split; [done|]. split; [done|]. split; [done|].
    split; [done|]. split; [done|]. split; [cbn; by rewrite Hn'|]. rewrite len_app. pose proof (len_nonneg (z_out d)). split; lia.
  - cbn [res_bind]. change (avail_in s1) with (len c). rewrite Z.sub_diag, u64_small by lia.
    destruct (retrieve_spec input 0 Hi) as (b' & Eb & Hb & Hcb & Hsb & _); [fold c; lia|].
    rewrite Eb. cbn [res_bind]. change (zerror_ s1) with (zerror_ s). rewrite He.
    assert (len c = 0) as E0 by lia.
    exists s1, o, b', 0. split; [done|]. split; [lia|]. split; [cbn [Z.to_nat take]; by rewrite app_nil_r|].
    split; [done|]. split; [done|]. split; [done|]. split; [done|]. split; [cbn; lia|]. split; [done|]. split; lia.
Qed.

Lemma write_pieces_ok ps s i o :
  zinv Open s i o -> zerror_ s = Z_OK -> next_in s = None -> avail_in s = 0 -> len i + len (concat ps) <= N ->
  exists s' o', res_fold (fun '(ok, s) p => let! '(ok', s) := write_piece p s in Ok (ok && ok', s)) (true, s) ps = Ok (true, s') /\
    zinv Open s' (i ++ concat ps) o' /\ zerror_ s' = Z_OK /\ next_in s' = None /\ avail_in s' = 0.
Proof.
  revert s i o. induction ps as [|p ps IH]; intros s i o Hz He Hn Ha HN.
  { exists s, o. cbn [concat]. by rewrite app_nil_r. }
  cbn [concat] in *. rewrite len_app in HN. pose proof (len_nonneg (concat ps)).
  destruct (write_piece_ok s i o p Hz He Hn Ha) as (s1 & o1 & E & Hz1 & He1 & Hn1 & Ha1); [lia|].
  cbn [res_fold]. rewrite E. cbn [res_bind andb].
  destruct (IH s1 (i ++ p) o1 Hz1 He1 Hn1 Ha1) as (s' & o' & E' & Hz' & Hr); [rewrite len_app; lia|].
  exists s', o'. rewrite app_assoc. auto.
Qed.

(** A buffer written again until it is empty. *)
Fixpoint drain (fuel : nat) (input : Buffer) (s : ZlibOutputStream) : res (bool * Buffer * ZlibOutputStream) :=
  if readableBytes input =? 0 then Ok (true, input, s)
  else match fuel with
  | O => Ok (false, input, s)
  | S f => let! '(_, input, s) := write_buffer input s in drain f input s
  end.

Lemma drain_ok fuel input s i o :
  zinv Open s i o -> zerror_ s = Z_OK -> inv input -> size input < 2 ^ 31 -> len i + len (content input) <= N ->
  len (content input) + (deflateBound N - len o) <= Z.of_nat fuel -> (readableBytes input = 0 -> avail_in s = 0) ->
  exists s' o' input', drain fuel input s = Ok (true, input', s') /\
    zinv Open s' (i ++ content input) o' /\ zerror_ s' = Z_OK /\ avail_in s' = 0.
Proof.
  revert input s i o. induction fuel as [|f IH]; intros input s i o Hz He Hi Hsz HN Hf Ha;
    cbn [drain]; assert (readableBytes input = len (content input)) as Er by (by apply readableBytes_content);
    rewrite Er in *; pose proof (len_nonneg (content input)) as Hc0.
  all: assert (len o <= deflateBound N) as Ho by (eapply out_bound; [apply (zi_hist _ _ _ _ Hz)|lia]).
  - assert (len (content input) = 0) as E0 by lia. rewrite E0. cbn [Z.eqb]. rewrite (len_0_nil _ E0), app_nil_r.
    exists s, o, input. auto.
  - destruct (Z.eqb_spec (len (content input)) 0) as [E0|E0].
    { rewrite (len_0_nil _ E0), app_nil_r. exists s, o, input. auto. }
    destruct (write_buffer_ok s i o input Hz He Hi Hsz HN)
      as (s1 & o1 & in1 & k & E & Hk & Hz1 & Hi1 & Hc1 & Hs1 & He1 & Ha1 & _ & Hp & Hm).
    rewrite E. cbn [res_bind].
    assert (len (content in1) = len (content input) - k) as El1 by (rewrite Hc1; apply len_drop; lia).
    destruct (IH in1 s1 (i ++ take (Z.to_nat k) (content input)) o1 Hz1 He1 Hi1) as (s' & o' & in' & E' & Hz' & Hr);
      [lia|rewrite len_app, len_take by lia; lia|lia| |].
    + rewrite readableBytes_content, El1, Ha1 by done. lia.
    + exists s', o', in'. split; [done|]. rewrite Hc1, <- app_assoc, take_drop in Hz'. auto.
Qed.

Lemma zinv_new b :
  fst deflateInit = Z_OK -> 0 <= N -> inv b -> size b <= s0 -> content b = c0 ->
  zinv Open (newZlibOutputStream b) [] [].
Proof.
  intros Hh%z_init HN Hi Hs Hc.
  assert (len (@nil byte) <= deflateBound N) as Hb.
  { etransitivity; [by eapply z_bound|]. apply z_bound_mono. change (len (@nil byte)) with 0. lia. }
  change (len (@nil byte)) with 0 in *. pose proof (proj1 (proj2 (proj2 Hi))).
  split; cbn [newZlibOutputStream output_ zstream_ total_in total_out bufferSize_]; change (len (@nil byte)) with 0;
    try done; try lia. by rewrite app_nil_r.
Qed.
End Correct.

(** Writes one after the other; the conjunction of what they return. *)
Definition write_pieces `{Zlib} (ps : list (list byte)) (s : ZlibOutputStream) : res (bool * ZlibOutputStream) :=
  res_fold (fun '(ok, s) p => let! '(ok', s) := write_piece p s in Ok (ok && ok', s)) (true, s) ps.

(** C34: if zlib can be initialised, whatever is written to a compressing stream with
    [write(StringPiece)], in however many pieces, every write and [finish] return true,
    the loops end and the asserts hold; what was appended to the output inflates to
    the concatenation of the pieces.  After that the stream refuses writes, and
    destroying it adds nothing.  If zlib cannot be initialised, every write and
    [finish] return false and nothing is put out.  (A piece written after a
    [write(Buffer* )] fails an assert: [piece_after_buffer_asserts].) *)
Theorem zlib_roundtrip `{ZlibLaws} b ps :
  inv b -> size b + deflateBound (len (concat ps)) + 262144 < 2 ^ 31 ->
  (fst deflateInit = Z_OK ->
   exists s s' z, write_pieces ps (newZlibOutputStream b) = Ok (true, s) /\ finish s = Ok (true, s') /\
     content (output_ s') = content b ++ z /\ inflate z = Some (concat ps) /\
     (forall p, write_piece p s' = Ok (false, s')) /\ destroyZlibOutputStream s' = Ok s') /\
  (fst deflateInit <> Z_OK ->
   let s := newZlibOutputStream b in
   (forall p, write_piece p s = Ok (false, s)) /\ finish s = Ok (false, s) /\
   destroyZlibOutputStream s = Ok s).
Proof.
  intros Hi Hc; split; intros Hinit.
  - set (N := len (concat ps)) in *. pose proof (len_nonneg (concat ps)) as HN. fold N in HN.
    assert (0 <= size b) as Hs0 by (unfold size; apply len_nonneg).
    assert (0 <= size b /\ size b + deflateBound N + 262144 < 2 ^ 31) as Hcap by done.
    pose proof (zinv_new (size b) (content b) N b Hinit HN Hi (Z.le_refl _) eq_refl) as Hz.
    destruct (write_pieces_ok (size b) (content b) N Hcap ps _ [] [] Hz) as (s & o & E & Hz1 & He & Hn & Ha);
      [exact Hinit|done|done|change (len (@nil byte)) with 0; fold N; lia|].
    cbn [app] in Hz1.
    destruct (finish_ok (size b) (content b) N Hcap s _ o Hz1 He Ha) as (s' & o' & E' & Hz' & He' & Hinf); [unfold N; lia|].
    exists s, s', o'. split_and!; [done|done|apply Hz'|done| |].
    + intros p. unfold write_piece. by rewrite He'.
    + unfold destroyZlibOutputStream, finish. by rewrite He'.
  - apply Z.eqb_neq in Hinit. unfold destroyZlibOutputStream, finish, write_piece.
    cbn [newZlibOutputStream zerror_]. by rewrite Hinit.
Qed.

(** the same for input that comes in a buffer: written again until the buffer is
    empty, which happens, it is all compressed, and taken from the buffer once. *)
Theorem zlib_buffer_roundtrip `{ZlibLaws} b input :
  fst deflateInit = Z_OK -> inv b -> inv input -> size input < 2 ^ 31 -> size b + deflateBound (len (content input)) + 262144 < 2 ^ 31 ->
  exists fuel s input' s' z, drain fuel input (newZlibOutputStream b) = Ok (true, input', s) /\
    finish s = Ok (true, s') /\ content (output_ s') = content b ++ z /\ inflate z = Some (content input).
Proof.
  intros Hinit Hi Hin Hsz Hc. set (N := len (content input)) in *. pose proof (len_nonneg (content input)) as HN. fold N in HN.
  assert (0 <= size b) as Hs0 by (unfold size; apply len_nonneg).
  assert (0 <= size b /\ size b + deflateBound N + 262144 < 2 ^ 31) as Hcap by done.
  pose proof (zinv_new (size b) (content b) N b Hinit HN Hi (Z.le_refl _) eq_refl) as Hz.
  set (fuel := Z.to_nat (N + deflateBound N)).
  destruct (drain_ok (size b) (content b) N Hcap fuel input _ [] [] Hz) as (s & o & in' & E & Hz1 & He & Ha);
    [exact Hinit|done|done|change (len (@nil byte)) with 0; fold N; lia| |done|].
  { change (len (@nil byte)) with 0. fold N. unfold fuel. lia. }
  cbn [app] in Hz1. destruct (finish_ok (size b) (content b) N Hcap s _ o Hz1 He Ha) as (s' & o' & E' & Hz' & He' & Hinf); [unfold N; lia|].
  exists fuel, s, in', s', o'. split_and!; [done|done|apply Hz'|done].
Qed.

(** A write from a buffer leaves [next_in] set, also when it has taken everything: a
    write of a piece after it fails the assert. *)
Theorem piece_after_buffer_asserts `{ZlibLaws} b input :
  fst deflateInit = Z_OK -> inv b -> inv input -> size input < 2 ^ 31 -> size b + deflateBound (len (content input)) + 262144 < 2 ^ 31 ->
  exists s input', write_buffer input (newZlibOutputStream b) = Ok (true, input', s) /\
    forall p, write_piece p s = Fail AssertFailed.
Proof.
  intros Hinit Hi Hin Hsz Hc. set (N := len (content input)) in *. pose proof (len_nonneg (content input)) as HN. fold N in HN.
  assert (0 <= size b) as Hs0 by (unfold size; apply len_nonneg).
  assert (0 <= size b /\ size b + deflateBound N + 262144 < 2 ^ 31) as Hcap by done.
  pose proof (zinv_new (size b) (content b) N b Hinit HN Hi (Z.le_refl _) eq_refl) as Hz.
  destruct (write_buffer_ok (size b) (content b) N Hcap _ [] [] input Hz) as (s & o & in' & k & E & _ & _ & _ & _ & _ & He & _ & Hn & _);
    [exact Hinit|done|done|change (len (@nil byte)) with 0; fold N; lia|].
  exists s, in'. split; [done|]. intros p. unfold write_piece. rewrite He. cbn [negb Z.eqb Z_OK].
  by rewrite bool_decide_false.
Qed.

(** ** A compressor that stores *)

(** Its state says whether the stream has ended, after which it takes no call. *)
#[export] Instance stored_zlib : Zlib := {|
  zstate := bool;
  deflateInit := (Z_OK, false);
  deflate := fun ended data flush room =>
    if ended : bool then mkDeflated (-2) true 0 []
    else
      let k := Z.min (len data) room in
      let last := (flush =? Z_FINISH) && (k =? len data) in
      mkDeflated (if last then Z_STREAM_END else Z_OK) last k (take (Z.to_nat k) data);
  deflateEnd := fun ended => if ended then Z_OK else -3;
  deflateBound := fun n => n;
  inflate := Some;
|}.

#[export] Instance stored_laws : ZlibLaws.
Proof.
  refine {| z_hist := fun ended ph i o => i = o /\ (ph <> Ended -> ended = false) |}; try done.
  - intros st ph i o [-> _]. cbn. lia.
  - cbn. lia.
  - intros st ph i o data flush room [-> Hst] Htk Hr Hne.
    assert (st = false) as -> by (apply Hst; by intros ->).
    cbn [deflate stored_zlib z_used z_out z_code z_state inflate deflateEnd].
    pose proof (len_nonneg data). set (k := Z.min (len data) room). cbv zeta.
    assert (len (take (Z.to_nat k) data) = k) as Ek by (apply len_take; lia). rewrite Ek.
    split; [lia|]. split; [lia|].
    destruct (Z.eqb_spec flush Z_FINISH) as [->|Hf], (Z.eqb_spec k (len data)) as [El|El]; cbn [andb].
    + exists Ended. split; [done|]. right. split_and!; try done. rewrite El, take_ge by (unfold len; lia). done.
    + eexists. split; [|left; split; [done|]; split; [unfold k in *; lia|reflexivity]]. done.
    + eexists. split; [|left; split; [done|]; split; [|reflexivity]]; [done|].
      destruct Hne as [[_ Hne]|]; [|done]. destruct data as [|x data]; [done|]. unfold k in *. rewrite len_cons in *.
      pose proof (len_nonneg data). lia.
    + eexists. split; [|left; split; [done|]; split; [|reflexivity]]; [done|].
      destruct Hne as [[_ Hne]|]; [|done]. destruct data as [|x data]; [done|]. unfold k in *. rewrite len_cons in *.
      pose proof (len_nonneg data). lia.
Qed.

Lemma zlib_roundtrip_witness :
  exists s s' z, write_pieces (bytes_of_string <$> ["abc"; ""; "de"]) (newZlibOutputStream (newBuffer 1024)) = Ok (true, s) /\
    finish s = Ok (true, s') /\ content (output_ s') = z /\ inflate z = Some (bytes_of_string "abcde").
Proof.
  destruct (zlib_roundtrip (newBuffer 1024) (bytes_of_string <$> ["abc"; ""; "de"])) as [Hok _].
  - apply defaultBuffer_spec.
  - by vm_compute.
  - destruct (Hok eq_refl) as (s & s' & z & H1 & H2 & H3 & H4 & _).
    exists s, s', z. split_and!; [done|done|exact H3|exact H4].
Defined.

(** What a write from a buffer did not take stays before the stream as well as in the
    buffer: [finish] compresses it although it was not retrieved. *)
Example finish_takes_leftover :
  let text := replicate 5000 x61 in
  let run := let! input := append (newBuffer 1024) text in
    let! '(ok, input, s) := write_buffer input (newZlibOutputStream (newBuffer 1024)) in
    let! '(ok', s) := finish s in
    Ok (ok, ok', len (content input), bool_decide (content (output_ s) = text)) in
  run = Ok (true, true, 3976, true).
Proof. by vm_compute. Qed.

(** ** The protobuf output stream *)

(** what is written into the area [Next] hands out, with the rest of the area given
    back, is appended to the buffer, and counted. *)
Theorem buffer_stream_appends s data :
  inv (buffer s) -> size (buffer s) + 4096 < 2 ^ 31 -> len data <= 4096 ->
  exists p n s1 b2 s3, Next s = Ok (p, n, s1) /\ 4096 <= n /\
    store (buffer s1) p data = Ok b2 /\ BackUp (n - len data) (mkStream b2 (originalSize_ s1)) = Ok s3 /\
    content (buffer s3) = content (buffer s) ++ data /\ inv (buffer s3) /\
    (0 <= originalSize_ s <= len (content (buffer s)) ->
     ByteCount s3 = len (content (buffer s)) + len data - originalSize_ s).
Proof.
  intros Hi Hs Hd. pose proof (len_nonneg data) as Hd0.
  destruct (ensureWritableBytes_rep (buffer s) 4096) as (b1 & p & q & E1 & R1 & Hq & Hs1 & _);
    [done|lia|unfold max_size; lia|].
  pose proof (rep_bytes _ _ _ _ R1) as (_ & Hw & _ & Hsz).
  set (c := content (buffer s)) in *. pose proof (len_nonneg p). pose proof (len_nonneg c).
  destruct R1 as (Eb & Er & Ew & Ez).
  assert (i32 (len q) = len q) as Ei by (apply swrap_small; [lia|unfold in_signed; lia]).
  set (b' := mkBuffer (buffer_ b1) (readerIndex_ b1) (writerIndex_ b1 + len q)).
  assert (hasWritten b1 (u64 (i32 (len q))) = Ok b') as E2.
  { unfold hasWritten. rewrite Ei, Hw, u64_small, Z.leb_refl by lia. cbn [cassert res_bind].
    unfold b'. rewrite u64_small by lia. done. }
  set (rest := drop (length data) q).
  assert (store b' (beginWrite b1) data = Ok (mkBuffer (p ++ (c ++ data ++ rest) ++ []) (readerIndex_ b1) (writerIndex_ b1 + len q))) as E3.
  { unfold store, b', beginWrite. cbn [buffer_ readerIndex_ writerIndex_]. rewrite Eb, Ew.
    rewrite <- (take_drop (length data) q), (app_assoc p c). rewrite (splice_Ok _ data (p ++ c)).
    - cbn [res_bind]. do 2 f_equal. rewrite app_nil_r. by rewrite <- !app_assoc.
    - by rewrite len_app.
    - unfold len in *. rewrite length_take. lia. }
  set (b2 := mkBuffer _ _ _) in E3.
  assert (len (c ++ data ++ rest) = len c + len q) as El.
  { rewrite !len_app. unfold rest, len in *. rewrite length_drop. lia. }
  assert (rep b2 p (c ++ data ++ rest) []) as R2.
  { assert (size b2 = size b1) as Es2.
    { unfold size at 1. unfold b2. cbn [buffer_]. rewrite (len_app p), app_nil_r, El. lia. }
    split; [done|]. rewrite Es2. cbn [b2 readerIndex_ writerIndex_]. rewrite El. split_and!; lia. }
  pose proof (rep_content _ _ _ _ R2) as Ec2. pose proof (rep_inv _ _ _ _ R2) as Hi2.
  destruct (unwrite_spec b2 (len q - len data) Hi2) as (b3 & E4 & Hi3 & Hc3 & _ & _); [rewrite Ec2, El; lia|].
  assert (content b3 = c ++ data) as Ec3.
  { rewrite Hc3, Ec2, El, app_assoc. apply take_app_length'. rewrite length_app. unfold len in *. lia. }
  exists (beginWrite b1), (len q), (mkStream b' (originalSize_ s)), b2, (mkStream b3 (originalSize_ s)).
  split; [|split; [lia|split; [exact E3|]]].
  { unfold Next. rewrite E1. cbn [res_bind]. rewrite Hw, E2, Ei. done. }
  split; [unfold BackUp; cbn [buffer originalSize_]; rewrite u64_small, E4 by lia; done|].
  split; [done|]. split; [done|]. intros Ho. unfold ByteCount. cbn [buffer originalSize_].
  rewrite readableBytes_content, Ec3, len_app by done.
  rewrite u64_small by lia. apply swrap_small; [lia|]. unfold in_signed. lia.
Qed.

(** ** Files are closed once *)

Definition handles (l : list (option Z)) : list Z := omap id l.

Lemma handles_insert l i f g : l !! i = Some f -> option_list f ++ handles (<[i := g]> l) ≡ₚ option_list g ++ handles l.
Proof.
  intros Hi. apply take_drop_middle in Hi as E. pose proof (lookup_lt_Some _ _ _ Hi).
  rewrite insert_take_drop by done. rewrite <- E at 3. unfold handles. rewrite !omap_app. cbn [omap list_omap].
  destruct f, g; cbn; solve_Permutation.
Qed.

Definition opened (ops : list gzip_op) : list Z :=
  omap (fun o => match o with GzOpen f => f | _ => None end) ops.

Lemma gz_step_handles y o y' :
  gz_step y o = Ok y' ->
  handles (files y') ++ closed y' ≡ₚ handles (files y) ++ closed y ++ opened [o].
Proof.
  intros E. destruct o as [f|rhs|i rhs|i]; cbn [gz_step opened omap list_omap] in *.
  - simplify_eq. unfold gz_open, handles. cbn [files closed]. rewrite omap_app. destruct f; cbn; solve_Permutation.
  - unfold gz_move in E. destruct (files y !! rhs) as [f|] eqn:Hr; simplify_eq. cbn [files closed].
    pose proof (handles_insert _ _ _ None Hr) as Hp. cbn in Hp. unfold handles in *. rewrite omap_app, app_nil_r.
    destruct f as [h|]; cbn in Hp |- *; rewrite ?app_nil_r, <- Hp; solve_Permutation.
  - unfold gz_swap in E. destruct (files y !! i) as [f|] eqn:Hi; [|done]. destruct (files y !! rhs) as [g|] eqn:Hr; simplify_eq.
    cbn [files closed]. rewrite app_nil_r. apply Permutation_app_tail. destruct (decide (i = rhs)) as [->|Hne].
    + simplify_eq. rewrite list_insert_insert_eq, list_insert_id by done. done.
    + assert (<[i := g]> (files y) !! rhs = Some g) as Hr' by (by rewrite list_lookup_insert_ne).
      pose proof (handles_insert _ _ _ f Hr') as H1. pose proof (handles_insert _ _ _ g Hi) as H2.
      apply (Permutation_app_inv_l (option_list g)). rewrite H1. rewrite H2. done.
  - unfold gz_destroy in E. destruct (files y !! i) as [f|] eqn:Hi; simplify_eq. cbn [files closed].
    pose proof (handles_insert _ _ _ None Hi) as Hp. cbn in Hp. rewrite app_nil_r, <- Hp. solve_Permutation.
Qed.

(** however files are opened, moved, assigned and destroyed, each file that was opened
    is either held by exactly one object or has been closed exactly once; when no
    object holds one, all are closed. *)
Theorem gzip_closed_once ops y :
  res_fold gz_step (mkGz [] []) ops = Ok y ->
  handles (files y) ++ closed y ≡ₚ opened ops /\
  (Forall (fun f => gz_valid f = false) (files y) -> closed y ≡ₚ opened ops).
Proof.
  intros E. assert (forall ops y0, res_fold gz_step y0 ops = Ok y ->
    handles (files y) ++ closed y ≡ₚ handles (files y0) ++ closed y0 ++ opened ops) as Hall.
  { clear. induction ops as [|o ops IH]; intros y0 E; cbn [res_fold] in E.
    - simplify_eq. cbn. by rewrite app_nil_r.
    - res_inv E. rewrite (IH _ E). change (o :: ops) with ([o] ++ ops). unfold opened at 2. rewrite omap_app. fold (opened [o]) (opened ops).
      rewrite !app_assoc. apply Permutation_app_tail. rewrite <- app_assoc. by rewrite (gz_step_handles _ _ _ Hx). }
  specialize (Hall ops _ E). cbn in Hall. split; [done|]. intros Hv. rewrite <- Hall.
  assert (handles (files y) = []) as ->; [|done]. unfold handles. clear -Hv. induction Hv as [|f l Hf _ IH]; [done|].
  cbn. destruct f; [by apply bool_decide_eq_false in Hf; destruct Hf|done].
Qed.

Lemma gzip_closed_once_witness :
  exists y, res_fold gz_step (mkGz [] []) [GzOpen (Some 3); GzOpen (Some 4); GzMove 0; GzAssign 1 2; GzDestroy 0; GzDestroy 1; GzDestroy 2] = Ok y /\
    closed y ≡ₚ [3; 4].
Proof.
  eexists. split; [reflexivity|].
  by apply (gzip_closed_once [GzOpen (Some 3); GzOpen (Some 4); GzMove 0; GzAssign 1 2; GzDestroy 0; GzDestroy 1; GzDestroy 2] _ eq_refl);
    repeat constructor.
Defined.
