(* ===== verification/TimerQueues.v ===== *)
(** * Timers (src/src/muduo/net/Timer.h, Timer.cc, TimerId.h, TimerQueue.h,
      TimerQueue.cc)

    Timers live on the heap at an address; the queue keeps them in a set ordered
    by (expiration, address) and in a set of (address, sequence) for [cancel].
    Callbacks run inside [handleRead] and may add and cancel timers, themselves
    included; they are arbitrary functions of the sequence number and the queue
    that answer with a list of such calls.  The allocator is a parameter. *)

From Stdlib Require Import Sorting.Sorted.
From S2P Require Import Prelude Timestamps.

Record Timer := mkTimer {
  expiration_ : Timestamp;
  interval_ : Z;      (** in microseconds *)
  repeat_ : bool;
  sequence_ : Z;
}.

Record TimerId := mkTimerId { timer_ : Z; tid_sequence_ : Z }.

Definition nullTimerId : TimerId := mkTimerId 0 0.

(** [interval > 0.0] makes a timer repeat, even one of less than a microsecond. *)
Definition newTimer (when interval : Z) (repeat : bool) (seq : Z) : Timer :=
  mkTimer when interval repeat seq.

Definition restart (now : Timestamp) (t : Timer) : Timer :=
  mkTimer (if repeat_ t then addTime now (interval_ t) else invalid)
    (interval_ t) (repeat_ t) (sequence_ t).

(** ** std::set of entries *)

Abbreviation Entry := (Z * Z)%type.

Definition entry_ltb (x y : Entry) : bool :=
  (fst x <? fst y) || ((fst x =? fst y) && (snd x <? snd y)).

Fixpoint set_insert (e : Entry) (l : list Entry) : list Entry * bool :=
  match l with
  | [] => ([e], true)
  | x :: l' =>
      if entry_ltb e x then (e :: l, true)
      else if entry_ltb x e then let '(r, b) := set_insert e l' in (x :: r, b)
      else (l, false)
  end.

Fixpoint set_erase (e : Entry) (l : list Entry) : list Entry * Z :=
  match l with
  | [] => ([], 0)
  | x :: l' =>
      if bool_decide (x = e) then (l', 1)
      else let '(r, n) := set_erase e l' in (x :: r, n)
  end.

(** [begin() .. lower_bound(e)] and the rest. *)
Fixpoint split_lower_bound (e : Entry) (l : list Entry) : list Entry * list Entry :=
  match l with
  | [] => ([], [])
  | x :: l' =>
      if entry_ltb x e then let '(a, b) := split_lower_bound e l' in (x :: a, b)
      else ([], l)
  end.

Definition UINTPTR_MAX : Z := 2 ^ 64 - 1.

(** ** The queue *)

Record TimerQueue := mkTimerQueue {
  heap : gmap Z Timer;
  timers_ : list Entry;
  activeTimers_ : gset Entry;
  callingExpiredTimers_ : bool;
  cancelingTimers_ : gset Entry;
  numCreated : Z;              (** [Timer::s_numCreated_] *)
  armed : option Timestamp;    (** the timerfd: when it becomes readable, if it is armed *)
  fired : list Z;              (** sequence numbers of the callbacks run so far *)
}.

Definition newTimerQueue : TimerQueue := mkTimerQueue ∅ [] ∅ false ∅ 0 None [].

Definition set_heap h q := mkTimerQueue h (timers_ q) (activeTimers_ q) (callingExpiredTimers_ q)
  (cancelingTimers_ q) (numCreated q) (armed q) (fired q).
Definition set_sets l s q := mkTimerQueue (heap q) l s (callingExpiredTimers_ q)
  (cancelingTimers_ q) (numCreated q) (armed q) (fired q).
Definition set_calling b c q := mkTimerQueue (heap q) (timers_ q) (activeTimers_ q) b c
  (numCreated q) (armed q) (fired q).
Definition set_armed x q := mkTimerQueue (heap q) (timers_ q) (activeTimers_ q)
  (callingExpiredTimers_ q) (cancelingTimers_ q) (numCreated q) x (fired q).
Definition log_fired n q := mkTimerQueue (heap q) (timers_ q) (activeTimers_ q)
  (callingExpiredTimers_ q) (cancelingTimers_ q) (numCreated q) (armed q) (fired q ++ [n]).

Definition deref_timer (q : TimerQueue) (a : Z) : res Timer :=
  match heap q !! a with Some t => Ok t | None => Fail OutOfRange end.

(** [timers_.size() == activeTimers_.size()]. *)
Definition sizes_agree (q : TimerQueue) : bool :=
  len (timers_ q) =? Z.of_nat (size (activeTimers_ q)).

(** [howMuchTimeFromNow]: the timespec in seconds and nanoseconds. *)
Definition howMuchTimeFromNow (when now : Timestamp) : Z * Z :=
  let microseconds := i64 (when - now) in
  let microseconds := if microseconds <? 100 then 100 else microseconds in
  (Z.quot microseconds kMicroSecondsPerSecond,
   Z.rem microseconds kMicroSecondsPerSecond * 1000).

(** timerfd_settime(2) with a relative time: an invalid one is an error and leaves
    the timer as it was, a zero one disarms it, and any other makes it expire that
    long after now.  The monotonic clock of the timerfd and the clock of the program
    are taken to run alike, and the readings of the latter in one event to be one. *)
Definition timerfd_settime (now : Timestamp) (it_value : Z * Z) (old : option Timestamp)
    : option Timestamp :=
  let '(s, ns) := it_value in
  if (s <? 0) || (ns <? 0) || (1000000000 <=? ns) then old
  else if (s =? 0) && (ns =? 0) then None
  else Some (now + s * kMicroSecondsPerSecond + (ns + 999) / 1000).

(** An error of timerfd_settime is logged only. *)
Definition resetTimerfd (expiration now : Timestamp) (q : TimerQueue) : TimerQueue :=
  set_armed (timerfd_settime now (howMuchTimeFromNow expiration now) (armed q)) q.

Definition insert (a : Z) (q : TimerQueue) : res (TimerQueue * bool) :=
  assert! sizes_agree q ;;
  let! t := deref_timer q a in
  let when := expiration_ t in
  let earliestChanged :=
    match timers_ q with
    | [] => true
    | e :: _ => when <? fst e
    end in
  let '(l, ok) := set_insert (when, a) (timers_ q) in
  assert! ok ;;
  let key := (a, sequence_ t) in
  assert! negb (bool_decide (key ∈ activeTimers_ q)) ;;
  let q := set_sets l ({[key]} ∪ activeTimers_ q) q in
  assert! sizes_agree q ;;
  Ok (q, earliestChanged).

Definition addTimerInLoop (a : Z) (now : Timestamp) (q : TimerQueue) : res TimerQueue :=
  let! '(q, earliestChanged) := insert a q in
  let! t := deref_timer q a in
  Ok (if earliestChanged then resetTimerfd (expiration_ t) now q else q).

Definition cancelInLoop (id : TimerId) (q : TimerQueue) : res TimerQueue :=
  assert! sizes_agree q ;;
  let key := (timer_ id, tid_sequence_ id) in
  let! q :=
    (if bool_decide (key ∈ activeTimers_ q) then
       let! t := deref_timer q (timer_ id) in
       let '(l, n) := set_erase (expiration_ t, timer_ id) (timers_ q) in
       assert! n =? 1 ;;
       Ok (set_sets l (activeTimers_ q ∖ {[key]}) (set_heap (delete (timer_ id) (heap q)) q))
     else if callingExpiredTimers_ q
     then Ok (set_calling (callingExpiredTimers_ q) ({[key]} ∪ cancelingTimers_ q) q)
     else Ok q) in
  assert! sizes_agree q ;;
  Ok q.

Definition getExpired (now : Timestamp) (q : TimerQueue) : res (list Entry * TimerQueue) :=
  assert! sizes_agree q ;;
  let '(expired, rest) := split_lower_bound (now, UINTPTR_MAX) (timers_ q) in
  assert! match rest with [] => true | e :: _ => now <? fst e end ;;
  let! active := res_fold (fun (act : gset Entry) (it : Entry) =>
      let! t := deref_timer q (snd it) in
      let key := (snd it, sequence_ t) in
      assert! bool_decide (key ∈ act) ;;
      Ok (act ∖ {[key]})) (activeTimers_ q) expired in
  let q := set_sets rest active q in
  assert! sizes_agree q ;;
  Ok (expired, q).

Definition reset (expired : list Entry) (now : Timestamp) (q : TimerQueue) : res TimerQueue :=
  let! q := res_fold (fun q (it : Entry) =>
      let! t := deref_timer q (snd it) in
      if repeat_ t && negb (bool_decide ((snd it, sequence_ t) ∈ cancelingTimers_ q)) then
        let q := set_heap (<[snd it := restart now t]> (heap q)) q in
        let! '(q, _) := insert (snd it) q in Ok q
      else Ok (set_heap (delete (snd it) (heap q)) q)) q expired in
  let! nextExpire :=
    match timers_ q with
    | [] => Ok invalid
    | e :: _ => let! t := deref_timer q (snd e) in Ok (expiration_ t)
    end in
  Ok (if valid nextExpire then resetTimerfd nextExpire now q else q).

(** Calls on the queue from the loop thread, which run at once. *)
Inductive timer_op :=
| AddTimer (when interval : Z) (repeat : bool)
| Cancel (id : TimerId).

Section Queue.
(** malloc: an unused address, or none left. *)
Variable alloc : gset Z -> option Z.
(** What the callback of the timer with this sequence number calls. *)
Variable callback : Z -> TimerQueue -> list timer_op.

Definition addTimer (when interval : Z) (repeat : bool) (now : Timestamp) (q : TimerQueue)
    : res (TimerQueue * TimerId) :=
  match alloc (dom (heap q)) with
  | None => Fail (Thrown bad_alloc)
  | Some a =>
      let seq := numCreated q + 1 in
      let q := mkTimerQueue (<[a := newTimer when interval repeat seq]> (heap q)) (timers_ q)
                 (activeTimers_ q) (callingExpiredTimers_ q) (cancelingTimers_ q) seq (armed q)
                 (fired q) in
      let! q := addTimerInLoop a now q in
      Ok (q, mkTimerId a seq)
  end.

Definition run_op (now : Timestamp) (q : TimerQueue) (op : timer_op) : res TimerQueue :=
  match op with
  | AddTimer when interval repeat => let! '(q, _) := addTimer when interval repeat now q in Ok q
  | Cancel id => cancelInLoop id q
  end.

(** [it.second->run()]. *)
Definition runTimer (now : Timestamp) (q : TimerQueue) (it : Entry) : res TimerQueue :=
  let! t := deref_timer q (snd it) in
  let q := log_fired (sequence_ t) q in
  res_fold (run_op now) q (callback (sequence_ t) q).

(** [handleRead]; the one-shot timerfd is no longer armed. *)
Definition handleRead (now : Timestamp) (q : TimerQueue) : res TimerQueue :=
  let q := set_armed None q in
  let! '(expired, q) := getExpired now q in
  let q := set_calling true ∅ q in
  let! q := res_fold (runTimer now) q expired in
  reset expired now (set_calling false (cancelingTimers_ q) q).
End Queue.

(** ** Ordered sets *)

Lemma entry_ltb_spec x y :
  entry_ltb x y = true <-> fst x < fst y \/ (fst x = fst y /\ snd x < snd y).
Proof.
  unfold entry_ltb; rewrite orb_true_iff, andb_true_iff, Z.eqb_eq, !Z.ltb_lt; done.
Qed.

Definition entry_lt (x y : Entry) : Prop := entry_ltb x y = true.
Abbreviation sorted := (StronglySorted entry_lt).

Lemma entry_lt_trans x y z : entry_lt x y -> entry_lt y z -> entry_lt x z.
Proof. unfold entry_lt; rewrite !entry_ltb_spec; lia. Qed.

Lemma entry_lt_irrefl x : ~ entry_lt x x.
Proof. unfold entry_lt; rewrite entry_ltb_spec; lia. Qed.

Lemma entry_trichotomy x y : entry_ltb x y = false -> entry_ltb y x = false -> x = y.
Proof.
  rewrite <- !not_true_iff_false, !entry_ltb_spec; destruct x, y; simpl; intros.
  f_equal; lia.
Qed.

Lemma sorted_NoDup l : sorted l -> NoDup l.
Proof.
  induction 1 as [|x l _ IH Hx]; constructor; [|done].
  intros Hin; rewrite Forall_forall in Hx; by apply (entry_lt_irrefl x), Hx.
Qed.

Lemma set_insert_new e l :
  sorted l -> e ∉ l ->
  exists r, set_insert e l = (r, true) /\ sorted r /\ r ≡ₚ e :: l.
Proof.
  induction 1 as [|x l Hl IH Hx]; intros Hn; simpl.
  { eexists; split_and!; try done; by repeat constructor. }
  apply not_elem_of_cons in Hn as [Hne Hn].
  destruct (entry_ltb e x) eqn:E.
  - eexists; split_and!; try done; constructor; [by constructor|].
    constructor; [done|]; eapply Forall_impl; [done|]; intros y Hy; by eapply entry_lt_trans.
  - destruct (entry_ltb x e) eqn:E'; [|by destruct Hne; apply entry_trichotomy].
    destruct (IH Hn) as (r & -> & Hr & Hp); eexists; split_and!; try done.
    + constructor; [done|]; rewrite Hp; constructor; done.
    + rewrite Hp; apply perm_swap.
Qed.

Lemma sorted_app_inv l1 l2 : sorted (l1 ++ l2) -> sorted l1 /\ sorted l2.
Proof.
  induction l1 as [|x l1 IH]; simpl; [split; [constructor|done]|].
  intros Hs; apply StronglySorted_inv in Hs as [Hs Hx]; apply Forall_app in Hx as [Hx _].
  destruct (IH Hs); split; [by constructor|done].
Qed.

Lemma sorted_remove l1 x l2 : sorted (l1 ++ x :: l2) -> sorted (l1 ++ l2).
Proof.
  induction l1 as [|y l1 IH]; simpl; intros Hs; apply StronglySorted_inv in Hs as [Hs Hy]; [done|].
  constructor; [by apply IH|]; apply Forall_app in Hy as [Hy1 Hy2]; apply Forall_app.
  split; [done|]; by apply Forall_cons in Hy2 as [_ ?].
Qed.

Lemma set_erase_spec e l :
  e ∈ l -> exists l1 l2, set_erase e l = (l1 ++ l2, 1) /\ l = l1 ++ e :: l2.
Proof.
  induction l as [|x l IH]; intros Hin; [by apply not_elem_of_nil in Hin|]; simpl.
  case_bool_decide as E.
  - exists [], l; by subst.
  - apply elem_of_cons in Hin as [->|Hin]; [done|].
    destruct (IH Hin) as (l1 & l2 & -> & ->); by exists (x :: l1), l2.
Qed.

Lemma split_lower_bound_spec e l a b :
  split_lower_bound e l = (a, b) ->
  l = a ++ b /\ Forall (fun x => entry_lt x e) a /\
  (sorted l -> Forall (fun x => ~ entry_lt x e) b).
Proof.
  revert a b; induction l as [|x l IH]; simpl; intros a b; [intros [= <- <-]; done|].
  destruct (entry_ltb x e) eqn:E.
  - destruct (split_lower_bound e l) as [a' b'] eqn:Es; intros [= <- <-].
    destruct (IH _ _ eq_refl) as (-> & Ha & Hb); split_and!; [done|by constructor|].
    intros Hs; apply StronglySorted_inv in Hs as [Hs _]; by apply Hb.
  - intros [= <- <-]; split_and!; [done|constructor|]; intros Hs.
    apply StronglySorted_inv in Hs as [_ Hx]; constructor; [unfold entry_lt; by rewrite E|].
    eapply Forall_impl; [done|]; intros y Hxy Hye; simpl in *.
    assert (entry_lt x e) by (by eapply entry_lt_trans); unfold entry_lt in *; congruence.
Qed.

(** ** The invariant *)

Definition key_of (h : gmap Z Timer) (e : Entry) : Entry :=
  (snd e, match h !! snd e with Some t => sequence_ t | None => 0 end).

(** [X] are the addresses of the expired timers being called, which are on the
    heap but in none of the two sets. *)
Record tq_inv (X : list Z) (q : TimerQueue) : Prop := {
  tq_sorted : sorted (timers_ q);
  tq_timers : forall w a, (w, a) ∈ timers_ q ->
    (a ∉ X) /\ (exists t, heap q !! a = Some t /\ expiration_ t = w);
  tq_active : activeTimers_ q = list_to_set (key_of (heap q) <$> timers_ q);
  tq_heap : forall a t, heap q !! a = Some t ->
    ((expiration_ t, a) ∈ timers_ q \/ a ∈ X) /\ 0 < a < UINTPTR_MAX /\
    sequence_ t <= numCreated q;
  tq_called : NoDup X /\ (forall a, a ∈ X -> is_Some (heap q !! a));
  tq_seq : forall a b ta tb, heap q !! a = Some ta -> heap q !! b = Some tb ->
    sequence_ ta = sequence_ tb -> a = b;
}.

Lemma key_of_inj X q x y :
  tq_inv X q -> x ∈ timers_ q -> y ∈ timers_ q -> key_of (heap q) x = key_of (heap q) y -> x = y.
Proof.
  intros Hi Hx Hy [= E _]; destruct x as [wx a], y as [wy b]; simpl in E; subst b.
  destruct (tq_timers _ _ Hi _ _ Hx) as (_ & t & Ht & <-).
  destruct (tq_timers _ _ Hi _ _ Hy) as (_ & t' & Ht' & <-); congruence.
Qed.

Lemma tq_sizes X q : tq_inv X q -> sizes_agree q = true.
Proof.
  intros Hi; unfold sizes_agree; rewrite (tq_active _ _ Hi), size_list_to_set.
  - rewrite length_fmap; apply Z.eqb_refl.
  - apply NoDup_fmap_2_strong; [|by apply sorted_NoDup, (tq_sorted _ _ Hi)].
    intros x y; by apply (key_of_inj X).
Qed.

(** Membership in [activeTimers_]. *)
Lemma tq_active_iff X q a s :
  tq_inv X q -> (a, s) ∈ activeTimers_ q <->
  exists t, heap q !! a = Some t /\ sequence_ t = s /\ (expiration_ t, a) ∈ timers_ q.
Proof.
  intros Hi; rewrite (tq_active _ _ Hi), elem_of_list_to_set, list_elem_of_fmap; split.
  - intros ([w b] & E & Hin); destruct (tq_timers _ _ Hi _ _ Hin) as (_ & t & Ht & <-).
    unfold key_of in E; simpl in E; rewrite Ht in E; injection E as -> ->; eauto.
  - intros (t & Ht & <- & Hin); exists (expiration_ t, a); unfold key_of; simpl; by rewrite Ht.
Qed.

(** A change of the heap outside the queue does not change the keys. *)
Lemma key_of_frame (h h' : gmap Z Timer) (l : list Entry) :
  (forall e, e ∈ l -> h' !! snd e = h !! snd e) -> key_of h' <$> l = key_of h <$> l.
Proof.
  intros Hh; apply list_fmap_ext; intros i e He; unfold key_of.
  by rewrite Hh by (by eapply list_elem_of_lookup_2).
Qed.

(** [insert] of a timer that is on the heap and in no set. *)
Lemma insert_spec X q a t :
  tq_inv (a :: X) q -> heap q !! a = Some t ->
  exists q', insert a q = Ok (q', match timers_ q with [] => true | e :: _ => expiration_ t <? fst e end) /\
    tq_inv X q' /\ timers_ q' ≡ₚ (expiration_ t, a) :: timers_ q /\
    heap q' = heap q /\ callingExpiredTimers_ q' = callingExpiredTimers_ q /\
    cancelingTimers_ q' = cancelingTimers_ q /\ numCreated q' = numCreated q /\
    armed q' = armed q /\ fired q' = fired q.
Proof.
  intros Hi Ht; unfold insert; rewrite (tq_sizes _ _ Hi); cbn [cassert res_bind].
  unfold deref_timer; rewrite Ht; cbn [res_bind].
  assert (forall w, (w, a) ∉ timers_ q) as Hn.
  { intros w Hin; destruct (tq_timers _ _ Hi _ _ Hin) as [Hx _]; apply Hx; left. }
  destruct (set_insert_new (expiration_ t, a) (timers_ q)) as (r & -> & Hr & Hp);
    [apply (tq_sorted _ _ Hi)|apply Hn|]; cbn [cassert res_bind].
  rewrite bool_decide_eq_false_2; cbn [negb cassert res_bind].
  2:{ rewrite (tq_active_iff _ _ _ _ Hi); intros (t' & Ht' & _ & Hin); by apply (Hn _ Hin). }
  set (q' := set_sets _ _ q).
  assert (tq_inv X q') as Hi'.
  { destruct (tq_called _ _ Hi) as [[Ha Hnd]%NoDup_cons Hal]; split; simpl; try done.
    - intros w b; rewrite Hp; intros [[= -> ->]|Hin]%elem_of_cons; [eauto|].
      destruct (tq_timers _ _ Hi _ _ Hin) as [[_ Hx]%not_elem_of_cons Hex]; auto.
    - rewrite (list_to_set_perm_L _ (key_of (heap q) <$> (expiration_ t, a) :: timers_ q))
        by (by rewrite Hp).
      assert (key_of (heap q) (expiration_ t, a) = (a, sequence_ t)) as Ek
        by (unfold key_of; simpl; by rewrite Ht).
      by rewrite fmap_cons, list_to_set_cons, (tq_active _ _ Hi), Ek.
    - intros b tb Hb; destruct (tq_heap _ _ Hi _ _ Hb) as (Hor & ? & ?); split; [|by split].
      rewrite Hp; destruct Hor as [Hin|[->|Hin]%elem_of_cons]; [left; by right| |by right].
      left; rewrite Ht in Hb; injection Hb as <-; left.
    - split; [done|]; intros b Hb; apply Hal; by right.
    - apply (tq_seq _ _ Hi). }
  rewrite (tq_sizes _ _ Hi'); cbn [cassert res_bind]; eexists; split_and!; done.
Qed.

Lemma remove_added (x : Entry) (Y : gset Entry) : x ∉ Y -> ({[x]} ∪ Y) ∖ {[x]} = Y.
Proof.
  intros Hx; apply set_eq; intros y; rewrite elem_of_difference, elem_of_union, elem_of_singleton.
  split; [intros [[?|?] ?]; done|intros Hy; split; [by right|intros ->; done]].
Qed.

(** Whatever happens, a timer keeps its address and sequence number: old numbers
    do not come back. *)
Definition evolves (q q' : TimerQueue) : Prop :=
  numCreated q <= numCreated q' /\
  forall a t', heap q' !! a = Some t' -> sequence_ t' <= numCreated q ->
    exists t, heap q !! a = Some t /\ sequence_ t = sequence_ t'.

Lemma evolves_refl q : evolves q q.
Proof. split; [lia|eauto]. Qed.

Lemma evolves_trans q1 q2 q3 : evolves q1 q2 -> evolves q2 q3 -> evolves q1 q3.
Proof.
  intros [Hn1 H1] [Hn2 H2]; split; [lia|]; intros a t3 Ht3 Hs.
  destruct (H2 a t3 Ht3) as (t2 & Ht2 & E2); [lia|].
  destruct (H1 a t2 Ht2) as (t1 & Ht1 & E1); [lia|]; exists t1; split; [done|lia].
Qed.

(** What a call on the queue does while the timers of [X] are being called. *)
Definition op_post (X : list Z) (q q' : TimerQueue) : Prop :=
  tq_inv X q' /\ (forall a, a ∈ X -> heap q' !! a = heap q !! a) /\ fired q' = fired q /\
  callingExpiredTimers_ q' = callingExpiredTimers_ q /\
  cancelingTimers_ q ⊆ cancelingTimers_ q' /\ evolves q q'.

(** The timer is off the heap, or it is being called and marked. *)
Definition cancelled (id : TimerId) (X : list Z) (q : TimerQueue) : Prop :=
  forall t, heap q !! timer_ id = Some t -> sequence_ t = tid_sequence_ id ->
    timer_ id ∈ X /\ (timer_ id, tid_sequence_ id) ∈ cancelingTimers_ q.

Lemma cancelled_op id X q q' :
  tid_sequence_ id <= numCreated q -> op_post X q q' -> cancelled id X q -> cancelled id X q'.
Proof.
  intros Hs (_ & _ & _ & _ & Hc & _ & Hev) Hcan t' Ht' E.
  destruct (Hev _ _ Ht') as (t & Ht & Es); [lia|]; destruct (Hcan t Ht) as [? ?]; [congruence|].
  split; [done|by apply Hc].
Qed.

Lemma cancelInLoop_spec X q id :
  tq_inv X q ->
  exists q', cancelInLoop id q = Ok q' /\ op_post X q q' /\
    (callingExpiredTimers_ q = true \/ timer_ id ∉ X -> cancelled id X q') /\
    (forall e, e ∈ timers_ q' -> e ∈ timers_ q) /\ armed q' = armed q /\ heap q' ⊆ heap q /\
    (forall k, k ∈ cancelingTimers_ q' -> k ∈ cancelingTimers_ q \/
       k = (timer_ id, tid_sequence_ id) /\ cancelled id X q').
Proof.
  intros Hi; unfold cancelInLoop; rewrite (tq_sizes _ _ Hi); cbn [cassert res_bind].
  destruct id as [a s]; cbn [timer_ tid_sequence_].
  case_bool_decide as Hact.
  - destruct (proj1 (tq_active_iff _ _ _ _ Hi) Hact) as (t & Ht & <- & Hin).
    unfold deref_timer; rewrite Ht; cbn [res_bind].
    destruct (set_erase_spec _ _ Hin) as (l1 & l2 & -> & El); rewrite Z.eqb_refl; cbn [cassert res_bind].
    set (q' := set_sets _ _ _).
    pose proof (tq_sorted _ _ Hi) as Hso; rewrite El in Hso.
    pose proof (sorted_NoDup _ Hso) as Hnd; rewrite <- Permutation_middle in Hnd.
    apply NoDup_cons in Hnd as [Hni _].
    assert (forall e, e ∈ l1 ++ l2 -> e ∈ timers_ q) as Hsub.
    { intros e He; rewrite El, <- Permutation_middle; by right. }
    assert (forall e, e ∈ l1 ++ l2 -> snd e <> a) as Hna.
    { intros [w b] He E; simpl in E; subst b; apply Hni.
      destruct (tq_timers _ _ Hi _ _ (Hsub _ He)) as (_ & t' & Ht' & <-); congruence. }
    assert (tq_inv X q') as Hi'.
    { split; simpl.
      - by eapply sorted_remove.
      - intros w b Hb; destruct (tq_timers _ _ Hi _ _ (Hsub _ Hb)) as (? & t' & ? & ?).
        split; [done|]; exists t'; rewrite lookup_delete_ne; [done|]; intros ->; by apply (Hna _ Hb).
      - rewrite (tq_active _ _ Hi), El.
        rewrite (list_to_set_perm_L _ (key_of (heap q) <$> (expiration_ t, a) :: l1 ++ l2))
          by (by rewrite Permutation_middle).
        rewrite fmap_cons, list_to_set_cons.
        assert (key_of (heap q) (expiration_ t, a) = (a, sequence_ t)) as ->
          by (unfold key_of; simpl; by rewrite Ht).
        rewrite (key_of_frame (heap q) (delete a (heap q)))
          by (intros e He; rewrite lookup_delete_ne; [done|]; intros E; by apply (Hna _ He)).
        assert ((a, sequence_ t) ∉ (list_to_set (key_of (heap q) <$> l1 ++ l2) : gset Entry)).
        { rewrite elem_of_list_to_set, list_elem_of_fmap; intros ([w b] & [= E _] & He).
          by apply (Hna _ He). }
        by apply remove_added.
      - intros b tb; rewrite lookup_delete_Some; intros [Hne Hb].
        destruct (tq_heap _ _ Hi _ _ Hb) as (Hor & ?); split; [|done].
        destruct Hor as [Ho|]; [left|by right].
        rewrite El, <- Permutation_middle in Ho; apply elem_of_cons in Ho as [[= _ ->]|]; done.
      - destruct (tq_called _ _ Hi) as [? Hx]; split; [done|]; intros b Hb.
        rewrite lookup_delete_ne; [by apply Hx|]; intros <-.
        by destruct (tq_timers _ _ Hi _ _ Hin) as [? _].
      - intros b c tb tc; rewrite !lookup_delete_Some; intros [_ ?] [_ ?].
        by apply (tq_seq _ _ Hi). }
    rewrite (tq_sizes _ _ Hi'); cbn [cassert res_bind].
    exists q'; split_and!; try done.
    + split_and!; try done.
      * intros b Hb; simpl; rewrite lookup_delete_ne; [done|]; intros <-.
        by destruct (tq_timers _ _ Hi _ _ Hin) as [? _].
      * split; [simpl; lia|]; intros b tb; simpl; rewrite lookup_delete_Some; intros [_ ?]; eauto.
    + intros _ t'; simpl; by rewrite lookup_delete_eq.
    + apply delete_subseteq.
    + intros k Hk; by left.
  - assert (forall t, heap q !! a = Some t -> sequence_ t = s -> a ∈ X) as HaX.
    { intros t Ht Es; destruct (tq_heap _ _ Hi _ _ Ht) as ([Hin|] & _); [|done].
      destruct Hact; apply (tq_active_iff _ _ _ _ Hi); eauto. }
    destruct (callingExpiredTimers_ q) eqn:Ec; cbn [res_bind].
    + set (q' := set_calling _ _ _); assert (tq_inv X q') as Hi'
        by (destruct Hi as [I1 I2 I3 I4 I5 I6]; by split).
      rewrite (tq_sizes _ _ Hi'); cbn [cassert res_bind].
      assert (cancelled (mkTimerId a s) X q') as Hcan.
      { intros t Ht Es; split; [by eapply HaX|].
        apply elem_of_union; left; by apply elem_of_singleton. }
      exists q'; split_and!; try done.
      * split_and!; try done; [apply union_subseteq_r|split; [simpl; lia|eauto]].
      * intros k [->%elem_of_singleton|?]%elem_of_union; auto.
    + rewrite (tq_sizes _ _ Hi); cbn [cassert res_bind]; exists q; split_and!; try done.
      * split_and!; try done; apply evolves_refl.
      * intros [?|Hna] t Ht Es; [done|]; destruct Hna; by eapply HaX.
      * intros k Hk; by left.
Qed.

(** *** The timerfd *)

(** The delay handed to timerfd_settime is a valid timespec of at least 100
    microseconds, and exactly the time left when that is more. *)
Theorem howMuchTimeFromNow_bounds when now :
  in_signed 64 (when - now) ->
  let '(s, ns) := howMuchTimeFromNow when now in
  0 <= s /\ 0 <= ns < 1000000000 /\
  s * 1000000 + Z.quot ns 1000 = Z.max 100 (when - now).
Proof.
  intros Hr; unfold howMuchTimeFromNow; unfold i64; rewrite swrap_small by done.
  unfold kMicroSecondsPerSecond; change (1000 * 1000) with 1000000.
  set (m := if when - now <? 100 then 100 else when - now).
  assert (m = Z.max 100 (when - now)) as Hm by (subst m; case_match; bool_hyps; lia).
  pose proof (Z.quot_rem' m 1000000); pose proof (Z.rem_bound_pos m 1000000).
  assert (0 <= Z.quot m 1000000) by (apply Z.quot_pos; lia).
  rewrite Z.quot_mul by done; lia.
Qed.

Lemma howMuchTimeFromNow_bounds_witness :
  howMuchTimeFromNow 5000123 1000000 = (4, 123000) /\
  4 * 1000000 + Z.quot 123000 1000 = Z.max 100 (5000123 - 1000000).
Proof.
  split; [reflexivity|].
  apply (howMuchTimeFromNow_bounds 5000123 1000000); vm_compute; split; discriminate || reflexivity.
Defined.

(** The timerfd is set to the expiration, or to 100 microseconds from now. *)
Lemma resetTimerfd_armed e now q :
  in_signed 64 (e - now) -> armed (resetTimerfd e now q) = Some (Z.max e (now + 100)).
Proof.
  intros Hr; pose proof (howMuchTimeFromNow_bounds e now Hr) as H.
  unfold resetTimerfd; cbn [armed set_armed]; unfold timerfd_settime.
  destruct (howMuchTimeFromNow e now) as [s ns] eqn:E; destruct H as (H1 & H2 & H3).
  assert (ns mod 1000 = 0) as Hns.
  { unfold howMuchTimeFromNow in E; injection E as _ <-; apply Z.mod_mul; lia. }
  rewrite Z.quot_div_nonneg in H3 by lia.
  rewrite (proj2 (Z.ltb_ge s 0)), (proj2 (Z.ltb_ge ns 0)), (proj2 (Z.leb_gt _ ns)) by lia.
  cbn [orb]; destruct (Z.eqb_spec s 0), (Z.eqb_spec ns 0); cbn [andb];
    unfold kMicroSecondsPerSecond; subst; try (exfalso; Z.div_mod_to_equations; lia);
    f_equal; Z.div_mod_to_equations; lia.
Qed.

(** The timerfd is armed for no later than any timer in the queue, or than 100
    microseconds after [T], the latest time it can have been set at. *)
Definition armed_ok (T : Timestamp) (q : TimerQueue) : Prop :=
  forall e, e ∈ timers_ q -> exists x, armed q = Some x /\ x <= Z.max (fst e) (T + 100).

(** Clock readings up to [T] and expirations for which no difference overflows. *)
Definition clock_ok (T now : Timestamp) : Prop := 0 < now < 2 ^ 62 /\ now <= T.
Definition when_ok (when : Timestamp) : Prop := 0 < when < 2 ^ 63.

Lemma armed_at e now T q e' :
  when_ok e -> clock_ok T now -> e <= fst (e' : Entry) ->
  exists x, armed (resetTimerfd e now q) = Some x /\ x <= Z.max (fst e') (T + 100).
Proof.
  intros He [Hn HT] Hle; rewrite resetTimerfd_armed by (unfold in_signed, when_ok in *; lia).
  eexists; split; [done|lia].
Qed.

Lemma sorted_head_le (e e' : Entry) l : sorted (e :: l) -> e' ∈ e :: l -> fst e <= fst e'.
Proof.
  intros Hs [->|Hin]%elem_of_cons; [lia|]; apply StronglySorted_inv in Hs as [_ Hx].
  rewrite Forall_forall in Hx; specialize (Hx _ Hin); unfold entry_lt in Hx.
  rewrite entry_ltb_spec in Hx; lia.
Qed.

Section QueueProofs.
Context (alloc : gset Z -> option Z) (callback : Z -> TimerQueue -> list timer_op).

(** malloc returns unused addresses of the address space. *)
Definition alloc_ok : Prop :=
  forall X a, alloc X = Some a -> (a ∉ X) /\ 0 < a < UINTPTR_MAX.

Context (Halloc : alloc_ok).

Lemma tq_inv_alloc X q a t :
  tq_inv X q -> heap q !! a = None -> 0 < a < UINTPTR_MAX -> sequence_ t = numCreated q + 1 ->
  tq_inv (a :: X) (mkTimerQueue (<[a := t]> (heap q)) (timers_ q) (activeTimers_ q)
    (callingExpiredTimers_ q) (cancelingTimers_ q) (sequence_ t) (armed q) (fired q)).
Proof.
  intros Hi Ha Hr Hs.
  assert (forall w b, (w, b) ∈ timers_ q -> a <> b) as Hne.
  { intros w b Hin ->; destruct (tq_timers _ _ Hi _ _ Hin) as (_ & t' & ? & _); congruence. }
  split; simpl.
  - apply (tq_sorted _ _ Hi).
  - intros w b Hin; destruct (tq_timers _ _ Hi _ _ Hin) as (? & t' & ? & ?).
    pose proof (Hne _ _ Hin); split; [apply not_elem_of_cons; split; done|].
    exists t'; by rewrite lookup_insert_ne.
  - rewrite (tq_active _ _ Hi); f_equal; symmetry; apply key_of_frame.
    intros [w b] Hin; simpl; rewrite lookup_insert_ne; [done|by eapply Hne].
  - intros b tb; destruct (decide (a = b)) as [<-|Hab].
    + rewrite lookup_insert_eq; intros [= <-]; split; [right; left|]; split; [done|lia].
    + rewrite lookup_insert_ne by done; intros Hb.
      destruct (tq_heap _ _ Hi _ _ Hb) as (Hor & ? & ?); split; [|split; [done|lia]].
      destruct Hor; [by left|right; by right].
  - destruct (tq_called _ _ Hi) as [Hnd Hx]; split.
    + constructor; [|done]; intros Hin; destruct (Hx _ Hin) as [t' ?]; congruence.
    + intros b [->|Hb]%elem_of_cons; [rewrite lookup_insert_eq; eauto|].
      rewrite lookup_insert_ne; [by apply Hx|]; intros <-; destruct (Hx _ Hb) as [t' ?]; congruence.
  - intros b c tb tc; destruct (decide (a = b)) as [<-|Hab], (decide (a = c)) as [<-|Hac];
      rewrite ?lookup_insert_eq, ?lookup_insert_ne by done; try done.
    + intros [= <-] Hc E; destruct (tq_heap _ _ Hi _ _ Hc) as (_ & _ & ?); lia.
    + intros Hb [= <-] E; destruct (tq_heap _ _ Hi _ _ Hb) as (_ & _ & ?); lia.
    + apply (tq_seq _ _ Hi).
Qed.

(** The timer comes into the queue, and the timerfd is armed if it is the first. *)
Lemma addTimerInLoop_spec X q a t now :
  tq_inv (a :: X) q -> heap q !! a = Some t ->
  exists q', addTimerInLoop a now q = Ok q' /\ tq_inv X q' /\ timers_ q' ≡ₚ (expiration_ t, a) :: timers_ q /\
    heap q' = heap q /\ fired q' = fired q /\ callingExpiredTimers_ q' = callingExpiredTimers_ q /\
    cancelingTimers_ q' = cancelingTimers_ q /\ numCreated q' = numCreated q /\
    (forall T, when_ok (expiration_ t) -> clock_ok T now -> armed_ok T q -> armed_ok T q').
Proof.
  intros Hi Ht; unfold addTimerInLoop.
  destruct (insert_spec X q a t Hi Ht) as (q2 & -> & Hi2 & Hp & Hh & Hc & Hcn & Hnum & Harm & Hf);
    cbn [res_bind].
  unfold deref_timer; rewrite Hh, Ht; cbn [res_bind].
  set (q3 := if _ : bool then _ else q2).
  assert (heap q3 = heap q2 /\ timers_ q3 = timers_ q2 /\ activeTimers_ q3 = activeTimers_ q2 /\
          fired q3 = fired q2 /\ callingExpiredTimers_ q3 = callingExpiredTimers_ q2 /\
          cancelingTimers_ q3 = cancelingTimers_ q2 /\ numCreated q3 = numCreated q2)
    as (E1 & E2 & E3 & E4 & E5 & E6 & E7).
  { subst q3; destruct (match _ with [] => _ | _ => _ end); [|done].
    done. }
  exists q3; rewrite E1, E2, E4, E5, E6, E7; split_and!; try done.
  - destruct Hi2 as [I1 I2 I3 I4 I5 I6]; split; by rewrite ?E1, ?E2, ?E3, ?E7.
  - intros T Hw Hnow Hao e; rewrite E2, Hp; intros He.
    subst q3; destruct (timers_ q) as [|e0 l] eqn:El.
    + apply list_elem_of_singleton in He as ->; by apply armed_at.
    + pose proof (tq_sorted _ _ Hi) as Hso; rewrite El in Hso.
      destruct (Z.ltb_spec (expiration_ t) (fst e0)).
      * apply armed_at; [done..|].
        apply elem_of_cons in He as [->|He]; [simpl; lia|].
        pose proof (sorted_head_le _ _ _ Hso He); cbn [fst] in *; lia.
      * destruct (Hao e0) as (x & Ex & Hx); [rewrite El; left|].
        exists x; rewrite Harm; split; [done|].
        apply elem_of_cons in He as [->|He]; [cbn [fst]; lia|].
        pose proof (sorted_head_le _ _ _ Hso He); lia.
Qed.

Lemma addTimer_spec X q when interval repeat now :
  tq_inv X q ->
  safe (addTimer alloc when interval repeat now q) (fun '(q', id) =>
    op_post X q q' /\
    (forall T, when_ok when -> clock_ok T now -> armed_ok T q -> armed_ok T q') /\
    (forall e, e ∈ timers_ q -> e ∈ timers_ q') /\
    tid_sequence_ id = numCreated q + 1 /\
    (when, timer_ id) ∈ timers_ q' /\ cancelingTimers_ q' = cancelingTimers_ q /\
    heap q' = <[timer_ id := newTimer when interval repeat (tid_sequence_ id)]> (heap q)).
Proof.
  intros Hi; unfold addTimer; destruct (alloc (dom (heap q))) as [a|] eqn:Ea; [|done].
  destruct (Halloc _ _ Ea) as [Hna Hr]; apply not_elem_of_dom in Hna.
  set (t := newTimer _ _ _ _); pose proof (tq_inv_alloc X q a t Hi Hna Hr eq_refl) as Hi1.
  set (q1 := mkTimerQueue _ _ _ _ _ _ _ _) in *.
  destruct (addTimerInLoop_spec X q1 a t now Hi1) as (q3 & -> & Hi3 & Hp & Hh & Hf & Hc & Hcn & Hnum & Harm);
    [by apply lookup_insert_eq|]; cbn [res_bind safe].
  split_and!; try done.
  - split_and!; try done.
    + intros b Hb; rewrite Hh; simpl; rewrite lookup_insert_ne; [done|]; intros <-.
      destruct (tq_called _ _ Hi) as [_ Hx]; destruct (Hx _ Hb); congruence.
    + by rewrite Hcn.
    + split; [rewrite Hnum; simpl; lia|]; intros b tb; rewrite Hh; simpl.
      destruct (decide (a = b)) as [<-|Hne]; [|rewrite lookup_insert_ne by done; eauto].
      rewrite lookup_insert_eq; intros [= <-]; simpl; lia.
  - intros e He; rewrite Hp; by right.
  - rewrite Hp; left.
Qed.

(** Times a user passes: after the epoch and within 64 bits, intervals well below
    2^63 microseconds. *)
Definition op_legal (op : timer_op) : Prop :=
  match op with
  | AddTimer when interval _ => when_ok when /\ 0 <= interval < 2 ^ 62
  | Cancel _ => True
  end.

Definition times_ok (q : TimerQueue) : Prop :=
  forall a t, heap q !! a = Some t -> when_ok (expiration_ t) /\ 0 <= interval_ t < 2 ^ 62.

(** Every timer with a number up to [n] that is marked for cancelling is off the
    heap, or one of those being called. *)
Definition marked (n : Z) (X : list Z) (q : TimerQueue) : Prop :=
  forall a s, (a, s) ∈ cancelingTimers_ q -> s <= n -> cancelled (mkTimerId a s) X q.

Lemma marked_op n X q q' (id : TimerId) :
  n <= numCreated q -> op_post X q q' ->
  (forall k, k ∈ cancelingTimers_ q' ->
     k ∈ cancelingTimers_ q \/ k = (timer_ id, tid_sequence_ id) /\ cancelled id X q') ->
  marked n X q -> marked n X q'.
Proof.
  intros Hn Hp Hk Hm a s Hin Hs; destruct (Hk _ Hin) as [Hin'|[[= -> ->] Hcan]]; [|by destruct id].
  eapply cancelled_op; [|exact Hp|by apply Hm]; simpl; lia.
Qed.

(** One call on the queue. *)
Lemma run_op_spec X q now op :
  tq_inv X q ->
  safe (run_op alloc now q op) (fun q' =>
    op_post X q q' /\
    (forall T, op_legal op -> clock_ok T now -> armed_ok T q -> armed_ok T q') /\
    (forall id, op = Cancel id -> callingExpiredTimers_ q = true \/ timer_ id ∉ X -> cancelled id X q') /\
    (op_legal op -> times_ok q -> times_ok q') /\
    (forall n, n <= numCreated q -> marked n X q -> marked n X q')).
Proof.
  intros Hi; destruct op as [when interval repeat|id]; cbn [run_op].
  - eapply safe_bind'; [by apply addTimer_spec|]; intros [q' id] (Hp & Ha & _ & _ & _ & Hcn & Hh).
    cbn [safe]; split_and!; try done.
    + intros T [Hw _]; by apply Ha.
    + intros [Hw Hint] Hok a t; rewrite Hh.
      destruct (decide (timer_ id = a)) as [<-|Hne]; [|rewrite lookup_insert_ne by done; apply Hok].
      rewrite lookup_insert_eq; by intros [= <-].
    + intros n Hn Hm a s; rewrite Hcn; intros Hin Hs.
      eapply cancelled_op; [|exact Hp|by apply Hm]; simpl; lia.
  - destruct (cancelInLoop_spec X q id Hi) as (q' & -> & Hp & Hcan & Hsub & Harm & Hheap & Hk).
    cbn [safe]; split_and!; [done| |by intros id' [= <-]| |].
    + intros T _ _ Ha e He; rewrite Harm; by apply Ha, Hsub.
    + intros _ Hok a t Ht; apply (Hok a); by eapply lookup_weaken.
    + intros n Hn; by eapply marked_op.
Qed.

Lemma op_post_trans X q1 q2 q3 : op_post X q1 q2 -> op_post X q2 q3 -> op_post X q1 q3.
Proof.
  intros (_ & Hh1 & Hf1 & Hc1 & Hs1 & He1) (Hi & Hh2 & Hf2 & Hc2 & Hs2 & He2).
  split_and!; try done; try congruence.
  - intros a Ha; by rewrite Hh2, Hh1.
  - by etransitivity.
  - by eapply evolves_trans.
Qed.

Lemma op_post_refl X q : tq_inv X q -> op_post X q q.
Proof. intros; split_and!; try done; apply evolves_refl. Qed.

Lemma run_ops_spec X q now ops :
  tq_inv X q ->
  safe (res_fold (run_op alloc now) q ops) (fun q' =>
    op_post X q q' /\ (Forall op_legal ops -> times_ok q -> times_ok q') /\
    (forall n, n <= numCreated q -> marked n X q -> marked n X q')).
Proof.
  intros Hi.
  apply (safe_fold (fun q' => op_post X q q' /\ (Forall op_legal ops -> times_ok q -> times_ok q') /\
    (forall n, n <= numCreated q -> marked n X q -> marked n X q'))).
  - split; [by apply op_post_refl|done].
  - intros q' op Hop (Hp & Ht & Hm); pose proof Hp as (Hi' & _ & _ & Hc' & _ & [Hnum _]).
    eapply safe_mono; [by apply (run_op_spec X q' now op)|].
    intros q'' (Hp' & _ & _ & Ht' & Hm'); split; [by eapply op_post_trans|]; split.
    + intros Hl Hok; apply Ht'; [by eapply Forall_forall|by apply Ht].
    + intros n Hn Hmk; apply Hm'; [lia|by apply Hm].
Qed.

(** *** Expired timers *)

Lemma erase_fold q (exp rest : list Entry) :
  NoDup (key_of (heap q) <$> exp ++ rest) ->
  (forall e, e ∈ exp -> is_Some (heap q !! snd e)) ->
  res_fold (fun (act : gset Entry) (it : Entry) =>
      let! t := deref_timer q (snd it) in
      let key := (snd it, sequence_ t) in
      assert! bool_decide (key ∈ act) ;;
      Ok (act ∖ {[key]})) (list_to_set (key_of (heap q) <$> exp ++ rest)) exp
  = Ok (list_to_set (key_of (heap q) <$> rest)).
Proof.
  induction exp as [|[w a] exp IH]; intros Hnd Hsome; [done|].
  cbn [res_fold]; unfold deref_timer at 1; destruct (Hsome (w, a)) as [t Ht]; [left|].
  simpl in Ht |- *; rewrite Ht; cbn [res_bind].
  simpl in Hnd; apply NoDup_cons in Hnd as [Hni Hnd].
  assert (key_of (heap q) (w, a) = (a, sequence_ t)) as Ek by (unfold key_of; simpl; by rewrite Ht).
  rewrite Ek in *; rewrite bool_decide_eq_true_2 by (apply elem_of_union; left; by apply elem_of_singleton).
  cbn [cassert res_bind]; rewrite remove_added by (by rewrite elem_of_list_to_set).
  apply IH; [done|]; intros e He; apply Hsome; by right.
Qed.

Lemma getExpired_spec Y q now :
  tq_inv Y q ->
  exists expired q', getExpired now q = Ok (expired, q') /\
    timers_ q = expired ++ timers_ q' /\
    Forall (fun e => fst e <= now) expired /\ Forall (fun e => now < fst e) (timers_ q') /\
    tq_inv ((snd <$> expired) ++ Y) q' /\ heap q' = heap q /\ numCreated q' = numCreated q /\
    armed q' = armed q /\ fired q' = fired q /\ cancelingTimers_ q' = cancelingTimers_ q.
Proof.
  intros Hi; unfold getExpired; rewrite (tq_sizes _ _ Hi); cbn [cassert res_bind].
  destruct (split_lower_bound _ _) as [expired rest] eqn:Es.
  apply split_lower_bound_spec in Es as (El & Ha & Hb); specialize (Hb (tq_sorted _ _ Hi)).
  assert (forall e, e ∈ timers_ q -> is_Some (heap q !! snd e) /\ snd e < UINTPTR_MAX) as Hheap.
  { intros [w a] He; destruct (tq_timers _ _ Hi _ _ He) as (_ & t & Ht & _).
    destruct (tq_heap _ _ Hi _ _ Ht) as (_ & ? & _); simpl; split; [eauto|lia]. }
  assert (Forall (fun e => now < fst e) rest) as Hrest.
  { rewrite Forall_forall in Hb |- *; intros e He; specialize (Hb _ He).
    assert (snd e < UINTPTR_MAX) by (apply Hheap; rewrite El; apply elem_of_app; by right).
    unfold entry_lt in Hb; rewrite entry_ltb_spec in Hb; simpl in Hb; lia. }
  replace (match rest with [] => true | e :: _ => now <? fst e end) with true.
  2:{ destruct rest as [|e rest]; [done|]; apply Forall_cons in Hrest as [? _]; symmetry; by apply Z.ltb_lt. }
  cbn [cassert res_bind]; rewrite (tq_active _ _ Hi), El.
  pose proof (tq_sorted _ _ Hi) as Hso; rewrite El in Hso; destruct (sorted_app_inv _ _ Hso) as [_ Hso2].
  pose proof (sorted_NoDup _ Hso) as Hnd.
  assert (NoDup (key_of (heap q) <$> expired ++ rest)) as Hndk.
  { apply NoDup_fmap_2_strong; [|done]; rewrite <- El; intros x y; by apply (key_of_inj Y). }
  rewrite erase_fold; [|done|intros e He; apply Hheap; rewrite El; apply elem_of_app; by left].
  cbn [res_bind]; set (q' := set_sets _ _ q).
  apply NoDup_app in Hnd as (Hnd1 & Hdis & Hnd2).
  assert (forall w w' a, (w, a) ∈ timers_ q -> (w', a) ∈ timers_ q -> w = w') as Huniq.
  { intros w w' a H1 H2; destruct (tq_timers _ _ Hi _ _ H1) as (_ & t & Ht & <-).
    destruct (tq_timers _ _ Hi _ _ H2) as (_ & t' & Ht' & <-); congruence. }
  destruct (tq_called _ _ Hi) as [HndY HY].
  assert (forall e, e ∈ timers_ q -> snd e ∉ Y) as HnY
    by (intros [w a] He; by destruct (tq_timers _ _ Hi _ _ He)).
  assert (tq_inv ((snd <$> expired) ++ Y) q') as Hi'.
  { split; simpl; try done.
    - intros w a Hin; assert ((w, a) ∈ timers_ q) as Hin0 by (rewrite El; apply elem_of_app; by right).
      split; [|by apply (tq_timers _ _ Hi)].
      apply not_elem_of_app; split; [|by apply (HnY (w, a))].
      intros ([w' a'] & E & Hin')%list_elem_of_fmap; simpl in E; subst a'.
      assert (w = w') as -> by (apply (Huniq w w' a); rewrite El; apply elem_of_app; auto).
      by apply (Hdis (w', a)).
    - intros a t Ht; destruct (tq_heap _ _ Hi _ _ Ht) as ([Hin|Hin] & ?);
        [|split; [right; apply elem_of_app; by right|done]].
      split; [|done]; rewrite El, elem_of_app in Hin; destruct Hin as [Hin|]; [right|by left].
      apply elem_of_app; left; apply list_elem_of_fmap; by exists (expiration_ t, a).
    - split.
      + apply NoDup_app; split_and!; [|intros a (e & -> & He)%list_elem_of_fmap; apply HnY; rewrite El;
          apply elem_of_app; by left|done].
        apply NoDup_fmap_2_strong; [|done]; intros [w a] [w' a'] H1 H2; simpl; intros <-.
        f_equal; apply (Huniq w w' a); rewrite El; apply elem_of_app; by left.
      + intros a [(e & -> & He)%list_elem_of_fmap|HaY]%elem_of_app; [|by apply HY].
        apply Hheap; rewrite El; apply elem_of_app; by left.
    - apply (tq_seq _ _ Hi). }
  rewrite (tq_sizes _ _ Hi'); cbn [cassert res_bind]; do 2 eexists; split; [done|].
  split_and!; try done; eapply Forall_impl; [exact Ha|]; intros e He.
  unfold entry_lt in He; rewrite entry_ltb_spec in He; simpl in He; lia.
Qed.

(** Sequence number of the timer an entry names. *)
Definition seq_of (h : gmap Z Timer) (e : Entry) : Z :=
  match h !! snd e with Some t => sequence_ t | None => 0 end.

Definition callback_ok : Prop := forall n q, Forall op_legal (callback n q).

(** While the timers of [X] are called: the state after some of them. *)
Definition call_post (X : list Z) (q q' : TimerQueue) (called : list Z) : Prop :=
  tq_inv X q' /\ (forall a, a ∈ X -> heap q' !! a = heap q !! a) /\
  fired q' = fired q ++ called /\ callingExpiredTimers_ q' = true /\
  cancelingTimers_ q ⊆ cancelingTimers_ q' /\ evolves q q' /\
  (callback_ok -> times_ok q -> times_ok q') /\
  (forall n, n <= numCreated q -> marked n X q -> marked n X q').

Lemma runTimer_spec X q now e :
  tq_inv X q -> callingExpiredTimers_ q = true -> snd e ∈ X ->
  safe (runTimer alloc callback now q e) (fun q' => call_post X q q' [seq_of (heap q) e]).
Proof.
  intros Hi Hc He; unfold runTimer, deref_timer, seq_of.
  destruct (tq_called _ _ Hi) as [_ Hx]; destruct (Hx _ He) as [t Ht]; rewrite Ht; cbn [res_bind].
  set (q1 := log_fired _ q).
  assert (tq_inv X q1) as Hi1 by (destruct Hi as [I1 I2 I3 I4 I5 I6]; by split).
  eapply safe_mono; [apply (run_ops_spec X q1 now _ Hi1)|].
  intros q' ((Hi' & Hh & Hf & Hc' & Hs & Hev) & Ht' & Hm'); unfold call_post; split_and!; try done.
  - by rewrite Hc', <- Hc.
  - intros Hcb Hok; by apply Ht'.
Qed.

Lemma call_post_trans X q1 q2 q3 l1 l2 :
  call_post X q1 q2 l1 -> call_post X q2 q3 l2 -> call_post X q1 q3 (l1 ++ l2).
Proof.
  intros (_ & Hh1 & Hf1 & _ & Hs1 & He1 & Ht1 & Hm1) (Hi & Hh2 & Hf2 & Hc2 & Hs2 & He2 & Ht2 & Hm2).
  unfold call_post; split_and!; try done.
  - intros a Ha; by rewrite Hh2, Hh1.
  - by rewrite Hf2, Hf1, app_assoc.
  - by etransitivity.
  - by eapply evolves_trans.
  - auto.
  - intros n Hn Hm; apply Hm2; [destruct He1; lia|auto].
Qed.

Lemma runTimers_spec X q now l :
  tq_inv X q -> callingExpiredTimers_ q = true -> (forall e, e ∈ l -> snd e ∈ X) ->
  safe (res_fold (runTimer alloc callback now) q l)
    (fun q' => call_post X q q' (seq_of (heap q) <$> l)).
Proof.
  revert q; induction l as [|e l IH]; intros q Hi Hc Hl; cbn [res_fold safe].
  { unfold call_post; split_and!; try done; [by rewrite app_nil_r|apply evolves_refl]. }
  eapply safe_bind'; [apply runTimer_spec; [done..|apply Hl; left]|]; intros q1 Hp1.
  pose proof Hp1 as (Hi1 & Hh1 & _ & Hc1 & _).
  eapply safe_mono; [apply IH; [done..|]; intros e' He'; apply Hl; by right|].
  intros q2 Hp2; pose proof (call_post_trans _ _ _ _ _ _ Hp1 Hp2) as Hp.
  assert (seq_of (heap q1) <$> l = seq_of (heap q) <$> l) as El; [|by rewrite fmap_cons, <- El].
  apply list_fmap_ext; intros i e' He'; unfold seq_of; rewrite Hh1; [done|].
  apply Hl; right; by eapply list_elem_of_lookup_2.
Qed.


(** *** Rescheduling *)

(** Writing a timer that is in no set. *)
Lemma tq_inv_write X q a t t' :
  tq_inv (a :: X) q -> heap q !! a = Some t -> sequence_ t' = sequence_ t ->
  tq_inv (a :: X) (set_heap (<[a := t']> (heap q)) q).
Proof.
  intros Hi Ht Hs; assert (forall w b, (w, b) ∈ timers_ q -> a <> b) as Hne.
  { intros w b Hin ->; destruct (tq_timers _ _ Hi _ _ Hin) as (Hn & _); apply Hn; left. }
  split; simpl.
  - apply (tq_sorted _ _ Hi).
  - intros w b Hin; destruct (tq_timers _ _ Hi _ _ Hin) as (? & tb & ? & ?); split; [done|].
    exists tb; by rewrite lookup_insert_ne by (by eapply Hne).
  - rewrite (tq_active _ _ Hi); f_equal; symmetry; apply key_of_frame.
    intros [w b] Hin; simpl; by rewrite lookup_insert_ne by (by eapply Hne).
  - intros b tb; destruct (decide (a = b)) as [<-|Hab].
    + rewrite lookup_insert_eq; intros [= <-]; destruct (tq_heap _ _ Hi _ _ Ht) as (_ & ? & ?).
      split; [right; left|by rewrite Hs].
    + rewrite lookup_insert_ne by done; apply (tq_heap _ _ Hi).
  - destruct (tq_called _ _ Hi) as [Hnd Hx]; split; [done|]; intros b Hb.
    destruct (decide (a = b)) as [<-|Hab]; [rewrite lookup_insert_eq; eauto|].
    rewrite lookup_insert_ne by done; by apply Hx.
  - intros b c tb tc; destruct (decide (a = b)) as [<-|Hab], (decide (a = c)) as [<-|Hac];
      rewrite ?lookup_insert_eq, ?lookup_insert_ne by done; try done.
    + intros [= <-] Hc E; apply (tq_seq _ _ Hi a c t tc); congruence.
    + intros Hb [= <-] E; apply (tq_seq _ _ Hi b a tb t); congruence.
    + apply (tq_seq _ _ Hi).
Qed.

Lemma tq_inv_free X q a :
  tq_inv (a :: X) q -> tq_inv X (set_heap (delete a (heap q)) q).
Proof.
  intros Hi; assert (forall w b, (w, b) ∈ timers_ q -> a <> b) as Hne.
  { intros w b Hin ->; destruct (tq_timers _ _ Hi _ _ Hin) as (Hn & _); apply Hn; left. }
  destruct (tq_called _ _ Hi) as [[Ha Hnd]%NoDup_cons Hx]; split; simpl.
  - apply (tq_sorted _ _ Hi).
  - intros w b Hin; destruct (tq_timers _ _ Hi _ _ Hin) as ([_ ?]%not_elem_of_cons & tb & ? & ?).
    split; [done|]; exists tb; by rewrite lookup_delete_ne by (by eapply Hne).
  - rewrite (tq_active _ _ Hi); f_equal; symmetry; apply key_of_frame.
    intros [w b] Hin; simpl; by rewrite lookup_delete_ne by (by eapply Hne).
  - intros b tb; rewrite lookup_delete_Some; intros [Hab Hb].
    destruct (tq_heap _ _ Hi _ _ Hb) as (Hor & ?); split; [|done].
    destruct Hor as [|[?|?]%elem_of_cons]; [by left|congruence|by right].
  - split; [done|]; intros b Hb; rewrite lookup_delete_ne; [apply Hx; by right|by intros ->].
  - intros b c tb tc; rewrite !lookup_delete_Some; intros [_ ?] [_ ?]; by apply (tq_seq _ _ Hi).
Qed.

(** What becomes of an expired timer. *)
Definition rescheduled (now : Timestamp) (canceling : gset Entry) (a : Z) (t : Timer)
    : option Timer :=
  if repeat_ t && negb (bool_decide ((a, sequence_ t) ∈ canceling))
  then Some (restart now t) else None.

Definition reset_step (now : Timestamp) (q : TimerQueue) (it : Entry) : res TimerQueue :=
  let! t := deref_timer q (snd it) in
  if repeat_ t && negb (bool_decide ((snd it, sequence_ t) ∈ cancelingTimers_ q)) then
    let q := set_heap (<[snd it := restart now t]> (heap q)) q in
    let! '(q, _) := insert (snd it) q in Ok q
  else Ok (set_heap (delete (snd it) (heap q)) q).

Lemma reset_step_spec now X q e t :
  tq_inv (snd e :: X) q -> heap q !! snd e = Some t ->
  exists q', reset_step now q e = Ok q' /\ tq_inv X q' /\
    cancelingTimers_ q' = cancelingTimers_ q /\ numCreated q' = numCreated q /\
    fired q' = fired q /\ callingExpiredTimers_ q' = callingExpiredTimers_ q /\ evolves q q' /\
    armed q' = armed q /\
    heap q' !! snd e = rescheduled now (cancelingTimers_ q) (snd e) t /\
    (forall b, b <> snd e -> heap q' !! b = heap q !! b).
Proof.
  intros Hi Ht; unfold reset_step, deref_timer, rescheduled; rewrite Ht; cbn [res_bind].
  destruct (repeat_ t && _) eqn:Er.
  - set (q1 := set_heap _ q).
    assert (tq_inv (snd e :: X) q1) as Hi1 by (by eapply tq_inv_write).
    destruct (insert_spec X q1 (snd e) (restart now t) Hi1)
      as (q' & -> & Hi' & Hp & Hh & Hc & Hcn & Hnum & Harm & Hf); [by apply lookup_insert_eq|].
    cbn [res_bind]; exists q'; split; [done|]; rewrite Hh, Hc, Hcn, Hnum, Hf, Harm.
    split_and!; try done.
    + split; [rewrite Hnum; simpl; lia|]; intros b tb; rewrite Hh; simpl.
      destruct (decide (snd e = b)) as [<-|Hne].
      * rewrite lookup_insert_eq; intros [= <-] _; eauto.
      * rewrite lookup_insert_ne by done; eauto.
    + by simpl; rewrite lookup_insert_eq.
    + intros b Hb; simpl; by rewrite lookup_insert_ne.
  - eexists; split; [done|]; split_and!; try done.
    + by apply tq_inv_free.
    + split; [simpl; lia|]; intros b tb; simpl; rewrite lookup_delete_Some; intros [_ ?]; eauto.
    + by simpl; rewrite lookup_delete_eq.
    + intros b Hb; simpl; by rewrite lookup_delete_ne.
Qed.

Lemma reset_fold_spec now Y q l :
  tq_inv ((snd <$> l) ++ Y) q ->
  exists q', res_fold (reset_step now) q l = Ok q' /\ tq_inv Y q' /\
    cancelingTimers_ q' = cancelingTimers_ q /\ numCreated q' = numCreated q /\
    fired q' = fired q /\ callingExpiredTimers_ q' = callingExpiredTimers_ q /\ evolves q q' /\
    armed q' = armed q /\
    (forall e t, e ∈ l -> heap q !! snd e = Some t ->
       heap q' !! snd e = rescheduled now (cancelingTimers_ q) (snd e) t) /\
    (forall b, b ∉ snd <$> l -> heap q' !! b = heap q !! b).
Proof.
  revert q; induction l as [|e l IH]; intros q Hi.
  { exists q; split_and!; try done; [apply evolves_refl|].
    intros e t He; by apply not_elem_of_nil in He. }
  rewrite fmap_cons in Hi; cbn [app] in Hi.
  destruct (tq_called _ _ Hi) as [[[Hn _]%not_elem_of_app Hnd]%NoDup_cons Hx].
  destruct (Hx (snd e)) as [t Ht]; [left|].
  destruct (reset_step_spec now _ q e t Hi Ht)
    as (q1 & E1 & Hi1 & Hc1 & Hnum1 & Hf1 & Hca1 & Hev1 & Harm1 & Hh1 & Ho1).
  destruct (IH q1 Hi1) as (q' & E' & Hi' & Hc' & Hnum' & Hf' & Hca' & Hev' & Harm' & Hh' & Ho').
  cbn [res_fold]; rewrite E1; cbn [res_bind]; exists q'; split; [done|].
  split_and!; try done; try congruence.
  - by eapply evolves_trans.
  - intros e' t' [->|He']%elem_of_cons Ht'.
    + rewrite Ho' by done; rewrite Hh1; congruence.
    + assert (snd e' <> snd e) as Hne by (intros E; apply Hn, list_elem_of_fmap; eauto).
      rewrite <- Hc1; apply Hh'; [done|]; by rewrite Ho1.
  - intros b; rewrite fmap_cons, not_elem_of_cons; intros [Hb1 Hb2]; by rewrite Ho', Ho1.
Qed.


(** The queue between two events of the loop; the timers of [Y] are not inserted yet. *)
Definition at_rest (Y : list Z) (q : TimerQueue) : Prop :=
  tq_inv Y q /\ callingExpiredTimers_ q = false.

Definition due (now : Timestamp) (q : TimerQueue) : list Entry :=
  filter (fun e => fst e <= now) (timers_ q).

Lemma reset_spec now Y q l :
  tq_inv ((snd <$> l) ++ Y) q -> callingExpiredTimers_ q = false ->
  exists q', reset l now q = Ok q' /\ at_rest Y q' /\ fired q' = fired q /\ evolves q q' /\
    cancelingTimers_ q' = cancelingTimers_ q /\
    (forall e t, e ∈ l -> heap q !! snd e = Some t ->
       heap q' !! snd e = rescheduled now (cancelingTimers_ q) (snd e) t) /\
    (forall b, b ∉ snd <$> l -> heap q' !! b = heap q !! b) /\
    (forall T, (forall e, e ∈ timers_ q' -> when_ok (fst e)) -> clock_ok T now -> armed_ok T q').
Proof.
  intros Hi Hc; destruct (reset_fold_spec now Y q l Hi)
    as (q1 & E1 & Hi1 & Hc1 & Hnum1 & Hf1 & Hca1 & Hev1 & _ & Hh1 & Ho1).
  unfold reset; change (res_fold _ q l) with (res_fold (reset_step now) q l); rewrite E1; cbn [res_bind].
  destruct (timers_ q1) as [|[w a] r] eqn:Et; cbn [res_bind].
  - cbn [valid]; exists q1; unfold at_rest; split_and!; try done; [congruence|].
    intros T _ _ e; rewrite Et; intros He; by apply not_elem_of_nil in He.
  - assert ((w, a) ∈ timers_ q1) as Hwa by (rewrite Et; left).
    destruct (tq_timers _ _ Hi1 _ _ Hwa) as (_ & t & Ht & Hw).
    unfold deref_timer; cbn [snd]; rewrite Ht; cbn [res_bind]; rewrite Hw.
    set (q2 := if valid w then _ else q1).
    assert (heap q2 = heap q1 /\ timers_ q2 = timers_ q1 /\ activeTimers_ q2 = activeTimers_ q1 /\
          fired q2 = fired q1 /\ callingExpiredTimers_ q2 = callingExpiredTimers_ q1 /\
          cancelingTimers_ q2 = cancelingTimers_ q1 /\ numCreated q2 = numCreated q1)
      as (F1 & F2 & F3 & F4 & F5 & F6 & F7).
    { subst q2; by destruct (valid w). }
    exists q2; unfold at_rest, evolves; rewrite F1, F2, F4, F5, F6, F7; split_and!; try done.
    + destruct Hi1 as [I1 I2 I3 I4 I5 I6]; split; by rewrite ?F1, ?F2, ?F3, ?F7.
    + congruence.
    + by destruct Hev1.
    + by destruct Hev1.
    + intros T Hpos Hnow; unfold armed_ok; rewrite F2; intros e He; subst q2; unfold valid.
      specialize (Hpos _ Hwa) as Hp; simpl in Hp; unfold when_ok in Hp.
      rewrite (proj2 (Z.ltb_lt _ _)) by lia; apply armed_at; [done..|].
      rewrite Et in He; pose proof (tq_sorted _ _ Hi1) as Hso; rewrite Et in Hso.
      apply (sorted_head_le _ _ _ Hso He).
Qed.

Lemma filter_expired (exp rest : list Entry) now :
  Forall (fun e => fst e <= now) exp -> Forall (fun e => now < fst e) rest ->
  filter (fun e => fst e <= now) (exp ++ rest) = exp.
Proof.
  intros He Hr; rewrite filter_app, (filter_all _ exp) by done.
  rewrite <- (app_nil_r exp) at 2; f_equal; induction Hr as [|e r Hlt _ IH]; [done|].
  by rewrite filter_cons_False by lia.
Qed.

Lemma handleRead_spec now Y q :
  at_rest Y q ->
  safe (handleRead alloc callback now q) (fun q' =>
    at_rest Y q' /\ evolves q q' /\ fired q' = fired q ++ (seq_of (heap q) <$> due now q) /\
    marked (numCreated q) Y q' /\ (forall a, a ∈ Y -> heap q' !! a = heap q !! a) /\
    (forall e t, e ∈ due now q -> heap q !! snd e = Some t ->
       heap q' !! snd e = rescheduled now (cancelingTimers_ q') (snd e) t) /\
    (0 < now < 2 ^ 62 -> callback_ok -> times_ok q ->
     times_ok q' /\ forall T, now <= T -> armed_ok T q')).
Proof.
  intros [Hi Hcall]; unfold handleRead; set (q0 := set_armed None q).
  assert (tq_inv Y q0) as Hi0 by (destruct Hi as [I1 I2 I3 I4 I5 I6]; by split).
  destruct (getExpired_spec Y q0 now Hi0)
    as (expired & q1 & -> & El & Hexp & Hrest & Hi1 & Hh1 & Hn1 & _ & Hf1 & _); cbn [res_bind].
  assert (due now q = expired) as Hdue.
  { unfold due; change (timers_ q) with (timers_ q0); rewrite El; by apply filter_expired. }
  set (q2 := set_calling true ∅ q1); set (X := (snd <$> expired) ++ Y) in *.
  assert (forall e, e ∈ expired -> snd e ∈ X) as HeX
    by (intros e He; apply elem_of_app; left; apply list_elem_of_fmap; eauto).
  assert (forall a, a ∈ Y -> a ∉ snd <$> expired) as HYe.
  { intros a Ha Hin; destruct (tq_called _ _ Hi1) as [(_ & Hd & _)%NoDup_app _]; by apply (Hd a). }
  assert (tq_inv X q2) as Hi2 by (destruct Hi1 as [I1 I2 I3 I4 I5 I6]; by split).
  eapply safe_bind'; [apply (runTimers_spec X q2 now expired Hi2 eq_refl)|].
  { done. }
  intros q3 (Hi3 & Hh3 & Hf3 & Hc3 & _ & Hev3 & Ht3 & Hm3).
  set (q4 := set_calling false (cancelingTimers_ q3) q3).
  assert (tq_inv X q4) as Hi4 by (destruct Hi3 as [I1 I2 I3 I4 I5 I6]; by split).
  assert (marked (numCreated q) X q4) as Hm4.
  { apply (Hm3 (numCreated q)); [simpl; rewrite Hn1; simpl; lia|].
    intros a s Hin; by apply not_elem_of_empty in Hin. }
  destruct (reset_spec now Y q4 expired Hi4 eq_refl)
    as (q5 & -> & Hrest5 & Hf5 & Hev5 & Hcn5 & Hh5 & Ho5 & Harm5); cbn [safe].
  assert (forall a, a ∈ X -> heap q4 !! a = heap q !! a) as HhX.
  { intros a Ha; simpl; rewrite Hh3 by done; simpl; by rewrite Hh1. }
  assert (evolves q q3) as Hev by (destruct Hev3 as [Hn Hv]; split; simpl in *; rewrite Hn1, ?Hh1 in *; done).
  rewrite Hdue; split_and!.
  - done.
  - by eapply evolves_trans.
  - rewrite Hf5; simpl; rewrite Hf3; simpl; rewrite Hf1; by rewrite Hh1.
  - intros a s; rewrite Hcn5; intros Hin Hs t Ht E; cbn [timer_ tid_sequence_] in *.
    destruct (Hev5) as [_ Hv]; destruct (Hv a t Ht) as (t4 & Ht4 & Es4).
    { destruct Hev as [? _]; simpl; lia. }
    destruct (Hm4 a s Hin Hs t4 Ht4) as [HX _]; [simpl; congruence|]; cbn [timer_] in HX.
    apply elem_of_app in HX as [(e & -> & He)%list_elem_of_fmap|HY]; [exfalso|by rewrite Hcn5].
    rewrite (Hh5 e t4 He Ht4) in Ht; unfold rescheduled in Ht.
    assert (sequence_ t4 = s) as Es by congruence; rewrite Es in Ht.
    rewrite bool_decide_eq_true_2, andb_false_r in Ht by exact Hin; done.
  - intros a Ha; rewrite Ho5 by (by apply HYe); apply HhX, elem_of_app; by right.
  - intros e t He Ht; rewrite Hcn5; apply Hh5; [done|]; rewrite HhX; [done|by apply HeX].
  - intros Hnow Hcb Hok.
    assert (times_ok q3) as Hok3.
    { apply Ht3; [done|]; intros a t; simpl; rewrite Hh1; apply Hok. }
    assert (times_ok q5) as Hok5.
    { intros a t Ht; destruct (decide (a ∈ snd <$> expired)) as [Ha|Ha];
        [|rewrite Ho5 in Ht by done; by apply (Hok3 a)].
      apply list_elem_of_fmap in Ha as (e & -> & He).
      destruct (tq_called _ _ Hi4) as [_ Hx]; destruct (Hx (snd e)) as [t4 Ht4]; [by apply HeX|].
      rewrite (Hh5 e t4 He Ht4) in Ht; unfold rescheduled in Ht.
      destruct (repeat_ t4) eqn:Er; simpl in Ht; [|done]; destruct (negb _); [|done].
      injection Ht as <-; destruct (Hok3 _ _ Ht4) as [? ?]; unfold restart; simpl; rewrite Er.
      rewrite addTime_exact by (unfold in_signed; simpl; lia); unfold when_ok; lia. }
    split; [done|]; intros T HT; apply Harm5; [|done]; intros [w a] He; destruct Hrest5 as [Hi5 _].
    destruct (tq_timers _ _ Hi5 _ _ He) as (_ & t & Ht & <-); by apply (Hok5 a).
Qed.

(** *** Sequences of events *)

Inductive tick :=
| Call (now : Timestamp) (op : timer_op)  (** from the loop, outside a callback *)
| Alarm (now : Timestamp).                (** the timerfd is readable *)

Definition tick_step (q : TimerQueue) (k : tick) : res TimerQueue :=
  match k with
  | Call now op => run_op alloc now q op
  | Alarm now => handleRead alloc callback now q
  end.

Lemma tick_rest Y q k :
  at_rest Y q -> safe (tick_step q k) (fun q' => at_rest Y q' /\ evolves q q' /\
    (forall a, a ∈ Y -> heap q' !! a = heap q !! a) /\
    exists l, fired q' = fired q ++ l /\
      forall n, n ∈ l -> exists a t, heap q !! a = Some t /\ sequence_ t = n).
Proof.
  intros Hr; destruct k as [now op|now]; cbn [tick_step].
  - destruct Hr as [Hi Hc]; eapply safe_mono; [apply (run_op_spec Y q now op Hi)|].
    intros q' ((Hi' & Hh & Hf & Hc' & _ & Hev) & _); unfold at_rest; split_and!; try done.
    + congruence.
    + exists []; rewrite app_nil_r; split; [done|]; intros n Hn; by apply not_elem_of_nil in Hn.
  - eapply safe_mono; [by apply handleRead_spec|].
    intros q' (Hr' & Hev & Hf & _ & HhY & _); split_and!; try done; eexists; split; [exact Hf|].
    intros n Hn; apply list_elem_of_fmap in Hn as ([w a] & -> & He); apply list_elem_of_filter in He as [_ He].
    destruct Hr as [Hi _]; destruct (tq_timers _ _ Hi _ _ He) as (_ & t & Ht & _).
    exists a, t; split; [done|]; unfold seq_of; simpl; by rewrite Ht.
Qed.

Inductive ticks : TimerQueue -> TimerQueue -> Prop :=
| ticks_nil q : ticks q q
| ticks_cons q1 k q2 q3 : tick_step q1 k = Ok q2 -> ticks q2 q3 -> ticks q1 q3.

Lemma ticks_rest q q' : ticks q q' -> at_rest [] q -> at_rest [] q' /\ evolves q q'.
Proof.
  induction 1 as [q|q1 k q2 q3 E _ IH]; intros Hr; [split; [done|apply evolves_refl]|].
  destruct (safe_Ok _ _ _ (tick_rest [] q1 k Hr) E) as (Hr2 & Hev & _).
  destruct (IH Hr2); split; [done|by eapply evolves_trans].
Qed.

(** A number that is not on the heap never fires again. *)
Lemma ticks_silent n q q' :
  ticks q q' -> at_rest [] q -> n <= numCreated q ->
  (forall a t, heap q !! a = Some t -> sequence_ t <> n) ->
  exists l, fired q' = fired q ++ l /\ n ∉ l.
Proof.
  induction 1 as [q|q1 k q2 q3 E _ IH]; intros Hr Hn Habs.
  { exists []; rewrite app_nil_r; split; [done|apply not_elem_of_nil]. }
  destruct (safe_Ok _ _ _ (tick_rest [] q1 k Hr) E) as (Hr2 & [Hle Hev] & _ & l & Hf & Hl).
  destruct IH as (l' & Hf' & Hn'); [done|lia|..].
  - intros a t Ht Es; destruct (Hev a t Ht) as (t1 & Ht1 & E1); [lia|].
    apply (Habs a t1 Ht1); congruence.
  - exists (l ++ l'); rewrite Hf', Hf, app_assoc; split; [done|].
    apply not_elem_of_app; split; [|done]; intros Hin; destruct (Hl _ Hin) as (a & t & Ht & Es).
    by apply (Habs a t Ht).
Qed.
End QueueProofs.

Lemma newTimerQueue_rest : at_rest [] newTimerQueue.
Proof.
  split; [|done]; split; simpl; try done; try by constructor.
  - intros w a Hin; by apply not_elem_of_nil in Hin.
  - split; [constructor|]; intros a Hin; by apply not_elem_of_nil in Hin.
Qed.

Lemma run_ticks alloc callback ks q q' :
  res_fold (tick_step alloc callback) q ks = Ok q' -> ticks alloc callback q q'.
Proof.
  revert q; induction ks as [|k ks IH]; intros q; cbn [res_fold].
  - intros [= <-]; constructor.
  - intros (q1 & E & E')%res_bind_Ok; econstructor; eauto.
Qed.

(** Times a tick may carry. *)
Definition tick_legal (k : tick) : Prop :=
  match k with
  | Call now op => 0 < now < 2 ^ 62 /\ op_legal op
  | Alarm now => 0 < now < 2 ^ 62
  end.

Definition tick_time (k : tick) : Timestamp :=
  match k with Call now _ => now | Alarm now => now end.

(** The latest of the times of some events. *)
Definition latest (ks : list tick) : Timestamp := foldr Z.max 0 (tick_time <$> ks).

Lemma latest_ge k ks : k ∈ ks -> tick_time k <= latest ks.
Proof.
  unfold latest; induction ks as [|k' ks IH]; [by intros ?%not_elem_of_nil|].
  intros [->|Hk]%elem_of_cons; cbn; [lia|]; specialize (IH Hk); lia.
Qed.

(** Legal events up to [T] keep the times in range and the timerfd armed. *)
Lemma armed_run alloc callback T ks q q' :
  alloc_ok alloc -> callback_ok callback ->
  Forall (fun k => tick_legal k /\ tick_time k <= T) ks ->
  at_rest [] q -> times_ok q -> armed_ok T q ->
  res_fold (tick_step alloc callback) q ks = Ok q' ->
  at_rest [] q' /\ times_ok q' /\ armed_ok T q'.
Proof.
  intros Ha Hcb Hl; revert q; induction Hl as [|k ks [Hk HT] _ IH]; intros q0 Hr Hok Har;
    cbn [res_fold]; [by intros [= <-]|].
  intros (q1 & E & E')%res_bind_Ok.
  destruct (safe_Ok _ _ _ (tick_rest alloc callback Ha [] q0 k Hr) E) as (Hr1 & _).
  destruct k as [now op|now]; cbn [tick_step tick_legal tick_time] in *.
  - destruct Hr as [Hi _].
    destruct (safe_Ok _ _ _ (run_op_spec alloc Ha [] q0 now op Hi) E)
      as (_ & Har' & _ & Ht & _).
    destruct Hk as [Hnow Hop]; apply (IH q1); [done|by apply Ht| |done].
    apply Har'; [done|by split|done].
  - destruct (safe_Ok _ _ _ (handleRead_spec alloc callback Ha now [] q0 Hr) E)
      as (_ & _ & _ & _ & _ & _ & Ht).
    destruct (Ht Hk Hcb Hok) as [Ht1 Ha1]; apply (IH q1); auto.
Qed.

(** A bump allocator and timers for concrete runs: timer 1 repeats every second
    and cancels timer 2; the others do nothing. *)
Definition demo_alloc (X : gset Z) : option Z :=
  list_find (fun a => a ∉ X) (seqZ 1 100) ≫= fun p => Some (snd p).

Definition demo_callback (n : Z) (q : TimerQueue) : list timer_op :=
  if n =? 1 then [Cancel (mkTimerId 2 2)] else [].

Lemma demo_alloc_ok : alloc_ok demo_alloc.
Proof.
  intros X a; unfold demo_alloc; destruct (list_find _ _) as [[i b]|] eqn:E; [|done].
  intros [= <-]; apply list_find_Some in E as (Hb & Hn & _); split; [done|]; simpl.
  apply list_elem_of_lookup_2, elem_of_seqZ in Hb; unfold UINTPTR_MAX; lia.
Qed.

Lemma demo_callback_ok : callback_ok demo_callback.
Proof. intros n q; unfold demo_callback; case_match; by repeat constructor. Qed.

Definition demo_ticks : list tick :=
  [Call 10 (AddTimer 1000 1000000 true); Call 20 (AddTimer 2000 500 true);
   Call 30 (AddTimer 5000000 0 false)].

Definition demo_queue : TimerQueue :=
  match res_fold (tick_step demo_alloc demo_callback) newTimerQueue demo_ticks with
  | Ok q => q
  | Fail _ => newTimerQueue
  end.

Lemma demo_reached : ticks demo_alloc demo_callback newTimerQueue demo_queue.
Proof. apply (run_ticks _ _ demo_ticks); vm_compute; reflexivity. Qed.

(** ** Theorems *)

(** No sequence of [addTimer], [cancel] and alarms, with callbacks that add and
    cancel whatever timers they like, makes the timer queue fault: its asserts on
    the two sets hold, and no deleted timer is touched. *)
Theorem timers_never_fault alloc callback q k :
  alloc_ok alloc -> ticks alloc callback newTimerQueue q ->
  safe (tick_step alloc callback q k) (fun _ => True).
Proof.
  intros Ha Ht; destruct (ticks_rest alloc callback Ha _ _ Ht newTimerQueue_rest) as [Hr _].
  eapply safe_mono; [by apply tick_rest|done].
Qed.

Lemma timers_never_fault_witness :
  safe (tick_step demo_alloc demo_callback demo_queue (Alarm 3000)) (fun _ => True).
Proof. apply timers_never_fault; [apply demo_alloc_ok|apply demo_reached]. Defined.

(** C16: An alarm runs exactly the timers that are due, once each and in order of
    expiration; afterwards a repeating one that was not cancelled is in the queue
    for [now] plus its interval, and every other one is gone. *)
Theorem alarm_runs_due_timers alloc callback q q' now :
  alloc_ok alloc -> ticks alloc callback newTimerQueue q -> handleRead alloc callback now q = Ok q' ->
  fired q' = fired q ++ (seq_of (heap q) <$> due now q) /\ sorted (due now q) /\
  (forall e t, e ∈ due now q -> heap q !! snd e = Some t ->
     if repeat_ t && negb (bool_decide ((snd e, sequence_ t) ∈ cancelingTimers_ q'))
     then (addTime now (interval_ t), snd e) ∈ timers_ q'
     else heap q' !! snd e = None).
Proof.
  intros Ha Ht E; destruct (ticks_rest alloc callback Ha _ _ Ht newTimerQueue_rest) as [Hr _].
  destruct (safe_Ok _ _ _ (handleRead_spec alloc callback Ha now [] q Hr) E)
    as ([Hi' _] & _ & Hf & _ & _ & Hres & _).
  split_and!; [done| |].
  - destruct Hr as [Hi _]; destruct (getExpired_spec [] q now Hi)
      as (exp & q1 & _ & El & He & Hr1 & _); unfold due; rewrite El, filter_expired by done.
    pose proof (tq_sorted _ _ Hi) as Hso; rewrite El in Hso; by apply sorted_app_inv in Hso as [? _].
  - intros e t He Hh; specialize (Hres e t He Hh); unfold rescheduled in Hres.
    destruct (repeat_ t && _) eqn:Er; [|done].
    destruct (tq_heap _ _ Hi' _ _ Hres) as ([Hin|Hin] & _); [|by apply not_elem_of_nil in Hin].
    unfold restart in Hin; simpl in Hin; bool_hyps.
    match goal with H : repeat_ t = true |- _ => by rewrite H in Hin end.
Qed.

Lemma alarm_runs_due_timers_witness :
  exists q', handleRead demo_alloc demo_callback 3000 demo_queue = Ok q' /\
    fired q' = [1; 2] /\ (1003000, 1) ∈ timers_ q' /\ heap q' !! 2 = None.
Proof.
  eexists; split; [vm_compute; reflexivity|].
  destruct (alarm_runs_due_timers demo_alloc demo_callback demo_queue _ 3000 demo_alloc_ok demo_reached
    ltac:(vm_compute; reflexivity)) as (Hf & _ & Hres).
  split; [rewrite Hf; vm_compute; reflexivity|]; split.
  - refine (Hres (1000, 1) (mkTimer 1000 1000000 true 1) _ _);
      [apply list_elem_of_In; vm_compute; auto|reflexivity].
  - refine (Hres (2000, 2) (mkTimer 2000 500 true 2) _ _);
      [apply list_elem_of_In; vm_compute; auto|reflexivity].
Defined.

(** Cancelling is final.  A timer cancelled between events never runs again, and
    one cancelled by a callback during an alarm (itself or another) never runs
    after that alarm. *)
Theorem cancel_is_final alloc callback q id :
  alloc_ok alloc -> ticks alloc callback newTimerQueue q ->
  tid_sequence_ id <= numCreated q ->
  (forall a t, heap q !! a = Some t -> sequence_ t = tid_sequence_ id -> a = timer_ id) ->
  (forall now q1 q2, run_op alloc now q (Cancel id) = Ok q1 -> ticks alloc callback q1 q2 ->
     exists l, fired q2 = fired q1 ++ l /\ tid_sequence_ id ∉ l) /\
  (forall now q1 q2, handleRead alloc callback now q = Ok q1 ->
     (timer_ id, tid_sequence_ id) ∈ cancelingTimers_ q1 -> ticks alloc callback q1 q2 ->
     exists l, fired q2 = fired q1 ++ l /\ tid_sequence_ id ∉ l).
Proof.
  intros Ha Ht Hn Hgen; destruct (ticks_rest alloc callback Ha _ _ Ht newTimerQueue_rest) as [Hr _].
  assert (forall q1 q2, at_rest [] q1 -> evolves q q1 -> cancelled id [] q1 -> ticks alloc callback q1 q2 ->
            exists l, fired q2 = fired q1 ++ l /\ tid_sequence_ id ∉ l) as Hmain.
  { intros q1 q2 Hr1 [Hle Hev] Hcan Ht12; eapply ticks_silent; try done; [lia|].
    intros a t Hat Es; destruct (Hev a t Hat) as (t0 & Ht0 & E0); [lia|].
    assert (a = timer_ id) as -> by (apply (Hgen a t0 Ht0); congruence).
    destruct (Hcan t Hat Es) as [Hin _]; by apply not_elem_of_nil in Hin. }
  split.
  - intros now q1 q2 E; destruct Hr as [Hi Hc].
    destruct (safe_Ok _ _ _ (run_op_spec alloc Ha [] q now (Cancel id) Hi) E)
      as ((Hi1 & _ & _ & Hc1 & _ & Hev) & _ & Hcan & _).
    apply Hmain; [split; [done|congruence]|done|apply Hcan; [done|right; apply not_elem_of_nil]].
  - intros now q1 q2 E Hin; destruct (safe_Ok _ _ _ (handleRead_spec alloc callback Ha now [] q Hr) E)
      as (Hr1 & Hev & _ & Hm & _).
    apply Hmain; [done|done|]; destruct id; by apply Hm.
Qed.

Lemma cancel_is_final_witness :
  exists q1 q2, handleRead demo_alloc demo_callback 3000 demo_queue = Ok q1 /\
    handleRead demo_alloc demo_callback 6000000 q1 = Ok q2 /\
    exists l, fired q2 = fired q1 ++ l /\ 2 ∉ l.
Proof.
  do 2 eexists; split; [vm_compute; reflexivity|]; split; [vm_compute; reflexivity|].
  refine (proj2 (cancel_is_final demo_alloc demo_callback demo_queue (mkTimerId 2 2)
    demo_alloc_ok demo_reached _ _) 3000 _ _ _ _ _).
  - vm_compute; discriminate.
  - intros a t Hat Hs; pose proof (ticks_rest demo_alloc demo_callback demo_alloc_ok _ _
      demo_reached newTimerQueue_rest) as [[Hi _] _].
    apply (tq_seq _ _ Hi a 2 t (mkTimer 2000 500 true 2) Hat); [reflexivity|exact Hs].
  - vm_compute; reflexivity.
  - vm_compute; reflexivity.
  - apply (run_ticks _ _ [Alarm 6000000]); vm_compute; reflexivity.
Defined.

(** C22: The timerfd never misses a timer: whenever timers are in the queue it is
    armed - by the delay handed to timerfd_settime - and becomes readable no later
    than any of them expires, or than 100 microseconds after the last event, since
    a shorter delay is rounded up to 100 microseconds; and it is never set for
    earlier than that. *)
Theorem timerfd_is_armed alloc callback ks q :
  alloc_ok alloc -> callback_ok callback -> Forall tick_legal ks ->
  res_fold (tick_step alloc callback) newTimerQueue ks = Ok q ->
  armed_ok (latest ks) q /\
  forall e now, in_signed 64 (e - now) ->
    armed (resetTimerfd e now q) = Some (Z.max e (now + 100)).
Proof.
  intros Ha Hcb Hl E; split; [|intros; by apply resetTimerfd_armed].
  destruct (armed_run alloc callback (latest ks) ks newTimerQueue q) as (_ & _ & H);
    [done|done| |apply newTimerQueue_rest|done| |done|done].
  - apply Forall_forall; intros k Hk; split; [by eapply Forall_forall in Hk|by apply latest_ge].
  - intros e He; by apply not_elem_of_nil in He.
Qed.

Lemma timerfd_is_armed_witness :
  exists q, res_fold (tick_step demo_alloc demo_callback) newTimerQueue (demo_ticks ++ [Alarm 3000]) = Ok q /\
    armed q = Some 1003000 /\ latest (demo_ticks ++ [Alarm 3000]) = 3000 /\
    armed_ok 3000 q.
Proof.
  eexists; split; [vm_compute; reflexivity|]; split; [reflexivity|]; split; [reflexivity|].
  apply (timerfd_is_armed demo_alloc demo_callback (demo_ticks ++ [Alarm 3000]) _
    demo_alloc_ok demo_callback_ok).
  - repeat constructor; simpl; lia.
  - vm_compute; reflexivity.
Defined.
