(* ===== verification/Channels.v ===== *)
(** * Selectable channels (src/src/muduo/net/Channel.h, Channel.cc)

    A [Channel] holds the event mask a descriptor is interested in, the events
    the poller last reported and four optional callbacks.  The pure part of the
    class is here: the masks, the event dispatch of [handleEventWithGuard] over an
    arbitrary program state, and the debug strings.  Registering a channel with a
    poller ([update], [remove]) is in Pollers.v. *)

From S2P Require Import Prelude.

(** poll(2) event bits of Linux; [EPOLLxxx] has the same values, as the
    static_asserts of EPollPoller.cc check. *)
Definition POLLIN : Z := 1.
Definition POLLPRI : Z := 2.
Definition POLLOUT : Z := 4.
Definition POLLERR : Z := 8.
Definition POLLHUP : Z := 16.
Definition POLLNVAL : Z := 32.
Definition POLLRDHUP : Z := 8192.

Definition kNoneEvent : Z := 0.
Definition kReadEvent : Z := Z.lor POLLIN POLLPRI.
Definition kWriteEvent : Z := POLLOUT.

Record Channel := mkChannel {
  fd_ : Z;
  events_ : Z;
  revents_ : Z;
  index_ : Z;
  logHup_ : bool;
  tied_ : bool;
  eventHandling_ : bool;
  addedToLoop_ : bool;
}.

Definition newChannel (fd : Z) : Channel :=
  mkChannel fd 0 0 (-1) true false false false.

Definition set_events (e : Z) (c : Channel) : Channel :=
  mkChannel (fd_ c) e (revents_ c) (index_ c) (logHup_ c) (tied_ c) (eventHandling_ c)
    (addedToLoop_ c).
Definition set_revents (e : Z) (c : Channel) : Channel :=
  mkChannel (fd_ c) (events_ c) e (index_ c) (logHup_ c) (tied_ c) (eventHandling_ c)
    (addedToLoop_ c).
Definition set_index (i : Z) (c : Channel) : Channel :=
  mkChannel (fd_ c) (events_ c) (revents_ c) i (logHup_ c) (tied_ c) (eventHandling_ c)
    (addedToLoop_ c).
Definition set_eventHandling (b : bool) (c : Channel) : Channel :=
  mkChannel (fd_ c) (events_ c) (revents_ c) (index_ c) (logHup_ c) (tied_ c) b
    (addedToLoop_ c).
Definition set_addedToLoop (b : bool) (c : Channel) : Channel :=
  mkChannel (fd_ c) (events_ c) (revents_ c) (index_ c) (logHup_ c) (tied_ c)
    (eventHandling_ c) b.
Definition doNotLogHup (c : Channel) : Channel :=
  mkChannel (fd_ c) (events_ c) (revents_ c) (index_ c) false (tied_ c)
    (eventHandling_ c) (addedToLoop_ c).
(** [tie]: the owner itself is kept by the state the channel lives in. *)
Definition tie (c : Channel) : Channel :=
  mkChannel (fd_ c) (events_ c) (revents_ c) (index_ c) (logHup_ c) true
    (eventHandling_ c) (addedToLoop_ c).

(** The masks written by [enableReading() ... disableAll()]; [~k] on a 32-bit
    integer is [Z.lnot k] under [Z.land]. *)
Definition readingOn (c : Channel) : Channel := set_events (Z.lor (events_ c) kReadEvent) c.
Definition readingOff (c : Channel) : Channel :=
  set_events (Z.land (events_ c) (Z.lnot kReadEvent)) c.
Definition writingOn (c : Channel) : Channel := set_events (Z.lor (events_ c) kWriteEvent) c.
Definition writingOff (c : Channel) : Channel :=
  set_events (Z.land (events_ c) (Z.lnot kWriteEvent)) c.
Definition allOff (c : Channel) : Channel := set_events kNoneEvent c.

Definition has (ev mask : Z) : bool := negb (Z.land ev mask =? 0).

Definition isNoneEvent (c : Channel) : bool := events_ c =? kNoneEvent.
Definition isWriting (c : Channel) : bool := has (events_ c) kWriteEvent.
Definition isReading (c : Channel) : bool := has (events_ c) kReadEvent.

(** ** Event dispatch *)

Section Dispatch.
Context {S : Type}.

(** The four callbacks; an empty [std::function] is [None]. *)
Record Callbacks := mkCallbacks {
  readCallback_ : option (Z -> S -> res S);
  writeCallback_ : option (S -> res S);
  closeCallback_ : option (S -> res S);
  errorCallback_ : option (S -> res S);
}.

Definition call (cb : option (S -> res S)) (s : S) : res S :=
  match cb with Some f => f s | None => Ok s end.

(** [setHandling b] writes [eventHandling_] of this channel in the state. *)
Definition handleEventWithGuard (cbs : Callbacks) (setHandling : bool -> S -> S)
    (revents receiveTime : Z) (s : S) : res S :=
  let s := setHandling true s in
  let! s := if has revents POLLHUP && negb (has revents POLLIN)
            then call (closeCallback_ cbs) s else Ok s in
  let! s := if has revents (Z.lor POLLERR POLLNVAL)
            then call (errorCallback_ cbs) s else Ok s in
  let! s := if has revents (Z.lor POLLIN (Z.lor POLLPRI POLLRDHUP))
            then call (option_map (fun f => f receiveTime) (readCallback_ cbs)) s
            else Ok s in
  let! s := if has revents POLLOUT then call (writeCallback_ cbs) s else Ok s in
  Ok (setHandling false s).

(** [alive] tells whether [tie_.lock()] still yields the owner. *)
Definition handleEvent (c : Channel) (alive : bool) (cbs : Callbacks)
    (setHandling : bool -> S -> S) (receiveTime : Z) (s : S) : res S :=
  if tied_ c
  then if alive
       then handleEventWithGuard cbs setHandling (revents_ c) receiveTime s
       else Ok s
  else handleEventWithGuard cbs setHandling (revents_ c) receiveTime s.
End Dispatch.
Arguments Callbacks : clear implicits.

(** ** Debug strings *)

Definition eventsToString (fd ev : Z) : string :=
  pretty fd +:+ ": "
  +:+ (if has ev POLLIN then "IN " else "")
  +:+ (if has ev POLLPRI then "PRI " else "")
  +:+ (if has ev POLLOUT then "OUT " else "")
  +:+ (if has ev POLLHUP then "HUP " else "")
  +:+ (if has ev POLLRDHUP then "RDHUP " else "")
  +:+ (if has ev POLLERR then "ERR " else "")
  +:+ (if has ev POLLNVAL then "NVAL " else "").

Definition reventsToString (c : Channel) : string := eventsToString (fd_ c) (revents_ c).
Definition channelEventsToString (c : Channel) : string := eventsToString (fd_ c) (events_ c).

(** ** Masks *)

Lemma has_spec ev k : 0 <= k -> has ev (2 ^ k) = Z.testbit ev k.
Proof.
  intros Hk; unfold has.
  destruct (Z.testbit ev k) eqn:E.
  - apply negb_true_iff, Z.eqb_neq; intros H.
    apply (f_equal (fun z => Z.testbit z k)) in H.
    rewrite Z.land_spec, E, Z.pow2_bits_true, Z.bits_0 in H by done; done.
  - apply negb_false_iff, Z.eqb_eq, Z.bits_inj'; intros n Hn.
    rewrite Z.land_spec, Z.bits_0, Z.pow2_bits_eqb by done.
    destruct (Z.eqb_spec k n); subst; [by rewrite E|by rewrite andb_false_r].
Qed.

(** Bits 0 and 1 are the read event, bit 2 the write event. *)
Lemma isWriting_bit c : isWriting c = Z.testbit (events_ c) 2.
Proof. exact (has_spec (events_ c) 2 ltac:(lia)). Qed.

Lemma isReading_bits c :
  isReading c = Z.testbit (events_ c) 0 || Z.testbit (events_ c) 1.
Proof.
  unfold isReading, has; change kReadEvent with 3.
  pose proof (has_spec (events_ c) 0 ltac:(lia)) as H0.
  pose proof (has_spec (events_ c) 1 ltac:(lia)) as H1.
  unfold has in *; change (2 ^ 0) with 1 in H0; change (2 ^ 1) with 2 in H1.
  change 3 with (Z.lor 1 2); rewrite Z.land_lor_distr_r.
  rewrite <- H0, <- H1.
  pose proof (Z.lor_eq_0_iff (Z.land (events_ c) 1) (Z.land (events_ c) 2)) as Hlor.
  destruct (Z.eqb_spec (Z.land (events_ c) 1) 0), (Z.eqb_spec (Z.land (events_ c) 2) 0),
    (Z.eqb_spec (Z.lor (Z.land (events_ c) 1) (Z.land (events_ c) 2)) 0);
    simpl; first [reflexivity | exfalso; tauto].
Qed.

(** Bits of the masks after the five mask operations. *)
Ltac mask_bits :=
  rewrite ?isWriting_bit, ?isReading_bits;
  cbn [events_ set_events readingOn readingOff writingOn writingOff allOff];
  unfold readingOn, readingOff, writingOn, writingOff, allOff, kNoneEvent;
  cbn [events_ set_events];
  rewrite ?Z.lor_spec, ?Z.land_spec, ?Z.lnot_spec, ?Z.bits_0 by lia;
  change kReadEvent with 3; change kWriteEvent with 4;
  repeat match goal with |- context [Z.testbit (Zpos ?p) ?i] =>
    let v := eval vm_compute in (Z.testbit (Zpos p) i) in
    change (Z.testbit (Zpos p) i) with v end;
  rewrite ?orb_false_r, ?orb_true_r, ?andb_true_r, ?andb_false_r.

Lemma reading_masks c :
  isReading (readingOn c) = true /\ isWriting (readingOn c) = isWriting c /\
  isReading (readingOff c) = false /\ isWriting (readingOff c) = isWriting c.
Proof. split_and!; by mask_bits. Qed.

Lemma writing_masks c :
  isWriting (writingOn c) = true /\ isReading (writingOn c) = isReading c /\
  isWriting (writingOff c) = false /\ isReading (writingOff c) = isReading c.
Proof. split_and!; by mask_bits. Qed.

Lemma allOff_masks c :
  isWriting (allOff c) = false /\ isReading (allOff c) = false /\
  isNoneEvent (allOff c) = true.
Proof. split_and!; by mask_bits. Qed.

(** A channel only ever asks for the three events of [kReadEvent] and
    [kWriteEvent]. *)
Definition mask_ok (c : Channel) : Prop := 0 <= events_ c < 8.

Lemma mask_ok_bits e : 0 <= e < 8 <-> (0 <= e /\ forall n, 3 <= n -> Z.testbit e n = false).
Proof.
  split.
  - intros [H0 H8]; split; [done|]; intros n Hn.
    apply Z.bits_above_log2; [done|].
    destruct (Z.eq_dec e 0) as [->|]; [simpl; lia|].
    enough (Z.log2 e < 3) by lia; apply Z.log2_lt_pow2; simpl; lia.
  - intros [H0 Hb]; split; [done|].
    destruct (Z.le_gt_cases 8 e) as [H8|]; [|done].
    assert (3 <= Z.log2 e) as Hl by (apply Z.log2_le_pow2; simpl; lia).
    specialize (Hb _ Hl); rewrite Z.bit_log2 in Hb by lia; done.
Qed.

Lemma mask_ok_ops c :
  mask_ok c ->
  mask_ok (readingOn c) /\ mask_ok (readingOff c) /\ mask_ok (writingOn c) /\
  mask_ok (writingOff c) /\ mask_ok (allOff c).
Proof.
  unfold mask_ok; intros [H0 Hb]%mask_ok_bits.
  assert (forall n, 3 <= n -> Z.testbit 3 n = false) as B3
    by (intros; apply Z.bits_above_log2; simpl; lia).
  assert (forall n, 3 <= n -> Z.testbit 4 n = false) as B4
    by (intros; apply Z.bits_above_log2; simpl; lia).
  unfold readingOn, readingOff, writingOn, writingOff, allOff, kNoneEvent.
  change kReadEvent with 3; change kWriteEvent with 4; cbn [events_ set_events].
  split_and!; apply mask_ok_bits; split;
    try (intros n Hn; rewrite ?Z.lor_spec, ?Z.land_spec, Hb by done;
         rewrite ?B3, ?B4 by done; done);
    rewrite ?Z.lor_nonneg, ?Z.land_nonneg; try lia; intros; apply Z.bits_0.
Qed.

(** No interest is left exactly when neither reading nor writing is on. *)
Lemma isNoneEvent_iff c :
  mask_ok c -> isNoneEvent c = negb (isReading c) && negb (isWriting c).
Proof.
  unfold mask_ok, isNoneEvent, isReading, isWriting, kNoneEvent; intros H.
  assert (events_ c = 0 \/ events_ c = 1 \/ events_ c = 2 \/ events_ c = 3 \/
          events_ c = 4 \/ events_ c = 5 \/ events_ c = 6 \/ events_ c = 7) as Hc by lia.
  by repeat destruct Hc as [->|Hc]; [..|rewrite Hc].
Qed.
