(* ===== verification/Pollers.v ===== *)
(** * I/O multiplexing (src/src/muduo/net/Poller.h, Poller.cc,
      poller/EPollPoller.cc, poller/PollPoller.cc)

    Channels live in a store indexed by their address; a poller keeps the map
    from descriptors to channel addresses and, for poll(2), the vector of
    pollfds in which every channel remembers its position.  [PollerSpec] is the
    interface the event loop relies on, with the contract of [updateChannel] and
    [removeChannel]; [EPollPoller] and [PollPoller] are its two instances.  The
    epoll instance of the kernel is a parameter, with the behaviour epoll_ctl(2)
    documents as laws. *)

From S2P Require Import Prelude Channels.

Abbreviation store := (gmap Z Channel).

(** [ownerLoop_->assertInLoopThread()], which ends in [LOG_FATAL]. *)
Definition assertInLoopThread (inLoop : bool) : res unit :=
  if inLoop then Ok tt else Fail Aborted.

(** Dereferencing a channel pointer. *)
Definition deref (st : store) (a : Z) : res Channel :=
  match st !! a with Some c => Ok c | None => Fail OutOfRange end.

(** ** The interface *)

Class PollerOps (P : Type) := {
  (** [channels_] of the base class. *)
  registered : P -> gmap Z Z;
  updateChannel : bool -> Z -> store * P -> res (store * P);
  removeChannel : bool -> Z -> store * P -> res (store * P);
  (** What the kernel monitors for a descriptor: channel and mask. *)
  watched : P -> Z -> option (Z * Z);
  pinv : store -> P -> Prop;
}.

(** [Poller::hasChannel] of the base class. *)
Definition hasChannel {P} `{PollerOps P} (inLoop : bool) (a : Z) (s : store * P) : res bool :=
  let! _ := assertInLoopThread inLoop in
  let! c := deref (fst s) a in
  Ok (match registered (snd s) !! fd_ c with
      | Some a' => a' =? a
      | None => false
      end).

(** [Channel::update] / [Channel::remove] as the five mask operations and the
    destructors use them: the new mask is stored, then the poller is told.  Between
    the two, [EventLoop::removeChannel] asserts that the loop is not handling the
    events of another channel; [EventLoops.loop_removeChannel] has that assert, and it
    says nothing for a removal outside event handling, as in the functors and
    destructors that use [channel_remove]. *)
Definition channel_update {P} `{PollerOps P} (inLoop : bool) (f : Channel -> Channel) (a : Z)
    (s : store * P) : res (store * P) :=
  let! c := deref (fst s) a in
  updateChannel inLoop a (<[a := set_addedToLoop true (f c)]> (fst s), snd s).

Definition channel_remove {P} `{PollerOps P} (inLoop : bool) (a : Z)
    (s : store * P) : res (store * P) :=
  let! c := deref (fst s) a in
  assert! isNoneEvent c ;;
  removeChannel inLoop a (<[a := set_addedToLoop false c]> (fst s), snd s).

(** [~Channel]: the destructor's asserts. *)
Definition channel_destroy {P} `{PollerOps P} (inLoop : bool) (a : Z)
    (s : store * P) : res (store * P) :=
  let! c := deref (fst s) a in
  assert! negb (eventHandling_ c) ;;
  assert! negb (addedToLoop_ c) ;;
  let! has := (if inLoop then hasChannel true a s else Ok false) in
  assert! negb has ;;
  Ok (delete a (fst s), snd s).

Definition enableReading {P} `{PollerOps P} b a (s : store * P) := channel_update b readingOn a s.
Definition disableReading {P} `{PollerOps P} b a (s : store * P) := channel_update b readingOff a s.
Definition enableWriting {P} `{PollerOps P} b a (s : store * P) := channel_update b writingOn a s.
Definition disableWriting {P} `{PollerOps P} b a (s : store * P) := channel_update b writingOff a s.
Definition disableAll {P} `{PollerOps P} b a (s : store * P) := channel_update b allOff a s.

(** Two versions of a channel that differ in the poller's bookkeeping only. *)
Definition same_channel (c c' : Channel) : Prop := exists i, c' = set_index i c.

Definition same_store (st st' : store) : Prop :=
  forall a, option_relation same_channel (fun _ => False) (fun _ => False) (st !! a) (st' !! a).

(** The contract a client keeps: the descriptor belongs to this channel or to
    nobody, and a channel is first shown to the poller with a non-empty mask. *)
Definition may_update {P} `{PollerOps P} (p : P) (a : Z) (c c' : Channel) : Prop :=
  0 <= fd_ c /\ mask_ok c' /\ fd_ c' = fd_ c /\ index_ c' = index_ c /\
  (registered p !! fd_ c = Some a \/ (registered p !! fd_ c = None /\ events_ c' <> 0)).

(** The contract the poller keeps. *)
Class PollerSpec (P : Type) `{PollerOps P} := {
  (** The mask was changed from [c]'s to [c']'s.  Afterwards the kernel monitors a
      non-empty mask, and a mask that just became empty is no longer monitored. *)
  update_law st p a c c' :
    pinv st p -> st !! a = Some c -> may_update p a c c' ->
    exists st' p', updateChannel true a (<[a := c']> st, p) = Ok (st', p') /\
      pinv st' p' /\ same_store (<[a := c']> st) st' /\
      registered p' = <[fd_ c := a]> (registered p) /\
      (events_ c' <> 0 -> watched p' (fd_ c) = Some (a, events_ c')) /\
      (events_ c' = 0 -> events_ c <> 0 -> watched p' (fd_ c) = None) /\
      (events_ c' = 0 -> watched p' (fd_ c) = None \/ watched p' (fd_ c) = Some (a, 0)) /\
      (forall fd, fd <> fd_ c -> watched p' fd = watched p fd);
  (** Removing a registered channel with an empty mask; it may be destroyed. *)
  remove_law st p a c c' :
    pinv st p -> st !! a = Some c -> registered p !! fd_ c = Some a ->
    events_ c = 0 -> events_ c' = 0 -> fd_ c' = fd_ c -> index_ c' = index_ c ->
    exists st' p', removeChannel true a (<[a := c']> st, p) = Ok (st', p') /\
      pinv (delete a st') p' /\ same_store (<[a := c']> st) st' /\
      registered p' = delete (fd_ c) (registered p) /\
      watched p' (fd_ c) = None /\
      (forall fd, fd <> fd_ c -> watched p' fd = watched p fd);
  (** A fresh channel. *)
  new_law st p a fd :
    pinv st p -> st !! a = None -> pinv (<[a := newChannel fd]> st) p;
  (** Fields that are not the poller's business. *)
  frame_law st p a c c' :
    pinv st p -> st !! a = Some c -> fd_ c' = fd_ c -> events_ c' = events_ c ->
    index_ c' = index_ c -> pinv (<[a := c']> st) p;
}.

(** ** EPollPoller *)

Definition kNew : Z := -1.
Definition kAdded : Z := 1.
Definition kDeleted : Z := 2.
Definition kInitEventListSize : Z := 16.

Inductive ctl_op := EPOLL_CTL_ADD | EPOLL_CTL_DEL | EPOLL_CTL_MOD.

(** Logged operation names. *)
Definition operationToString (op : ctl_op) : string :=
  match op with
  | EPOLL_CTL_ADD => "ADD"
  | EPOLL_CTL_DEL => "DEL"
  | EPOLL_CTL_MOD => "MOD"
  end.

(** The kernel's epoll instance: its interest list and epoll_ctl(2). *)
Class EpollOps (K : Type) := {
  (** descriptor to (events, data.ptr) *)
  interest : K -> gmap Z (Z * Z);
  epoll_ctl : K -> ctl_op -> Z -> Z * Z -> K * bool;
}.

(** epoll_ctl(2), for descriptors that are open and with watches left. *)
Class EpollLaws (K : Type) `{EpollOps K} := {
  ctl_add k fd ev : interest k !! fd = None ->
    exists k', epoll_ctl k EPOLL_CTL_ADD fd ev = (k', true) /\
      interest k' = <[fd := ev]> (interest k);
  ctl_mod k fd ev : is_Some (interest k !! fd) ->
    exists k', epoll_ctl k EPOLL_CTL_MOD fd ev = (k', true) /\
      interest k' = <[fd := ev]> (interest k);
  ctl_del k fd ev : is_Some (interest k !! fd) ->
    exists k', epoll_ctl k EPOLL_CTL_DEL fd ev = (k', true) /\
      interest k' = delete fd (interest k);
}.

Section EPollPoller.
Context {K : Type} `{EpollLaws K}.

Record EPollPoller := mkEPollPoller {
  ep_channels_ : gmap Z Z;
  epollfd_ : K;
  ep_events_size : Z;
}.

Definition newEPollPoller (k : K) : EPollPoller := mkEPollPoller ∅ k kInitEventListSize.

(** [EPollPoller::update]: a failing DEL is logged, any other failure is
    [LOG_SYSFATAL]. *)
Definition ep_update (operation : ctl_op) (a : Z) (s : store * EPollPoller)
    : res (store * EPollPoller) :=
  let '(st, p) := s in
  let! c := deref st a in
  let '(k', ok) := epoll_ctl (epollfd_ p) operation (fd_ c) (events_ c, a) in
  let p' := mkEPollPoller (ep_channels_ p) k' (ep_events_size p) in
  if ok then Ok (st, p')
  else match operation with
       | EPOLL_CTL_DEL => Ok (st, p')
       | _ => Fail Aborted
       end.

Definition ep_set_index (a i : Z) (s : store * EPollPoller) : store * EPollPoller :=
  (alter (set_index i) a (fst s), snd s).

Definition ep_updateChannel (inLoop : bool) (a : Z) (s : store * EPollPoller)
    : res (store * EPollPoller) :=
  let! _ := assertInLoopThread inLoop in
  let '(st, p) := s in
  let! c := deref st a in
  let index := index_ c in
  let fd := fd_ c in
  if (index =? kNew) || (index =? kDeleted) then
    let! p1 :=
      (if index =? kNew then
         assert! bool_decide (ep_channels_ p !! fd = None) ;;
         Ok (mkEPollPoller (<[fd := a]> (ep_channels_ p)) (epollfd_ p) (ep_events_size p))
       else
         assert! bool_decide (is_Some (ep_channels_ p !! fd)) ;;
         assert! bool_decide (ep_channels_ p !! fd = Some a) ;;
         Ok p) in
    ep_update EPOLL_CTL_ADD a (ep_set_index a kAdded (st, p1))
  else
    assert! bool_decide (is_Some (ep_channels_ p !! fd)) ;;
    assert! bool_decide (ep_channels_ p !! fd = Some a) ;;
    assert! index =? kAdded ;;
    if isNoneEvent c then
      let! s' := ep_update EPOLL_CTL_DEL a (st, p) in
      Ok (ep_set_index a kDeleted s')
    else ep_update EPOLL_CTL_MOD a (st, p).

Definition ep_removeChannel (inLoop : bool) (a : Z) (s : store * EPollPoller)
    : res (store * EPollPoller) :=
  let! _ := assertInLoopThread inLoop in
  let '(st, p) := s in
  let! c := deref st a in
  let fd := fd_ c in
  assert! bool_decide (is_Some (ep_channels_ p !! fd)) ;;
  assert! bool_decide (ep_channels_ p !! fd = Some a) ;;
  assert! isNoneEvent c ;;
  let index := index_ c in
  assert! (index =? kAdded) || (index =? kDeleted) ;;
  let p1 := mkEPollPoller (delete fd (ep_channels_ p)) (epollfd_ p) (ep_events_size p) in
  let! s1 := (if index =? kAdded then ep_update EPOLL_CTL_DEL a (st, p1)
              else Ok (st, p1)) in
  Ok (ep_set_index a kNew s1).

(** [EPollPoller::fillActiveChannels] on the events epoll_wait(2) stored. *)
Definition ep_fillActiveChannels (evs : list (Z * Z)) (s : store * EPollPoller)
    : res (store * list Z) :=
  assert! len evs <=? ep_events_size (snd s) ;;
  res_fold (fun '(st, active) '(ev, a) =>
    let! c := deref st a in
    assert! bool_decide (is_Some (ep_channels_ (snd s) !! fd_ c)) ;;
    assert! bool_decide (ep_channels_ (snd s) !! fd_ c = Some a) ;;
    Ok (<[a := set_revents ev c]> st, active ++ [a])) (fst s, []) evs.

(** [EPollPoller::poll] given what epoll_wait returned: events, or an errno. *)
Definition ep_poll (wait : Z -> list (Z * Z) + Z) (s : store * EPollPoller)
    : res (store * EPollPoller * list Z) :=
  let p := snd s in
  match wait (ep_events_size p) with
  | inl evs =>
      if 0 <? len evs then
        let! '(st', active) := ep_fillActiveChannels evs s in
        let size' := if len evs =? ep_events_size p then ep_events_size p * 2
                     else ep_events_size p in
        Ok (st', mkEPollPoller (ep_channels_ p) (epollfd_ p) size', active)
      else Ok (fst s, p, [])
  | inr savedErrno => Ok (fst s, p, [])
  end.

(** A channel registered in [channels_] is either added to the epoll instance
    with its current mask or marked deleted; every other channel is new. *)
Definition ep_inv (st : store) (p : EPollPoller) : Prop :=
  (forall fd a, ep_channels_ p !! fd = Some a ->
     exists c, st !! a = Some c /\ fd_ c = fd /\
       ((index_ c = kAdded /\ interest (epollfd_ p) !! fd = Some (events_ c, a)) \/
        (index_ c = kDeleted /\ events_ c = 0 /\ interest (epollfd_ p) !! fd = None))) /\
  (forall a c, st !! a = Some c -> ep_channels_ p !! fd_ c <> Some a -> index_ c = kNew) /\
  (forall fd, ep_channels_ p !! fd = None -> interest (epollfd_ p) !! fd = None).

Definition ep_watched (p : EPollPoller) (fd : Z) : option (Z * Z) :=
  match interest (epollfd_ p) !! fd with
  | Some (ev, a) => Some (a, ev)
  | None => None
  end.

#[export] Instance EPollPoller_ops : PollerOps EPollPoller := {
  registered := ep_channels_;
  updateChannel := ep_updateChannel;
  removeChannel := ep_removeChannel;
  watched := ep_watched;
  pinv := ep_inv;
}.
End EPollPoller.
Arguments EPollPoller : clear implicits.

(** ** PollPoller *)

Record pollfd := mkPollfd { pfd_fd : Z; pfd_events : Z; pfd_revents : Z }.

Record PollPoller := mkPollPoller {
  pp_channels_ : gmap Z Z;
  pollfds_ : list pollfd;
}.

Definition newPollPoller : PollPoller := mkPollPoller ∅ [].

Definition pp_updateChannel (inLoop : bool) (a : Z) (s : store * PollPoller)
    : res (store * PollPoller) :=
  let! _ := assertInLoopThread inLoop in
  let '(st, p) := s in
  let! c := deref st a in
  let fd := fd_ c in
  if index_ c <? 0 then
    assert! bool_decide (pp_channels_ p !! fd = None) ;;
    let pfd := mkPollfd fd (i16 (events_ c)) 0 in
    let fds := pollfds_ p ++ [pfd] in
    let idx := len fds - 1 in
    Ok (<[a := set_index idx c]> st, mkPollPoller (<[fd := a]> (pp_channels_ p)) fds)
  else
    assert! bool_decide (is_Some (pp_channels_ p !! fd)) ;;
    assert! bool_decide (pp_channels_ p !! fd = Some a) ;;
    let idx := index_ c in
    assert! (0 <=? idx) && (idx <? len (pollfds_ p)) ;;
    match pollfds_ p !! Z.to_nat idx with
    | None => Fail OutOfRange
    | Some pfd =>
        assert! (pfd_fd pfd =? fd) || (pfd_fd pfd =? - fd - 1) ;;
        let fd' := if isNoneEvent c then - fd - 1 else fd in
        Ok (st, mkPollPoller (pp_channels_ p)
                  (<[Z.to_nat idx := mkPollfd fd' (i16 (events_ c)) 0]> (pollfds_ p)))
    end.

Definition pp_removeChannel (inLoop : bool) (a : Z) (s : store * PollPoller)
    : res (store * PollPoller) :=
  let! _ := assertInLoopThread inLoop in
  let '(st, p) := s in
  let! c := deref st a in
  let fd := fd_ c in
  assert! bool_decide (is_Some (pp_channels_ p !! fd)) ;;
  assert! bool_decide (pp_channels_ p !! fd = Some a) ;;
  assert! isNoneEvent c ;;
  let idx := index_ c in
  assert! (0 <=? idx) && (idx <? len (pollfds_ p)) ;;
  match pollfds_ p !! Z.to_nat idx with
  | None => Fail OutOfRange
  | Some pfd =>
      assert! (pfd_fd pfd =? - fd - 1) && (pfd_events pfd =? events_ c) ;;
      let chans := delete fd (pp_channels_ p) in
      let n := length (pollfds_ p) in
      if idx =? len (pollfds_ p) - 1
      then Ok (st, mkPollPoller chans (take (n - 1) (pollfds_ p)))
      else
        match pollfds_ p !! (n - 1)%nat with
        | None => Fail OutOfRange
        | Some back =>
            let channelAtEnd := pfd_fd back in
            let swapped := <[(n - 1)%nat := pfd]> (<[Z.to_nat idx := back]> (pollfds_ p)) in
            let channelAtEnd := if channelAtEnd <? 0 then - channelAtEnd - 1
                                else channelAtEnd in
            match chans !! channelAtEnd with
            | None => Fail OutOfRange
            | Some a' =>
                let! c' := deref st a' in
                Ok (<[a' := set_index idx c']> st,
                    mkPollPoller chans (take (n - 1) swapped))
            end
        end
  end.

(** [PollPoller::fillActiveChannels] after poll(2) wrote [revents]. *)
Fixpoint pp_fillActiveChannels (chans : gmap Z Z) (numEvents : Z) (pfds : list pollfd)
    (s : store * list Z) : res (store * list Z) :=
  match pfds with
  | [] => Ok s
  | pfd :: pfds' =>
      if 0 <? numEvents then
        if 0 <? pfd_revents pfd then
          match chans !! pfd_fd pfd with
          | None => Fail AssertFailed
          | Some a =>
              let! c := deref (fst s) a in
              assert! fd_ c =? pfd_fd pfd ;;
              pp_fillActiveChannels chans (numEvents - 1) pfds'
                (<[a := set_revents (pfd_revents pfd) c]> (fst s), snd s ++ [a])
          end
        else pp_fillActiveChannels chans numEvents pfds' s
      else Ok s
  end.

(** poll(2) fills [revents] of the array it is given and returns a count. *)
Definition pp_poll (poll : list pollfd -> list pollfd * Z) (s : store * PollPoller)
    : res (store * PollPoller * list Z) :=
  let '(st, p) := s in
  let '(fds, numEvents) := poll (pollfds_ p) in
  let p' := mkPollPoller (pp_channels_ p) fds in
  if 0 <? numEvents then
    let! '(st', active) := pp_fillActiveChannels (pp_channels_ p) numEvents fds (st, []) in
    Ok (st', p', active)
  else Ok (st, p', []).

(** ** EPollPoller keeps its contract *)

Lemma same_channel_refl c : same_channel c c.
Proof. exists (index_ c); by destruct c. Qed.

Lemma same_store_refl st : same_store st st.
Proof. intros a; destruct (st !! a); simpl; auto using same_channel_refl. Qed.

Lemma same_store_insert st a c i :
  same_store (<[a := c]> st) (<[a := set_index i c]> st).
Proof.
  intros b; destruct (decide (a = b)) as [<-|Hne].
  - rewrite !lookup_insert_eq; simpl; by exists i.
  - rewrite !lookup_insert_ne by done; apply same_store_refl.
Qed.

Lemma set_index_fields i c :
  fd_ (set_index i c) = fd_ c /\ events_ (set_index i c) = events_ c /\
  index_ (set_index i c) = i.
Proof. done. Qed.

Section EPollProofs.
Context {K : Type} `{EpollLaws K}.

(** Re-establishing the invariant after channel [a] was written. *)
Lemma ep_inv_write st (p : EPollPoller K) a c c2 k' n :
  ep_inv st p -> st !! a = Some c -> fd_ c2 = fd_ c ->
  (ep_channels_ p !! fd_ c = Some a \/ ep_channels_ p !! fd_ c = None) ->
  (index_ c2 = kAdded /\ interest k' !! fd_ c = Some (events_ c2, a) \/
   index_ c2 = kDeleted /\ events_ c2 = 0 /\ interest k' !! fd_ c = None) ->
  (forall fd, fd <> fd_ c -> interest k' !! fd = interest (epollfd_ p) !! fd) ->
  ep_inv (<[a := c2]> st) (mkEPollPoller (<[fd_ c := a]> (ep_channels_ p)) k' n).
Proof.
  intros (I1 & I2 & I3) Hc Hfd Hreg Hidx Hoth; split_and!; simpl.
  - intros fd b Hb; destruct (decide (fd = fd_ c)) as [->|Hne].
    + rewrite lookup_insert_eq in Hb; injection Hb as <-.
      exists c2; by rewrite lookup_insert_eq.
    + rewrite lookup_insert_ne in Hb by done.
      destruct (I1 _ _ Hb) as (c0 & Hc0 & Hf0 & Hi0).
      assert (a <> b) by (intros <-; rewrite Hc in Hc0; congruence).
      exists c0; rewrite lookup_insert_ne, Hoth by done; done.
  - intros b c0; destruct (decide (a = b)) as [<-|Hne].
    + rewrite lookup_insert_eq; intros [= <-]; rewrite Hfd, lookup_insert_eq; done.
    + rewrite lookup_insert_ne by done; intros Hc0 Hr; apply (I2 _ _ Hc0); intros Hr0.
      destruct (decide (fd_ c0 = fd_ c)) as [E|E].
      * rewrite E in Hr0; destruct Hreg as [Hr1|Hr1]; rewrite Hr1 in Hr0; congruence.
      * by rewrite lookup_insert_ne in Hr.
  - intros fd Hf; destruct (decide (fd = fd_ c)) as [->|Hne].
    + by rewrite lookup_insert_eq in Hf.
    + rewrite lookup_insert_ne in Hf by done; rewrite Hoth by done; by apply I3.
Qed.

Lemma ep_watched_ne (p p' : EPollPoller K) fd :
  interest (epollfd_ p') !! fd = interest (epollfd_ p) !! fd ->
  ep_watched p' fd = ep_watched p fd.
Proof. unfold ep_watched; by intros ->. Qed.

(** [update(EPOLL_CTL_ADD, channel)] of a channel not in the interest list. *)
Lemma ep_add st (p : EPollPoller K) a c c' chans :
  ep_inv st p -> st !! a = Some c -> fd_ c' = fd_ c ->
  (ep_channels_ p !! fd_ c = Some a \/ ep_channels_ p !! fd_ c = None) ->
  interest (epollfd_ p) !! fd_ c = None ->
  chans = <[fd_ c := a]> (ep_channels_ p) ->
  exists p', ep_update EPOLL_CTL_ADD a
      (ep_set_index a kAdded (<[a := c']> st,
         mkEPollPoller chans (epollfd_ p) (ep_events_size p)))
    = Ok (<[a := set_index kAdded c']> st, p') /\
    ep_inv (<[a := set_index kAdded c']> st) p' /\ ep_channels_ p' = chans /\
    interest (epollfd_ p') = <[fd_ c := (events_ c', a)]> (interest (epollfd_ p)).
Proof.
  intros Hinv Hc Hfd Hreg Hnone ->; unfold ep_update, ep_set_index; cbn [fst snd].
  rewrite alter_insert_eq; unfold deref; rewrite lookup_insert_eq; cbn [res_bind].
  destruct (ctl_add (epollfd_ p) (fd_ c) (events_ c', a)) as (k' & E & Ek); [done|].
  cbn [fd_ events_ set_index ep_channels_ epollfd_ ep_events_size]; rewrite Hfd, E.
  eexists; split; [done|]; split; [|done].
  eapply (ep_inv_write st p a c (set_index kAdded c')); try done.
  - left; split; [done|]; rewrite Ek; by rewrite lookup_insert_eq.
  - intros fd Hne; rewrite Ek; by rewrite lookup_insert_ne.
Qed.

(** [updateChannel] of a channel that is in the interest list: DEL or MOD. *)
Lemma ep_modify st (p : EPollPoller K) a c c' :
  ep_inv st p -> st !! a = Some c -> ep_channels_ p !! fd_ c = Some a ->
  index_ c = kAdded -> interest (epollfd_ p) !! fd_ c = Some (events_ c, a) ->
  fd_ c' = fd_ c -> index_ c' = index_ c ->
  exists st' p',
    (if isNoneEvent c' then
       let! s' := ep_update EPOLL_CTL_DEL a (<[a := c']> st, p) in
       Ok (ep_set_index a kDeleted s')
     else ep_update EPOLL_CTL_MOD a (<[a := c']> st, p)) = Ok (st', p') /\
    ep_inv st' p' /\ same_store (<[a := c']> st) st' /\
    ep_channels_ p' = <[fd_ c := a]> (ep_channels_ p) /\
    interest (epollfd_ p') =
      (if isNoneEvent c' then delete (fd_ c) (interest (epollfd_ p))
       else <[fd_ c := (events_ c', a)]> (interest (epollfd_ p))).
Proof.
  intros Hinv Hc Hr Hi Hin Hfd Hidx.
  assert (<[fd_ c := a]> (ep_channels_ p) = ep_channels_ p) as Hid by by apply insert_id.
  unfold ep_update, deref; rewrite lookup_insert_eq; cbn [res_bind]; rewrite Hfd.
  destruct (isNoneEvent c') eqn:Hn.
  - destruct (ctl_del (epollfd_ p) (fd_ c) (events_ c', a)) as (k' & -> & Ek); [eauto|].
    cbn [res_bind]; unfold ep_set_index; cbn [fst snd]; rewrite alter_insert_eq.
    do 2 eexists; split; [done|]; split_and!; [|apply same_store_insert|done|done].
    rewrite <- Hid; eapply (ep_inv_write st p a c (set_index kDeleted c')); try done.
    + by left.
    + right; split_and!; [done|by apply Z.eqb_eq|]; rewrite Ek; apply lookup_delete_eq.
    + intros fd Hne; rewrite Ek; by rewrite lookup_delete_ne.
  - destruct (ctl_mod (epollfd_ p) (fd_ c) (events_ c', a)) as (k' & -> & Ek); [eauto|].
    do 2 eexists; split; [done|]; split_and!; [|apply same_store_refl|done|done].
    rewrite <- Hid; eapply (ep_inv_write st p a c c'); try done.
    + by left.
    + left; split; [congruence|]; rewrite Ek; by rewrite lookup_insert_eq.
    + intros fd Hne; rewrite Ek; by rewrite lookup_insert_ne.
Qed.

Lemma ep_updateChannel_spec st (p : EPollPoller K) a c c' :
  ep_inv st p -> st !! a = Some c ->
  (ep_channels_ p !! fd_ c = Some a \/ ep_channels_ p !! fd_ c = None) ->
  fd_ c' = fd_ c -> index_ c' = index_ c ->
  exists st' p', ep_updateChannel true a (<[a := c']> st, p) = Ok (st', p') /\
    ep_inv st' p' /\ same_store (<[a := c']> st) st' /\
    ep_channels_ p' = <[fd_ c := a]> (ep_channels_ p) /\
    interest (epollfd_ p') =
      (if isNoneEvent c' && (index_ c =? kAdded)
       then delete (fd_ c) (interest (epollfd_ p))
       else <[fd_ c := (events_ c', a)]> (interest (epollfd_ p))).
Proof.
  intros Hinv Hc Hreg Hfd Hidx; pose proof Hinv as (I1 & I2 & I3).
  unfold ep_updateChannel; cbn [assertInLoopThread res_bind].
  unfold deref; rewrite lookup_insert_eq; cbn [res_bind]; rewrite Hidx, Hfd.
  destruct Hreg as [Hr|Hr].
  - destruct (I1 _ _ Hr) as (c0 & Hc0 & _ & Hi); rewrite Hc in Hc0; injection Hc0 as <-.
    destruct Hi as [[Hi Hin]|(Hi & _ & Hin)]; rewrite Hi, Hr; cbn -[isNoneEvent ep_update];
      rewrite !bool_decide_eq_true_2 by (done || eauto); cbn -[isNoneEvent ep_update].
    + rewrite Bool.andb_true_r; by apply ep_modify.
    + rewrite Bool.andb_false_r.
      assert (<[fd_ c := a]> (ep_channels_ p) = ep_channels_ p) as Hid by by apply insert_id.
      destruct (ep_add st p a c c' (ep_channels_ p)) as (p' & E & Hinv' & Hch & Hk);
        try done; [by left|].
      destruct p as [ch k n]; cbn [ep_channels_ epollfd_ ep_events_size] in *.
      rewrite E, <- Hid in *; do 2 eexists; split; [done|].
      split_and!; [done|apply same_store_insert|congruence|done].
  - assert (index_ c = kNew) as Hi by (apply (I2 _ _ Hc); by rewrite Hr).
    rewrite Hi; cbn -[isNoneEvent ep_update]; rewrite bool_decide_eq_true_2 by done.
    cbn -[isNoneEvent ep_update]; rewrite Bool.andb_false_r.
    destruct (ep_add st p a c c' (<[fd_ c := a]> (ep_channels_ p)))
      as (p' & -> & Hinv' & Hch & Hk); try done; [by right|by apply I3|].
    do 2 eexists; split; [done|]; split_and!; [done|apply same_store_insert|done|done].
Qed.

Lemma ep_inv_delete st (p : EPollPoller K) a c k' n :
  ep_inv st p -> st !! a = Some c -> ep_channels_ p !! fd_ c = Some a ->
  interest k' = delete (fd_ c) (interest (epollfd_ p)) ->
  ep_inv (delete a st) (mkEPollPoller (delete (fd_ c) (ep_channels_ p)) k' n).
Proof.
  intros (I1 & I2 & I3) Hc Hr Hk; split_and!; simpl.
  - intros fd b Hb; destruct (decide (fd_ c = fd)) as [<-|Hne].
    { by rewrite lookup_delete_eq in Hb. }
    rewrite lookup_delete_ne in Hb by done.
    destruct (I1 _ _ Hb) as (c0 & Hc0 & Hf0 & Hi0).
    assert (a <> b) by (intros <-; rewrite Hc in Hc0; congruence).
    exists c0; by rewrite Hk, !lookup_delete_ne.
  - intros b c0; destruct (decide (a = b)) as [<-|Hne].
    { by rewrite lookup_delete_eq. }
    rewrite lookup_delete_ne by done; intros Hc0 Hr0; apply (I2 _ _ Hc0); intros Hr1.
    apply Hr0; rewrite lookup_delete_ne; [done|].
    intros E; rewrite <- E in Hr1; congruence.
  - intros fd Hf; rewrite Hk; destruct (decide (fd_ c = fd)) as [<-|Hne].
    { by rewrite lookup_delete_eq. }
    rewrite lookup_delete_ne in Hf by done; rewrite lookup_delete_ne by done; by apply I3.
Qed.

Lemma ep_removeChannel_spec st (p : EPollPoller K) a c c' :
  ep_inv st p -> st !! a = Some c -> ep_channels_ p !! fd_ c = Some a ->
  events_ c' = 0 -> fd_ c' = fd_ c -> index_ c' = index_ c ->
  exists p', ep_removeChannel true a (<[a := c']> st, p) =
      Ok (<[a := set_index kNew c']> st, p') /\
    ep_inv (delete a (<[a := set_index kNew c']> st)) p' /\
    ep_channels_ p' = delete (fd_ c) (ep_channels_ p) /\
    interest (epollfd_ p') = delete (fd_ c) (interest (epollfd_ p)).
Proof.
  intros Hinv Hc Hr He' Hfd Hidx; pose proof Hinv as (I1 & _ & _).
  destruct (I1 _ _ Hr) as (c0 & Hc0 & _ & Hi); rewrite Hc in Hc0; injection Hc0 as <-.
  unfold ep_removeChannel; cbn [assertInLoopThread res_bind]; unfold deref.
  rewrite lookup_insert_eq; cbn [res_bind]; rewrite Hfd, Hidx, Hr.
  unfold isNoneEvent, kNoneEvent; rewrite He'.
  rewrite !bool_decide_eq_true_2 by (done || eauto).
  destruct Hi as [[Hi Hin]|(Hi & _ & Hin)]; rewrite Hi; cbn -[ep_update].
  - unfold ep_update, deref; rewrite lookup_insert_eq; cbn [res_bind]; rewrite Hfd; simpl.
    destruct (ctl_del (epollfd_ p) (fd_ c) (events_ c', a)) as (k' & -> & Ek); [eauto|].
    cbn [res_bind]; unfold ep_set_index; cbn [fst snd]; rewrite alter_insert_eq.
    eexists; split; [done|]; rewrite delete_insert_eq; split; [by apply ep_inv_delete|done].
  - unfold ep_set_index; cbn [fst snd]; rewrite alter_insert_eq.
    assert (interest (epollfd_ p) = delete (fd_ c) (interest (epollfd_ p))) as E.
    { by rewrite delete_id. }
    eexists; split; [done|]; rewrite delete_insert_eq; split; [by apply ep_inv_delete|done].
Qed.

Lemma ep_inv_frame st (p : EPollPoller K) a c' :
  ep_inv st p ->
  match st !! a with
  | Some c => fd_ c' = fd_ c /\ events_ c' = events_ c /\ index_ c' = index_ c
  | None => index_ c' = kNew
  end -> ep_inv (<[a := c']> st) p.
Proof.
  intros (I1 & I2 & I3) Hc; split_and!; [| |done].
  - intros fd b Hb; destruct (I1 _ _ Hb) as (c0 & Hc0 & Hf0 & Hi0).
    destruct (decide (a = b)) as [<-|Hne].
    + rewrite Hc0 in Hc; destruct Hc as (E1 & E2 & E3).
      exists c'; rewrite lookup_insert_eq, E1, E2, E3; done.
    + exists c0; by rewrite lookup_insert_ne.
  - intros b c0; destruct (decide (a = b)) as [<-|Hne].
    + rewrite lookup_insert_eq; intros [= <-]; destruct (st !! a) as [c|] eqn:E; [|done].
      destruct Hc as (E1 & _ & E3); rewrite E1, E3; by apply I2.
    + rewrite lookup_insert_ne by done; apply I2.
Qed.

#[export] Instance EPollPoller_spec : PollerSpec (EPollPoller K).
Proof.
  split; cbn [pinv registered updateChannel removeChannel watched EPollPoller_ops].
  - intros st p a c c' Hinv Hc (_ & _ & Hfd & Hidx & Hreg); pose proof Hinv as (I1 & _ & _).
    destruct (ep_updateChannel_spec st p a c c') as (st' & p' & E & Hinv' & Hs & Hch & Hk);
      try done; [destruct Hreg as [?|[? _]]; auto|].
    exists st', p'; split_and!; try done; unfold ep_watched; rewrite Hk.
    + intros He; unfold isNoneEvent; rewrite (proj2 (Z.eqb_neq _ _)) by done; simpl.
      by rewrite lookup_insert_eq.
    + intros He He'; destruct Hreg as [Hr|[_ He0]]; [|done].
      unfold isNoneEvent; rewrite (proj2 (Z.eqb_eq _ _)) by done; simpl.
      destruct (I1 _ _ Hr) as (c0 & Hc0 & _ & [[Hi _]|(Hi & He0 & _)]);
        rewrite Hc in Hc0; injection Hc0 as <-; [|done].
      rewrite Hi; simpl; by rewrite lookup_delete_eq.
    + intros He; rewrite He; destruct (_ && _); [left|right];
        by rewrite ?lookup_delete_eq, ?lookup_insert_eq.
    + intros fd Hne; destruct (_ && _);
        by rewrite ?lookup_insert_ne, ?lookup_delete_ne by done.
  - intros st p a c c' Hinv Hc Hr He He' Hfd Hidx.
    destruct (ep_removeChannel_spec st p a c c') as (p' & E & Hinv' & Hch & Hk); try done.
    do 2 eexists; split; [done|]; split_and!; try done; [apply same_store_insert|..];
      unfold ep_watched; rewrite Hk.
    + by rewrite lookup_delete_eq.
    + intros fd Hne; by rewrite lookup_delete_ne.
  - intros st p a fd Hinv Ha; apply ep_inv_frame; [done|]; by rewrite Ha.
  - intros st p a c c' Hinv Hc Hf He Hi; apply ep_inv_frame; [done|]; by rewrite Hc.
Qed.
End EPollProofs.

(** ** PollPoller keeps its contract *)

(** The descriptor an entry stands for, ignored ([-fd-1]) or not. *)
Definition pfd_owner (pfd : pollfd) : Z :=
  if pfd_fd pfd <? 0 then - pfd_fd pfd - 1 else pfd_fd pfd.

(** The entry poll(2) gets for a channel. *)
Definition pfd_of (c : Channel) (pfd : pollfd) : Prop :=
  pfd_events pfd = events_ c /\
  pfd_fd pfd = (if events_ c =? 0 then - fd_ c - 1 else fd_ c).

(** Every registered channel owns the entry at its [index_], and every entry is
    owned by the registered channel that points to it. *)
Definition pp_inv (st : store) (p : PollPoller) : Prop :=
  (forall fd a, pp_channels_ p !! fd = Some a ->
     exists c pfd, st !! a = Some c /\ fd_ c = fd /\ 0 <= fd /\ 0 <= index_ c /\
       pollfds_ p !! Z.to_nat (index_ c) = Some pfd /\ pfd_of c pfd) /\
  (forall a c, st !! a = Some c -> pp_channels_ p !! fd_ c <> Some a -> index_ c < 0) /\
  (forall i pfd, pollfds_ p !! i = Some pfd ->
     exists a c, pp_channels_ p !! pfd_owner pfd = Some a /\ st !! a = Some c /\
       index_ c = Z.of_nat i).

(** poll(2) skips negative descriptors and looks at every other entry. *)
Definition pp_watched (p : PollPoller) (fd : Z) : option (Z * Z) :=
  if fd <? 0 then None
  else match list_find (fun pfd => pfd_fd pfd = fd) (pollfds_ p), pp_channels_ p !! fd with
       | Some (_, pfd), Some a => Some (a, pfd_events pfd)
       | _, _ => None
       end.

#[export] Instance PollPoller_ops : PollerOps PollPoller := {
  registered := pp_channels_;
  updateChannel := pp_updateChannel;
  removeChannel := pp_removeChannel;
  watched := pp_watched;
  pinv := pp_inv;
}.

Lemma pfd_of_owner c pfd : 0 <= fd_ c -> pfd_of c pfd -> pfd_owner pfd = fd_ c.
Proof.
  intros H0 [_ H]; unfold pfd_owner; rewrite H.
  repeat case_match; bool_hyps; lia.
Qed.

Lemma pp_watched_reg st p fd a c :
  pp_inv st p -> pp_channels_ p !! fd = Some a -> st !! a = Some c ->
  pp_watched p fd = if events_ c =? 0 then None else Some (a, events_ c).
Proof.
  intros (I1 & _ & I3) Hr Hc.
  destruct (I1 _ _ Hr) as (c0 & pfd & Hc0 & Hf & H0 & Hi & Hp & He & Hpf).
  rewrite Hc in Hc0; injection Hc0 as <-; unfold pp_watched; rewrite Hr.
  rewrite (proj2 (Z.ltb_ge _ _)) by done; subst fd.
  destruct (list_find _ _) as [[i q]|] eqn:E.
  - apply list_find_Some in E as (Hq & Hqf & _).
    destruct (I3 _ _ Hq) as (a' & c' & Hr' & Hc' & Hi').
    assert (pfd_owner q = fd_ c) as Ho.
    { unfold pfd_owner; rewrite Hqf; by rewrite (proj2 (Z.ltb_ge _ _)). }
    rewrite Ho, Hr in Hr'; injection Hr' as <-; rewrite Hc in Hc'; injection Hc' as <-.
    rewrite Hi', Nat2Z.id, Hq in Hp; injection Hp as ->; rewrite Hqf in Hpf.
    destruct (events_ c =? 0); [lia|congruence].
  - destruct (events_ c =? 0) eqn:Ez; [done|].
    apply list_find_None, Forall_forall with (x := pfd) in E; [done|].
    by eapply list_elem_of_lookup_2.
Qed.

Lemma pp_watched_none p fd :
  pp_channels_ p !! fd = None -> pp_watched p fd = None.
Proof. intros H; unfold pp_watched; rewrite H; repeat case_match; done. Qed.

(** What is watched depends on the registered channels only. *)
Lemma pp_watched_ext (st : store) p (st' : store) p' fd :
  pp_inv st p -> pp_inv st' p' -> pp_channels_ p' !! fd = pp_channels_ p !! fd ->
  (forall a, pp_channels_ p !! fd = Some a ->
     option_relation (fun c c' => events_ c' = events_ c) (fun _ => False) (fun _ => False)
       (st !! a) (st' !! a)) ->
  pp_watched p' fd = pp_watched p fd.
Proof.
  intros Hi Hi' Hch Hst; destruct (pp_channels_ p !! fd) as [a|] eqn:E.
  - specialize (Hst _ eq_refl); destruct (st !! a) as [c|] eqn:Ec, (st' !! a) as [c'|] eqn:Ec';
      try done.
    + simpl in Hst; erewrite (pp_watched_reg st' p'), (pp_watched_reg st p) by done.
      by rewrite Hst.
    + destruct Hi as (I1 & _); destruct (I1 _ _ E) as (c0 & _ & ? & _); congruence.
  - by rewrite !pp_watched_none.
Qed.

(** A channel that is not registered yet gets a new last entry. *)
Lemma pp_inv_new st p a c c' :
  pp_inv st p -> st !! a = Some c -> may_update p a c c' -> pp_channels_ p !! fd_ c = None ->
  let fds := pollfds_ p ++ [mkPollfd (fd_ c) (events_ c') 0] in
  pp_inv (<[a := set_index (len (pollfds_ p)) c']> st)
         (mkPollPoller (<[fd_ c := a]> (pp_channels_ p)) fds).
Proof.
  intros (I1 & I2 & I3) Hc (H0 & Hm & Hf & Hi & Hreg) Hr; simpl.
  cbn [registered PollPoller_ops] in Hreg; rewrite Hr in Hreg.
  destruct Hreg as [|[_ He]]; [done|].
  assert (forall b, pp_channels_ p !! b <> Some a) as Ha.
  { intros b Hb; destruct (I1 _ _ Hb) as (c0 & _ & Hc0 & E & _); congruence. }
  split_and!; simpl.
  - intros fd b Hb; destruct (decide (fd_ c = fd)) as [<-|Hne].
    + rewrite lookup_insert_eq in Hb; injection Hb as <-.
      exists (set_index (len (pollfds_ p)) c'), (mkPollfd (fd_ c) (events_ c') 0).
      rewrite lookup_insert_eq; cbn [fd_ index_ set_index].
      split_and!; try done; [apply len_nonneg|..].
      * unfold len; rewrite Nat2Z.id; by apply list_lookup_middle.
      * by unfold pfd_of; simpl; rewrite (proj2 (Z.eqb_neq _ _)).
    + rewrite lookup_insert_ne in Hb by done.
      destruct (I1 _ _ Hb) as (c0 & pfd & Hc0 & Hf0 & ? & ? & Hp & ?).
      assert (a <> b) by (intros <-; by apply (Ha fd)).
      exists c0, pfd; rewrite lookup_insert_ne by done; split_and!; try done.
      by apply lookup_app_l_Some.
  - intros b c0; destruct (decide (a = b)) as [<-|Hne].
    + rewrite lookup_insert_eq; intros [= <-]; simpl; by rewrite Hf, lookup_insert_eq.
    + rewrite lookup_insert_ne by done; intros Hc0 Hn; apply (I2 _ _ Hc0); intros Hr0.
      apply Hn; rewrite lookup_insert_ne; [done|]; intros E; by rewrite <- E, Hr in Hr0.
  - intros i pfd [Hl|[Hl Hp]]%lookup_app_Some.
    + destruct (I3 _ _ Hl) as (b & c0 & Hb & Hc0 & Hi0); exists b, c0.
      rewrite lookup_insert_ne by (intros E; by rewrite <- E, Hr in Hb).
      rewrite lookup_insert_ne; [done|]; intros <-; by apply (Ha (pfd_owner pfd)).
    + apply list_lookup_singleton_Some in Hp as [Hn <-].
      exists a, (set_index (len (pollfds_ p)) c'); unfold pfd_owner; simpl.
      rewrite (proj2 (Z.ltb_ge _ _)) by done; rewrite !lookup_insert_eq.
      split_and!; try done; unfold len; simpl; lia.
Qed.

(** Overwriting the entry of a registered channel. *)
Lemma pp_inv_set st p a c c' pfd :
  pp_inv st p -> st !! a = Some c -> pp_channels_ p !! fd_ c = Some a ->
  fd_ c' = fd_ c -> index_ c' = index_ c -> pfd_of c' pfd ->
  pp_inv (<[a := c']> st)
    (mkPollPoller (pp_channels_ p) (<[Z.to_nat (index_ c) := pfd]> (pollfds_ p))).
Proof.
  intros (I1 & I2 & I3) Hc Hr Hf Hi Hp.
  destruct (I1 _ _ Hr) as (c0 & pfd0 & Hc0 & _ & H0 & Hi0 & Hp0 & Hof).
  rewrite Hc in Hc0; injection Hc0 as <-.
  pose proof (lookup_lt_Some _ _ _ Hp0) as Hlt.
  split_and!; simpl.
  - intros fd b Hb; destruct (decide (a = b)) as [<-|Hne].
    + destruct (I1 _ _ Hb) as (c1 & _ & Hc1 & Hf1 & _); rewrite Hc in Hc1.
      injection Hc1 as <-; exists c', pfd; rewrite lookup_insert_eq, Hi.
      split_and!; try done; try congruence; by apply list_lookup_insert_eq.
    + destruct (I1 _ _ Hb) as (c1 & pfd1 & Hc1 & Hf1 & ? & Hi1 & Hp1 & Ho1).
      exists c1, pfd1; rewrite lookup_insert_ne by done; split_and!; try done.
      rewrite list_lookup_insert_ne; [done|]; intros E.
      assert (index_ c = index_ c1) as E' by lia.
      rewrite <- E, Hp0 in Hp1; injection Hp1 as ->.
      apply pfd_of_owner in Ho1, Hof; [|done|congruence..].
      rewrite Ho1 in Hof; rewrite <- Hof, Hf1, Hb in Hr; congruence.
  - intros b c0; destruct (decide (a = b)) as [<-|Hne].
    + rewrite lookup_insert_eq; intros [= <-]; by rewrite Hf.
    + rewrite lookup_insert_ne by done; apply I2.
  - intros i q Hq; destruct (decide (i = Z.to_nat (index_ c))) as [->|Hne].
    + rewrite list_lookup_insert_eq in Hq by done; injection Hq as <-.
      exists a, c'; rewrite (pfd_of_owner c' pfd), Hf, lookup_insert_eq by (done || congruence).
      split_and!; try done; lia.
    + rewrite list_lookup_insert_ne in Hq by done.
      destruct (I3 _ _ Hq) as (b & c0 & Hb & Hc0 & Hi1); exists b, c0.
      rewrite lookup_insert_ne; [done|]; intros <-; rewrite Hc in Hc0.
      injection Hc0 as <-; lia.
Qed.

(** The last entry takes the place of the removed channel's. *)
Lemma pp_inv_delete st p a c b cb back :
  pp_inv st p -> st !! a = Some c -> pp_channels_ p !! fd_ c = Some a ->
  pollfds_ p !! (length (pollfds_ p) - 1)%nat = Some back ->
  pp_channels_ p !! pfd_owner back = Some b -> st !! b = Some cb ->
  pp_inv (delete a (<[b := set_index (index_ c) cb]> st))
    (mkPollPoller (delete (fd_ c) (pp_channels_ p))
       (take (length (pollfds_ p) - 1) (<[Z.to_nat (index_ c) := back]> (pollfds_ p)))).
Proof.
  intros (I1 & I2 & I3) Hc Hr Hback Hb Hcb.
  destruct (I1 _ _ Hr) as (c0 & pfd0 & Hc0 & _ & H0 & Hi0 & Hp0 & Hof).
  rewrite Hc in Hc0; injection Hc0 as <-.
  pose proof (lookup_lt_Some _ _ _ Hp0) as Hlt.
  destruct (I3 _ _ Hback) as (b' & cb' & Hb' & Hcb' & Hib).
  rewrite Hb in Hb'; injection Hb' as <-; rewrite Hcb in Hcb'; injection Hcb' as <-.
  split_and!; cbn [pp_channels_ pollfds_].
  - intros fd x Hx; destruct (decide (fd_ c = fd)) as [<-|Hne].
    { by rewrite lookup_delete_eq in Hx. }
    rewrite lookup_delete_ne in Hx by done.
    destruct (I1 _ _ Hx) as (c1 & pfd1 & Hc1 & Hf1 & Hf0 & Hi1 & Hp1 & Ho1).
    assert (a <> x) by (intros <-; rewrite Hc in Hc1; congruence).
    rewrite lookup_delete_ne by done; destruct (decide (b = x)) as [<-|Hnb].
    + rewrite Hcb in Hc1; injection Hc1 as <-; rewrite Hib, Nat2Z.id, Hback in Hp1.
      injection Hp1 as <-; exists (set_index (index_ c) cb), back.
      rewrite lookup_insert_eq; split_and!; try done; cbn [index_ set_index].
      assert (Z.to_nat (index_ c) <> length (pollfds_ p) - 1)%nat.
      { intros E; rewrite E, Hback in Hp0; injection Hp0 as ->.
        rewrite (pfd_of_owner c pfd0), Hr in Hb by (done || congruence); congruence. }
      rewrite lookup_take_lt by lia; by apply list_lookup_insert_eq.
    + exists c1, pfd1; rewrite lookup_insert_ne by done; split_and!; try done.
      pose proof (lookup_lt_Some _ _ _ Hp1).
      assert (Z.to_nat (index_ c1) <> length (pollfds_ p) - 1)%nat.
      { intros E; rewrite E, Hback in Hp1; injection Hp1 as ->.
        rewrite (pfd_of_owner c1 pfd1), Hf1, Hx in Hb by (done || congruence); congruence. }
      rewrite lookup_take_lt by lia; rewrite list_lookup_insert_ne; [done|]; intros E.
      rewrite <- E, Hp0 in Hp1; injection Hp1 as ->.
      apply pfd_of_owner in Ho1, Hof; [congruence|congruence..].
  - intros x c1; destruct (decide (a = x)) as [<-|Hne]; [by rewrite lookup_delete_eq|].
    rewrite lookup_delete_ne by done; destruct (decide (b = x)) as [<-|Hnb].
    + rewrite lookup_insert_eq; intros [= <-]; simpl; intros Hn; destruct Hn.
      destruct (I1 _ _ Hb) as (c2 & _ & Hc2 & Hf2 & _); rewrite Hcb in Hc2.
      injection Hc2 as <-; rewrite Hf2 in *; rewrite lookup_delete_ne; [done|].
      intros E; rewrite E, Hb in Hr; congruence.
    + rewrite lookup_insert_ne by done; intros Hc1 Hn; apply (I2 _ _ Hc1); intros Hr1.
      apply Hn; rewrite lookup_delete_ne; [done|]; intros E; rewrite <- E in Hr1; congruence.
  - intros i q Hq; pose proof (lookup_lt_Some _ _ _ Hq) as Hl.
    rewrite length_take, length_insert in Hl; rewrite lookup_take_lt in Hq by lia.
    destruct (decide (i = Z.to_nat (index_ c))) as [->|Hni].
    + rewrite list_lookup_insert_eq in Hq by done; injection Hq as <-.
      assert (fd_ c <> pfd_owner back).
      { intros E; rewrite <- E, Hr in Hb; injection Hb as <-.
        rewrite Hc in Hcb; injection Hcb as <-; lia. }
      exists b, (set_index (index_ c) cb); rewrite lookup_delete_ne by done.
      rewrite lookup_delete_ne, lookup_insert_eq; [simpl; split_and!; try done; lia|].
      intros <-; destruct (I1 _ _ Hb) as (c2 & _ & Hc2 & Hf2 & _); congruence.
    + rewrite list_lookup_insert_ne in Hq by done.
      destruct (I3 _ _ Hq) as (x & c1 & Hx & Hc1 & Hi1); exists x, c1.
      assert (a <> x).
      { intros <-; rewrite Hc in Hc1; injection Hc1 as <-; lia. }
      assert (b <> x).
      { intros <-; rewrite Hcb in Hc1; injection Hc1 as <-; lia. }
      rewrite lookup_delete_ne, lookup_delete_ne, lookup_insert_ne; try done.
      intros E; rewrite <- E, Hr in Hx; congruence.
Qed.

Lemma i16_mask c : mask_ok c -> i16 (events_ c) = events_ c.
Proof. unfold mask_ok; intros; apply swrap_small; [done|unfold in_signed; simpl; lia]. Qed.

Lemma pp_updateChannel_spec st p a c c' :
  pp_inv st p -> st !! a = Some c -> may_update p a c c' ->
  exists st' p', pp_updateChannel true a (<[a := c']> st, p) = Ok (st', p') /\
    pp_inv st' p' /\ same_store (<[a := c']> st) st' /\
    pp_channels_ p' = <[fd_ c := a]> (pp_channels_ p).
Proof.
  intros Hinv Hc Hmay; pose proof Hinv as (I1 & I2 & I3).
  pose proof Hmay as (H0 & Hm & Hf & Hi & Hreg); cbn [registered PollPoller_ops] in Hreg.
  unfold pp_updateChannel; cbn [assertInLoopThread res_bind]; unfold deref.
  rewrite lookup_insert_eq; cbn [res_bind]; rewrite Hf, Hi, i16_mask by done.
  destruct Hreg as [Hr|[Hr He]].
  - destruct (I1 _ _ Hr) as (c0 & pfd & Hc0 & _ & _ & Hi0 & Hp & Hof).
    rewrite Hc in Hc0; injection Hc0 as <-; pose proof (lookup_lt_Some _ _ _ Hp).
    rewrite (proj2 (Z.ltb_ge _ _)) by done; rewrite Hr, !bool_decide_eq_true_2 by eauto.
    rewrite (proj2 (Z.leb_le 0 _)), (proj2 (Z.ltb_lt _ _)) by (unfold len; lia).
    cbn [cassert res_bind andb]; rewrite Hp.
    replace (_ || _) with true by (destruct Hof as [_ ->]; case_match; symmetry;
      apply orb_true_iff; rewrite !Z.eqb_eq; lia).
    cbn [cassert res_bind]; do 2 eexists; split; [done|]; split_and!.
    + apply (pp_inv_set st p a c c'); try done; split; [done|]; simpl; by rewrite Hf.
    + apply same_store_refl.
    + by rewrite insert_id.
  - rewrite (proj2 (Z.ltb_lt _ _)) by (apply (I2 _ _ Hc); by rewrite Hr).
    rewrite Hr, bool_decide_eq_true_2 by done; cbn [cassert res_bind].
    do 2 eexists; split; [done|]; rewrite insert_insert_eq; split_and!; [|apply same_store_insert|done].
    replace (len _ - 1) with (len (pollfds_ p)) by (rewrite len_app, len_cons, len_nil; lia).
    by apply pp_inv_new.
Qed.

Lemma pp_removeChannel_spec st p a c c' :
  pp_inv st p -> st !! a = Some c -> pp_channels_ p !! fd_ c = Some a ->
  events_ c = 0 -> events_ c' = 0 -> fd_ c' = fd_ c -> index_ c' = index_ c ->
  exists st' p', pp_removeChannel true a (<[a := c']> st, p) = Ok (st', p') /\
    pp_inv (delete a st') p' /\ same_store (<[a := c']> st) st' /\
    pp_channels_ p' = delete (fd_ c) (pp_channels_ p).
Proof.
  intros Hinv Hc Hr He He' Hf Hi; pose proof Hinv as (I1 & I2 & I3).
  unfold pp_removeChannel; cbn [assertInLoopThread res_bind]; unfold deref at 1.
  rewrite lookup_insert_eq; cbn [res_bind]; unfold isNoneEvent; rewrite Hf, Hi, He', Hr.
  rewrite !bool_decide_eq_true_2 by eauto.
  destruct (I1 _ _ Hr) as (c0 & pfd & Hc0 & _ & H0 & Hi0 & Hp & Hpe & Hpf).
  rewrite Hc in Hc0; injection Hc0 as <-; pose proof (lookup_lt_Some _ _ _ Hp) as Hlt.
  rewrite (proj2 (Z.leb_le 0 _)), (proj2 (Z.ltb_lt _ _)) by (unfold len; lia).
  cbn [cassert res_bind andb]; rewrite Hp, Hpf, Hpe, He, !Z.eqb_refl.
  cbn [cassert res_bind andb Z.eqb kNoneEvent].
  destruct (lookup_lt_is_Some_2 (pollfds_ p) (length (pollfds_ p) - 1)) as [back Hback]; [lia|].
  destruct (I3 _ _ Hback) as (b & cb & Hb & Hcb & Hib).
  pose proof (pp_inv_delete st p a c b cb back Hinv Hc Hr Hback Hb Hcb) as Hdel.
  split_if.
  - assert (Z.to_nat (index_ c) = length (pollfds_ p) - 1)%nat as Ei by (unfold len in *; lia).
    rewrite Ei, list_insert_id in Hdel by done.
    rewrite Ei, Hback in Hp; injection Hp as <-.
    rewrite (pfd_of_owner c back) in Hb by (done || (split; [congruence|by rewrite He])).
    rewrite Hr in Hb; injection Hb as <-.
    do 2 eexists; split; [done|]; split_and!; [|apply same_store_refl|done].
    by rewrite delete_insert_eq in Hdel |- *.
  - rewrite Hback; cbn [pfd_fd].
    change (if pfd_fd back <? 0 then - pfd_fd back - 1 else pfd_fd back) with (pfd_owner back).
    assert (fd_ c <> pfd_owner back /\ a <> b) as [Hne Hab].
    { enough (a <> b) as Hab by (split; [intros E'; rewrite <- E', Hr in Hb; congruence|done]).
      intros <-; rewrite Hc in Hcb; injection Hcb as <-; unfold len in *; lia. }
    rewrite lookup_delete_ne, Hb by done; unfold deref.
    rewrite lookup_insert_ne, Hcb by done; cbn [res_bind].
    do 2 eexists; split; [done|]; split_and!; [| |done].
    + rewrite insert_insert_ne, delete_insert_eq by done.
      rewrite take_insert_ge by lia; done.
    + intros x; destruct (decide (b = x)) as [<-|Hx].
      * rewrite lookup_insert_eq, lookup_insert_ne, Hcb by done; by eexists.
      * rewrite (lookup_insert_ne _ b) by done; apply same_store_refl.
Qed.

Lemma same_store_lookup st st' a c :
  same_store st st' -> st !! a = Some c -> exists i, st' !! a = Some (set_index i c).
Proof.
  intros Hs Hc; specialize (Hs a); rewrite Hc in Hs.
  destruct (st' !! a) as [c'|]; [|done]; destruct Hs as [i ->]; by exists i.
Qed.

Lemma pp_inv_frame st p a c' :
  pp_inv st p ->
  match st !! a with
  | Some c => fd_ c' = fd_ c /\ events_ c' = events_ c /\ index_ c' = index_ c
  | None => index_ c' < 0
  end -> pp_inv (<[a := c']> st) p.
Proof.
  intros (I1 & I2 & I3) Hc; split_and!.
  - intros fd b Hb; destruct (I1 _ _ Hb) as (c0 & pfd & Hc0 & Hf0 & Hi0 & ? & ? & Ho).
    destruct (decide (a = b)) as [<-|Hne].
    + rewrite Hc0 in Hc; destruct Hc as (E1 & E2 & E3).
      exists c', pfd; unfold pfd_of in *; rewrite lookup_insert_eq, E1, E2, E3; done.
    + exists c0, pfd; by rewrite lookup_insert_ne.
  - intros b c0; destruct (decide (a = b)) as [<-|Hne].
    + rewrite lookup_insert_eq; intros [= <-]; destruct (st !! a) as [c|] eqn:E; [|done].
      destruct Hc as (E1 & _ & E3); rewrite E1, E3; by apply I2.
    + rewrite lookup_insert_ne by done; apply I2.
  - intros i pfd Hp; destruct (I3 _ _ Hp) as (b & c0 & Hb & Hc0 & Hi).
    destruct (decide (a = b)) as [<-|Hne].
    + rewrite Hc0 in Hc; destruct Hc as (_ & _ & E3).
      exists a, c'; rewrite lookup_insert_eq; split_and!; congruence.
    + exists b, c0; by rewrite lookup_insert_ne.
Qed.

(** Channels other than the updated one keep their masks. *)
Lemma pp_watched_other st p a c c' st' p' fd :
  pp_inv st p -> pp_inv st' p' \/ pp_inv (delete a st') p' ->
  st !! a = Some c -> same_store (<[a := c']> st) st' ->
  pp_channels_ p' !! fd = pp_channels_ p !! fd -> fd <> fd_ c ->
  pp_watched p' fd = pp_watched p fd.
Proof.
  intros Hinv Hinv' Hc Hs Hch Hne; pose proof Hinv as (I1 & _ & _).
  assert (forall st'', (st'' = st' \/ st'' = delete a st') -> pp_inv st'' p' ->
            pp_watched p' fd = pp_watched p fd) as Hgen.
  { intros st'' Hst Hi; apply (pp_watched_ext st p st'' p'); [done..|]; intros b Hb.
    destruct (I1 _ _ Hb) as (cb & _ & Hcb & Hfb & _).
    assert (a <> b) by (intros <-; rewrite Hc in Hcb; congruence).
    destruct (same_store_lookup _ _ b cb Hs) as [i Hi']; [by rewrite lookup_insert_ne|].
    rewrite Hcb; destruct Hst as [->| ->]; rewrite ?lookup_delete_ne, Hi' by done; done. }
  destruct Hinv' as [Hi|Hi]; [apply (Hgen st')|apply (Hgen (delete a st'))]; auto.
Qed.

#[export] Instance PollPoller_spec : PollerSpec PollPoller.
Proof.
  split; cbn [pinv registered updateChannel removeChannel watched PollPoller_ops].
  - intros st p a c c' Hinv Hc Hmay.
    destruct (pp_updateChannel_spec st p a c c') as (st' & p' & E & Hinv' & Hs & Hch); try done.
    destruct (same_store_lookup _ _ a c' Hs) as [i Hi]; [by rewrite lookup_insert_eq|].
    assert (pp_channels_ p' !! fd_ c = Some a) as Hr by (rewrite Hch; apply lookup_insert_eq).
    exists st', p'; split_and!; try done.
    + intros He; rewrite (pp_watched_reg _ _ _ _ _ Hinv' Hr Hi); simpl.
      by rewrite (proj2 (Z.eqb_neq _ _)).
    + intros He _; rewrite (pp_watched_reg _ _ _ _ _ Hinv' Hr Hi); simpl; by rewrite He.
    + intros He; left; rewrite (pp_watched_reg _ _ _ _ _ Hinv' Hr Hi); simpl; by rewrite He.
    + intros fd Hne; eapply pp_watched_other; eauto; by rewrite Hch, lookup_insert_ne.
  - intros st p a c c' Hinv Hc Hr He He' Hf Hi.
    destruct (pp_removeChannel_spec st p a c c') as (st' & p' & E & Hinv' & Hs & Hch); try done.
    exists st', p'; split_and!; try done.
    + apply pp_watched_none; rewrite Hch; apply lookup_delete_eq.
    + intros fd Hne; eapply pp_watched_other; eauto; by rewrite Hch, lookup_delete_ne.
  - intros st p a fd Hinv Ha; apply pp_inv_frame; [done|]; by rewrite Ha.
  - intros st p a c c' Hinv Hc Hf He Hi; apply pp_inv_frame; [done|]; by rewrite Hc.
Qed.

(** ** An epoll instance as a map, for concrete runs *)

Definition map_epoll_ctl (k : gmap Z (Z * Z)) (op : ctl_op) (fd : Z) (ev : Z * Z)
    : gmap Z (Z * Z) * bool :=
  match op, k !! fd with
  | EPOLL_CTL_ADD, None => (<[fd := ev]> k, true)
  | EPOLL_CTL_MOD, Some _ => (<[fd := ev]> k, true)
  | EPOLL_CTL_DEL, Some _ => (delete fd k, true)
  | _, _ => (k, false)
  end.

#[export] Instance map_epoll_ops : EpollOps (gmap Z (Z * Z)) := {
  interest := fun k => k;
  epoll_ctl := map_epoll_ctl;
}.

#[export] Instance map_epoll_laws : EpollLaws (gmap Z (Z * Z)).
Proof.
  split; simpl; unfold map_epoll_ctl.
  - intros k fd ev ->; eauto.
  - intros k fd ev [x ->]; eauto.
  - intros k fd ev [x ->]; eauto.
Qed.

(** ** What a sequence of channel operations makes the kernel watch *)

Inductive mask_op := EnableReading | DisableReading | EnableWriting | DisableWriting | DisableAll.

Inductive chan_op :=
| SetMask (o : mask_op) (a : Z)
| Remove (a : Z).

Definition mask_fun (o : mask_op) : Channel -> Channel :=
  match o with
  | EnableReading => readingOn
  | DisableReading => readingOff
  | EnableWriting => writingOn
  | DisableWriting => writingOff
  | DisableAll => allOff
  end.

(** The mask a channel operation leads to. *)
Definition new_mask (o : mask_op) (e : Z) : Z := events_ (mask_fun o (set_events e (newChannel 0))).

(** The abstract state: for every live channel, the mask it is registered with. *)
Abbreviation interests := (gmap Z (option Z)).

Definition abs_step (m : interests) (op : chan_op) : interests :=
  match op with
  | SetMask o a => <[a := Some (new_mask o (default 0 (default None (m !! a))))]> m
  | Remove a => delete a m
  end.

(** A channel starts with a non-empty mask, and is removed with an empty one. *)
Definition legal (m : interests) (op : chan_op) : bool :=
  match op with
  | SetMask o a =>
      match m !! a with
      | None => false
      | Some None => negb (new_mask o 0 =? 0)
      | Some (Some _) => true
      end
  | Remove a => bool_decide (m !! a = Some (Some 0))
  end.

Fixpoint legal_run (m : interests) (ops : list chan_op) : bool :=
  match ops with
  | [] => true
  | op :: ops' => legal m op && legal_run (abs_step m op) ops'
  end.

Section Session.
Context {P : Type} `{PollerSpec P}.

(** The owner destroys a channel once it is removed. *)
Definition step_chan (s : store * P) (op : chan_op) : res (store * P) :=
  match op with
  | SetMask EnableReading a => enableReading true a s
  | SetMask DisableReading a => disableReading true a s
  | SetMask EnableWriting a => enableWriting true a s
  | SetMask DisableWriting a => disableWriting true a s
  | SetMask DisableAll a => disableAll true a s
  | Remove a => let! s' := channel_remove true a s in channel_destroy true a s'
  end.

Lemma step_chan_mask s o a :
  step_chan s (SetMask o a) = channel_update true (mask_fun o) a s.
Proof. by destruct o. Qed.

(** What the kernel watches for descriptor [fd] of channel [a]. *)
Definition watch_ok (p : P) (a fd : Z) (o : option Z) : Prop :=
  match o with
  | None => watched p fd = None
  | Some e => if e =? 0 then watched p fd = None \/ watched p fd = Some (a, 0)
              else watched p fd = Some (a, e)
  end.

Definition chan_sim (fds : gmap Z Z) (m : interests) (s : store * P) : Prop :=
  pinv (fst s) (snd s) /\
  (forall a, fst s !! a = None <-> m !! a = None) /\
  (forall a o, m !! a = Some o -> exists c, fst s !! a = Some c /\ fds !! a = Some (fd_ c) /\
     events_ c = default 0 o /\ mask_ok c /\ eventHandling_ c = false) /\
  (forall a fd, fds !! a = Some fd ->
     registered (snd s) !! fd = (_ ← mjoin (m !! a); Some a) /\
     watch_ok (snd s) a fd (mjoin (m !! a))).

Lemma mask_fun_facts o c :
  mask_ok c -> mask_ok (mask_fun o c) /\ fd_ (mask_fun o c) = fd_ c /\
  index_ (mask_fun o c) = index_ c /\ events_ (mask_fun o c) = new_mask o (events_ c) /\
  eventHandling_ (mask_fun o c) = eventHandling_ c.
Proof.
  intros Hm; destruct (mask_ok_ops _ Hm) as (? & ? & ? & ? & ?); by destruct o; split_and!.
Qed.

Section Steps.
Context (fds : gmap Z Z).
Hypothesis fds_nonneg : forall a fd, fds !! a = Some fd -> 0 <= fd.
Hypothesis fds_inj : forall a b fd, fds !! a = Some fd -> fds !! b = Some fd -> a = b.

Lemma chan_sim_mask m s o a :
  chan_sim fds m s -> legal m (SetMask o a) = true ->
  exists s', step_chan s (SetMask o a) = Ok s' /\ chan_sim fds (abs_step m (SetMask o a)) s'.
Proof.
  destruct s as [st p]; intros (Hinv & Hdom & Hall & Hwat) Hl; unfold legal in Hl; cbn [fst snd] in *.
  destruct (m !! a) as [oe|] eqn:Hm; [|done].
  destruct (Hall _ _ Hm) as (c & Hc & Hfd & He & Hmask & Heh).
  destruct (Hwat _ _ Hfd) as [Hreg Hw]; rewrite Hm in Hreg, Hw; simpl in Hreg, Hw.
  destruct (mask_fun_facts o c Hmask) as (Hmask' & Hfd' & Hidx' & He' & Heh').
  rewrite step_chan_mask; unfold channel_update, deref; simpl; rewrite Hc; simpl.
  set (c' := set_addedToLoop true (mask_fun o c)).
  destruct (update_law st p a c c' Hinv Hc)
    as (st' & p' & -> & Hinv' & Hs & Hreg' & W1 & _ & W2 & W3).
  { split_and!; try done; [by eapply fds_nonneg|]; rewrite Hreg.
    destruct oe as [e|]; [by left|right]; split; [done|].
    apply negb_true_iff, Z.eqb_neq in Hl; subst c'; simpl; by rewrite He', He. }
  eexists; split; [done|]; unfold abs_step; rewrite Hm; split_and!; simpl; [done|..].
  - intros b; specialize (Hs b); specialize (Hdom b).
    destruct (decide (a = b)) as [<-|Hne].
    + rewrite lookup_insert_eq in Hs; rewrite lookup_insert_eq; by destruct (st' !! a).
    + rewrite lookup_insert_ne in Hs by done; rewrite lookup_insert_ne, <- Hdom by done.
      by destruct (st !! b), (st' !! b).
  - intros b ob Hb; destruct (decide (a = b)) as [<-|Hne].
    + rewrite lookup_insert_eq in Hb; injection Hb as <-.
      destruct (same_store_lookup _ _ a c' Hs) as [i Hi]; [by rewrite lookup_insert_eq|].
      exists (set_index i c'); rewrite Hi; unfold mask_ok; subst c'; simpl.
      rewrite He', Hfd', Heh', <- He; split_and!; try done; rewrite <- He'; apply Hmask'.
    + rewrite lookup_insert_ne in Hb by done.
      destruct (Hall _ _ Hb) as (cb & Hcb & Hfb & Heb & Hmb & Hehb).
      destruct (same_store_lookup _ _ b cb Hs) as [i Hi]; [by rewrite lookup_insert_ne|].
      by exists (set_index i cb).
  - intros b fd Hb; rewrite Hreg'; destruct (decide (a = b)) as [<-|Hne].
    + rewrite Hfd in Hb; injection Hb as <-; rewrite !lookup_insert_eq; simpl.
      subst c'; simpl in *; rewrite He', He in *; split; [done|].
      destruct (Z.eqb_spec (new_mask o (default 0 oe)) 0); auto.
    + assert (fd <> fd_ c) as Hnf by (intros ->; eauto).
      rewrite !lookup_insert_ne by done; unfold watch_ok; rewrite W3 by done.
      by apply Hwat.
Qed.

Lemma chan_sim_remove m s a :
  chan_sim fds m s -> legal m (Remove a) = true ->
  exists s', step_chan s (Remove a) = Ok s' /\ chan_sim fds (abs_step m (Remove a)) s'.
Proof.
  destruct s as [st p]; intros (Hinv & Hdom & Hall & Hwat) Hm; unfold legal in Hm.
  apply bool_decide_eq_true in Hm; cbn [fst snd] in *.
  destruct (Hall _ _ Hm) as (c & Hc & Hfd & He & Hmask & Heh).
  destruct (Hwat _ _ Hfd) as [Hreg Hw]; rewrite Hm in Hreg, Hw; simpl in Hreg, Hw.
  simpl step_chan; unfold channel_remove, deref; simpl; rewrite Hc; simpl.
  unfold isNoneEvent; rewrite He; simpl.
  destruct (remove_law st p a c (set_addedToLoop false c) Hinv Hc)
    as (st' & p' & -> & Hinv' & Hs & Hreg' & W1 & W2); try done.
  destruct (same_store_lookup _ _ a _ Hs (lookup_insert_eq _ _ _)) as [j Hj].
  cbn [res_bind]; unfold channel_destroy, hasChannel, deref; cbn [fst snd].
  rewrite Hj; simpl; rewrite Heh, Hreg'; simpl; rewrite lookup_delete_eq; simpl.
  eexists; split; [done|]; split_and!; simpl; [done|..].
  - intros b; specialize (Hs b); specialize (Hdom b).
    destruct (decide (a = b)) as [<-|Hne]; [by rewrite !lookup_delete_eq|].
    rewrite lookup_insert_ne in Hs by done; rewrite !lookup_delete_ne, <- Hdom by done.
    by destruct (st !! b), (st' !! b).
  - intros b ob Hb; destruct (decide (a = b)) as [<-|Hne].
    { by rewrite lookup_delete_eq in Hb. }
    rewrite lookup_delete_ne in Hb by done.
    destruct (Hall _ _ Hb) as (cb & Hcb & Hfb & Heb & Hmb & Hehb).
    destruct (same_store_lookup _ _ b cb Hs) as [i Hi]; [by rewrite lookup_insert_ne|].
    exists (set_index i cb); by rewrite lookup_delete_ne.
  - intros b fd Hb; rewrite Hreg'; destruct (decide (a = b)) as [<-|Hne].
    + rewrite Hfd in Hb; injection Hb as <-; by rewrite !lookup_delete_eq.
    + assert (fd <> fd_ c) as Hnf by (intros ->; eauto).
      rewrite !lookup_delete_ne by done; unfold watch_ok; rewrite W2 by done.
      by apply Hwat.
Qed.

Lemma chan_sim_run m s ops :
  chan_sim fds m s -> legal_run m ops = true ->
  exists s', res_fold step_chan s ops = Ok s' /\ chan_sim fds (foldl abs_step m ops) s'.
Proof.
  revert m s; induction ops as [|op ops IH]; intros m s Hs Hl; [by exists s|].
  cbn [legal_run] in Hl; apply andb_true_iff in Hl as [Hl Hl'].
  assert (exists s', step_chan s op = Ok s' /\ chan_sim fds (abs_step m op) s')
    as (s' & E & Hs').
  { destruct op; [by apply chan_sim_mask|by apply chan_sim_remove]. }
  cbn [res_fold foldl]; rewrite E; apply (IH _ _ Hs' Hl').
Qed.
End Steps.

(** A poller as its constructor leaves it. *)
Definition idle (p : P) : Prop :=
  pinv ∅ p /\ registered p = ∅ /\ forall fd, watched p fd = None.

Lemma chan_sim_init fds p :
  idle p -> chan_sim fds ((fun _ => None) <$> fds) (newChannel <$> fds, p).
Proof.
  intros (Hinv & Hreg & Hw); split_and!; simpl.
  - induction fds as [|a fd fds Ha IH] using map_ind; [by rewrite fmap_empty|].
    rewrite fmap_insert; apply new_law; [done|]; by rewrite lookup_fmap, Ha.
  - intros a; rewrite !lookup_fmap; by destruct (fds !! a).
  - intros a o; rewrite lookup_fmap, fmap_Some; intros (fd & Hfd & ->).
    exists (newChannel fd); by rewrite lookup_fmap, Hfd.
  - intros a fd Hfd; rewrite lookup_fmap, Hfd, Hreg; simpl; auto.
Qed.
End Session.

Lemma ep_idle {K} `{EpollLaws K} (k : K) : interest k = ∅ -> idle (newEPollPoller k).
Proof.
  intros Hk; split_and!; [|done|].
  - split_and!; simpl; try done; intros; by rewrite Hk.
  - intros fd; simpl; unfold ep_watched; simpl; by rewrite Hk, lookup_empty.
Qed.

Lemma pp_idle : idle newPollPoller.
Proof.
  split_and!; [|done|].
  - split_and!; simpl; try done.
  - intros fd; simpl; unfold pp_watched; simpl; by case_match.
Qed.

(** For every poller that keeps the contract and every sequence of channel
    operations that first registers each channel with a non-empty mask and
    removes it with an empty one, nothing faults, and afterwards the kernel
    watches each registered channel's descriptor with exactly the mask the
    operations add up to (nothing, or an empty mask, when that mask is empty). *)
Theorem poller_session {P} `{PollerSpec P} (fds : gmap Z Z) (p0 : P) ops :
  idle p0 ->
  (forall a fd, fds !! a = Some fd -> 0 <= fd) ->
  (forall a b fd, fds !! a = Some fd -> fds !! b = Some fd -> a = b) ->
  legal_run ((fun _ => None) <$> fds) ops = true ->
  exists st p, res_fold step_chan (newChannel <$> fds, p0) ops = Ok (st, p) /\
    forall a fd, fds !! a = Some fd ->
      let o := mjoin (foldl abs_step ((fun _ => None) <$> fds) ops !! a) in
      registered p !! fd = (_ ← o; Some a) /\ watch_ok p a fd o.
Proof.
  intros Hidle Hnn Hinj Hl.
  destruct (chan_sim_run fds Hnn Hinj _ _ ops (chan_sim_init fds p0 Hidle) Hl)
    as ([st p] & E & _ & _ & _ & Hall).
  by exists st, p.
Qed.

Lemma poller_session_witness :
  (exists st p, res_fold step_chan (newChannel <$> {[100 := 7; 200 := 9]}, newPollPoller)
     [SetMask EnableReading 100; SetMask EnableReading 200; SetMask EnableWriting 200;
      SetMask DisableAll 100; Remove 100] = Ok (st, p) /\
     watched p 9 = Some (200, 7) /\ watched p 7 = None) /\
  (exists st p,
     res_fold step_chan (newChannel <$> {[100 := 7; 200 := 9]}, newEPollPoller (∅ : gmap Z (Z * Z)))
     [SetMask EnableReading 100; SetMask EnableReading 200; SetMask EnableWriting 200;
      SetMask DisableAll 100; Remove 100] = Ok (st, p) /\
     watched p 9 = Some (200, 7) /\ watched p 7 = None).
Proof.
  pose (fds := {[100 := 7; 200 := 9]} : gmap Z Z).
  assert (forall a fd, fds !! a = Some fd -> a = 100 /\ fd = 7 \/ a = 200 /\ fd = 9) as Hf.
  { intros a fd; unfold fds; rewrite lookup_insert_Some, lookup_singleton_Some; intuition. }
  split.
  - destruct (poller_session fds newPollPoller
      [SetMask EnableReading 100; SetMask EnableReading 200; SetMask EnableWriting 200;
       SetMask DisableAll 100; Remove 100] pp_idle) as (st & p & E & Hp).
    + intros a fd H%Hf; lia.
    + intros a b fd Ha%Hf Hb%Hf; lia.
    + vm_compute; reflexivity.
    + exists st, p; split; [exact E|].
      split; [apply (Hp 200 9 eq_refl)|apply (Hp 100 7 eq_refl)].
  - assert (idle (newEPollPoller (∅ : gmap Z (Z * Z)))) as Hidle by (apply ep_idle; reflexivity).
    destruct (poller_session fds (newEPollPoller (∅ : gmap Z (Z * Z)))
      [SetMask EnableReading 100; SetMask EnableReading 200; SetMask EnableWriting 200;
       SetMask DisableAll 100; Remove 100] Hidle) as (st & p & E & Hp).
    + intros a fd H%Hf; lia.
    + intros a b fd Ha%Hf Hb%Hf; lia.
    + vm_compute; reflexivity.
    + exists st, p; split; [exact E|].
      split; [apply (Hp 200 9 eq_refl)|apply (Hp 100 7 eq_refl)].
Defined.

(** [disableAll] of a registered channel, for either poller. *)
Lemma disableAll_spec {P} `{PollerSpec P} st (p : P) a c :
  pinv st p -> st !! a = Some c -> 0 <= fd_ c -> registered p !! fd_ c = Some a ->
  exists st' p' c', disableAll true a (st, p) = Ok (st', p') /\ pinv st' p' /\
    st' !! a = Some c' /\ fd_ c' = fd_ c /\ events_ c' = 0 /\
    registered p' !! fd_ c = Some a /\
    (events_ c <> 0 -> watched p' (fd_ c) = None).
Proof.
  intros Hinv Hc H0' Hr; unfold disableAll, channel_update, deref; simpl; rewrite Hc; simpl.
  destruct (update_law st p a c (set_addedToLoop true (allOff c)) Hinv Hc)
    as (st' & p' & E & Hinv' & Hs & Hreg & _ & W & _).
  { split_and!; try done; by left. }
  destruct (same_store_lookup _ _ a _ Hs (lookup_insert_eq _ _ _)) as [i Hi].
  exists st', p'; eexists; split_and!; try done; [by rewrite Hreg, lookup_insert_eq|auto].
Qed.

(** Disabling a channel whose mask is already empty puts it back into the
    epoll set with an empty mask, for which the kernel still reports hang-ups and
    errors. *)
Theorem disable_twice_readds {K} `{EpollLaws K} st (p : EPollPoller K) a c :
  ep_inv st p -> st !! a = Some c -> 0 <= fd_ c -> ep_channels_ p !! fd_ c = Some a ->
  events_ c <> 0 ->
  exists s1 s2, disableAll true a (st, p) = Ok s1 /\ disableAll true a s1 = Ok s2 /\
    watched (snd s1) (fd_ c) = None /\ watched (snd s2) (fd_ c) = Some (a, 0).
Proof.
  intros Hinv Hc H0' Hr He.
  destruct (disableAll_spec st p a c) as (st1 & p1 & c1 & E1 & Hinv1 & Hc1 & Hf1 & _ & Hr1 & Hw);
    try done.
  specialize (Hw He); simpl in Hw; unfold ep_watched in Hw.
  destruct (proj1 Hinv1 _ _ Hr1) as (c0 & Hc0 & _ & Hi); rewrite Hc1 in Hc0; injection Hc0 as <-.
  destruct Hi as [[_ Hi]|(Hi & _ & _)]; [by rewrite Hi in Hw|].
  destruct (ep_updateChannel_spec st1 p1 a c1 (set_addedToLoop true (allOff c1)))
    as (st2 & p2 & E2 & _ & _ & _ & Hk); try done; [rewrite Hf1; by left|].
  rewrite Hi, andb_false_r in Hk; simpl in Hk.
  exists (st1, p1), (st2, p2); split_and!; [done| |done|].
  - unfold disableAll, channel_update, deref; simpl; by rewrite Hc1.
  - simpl; unfold ep_watched; by rewrite Hk, Hf1, lookup_insert_eq.
Qed.

Lemma disable_twice_readds_witness :
  exists s0 : store * EPollPoller (gmap Z (Z * Z)),
    enableReading true 100 ({[100 := newChannel 7]}, newEPollPoller ∅) = Ok s0 /\
    exists s1 s2, disableAll true 100 s0 = Ok s1 /\ disableAll true 100 s1 = Ok s2 /\
    watched (snd s1) 7 = None /\ watched (snd s2) 7 = Some (100, 0).
Proof.
  eexists; split; [reflexivity|].
  apply (disable_twice_readds _ _ 100 (set_index kAdded (set_addedToLoop true (readingOn (newChannel 7)))));
    [|reflexivity|done|reflexivity|done].
  split_and!; simpl.
  - intros fd a Ha; rewrite lookup_insert_Some, lookup_empty in Ha.
    destruct Ha as [[<- <-]|[_ ?]]; [|done]; eexists; split_and!; [reflexivity..|].
    left; split; reflexivity.
  - intros a c; destruct (decide (a = 100)) as [->|Hne].
    + intros [= <-] Hn; by destruct Hn.
    + rewrite lookup_alter_ne, lookup_insert_ne, lookup_singleton_ne by done; done.
  - intros fd [_ Hfd]%lookup_insert_None; by apply lookup_insert_None.
Defined.
