(* ===== verification/EventLoops.v ===== *)
(** * The event loop (src/src/muduo/net/EventLoop.h, EventLoop.cc)

    One loop as the state its own thread and other threads share: the queue of
    functors, the eventfd that wakes it up, its flags and where it is in
    [loop()].  The steps are what one thread does atomically: the loop thread
    moves through poll, event handling and [doPendingFunctors]; another thread
    pushes a functor under the mutex and writes the eventfd in a second step.
    Functors and handlers are names; running one performs the calls a parameter
    gives for it. *)

From S2P Require Import Prelude Timestamps TimerQueues Channels Pollers.

Definition kPollTimeMs : Z := 10000.

(** What code running in the loop thread calls on its loop. *)
Inductive call_loop :=
| QueueInLoop (f : Z)
| RunInLoop (f : Z)
| Quit.

Inductive phase :=
| Idle                         (** outside [loop()] *)
| Polling                      (** about to block, or blocked, in poll *)
(** the calls the running handler still makes, and the active channels left *)
| Handling (cs : list call_loop) (todo : list Z)
(** the calls the running functor still makes, and the swapped functors left *)
| Calling (cs : list call_loop) (todo : list Z).

#[global] Instance call_loop_eq_dec : EqDecision call_loop.
Proof. solve_decision. Defined.
#[global] Instance phase_eq_dec : EqDecision phase.
Proof. solve_decision. Defined.

Record EventLoop := mkEventLoop {
  looping_ : bool;
  quit_ : bool;
  eventHandling_ : bool;
  callingPendingFunctors_ : bool;
  iteration_ : Z;
  activeChannels_ : list Z;
  currentActiveChannel_ : option Z;
  pendingFunctors_ : list Z;
  eventfd : Z;                 (** the counter behind [wakeupFd_] *)
  at_ : phase;
  owed : nat;                  (** other threads between push and [wakeup] *)
  queued : list Z;             (** every functor ever pushed, in order *)
  executed : list Z;           (** every functor run so far, in order *)
  early : nat;                 (** pending ones the loop thread queued outside [loop()] *)
}.

Definition newEventLoop : EventLoop :=
  mkEventLoop false false false false 0 [] None [] 0 Idle 0 [] [] 0.

(** write(2) of 1 to an eventfd: it adds up, and fails when it would overflow. *)
Definition wakeup (s : EventLoop) : EventLoop :=
  mkEventLoop (looping_ s) (quit_ s) (eventHandling_ s) (callingPendingFunctors_ s) (iteration_ s)
    (activeChannels_ s) (currentActiveChannel_ s) (pendingFunctors_ s)
    (if eventfd s <? 2 ^ 64 - 2 then eventfd s + 1 else eventfd s) (at_ s) (owed s) (queued s)
    (executed s) (early s).

(** [handleRead] of the wakeup channel: read(2) resets the counter. *)
Definition handleWakeup (s : EventLoop) : EventLoop :=
  mkEventLoop (looping_ s) (quit_ s) (eventHandling_ s) (callingPendingFunctors_ s) (iteration_ s)
    (activeChannels_ s) (currentActiveChannel_ s) (pendingFunctors_ s) 0 (at_ s) (owed s)
    (queued s) (executed s) (early s).

(** [pendingFunctors_.push_back(cb)] under the mutex. *)
Definition push (f : Z) (s : EventLoop) : EventLoop :=
  mkEventLoop (looping_ s) (quit_ s) (eventHandling_ s) (callingPendingFunctors_ s) (iteration_ s)
    (activeChannels_ s) (currentActiveChannel_ s) (pendingFunctors_ s ++ [f]) (eventfd s) (at_ s)
    (owed s) (queued s ++ [f]) (executed s) (early s).

Definition set_owed (n : nat) (s : EventLoop) : EventLoop :=
  mkEventLoop (looping_ s) (quit_ s) (eventHandling_ s) (callingPendingFunctors_ s) (iteration_ s)
    (activeChannels_ s) (currentActiveChannel_ s) (pendingFunctors_ s) (eventfd s) (at_ s) n
    (queued s) (executed s) (early s).

Definition set_early (n : nat) (s : EventLoop) : EventLoop :=
  mkEventLoop (looping_ s) (quit_ s) (eventHandling_ s) (callingPendingFunctors_ s) (iteration_ s)
    (activeChannels_ s) (currentActiveChannel_ s) (pendingFunctors_ s) (eventfd s) (at_ s) (owed s)
    (queued s) (executed s) n.

Definition set_quit (b : bool) (s : EventLoop) : EventLoop :=
  mkEventLoop (looping_ s) b (eventHandling_ s) (callingPendingFunctors_ s) (iteration_ s)
    (activeChannels_ s) (currentActiveChannel_ s) (pendingFunctors_ s) (eventfd s) (at_ s) (owed s)
    (queued s) (executed s) (early s).

(** [queueInLoop] as one call; [inLoop] is [isInLoopThread()]. *)
Definition queueInLoop (inLoop : bool) (f : Z) (s : EventLoop) : EventLoop :=
  let s := push f s in
  if negb inLoop || callingPendingFunctors_ s then wakeup s else s.

Definition queueSize (s : EventLoop) : Z := len (pendingFunctors_ s).

Definition quit (inLoop : bool) (s : EventLoop) : EventLoop :=
  let s := set_quit true s in
  if negb inLoop then wakeup s else s.

Definition go (p : phase) (s : EventLoop) : EventLoop :=
  mkEventLoop (looping_ s) (quit_ s) (eventHandling_ s) (callingPendingFunctors_ s) (iteration_ s)
    (activeChannels_ s) (currentActiveChannel_ s) (pendingFunctors_ s) (eventfd s) p (owed s)
    (queued s) (executed s) (early s).

(** The test [while (!quit_)]; leaving the loop clears [looping_]. *)
Definition testQuit (s : EventLoop) : EventLoop :=
  if quit_ s then
    mkEventLoop false (quit_ s) (eventHandling_ s) (callingPendingFunctors_ s) (iteration_ s)
      (activeChannels_ s) (currentActiveChannel_ s) (pendingFunctors_ s) (eventfd s) Idle (owed s)
      (queued s) (executed s) (early s)
  else go Polling s.

(** Entering [loop()]. *)
Definition enter (s : EventLoop) : res EventLoop :=
  assert! negb (looping_ s) ;;
  Ok (testQuit (mkEventLoop true false (eventHandling_ s) (callingPendingFunctors_ s) (iteration_ s)
    (activeChannels_ s) (currentActiveChannel_ s) (pendingFunctors_ s) (eventfd s) (at_ s) (owed s)
    (queued s) (executed s) (early s))).

(** poll returned with these channels. *)
Definition polled (active : list Z) (s : EventLoop) : EventLoop :=
  mkEventLoop (looping_ s) (quit_ s) true (callingPendingFunctors_ s) (iteration_ s + 1)
    active (currentActiveChannel_ s) (pendingFunctors_ s) (eventfd s) (Handling [] active) (owed s)
    (queued s) (executed s) (early s).

Section Loop.
(** The wakeup channel, and the calls a handler or a functor makes. *)
Variable wakeupChannel_ : Z.
Variable handler : Z -> list call_loop.
Variable body : Z -> list call_loop.

(** [runInLoop]: at once in the loop thread, through the queue otherwise; the
    first component is what the caller still has to run. *)
Definition runInLoop (inLoop : bool) (f : Z) (s : EventLoop) : list call_loop * EventLoop :=
  if inLoop then (body f, s) else ([], queueInLoop false f s).

Definition do_call (c : call_loop) (s : EventLoop) : list call_loop * EventLoop :=
  match c with
  | QueueInLoop f => ([], queueInLoop true f s)
  | RunInLoop f => runInLoop true f s
  | Quit => ([], quit true s)
  end.

(** [currentActiveChannel_->handleEvent(pollReturnTime_)]. *)
Definition handleChannel (c : Z) (todo : list Z) (s : EventLoop) : EventLoop :=
  let s := mkEventLoop (looping_ s) (quit_ s) (eventHandling_ s) (callingPendingFunctors_ s)
             (iteration_ s) (activeChannels_ s) (Some c) (pendingFunctors_ s) (eventfd s)
             (Handling [] todo) (owed s) (queued s) (executed s) (early s) in
  if c =? wakeupChannel_ then handleWakeup s else go (Handling (handler c) todo) s.

(** The end of event handling and the start of [doPendingFunctors]: the queue is
    swapped out under the mutex. *)
Definition swapFunctors (s : EventLoop) : EventLoop :=
  mkEventLoop (looping_ s) (quit_ s) false true (iteration_ s) (activeChannels_ s) None []
    (eventfd s) (Calling [] (pendingFunctors_ s)) (owed s) (queued s) (executed s) 0.

Definition callFunctor (f : Z) (todo : list Z) (s : EventLoop) : EventLoop :=
  mkEventLoop (looping_ s) (quit_ s) (eventHandling_ s) (callingPendingFunctors_ s)
    (iteration_ s) (activeChannels_ s) (currentActiveChannel_ s) (pendingFunctors_ s)
    (eventfd s) (Calling (body f) todo) (owed s) (queued s) (executed s ++ [f]) (early s).

(** The end of [doPendingFunctors]. *)
Definition doneCalling (s : EventLoop) : EventLoop :=
  testQuit (mkEventLoop (looping_ s) (quit_ s) (eventHandling_ s) false (iteration_ s)
    (activeChannels_ s) (currentActiveChannel_ s) (pendingFunctors_ s) (eventfd s) (at_ s) (owed s)
    (queued s) (executed s) (early s)).

(** One step of the loop thread inside [loop()]; [active] is what poll reports. *)
Definition loopStep (active : list Z) (s : EventLoop) : EventLoop :=
  match at_ s with
  | Idle => s
  | Polling => polled active s
  | Handling (c :: cs) todo => let '(more, s) := do_call c s in go (Handling (more ++ cs) todo) s
  | Handling [] (c :: todo) => handleChannel c todo s
  | Handling [] [] => swapFunctors s
  | Calling (c :: cs) todo => let '(more, s) := do_call c s in go (Calling (more ++ cs) todo) s
  | Calling [] (f :: todo) => callFunctor f todo s
  | Calling [] [] => doneCalling s
  end.

(** ** Steps of all threads *)

(** Steps of the loop thread inside [loop()] and of other threads at any time. *)
Inductive inloop : EventLoop -> EventLoop -> Prop :=
| step_loop s active :
    at_ s <> Idle -> (0 < eventfd s -> at_ s = Polling -> wakeupChannel_ ∈ active) ->
    inloop s (loopStep active s)
| step_push s f : inloop s (set_owed (S (owed s)) (push f s))       (** another thread's push *)
| step_quit s : inloop s (set_owed (S (owed s)) (set_quit true s))  (** another thread's quit *)
| step_wakeup s n : owed s = S n -> inloop s (wakeup (set_owed n s)). (** ... and its wakeup *)

(** ... and of the loop thread outside [loop()]. *)
Inductive step : EventLoop -> EventLoop -> Prop :=
| step_in s s' : inloop s s' -> step s s'
| step_enter s s' : at_ s = Idle -> enter s = Ok s' -> step s s'
| step_idle_quit s : at_ s = Idle -> step s (quit true s)
| step_idle_queue s f : at_ s = Idle -> step s (set_early (S (early s)) (queueInLoop true f s)).
End Loop.

(** [EventLoop::removeChannel]: while events are handled, only the channel that
    is being handled or one that is not active may be removed. *)
Definition removable (a : Z) (s : EventLoop) : bool :=
  negb (eventHandling_ s) || bool_decide (currentActiveChannel_ s = Some a)
  || negb (bool_decide (a ∈ activeChannels_ s)).

Definition loop_removeChannel {P} `{PollerOps P} (inLoop : bool) (a : Z) (l : EventLoop)
    (s : store * P) : res (store * P) :=
  let! _ := assertInLoopThread inLoop in
  assert! removable a l ;;
  removeChannel inLoop a s.

Definition loop_updateChannel {P} `{PollerOps P} (inLoop : bool) (a : Z) (s : store * P)
    : res (store * P) :=
  let! _ := assertInLoopThread inLoop in
  updateChannel inLoop a s.

Definition loop_hasChannel {P} `{PollerOps P} (inLoop : bool) (a : Z) (s : store * P) : res bool :=
  let! _ := assertInLoopThread inLoop in
  hasChannel inLoop a s.

(** ** Timers through the loop *)

Definition runAt (alloc : gset Z -> option Z) (time now : Timestamp) (q : TimerQueue)
    : res (TimerQueue * TimerId) := addTimer alloc time 0 false now q.

Definition runAfter (alloc : gset Z -> option Z) (delay now : Z) (q : TimerQueue)
    : res (TimerQueue * TimerId) := runAt alloc (addTime now delay) now q.

Definition runEvery (alloc : gset Z -> option Z) (interval : Z) (repeat : bool) (now : Timestamp)
    (q : TimerQueue) : res (TimerQueue * TimerId) :=
  addTimer alloc (addTime now interval) interval repeat now q.

Definition cancel (id : TimerId) (q : TimerQueue) : res TimerQueue := cancelInLoop id q.

(** * Properties *)

(** ** Lemmas *)

(** The functors swapped out and not yet started. *)
Definition swapped (s : EventLoop) : list Z :=
  match at_ s with Calling _ todo => todo | _ => [] end.

(** Somebody has woken the loop up, or is about to. *)
Definition woken (s : EventLoop) : Prop := 0 < eventfd s \/ (0 < owed s)%nat.

Definition is_handling (s : EventLoop) : bool :=
  match at_ s with Handling _ _ => true | _ => false end.

Definition is_calling (s : EventLoop) : bool :=
  match at_ s with Calling _ _ => true | _ => false end.

Record loop_inv (s : EventLoop) : Prop := {
  li_fd : 0 <= eventfd s;
  li_order : queued s = executed s ++ swapped s ++ pendingFunctors_ s;
  li_calling : callingPendingFunctors_ s = is_calling s;
  li_handling : eventHandling_ s = is_handling s;
  li_looping : looping_ s = false <-> at_ s = Idle;
  li_early : (early s <= length (pendingFunctors_ s))%nat;
  li_woken : is_handling s = false -> (early s < length (pendingFunctors_ s))%nat -> woken s;
  li_quit : at_ s = Polling -> quit_ s = true -> woken s;
}.

Lemma wakeup_fd_pos s : 0 <= eventfd s -> 0 < eventfd (wakeup s).
Proof. cbn. intros. case_match; lia. Qed.

(** Unfold the operations of the loop on a state given by its fields. *)
Ltac loop_unfold := unfold queueInLoop, quit, doneCalling, testQuit, handleChannel, woken, swapped,
  is_handling, is_calling, go, wakeup, handleWakeup, push, set_owed, set_early, set_quit, polled, swapFunctors,
  callFunctor, runInLoop in *; cbn in *.

Section Proofs.
Context (wakeupChannel_ : Z) (handler body : Z -> list call_loop).
Abbreviation loopStep := (loopStep wakeupChannel_ handler body).
Abbreviation inloop := (inloop wakeupChannel_ handler body).
Abbreviation step := (step wakeupChannel_ handler body).

Lemma loop_inv_new : loop_inv newEventLoop.
Proof. split; cbn; try done. lia. Qed.

Lemma loop_inv_loopStep s active :
  loop_inv s -> at_ s <> Idle -> loop_inv (loopStep active s).
Proof.
  intros [Hfd Ho Hc Hh Hl He' Hw Hq] Hi.
  destruct s as [lp q eh cp it ac cu pf fd p ow qd ex ea].
  unfold EventLoops.loopStep, woken, is_handling, is_calling, swapped in *. cbn in *. subst cp eh.
  destruct p as [| |[|c cs] [|x todo]|[|c cs] [|x todo]]; try done.
  all: try (destruct c as [f|f|]).
  all: loop_unfold; repeat case_match; simplify_eq; loop_unfold.
  all: split; cbn; try done; try (intuition (congruence || lia)).
  all: rewrite ?app_nil_r, <-?app_assoc; cbn; rewrite <-?app_assoc; try done.
  all: unfold woken; cbn; rewrite ?length_app; cbn; intros; first [lia | left; lia | apply Hw; [done|lia]].
Qed.

Lemma loop_inv_inloop s s' : loop_inv s -> inloop s s' -> loop_inv s'.
Proof.
  intros H Hs. destruct Hs as [s active Hi _|s f|s|s n Ho].
  - by apply loop_inv_loopStep.
  - destruct H as [Hfd Ho Hc Hh Hl He' Hw Hq]. destruct s. loop_unfold. split; cbn; try done.
    + by rewrite Ho, <-!app_assoc.
    + rewrite length_app. lia.
    + intros. right. cbn. lia.
    + intros. right. cbn. lia.
  - destruct H as [Hfd Ho Hc Hh Hl He' Hw Hq]. destruct s. loop_unfold. split; cbn; try done.
    + intros. right. cbn. lia.
    + intros. right. cbn. lia.
  - assert (Hp := wakeup_fd_pos (set_owed n s) (li_fd _ H)).
    destruct H as [Hfd Ho' Hc Hh Hl He' Hw Hq].
    split; try (intros; left); first [done | lia].
Qed.

Lemma loop_inv_step s s' : loop_inv s -> step s s' -> loop_inv s'.
Proof.
  intros H Hs. destruct Hs as [s s' Hs|s s' Hi He|s Hi|s f Hi].
  - by eapply loop_inv_inloop.
  - destruct H as [Hfd Ho Hc Hh Hl He' Hw Hq]. destruct s as [lp q eh cp it ac cu pf fd p ow qd ex ea].
    cbn in *. subst p. unfold enter in He. cbn in He. destruct lp; simplify_eq/=.
    split; loop_unfold; try done.
  - destruct H as [Hfd Ho Hc Hh Hl He' Hw Hq]. destruct s as [lp q eh cp it ac cu pf fd p ow qd ex ea].
    cbn in *. subst p. split; loop_unfold; try done.
  - destruct H as [Hfd Ho Hc Hh Hl He' Hw Hq]. destruct s as [lp q eh cp it ac cu pf fd p ow qd ex ea].
    cbn in *. subst p. unfold is_calling in Hc. cbn in Hc. subst cp.
    split; loop_unfold; try done; rewrite ?length_app; cbn.
    + by rewrite Ho, <-app_assoc.
    + lia.
    + intros _ Hlt. apply Hw; [done|lia].
Qed.

Lemma loop_inv_steps s s' : loop_inv s -> rtc step s s' -> loop_inv s'.
Proof. induction 2; eauto using loop_inv_step. Qed.

(** The effect of a call on the counters and ghosts the theorems speak of. *)
Lemma do_call_frame c s more s' :
  do_call body c s = (more, s') ->
  iteration_ s' = iteration_ s /\ executed s' = executed s /\ (exists l, queued s' = queued s ++ l) /\
  (quit_ s = true -> quit_ s' = true).
Proof.
  destruct c; cbn; unfold queueInLoop, quit; cbn; repeat case_match; intros; simplify_eq/=;
    split_and!; eauto; by exists []; rewrite app_nil_r.
Qed.

Lemma loopStep_monotone s active :
  queued s `prefix_of` queued (loopStep active s) /\ executed s `prefix_of` executed (loopStep active s) /\
  (quit_ s = true -> quit_ (loopStep active s) = true).
Proof.
  unfold EventLoops.loopStep. repeat case_match; cbn; eauto using prefix_app_r.
  all: try match goal with H : do_call _ _ _ = _ |- _ =>
    apply do_call_frame in H as (?&->&[? ->]&?); cbn; eauto using prefix_app_r end.
  - unfold handleChannel. case_match; cbn; eauto.
  - unfold doneCalling, testQuit. cbn. case_match; cbn; eauto.
Qed.

Lemma inloop_monotone s s' : inloop s s' ->
  queued s `prefix_of` queued s' /\ executed s `prefix_of` executed s' /\
  (quit_ s = true -> quit_ s' = true).
Proof.
  intros Hs. destruct Hs as [s active Hi _|s f|s|s n Ho].
  - apply loopStep_monotone.
  - cbn; eauto using prefix_app_r.
  - cbn; eauto.
  - cbn; eauto.
Qed.

(** Where the functors queued in state [s0], which handles events, are later. *)
Definition drained (s0 s : EventLoop) : Prop :=
  match at_ s with
  | Handling _ _ => iteration_ s = iteration_ s0 \/ queued s0 `prefix_of` executed s
  | Calling _ todo => queued s0 `prefix_of` executed s ++ todo
  | _ => queued s0 `prefix_of` executed s
  end.

Lemma drained_loopStep s0 s active :
  loop_inv s -> queued s0 `prefix_of` queued s -> drained s0 s -> drained s0 (loopStep active s).
Proof.
  intros Hi Hp Hd. unfold EventLoops.loopStep.
  destruct (at_ s) as [| |[|c cs] [|x todo]|[|c cs] [|x todo]] eqn:Ha.
  all: unfold drained in *; rewrite ?Ha in *; try done.
  - by right.
  - cbn. rewrite (li_order _ Hi) in Hp. unfold swapped in Hp. by rewrite Ha in Hp.
  - unfold handleChannel. by destruct (_ =? _).
  - destruct (do_call _ _ _) eqn:Hc. apply do_call_frame in Hc as (Hit&He&_&_). cbn.
    by rewrite Hit, He.
  - destruct (do_call _ _ _) eqn:Hc. apply do_call_frame in Hc as (Hit&He&_&_). cbn.
    by rewrite Hit, He.
  - rewrite app_nil_r in Hd. unfold doneCalling, testQuit. cbn. by destruct (quit_ s).
  - cbn. by rewrite <-app_assoc.
  - destruct (do_call _ _ _) eqn:Hc. apply do_call_frame in Hc as (_&He&_&_). cbn. by rewrite He.
  - destruct (do_call _ _ _) eqn:Hc. apply do_call_frame in Hc as (_&He&_&_). cbn. by rewrite He.
Qed.

Lemma drained_step s0 s s' :
  loop_inv s -> queued s0 `prefix_of` queued s -> drained s0 s -> step s s' -> drained s0 s'.
Proof.
  intros Hi Hp Hd Hs. destruct Hs as [s s' Hs|s s' Ha He|s Ha|s f Ha]; [destruct Hs|..].
  - by apply drained_loopStep.
  - done.
  - done.
  - done.
  - unfold drained in *. rewrite Ha in Hd. unfold enter in He. destruct (looping_ s); simplify_eq/=.
    done.
  - done.
  - unfold drained, queueInLoop in *. rewrite Ha in Hd. cbn. destruct (callingPendingFunctors_ s); cbn; by rewrite Ha.
Qed.

Lemma step_monotone s s' : step s s' ->
  queued s `prefix_of` queued s' /\ executed s `prefix_of` executed s'.
Proof.
  destruct 1 as [s s' H|s s' Ha He|s Ha|s f Ha].
  - by apply inloop_monotone in H as (?&?&_).
  - unfold enter in He. destruct (looping_ s); simplify_eq/=. done.
  - done.
  - unfold queueInLoop. cbn. case_match; cbn; eauto using prefix_app_r.
Qed.

Lemma drained_steps s0 s s' :
  loop_inv s -> queued s0 `prefix_of` queued s -> drained s0 s -> rtc step s s' -> drained s0 s'.
Proof.
  intros Hi Hp Hd Hs. induction Hs as [|s s1 s' H1 H2 IH]; [done|]. apply IH.
  - by eapply loop_inv_step.
  - etrans; [done|]. by apply step_monotone in H1 as [??].
  - by eapply drained_step.
Qed.

(** An upper bound of the polls made so far once [quit_] is set. *)
Definition polls_left (s : EventLoop) : Z :=
  iteration_ s + (if at_ s is Polling then 1 else 0).

Lemma polls_left_inloop s s' : inloop s s' -> quit_ s = true -> polls_left s' <= polls_left s.
Proof.
  intros Hs Hq. unfold polls_left. destruct Hs as [s active Hi _|s f|s|s n Ho]; try done.
  unfold EventLoops.loopStep.
  destruct (at_ s) as [| |[|c cs] [|x todo]|[|c cs] [|x todo]]; cbn; try done; try lia.
  all: try (destruct (do_call _ _ _) eqn:Hc; apply do_call_frame in Hc as (Hit&_); cbn; lia).
  - unfold handleChannel. destruct (_ =? _); cbn; lia.
  - unfold doneCalling, testQuit. cbn. rewrite Hq. cbn. lia.
Qed.

Lemma iteration_inloop s s' : inloop s s' -> iteration_ s <= iteration_ s'.
Proof.
  intros Hs. destruct Hs as [s active Hi _|s f|s|s n Ho]; try done.
  unfold EventLoops.loopStep.
  destruct (at_ s) as [| |[|c cs] [|x todo]|[|c cs] [|x todo]]; cbn; try done; try lia.
  all: try (destruct (do_call _ _ _) eqn:Hc; apply do_call_frame in Hc as (Hit&_); cbn; lia).
  - unfold handleChannel. destruct (_ =? _); cbn; lia.
  - unfold doneCalling, testQuit. cbn. destruct (quit_ s); cbn; lia.
Qed.

Lemma iteration_steps s s' : rtc inloop s s' -> iteration_ s <= iteration_ s'.
Proof. induction 1 as [|s s1 s' H1 H2 IH]; [done|]. apply iteration_inloop in H1. lia. Qed.

Lemma polls_left_steps s s' : rtc inloop s s' -> quit_ s = true -> polls_left s' <= polls_left s.
Proof.
  induction 1 as [|s s1 s' H1 H2 IH]; [done|]. intros Hq.
  assert (quit_ s1 = true) as Hq1 by (by apply (inloop_monotone _ _ H1)).
  specialize (IH Hq1). apply polls_left_inloop in H1; [lia|done].
Qed.

(** The loop thread on its own, from event handling to the end of the iteration. *)

Definition flat (cs : list call_loop) : Prop := Forall (fun c => if c is RunInLoop _ then False else True) cs.

Definition solo (n : nat) (s : EventLoop) : EventLoop := Nat.iter n (loopStep []) s.

Lemma solo_S n s : solo (S n) s = solo n (loopStep [] s).
Proof. unfold solo. by rewrite Nat.iter_succ_r. Qed.

Lemma flat_call c cs s : flat (c :: cs) ->
  exists s', do_call body c s = ([], s') /\ flat cs.
Proof. intros [Hc Hf]%Forall_cons. destruct c; cbn; try done; eauto. Qed.

Lemma calls_finish cs s (k : list call_loop -> phase) :
  (k = fun cs => Handling cs (match at_ s with Handling _ todo => todo | _ => [] end)) \/
  (k = fun cs => Calling cs (match at_ s with Calling _ todo => todo | _ => [] end)) ->
  at_ s = k cs -> flat cs -> exists n, at_ (solo n s) = k [].
Proof.
  revert s. induction cs as [|c cs IH]; intros s Hk Ha Hf; [by exists 0%nat|].
  destruct (flat_call c cs s Hf) as (s1&Hc&Hf').
  destruct (IH (go (k cs) s1)) as [n Hn]; cbn; [|done|done|].
  - by destruct Hk as [->| ->]; [left|right].
  - exists (S n). rewrite solo_S. unfold EventLoops.loopStep. rewrite Ha.
    by destruct Hk as [->| ->]; cbn in Ha |- *; rewrite Hc.
Qed.

Lemma solo_add n m s : solo (n + m) s = solo m (solo n s).
Proof. unfold solo. by rewrite Nat.add_comm, Nat.iter_add. Qed.

Lemma handling_finishes todo cs s :
  (forall c, flat (handler c)) -> at_ s = Handling cs todo -> flat cs ->
  exists n fs, at_ (solo n s) = Calling [] fs.
Proof.
  intros Hh. revert cs s. induction todo as [|c todo IH]; intros cs s Ha Hf.
  all: destruct (calls_finish cs s (fun cs => Handling cs (match at_ s with Handling _ todo => todo | _ => [] end)))
         as [n Hn]; [by left|by rewrite Ha|done|]; rewrite Ha in Hn.
  - exists (n + 1)%nat. eexists. rewrite solo_add. cbn. unfold EventLoops.loopStep. by rewrite Hn.
  - assert (exists cs', at_ (solo (n + 1) s) = Handling cs' todo /\ flat cs') as (cs'&Hc&Hf').
    { rewrite solo_add. cbn. unfold EventLoops.loopStep. rewrite Hn. unfold handleChannel.
      destruct (_ =? _); cbn; eexists; split; try done. by apply Forall_nil. }
    destruct (IH cs' _ Hc Hf') as (m&fs&Hm). exists ((n + 1) + m)%nat, fs. by rewrite solo_add.
Qed.

Lemma calling_finishes todo cs s :
  (forall f, flat (body f)) -> at_ s = Calling cs todo -> flat cs ->
  exists n, at_ (solo n s) = Polling \/ at_ (solo n s) = Idle.
Proof.
  intros Hb. revert cs s. induction todo as [|f todo IH]; intros cs s Ha Hf.
  all: destruct (calls_finish cs s (fun cs => Calling cs (match at_ s with Calling _ todo => todo | _ => [] end)))
         as [n Hn]; [by right|by rewrite Ha|done|]; rewrite Ha in Hn.
  - exists (n + 1)%nat. rewrite solo_add. cbn. unfold EventLoops.loopStep. rewrite Hn.
    unfold doneCalling, testQuit. cbn. destruct (quit_ _); eauto.
  - assert (at_ (solo (n + 1) s) = Calling (body f) todo) as Hc.
    { rewrite solo_add. cbn. unfold EventLoops.loopStep. by rewrite Hn. }
    destruct (IH _ _ Hc (Hb f)) as (m&Hm). exists ((n + 1) + m)%nat. by rewrite solo_add.
Qed.

Lemma drained_solo s0 n s :
  loop_inv s -> queued s0 `prefix_of` queued s -> drained s0 s -> drained s0 (solo n s).
Proof.
  revert s. induction n as [|n IH]; intros s Hi Hp Hd; [done|]. rewrite solo_S. apply IH.
  - destruct (decide (at_ s = Idle)) as [Ha|Ha]; [|by apply loop_inv_loopStep].
    unfold EventLoops.loopStep. by rewrite Ha.
  - etrans; [done|]. apply loopStep_monotone.
  - by apply drained_loopStep.
Qed.

(** ** Theorems *)


(** C14: Functors run in the order they were queued, each once, and every functor
    queued by the time a poll has returned has run when the loop polls or waits
    for events again. *)
Theorem functors_run_in_order s0 s :
  rtc step newEventLoop s0 -> is_handling s0 = true -> rtc step s0 s ->
  (exists rest, queued s = executed s ++ rest) /\
  (at_ s = Polling \/ at_ s = Idle \/ (is_handling s = true /\ iteration_ s <> iteration_ s0) ->
   queued s0 `prefix_of` executed s).
Proof.
  intros H0 Hh Hs. apply loop_inv_steps in H0; [|by apply loop_inv_new].
  assert (loop_inv s) as Hi by (by eapply loop_inv_steps).
  split; [eexists; apply (li_order _ Hi)|].
  assert (drained s0 s) as Hd.
  { eapply drained_steps; [apply H0|done| |done]. unfold drained, is_handling in *.
    destruct (at_ s0); try done. by left. }
  unfold drained, is_handling in *. intros [Ha|[Ha|[Ha Hit]]]; [by rewrite Ha in Hd..|].
  destruct (at_ s); try done. by destruct Hd.
Qed.

(** An iteration ends: when handlers and functors make finitely many calls,
    the loop thread gets from event handling to its next poll (or out of [loop()])
    and has then run everything that was queued. *)
Theorem iteration_finishes s :
  (forall c, flat (handler c)) -> (forall f, flat (body f)) ->
  rtc step newEventLoop s -> forall todo, at_ s = Handling [] todo ->
  exists n, (at_ (solo n s) = Polling \/ at_ (solo n s) = Idle) /\
    queued s `prefix_of` executed (solo n s).
Proof.
  intros Hh Hb H0 todo Ha. apply loop_inv_steps in H0; [|by apply loop_inv_new].
  destruct (handling_finishes todo [] s Hh Ha) as (n&fs&Hn); [by apply Forall_nil|].
  destruct (calling_finishes fs [] _ Hb Hn) as (m&Hm); [by apply Forall_nil|].
  rewrite <-solo_add in Hm. exists (n + m)%nat. split; [done|].
  assert (drained s (solo (n + m) s)) as Hd.
  { apply drained_solo; [done|done|]. unfold drained. rewrite Ha. by left. }
  unfold drained in Hd. by destruct Hm as [Hm|Hm]; rewrite Hm in Hd.
Qed.

(** After [quit()] the loop polls at most once more, and not at all when it
    was not already polling. *)
Theorem quit_bounds_polls s s' :
  quit_ s = true -> rtc inloop s s' ->
  iteration_ s' <= iteration_ s + 1 /\
  (at_ s <> Polling -> iteration_ s' <= iteration_ s /\ at_ s' <> Polling).
Proof.
  intros Hq Hs. assert (Hi := iteration_steps _ _ Hs).
  apply polls_left_steps in Hs; [|done]. unfold polls_left in Hs.
  destruct (at_ s), (at_ s'); split; intros; try split; try done; try lia.
Qed.
End Proofs.

(** A functor that the loop thread queues before it enters [loop()] does not
    wake the loop up: it polls with a functor pending and nothing to end the wait
    before the timeout; a [quit()] before [loop()] is forgotten. *)
Theorem calls_before_loop_wait f :
  exists s, enter (quit true (queueInLoop true f newEventLoop)) = Ok s /\
    at_ s = Polling /\ pendingFunctors_ s = [f] /\ quit_ s = false /\ ~ woken s.
Proof. eexists. split; [reflexivity|]. cbn. unfold woken; cbn. split_and!; try done. lia. Qed.

(** ** Witnesses *)

(** A loop whose functor 1 queues functor 2, and a run of it: another thread
    queues 1, the loop polls, is woken, and runs both. *)
Definition demo_body (f : Z) : list call_loop := if f =? 1 then [QueueInLoop 2] else [].

Definition demo_at (n : nat) : EventLoop :=
  let s0 := set_owed 1 (push 1 newEventLoop) in
  let s1 := testQuit (mkEventLoop true false false false 0 [] None [1] 0 Idle 1 [1] [] 0) in
  Nat.iter n (loopStep 7 (fun _ => []) demo_body [7]) (wakeup (set_owed 0 s1)).

Lemma demo_run k n : (forall j, (j < n)%nat -> at_ (demo_at (j + k)) <> Idle) ->
  rtc (step 7 (fun _ => []) demo_body) (demo_at k) (demo_at (n + k)).
Proof.
  induction n as [|n IH]; intros Hn; [done|].
  eapply rtc_r; [apply IH; intros; apply Hn; lia|].
  apply step_in. unfold demo_at. cbn [Nat.add]. rewrite Nat.iter_succ.
  apply (step_loop 7 (fun _ => []) demo_body _ [7]).
  - apply (Hn n). lia.
  - intros. set_solver.
Qed.

Lemma demo_start : rtc (step 7 (fun _ => []) demo_body) newEventLoop (demo_at 0).
Proof.
  eapply rtc_l; [apply step_in, (step_push _ _ _ newEventLoop 1)|].
  eapply rtc_l; [eapply step_enter; [reflexivity|reflexivity]|].
  eapply rtc_l; [apply step_in, (step_wakeup _ _ _ _ 0); reflexivity|].
  apply rtc_refl.
Qed.


Lemma functors_run_in_order_witness :
  queued (demo_at 1) `prefix_of` executed (demo_at 6).
Proof.
  refine (proj2 (functors_run_in_order 7 (fun _ => []) demo_body (demo_at 1) (demo_at 6) _ _ _) _).
  - etrans; [apply demo_start|]. apply (demo_run 0 1). intros [|j] ?; [discriminate|lia].
  - reflexivity.
  - apply (demo_run 1 5). intros [|[|[|[|[|j]]]]] ?; [discriminate..|lia].
  - left. reflexivity.
Defined.

Lemma iteration_finishes_witness :
  exists n, (at_ (solo 7 (fun _ => []) demo_body n (demo_at 1)) = Polling \/
             at_ (solo 7 (fun _ => []) demo_body n (demo_at 1)) = Idle) /\
    queued (demo_at 1) `prefix_of` executed (solo 7 (fun _ => []) demo_body n (demo_at 1)).
Proof.
  apply (iteration_finishes 7 (fun _ => []) demo_body (demo_at 1)) with (todo := [7]).
  - intros c. apply Forall_nil. done.
  - intros f. unfold demo_body, flat. destruct (f =? 1); repeat constructor.
  - etrans; [apply demo_start|]. apply (demo_run 0 1). intros [|j] ?; [discriminate|lia].
  - reflexivity.
Defined.

Lemma quit_bounds_polls_witness :
  let s := set_owed 1 (set_quit true (demo_at 1)) in
  let s' := loopStep 7 (fun _ => []) demo_body [] s in
  iteration_ s' <= iteration_ s + 1 /\
  (at_ s <> Polling -> iteration_ s' <= iteration_ s /\ at_ s' <> Polling).
Proof.
  intros s s'. apply (quit_bounds_polls 7 (fun _ => []) demo_body s s'); [reflexivity|].
  apply rtc_once, step_loop; discriminate.
Defined.
