(* ===== verification/LoopThreads.v ===== *)
(** * The life of a loop and its thread (src/src/muduo/net/EventLoopThread.h,
    EventLoopThread.cc, and the construction and destruction of loops in EventLoop.cc)

    An [EventLoopThread] starts a thread, which builds a loop on its stack, makes it
    known, runs it and, when it quits, takes it back.  Its creator waits for the loop,
    uses it, and ends it in the destructor.  The loop is the one of EventLoops; the
    two threads interleave step by step, and whoever touches an object that is gone is
    a fault. *)

From S2P Require Import Prelude EventLoops.

(** ** One loop per thread *)

(** [eventfd(2)] returned [fd]. *)
Definition createEventfd (fd : Z) : res Z := if fd <? 0 then Fail Aborted else Ok fd.

(** [t_loopInThisThread] of every thread, the loops there are with the thread that
    made each ([threadId_]) and its eventfd, and the descriptors that were closed. *)
Record loops := mkLoops {
  t_loopInThisThread : gmap nat Z;
  live : gmap Z (nat * Z);
  closed : list Z;
}.

Definition newLoops : loops := mkLoops ∅ ∅ [].

(** The constructor of the loop at address [this] in thread [i]. *)
Definition constructLoop (i : nat) (this fd : Z) (y : loops) : res loops :=
  let! wakeupFd_ := createEventfd fd in
  match t_loopInThisThread y !! i with
  | Some _ => Fail Aborted
  | None => Ok (mkLoops (<[i := this]> (t_loopInThisThread y)) (<[this := (i, wakeupFd_)]> (live y)) (closed y))
  end.

(** The destructor, in thread [i]; its channel may only be removed in the loop's own
    thread. *)
Definition isInLoopThread (i : nat) (l : nat * Z) : bool := bool_decide (fst l = i).

Definition destroyLoop (i : nat) (this : Z) (y : loops) : res loops :=
  match live y !! this with
  | None => Fail OutOfRange
  | Some l =>
      if isInLoopThread i l then
        Ok (mkLoops (delete i (t_loopInThisThread y)) (delete this (live y)) (closed y ++ [snd l]))
      else Fail Aborted
  end.

Definition getEventLoopOfCurrentThread (i : nat) (y : loops) : option Z := t_loopInThisThread y !! i.

Inductive loops_op := Construct (i : nat) (this fd : Z) | Destruct (i : nat) (this : Z).

Definition loops_step (y : loops) (o : loops_op) : res loops :=
  match o with
  | Construct i this fd => constructLoop i this fd y
  | Destruct i this => destroyLoop i this y
  end.

(** ** EventLoopThread *)

(** [loop_] is NULL or the address of the loop; [started_] and [joined_] are those of
    [thread_]. *)
Record EventLoopThread := mkELT {
  loop_ : bool; exiting_ : bool; started_ : bool; joined_ : bool; mutex_held : bool;
}.

Definition newEventLoopThread : EventLoopThread := mkELT false false false false false.

Definition set_loop (b : bool) (t : EventLoopThread) : EventLoopThread :=
  mkELT b (exiting_ t) (started_ t) (joined_ t) (mutex_held t).
Definition set_held (b : bool) (t : EventLoopThread) : EventLoopThread :=
  mkELT (loop_ t) (exiting_ t) (started_ t) (joined_ t) b.

(** What the creator still has to do: [StartLoop] and [AwaitLoop] are [startLoop];
    [UseLoop] waits until the loop has run something it was given; the destructor is
    [Exit], then [SetQuit] and [Wakeup] of [quit()], [Join], [JoinWait], and [Free]. *)
Inductive owner_call := StartLoop | AwaitLoop | UseLoop | Exit | SetQuit | Wakeup | Join | JoinWait | Free.

(** Where the thread is in [threadFunc]. *)
Inductive thread_at :=
| NotStarted | ConstructLoop | InitCallback | PublishLoop | EnterLoop | InLoop
| LockMutex | ClearLoop | UnlockMutex | DestroyLoop | ThreadEnded.

#[export] Instance owner_call_eq_dec : EqDecision owner_call.
Proof. solve_decision. Defined.
#[export] Instance thread_at_eq_dec : EqDecision thread_at.
Proof. solve_decision. Defined.

Record life := mkLife {
  object : option EventLoopThread;
  stack_loop : option EventLoop;
  owner : list owner_call;
  thread : thread_at;
}.

Section Life.
(** The wakeup channel, the calls of handlers and functors, and those of
    [callback_]. *)
Variables (wakeupChannel_ : Z) (handler body : Z -> list call_loop) (init : list call_loop).

(** The object and the loop, if they are still there. *)
Definition with_object {A} (y : life) (k : EventLoopThread -> res A) : res A :=
  match object y with Some t => k t | None => Fail OutOfRange end.
Definition with_loop {A} (y : life) (k : EventLoop -> res A) : res A :=
  match stack_loop y with Some l => k l | None => Fail OutOfRange end.

Definition do_calls (cs : list call_loop) (l : EventLoop) : EventLoop :=
  fold_left (fun l c => snd (do_call body c l)) cs l.

(** A step of [threadFunc]; [active] is what a poll reports. *)
Definition threadFunc (active : list Z) (y : life) : res life :=
  let goto o l p := Ok (mkLife o l (owner y) p) in
  match thread y with
  | NotStarted | ThreadEnded => Ok y
  | ConstructLoop => goto (object y) (Some newEventLoop) InitCallback
  | InitCallback => with_object y (fun t => with_loop y (fun l => goto (object y) (Some (do_calls init l)) PublishLoop))
  | PublishLoop =>
      with_object y (fun t => if mutex_held t then Ok y else goto (Some (set_loop true t)) (stack_loop y) EnterLoop)
  | EnterLoop =>
      with_loop y (fun l => let! l := enter l in goto (object y) (Some l) (if at_ l is Idle then LockMutex else InLoop))
  | InLoop =>
      with_loop y (fun l =>
        let l := loopStep wakeupChannel_ handler body active l in
        goto (object y) (Some l) (if at_ l is Idle then LockMutex else InLoop))
  | LockMutex =>
      with_object y (fun t => if mutex_held t then Ok y else goto (Some (set_held true t)) (stack_loop y) ClearLoop)
  | ClearLoop => with_object y (fun t => goto (Some (set_loop false t)) (stack_loop y) UnlockMutex)
  | UnlockMutex => with_object y (fun t => goto (Some (set_held false t)) (stack_loop y) DestroyLoop)
  | DestroyLoop => goto (object y) None ThreadEnded
  end.

Definition startLoop (t : EventLoopThread) (rest : list owner_call) (y : life) : res life :=
  assert! negb (started_ t) ;;
  Ok (mkLife (Some (mkELT (loop_ t) (exiting_ t) true (joined_ t) (mutex_held t))) (stack_loop y) rest ConstructLoop).

(** [while (loop_ == NULL) cond_.wait();] under the mutex. *)
Definition awaitLoop (t : EventLoopThread) (rest : list owner_call) (y : life) : res life :=
  if loop_ t && negb (mutex_held t) then Ok (mkLife (object y) (stack_loop y) rest (thread y)) else Ok y.

(** The destructor reads [loop_] without the mutex. *)
Definition exitThread (t : EventLoopThread) (rest : list owner_call) (y : life) : res life :=
  let t' := mkELT (loop_ t) true (started_ t) (joined_ t) (mutex_held t) in
  Ok (mkLife (Some t') (stack_loop y) (if loop_ t then [SetQuit; Wakeup; Join; Free] ++ rest else Free :: rest) (thread y)).

(** The members go: [mutex_] must not be held, and a thread that was started and not
    joined is detached. *)
Definition freeThread (t : EventLoopThread) (rest : list owner_call) (y : life) : res life :=
  assert! negb (mutex_held t) ;;
  Ok (mkLife None (stack_loop y) rest (thread y)).

Definition joinThread (t : EventLoopThread) (rest : list owner_call) (y : life) : res life :=
  assert! started_ t ;;
  assert! negb (joined_ t) ;;
  Ok (mkLife (Some (mkELT (loop_ t) (exiting_ t) (started_ t) true (mutex_held t))) (stack_loop y) (JoinWait :: rest) (thread y)).

Definition owner_step (y : life) : res life :=
  match owner y with
  | [] => Ok y
  | c :: rest =>
      let next l := Ok (mkLife (object y) l rest (thread y)) in
      with_object y (fun t =>
        match c with
        | StartLoop => startLoop t rest y
        | AwaitLoop => awaitLoop t rest y
        | UseLoop => with_loop y (fun l => if at_ l is Idle then Ok y else next (Some l))
        | Exit => exitThread t rest y
        | SetQuit => with_loop y (fun l => next (Some (set_quit true l)))
        | Wakeup => with_loop y (fun l => next (Some (wakeup l)))
        | Join => joinThread t rest y
        | JoinWait => if bool_decide (thread y = ThreadEnded) then next (stack_loop y) else Ok y
        | Free => freeThread t rest y
        end)
  end.

Inductive mover := Owner | Thread (active : list Z).

Definition life_step (y : life) (m : mover) : res life :=
  match m with Owner => owner_step y | Thread active => threadFunc active y end.
End Life.

(** A creator that uses the loop between [startLoop] and the destructor, or does not. *)
Definition begin_life (uses : bool) : life :=
  mkLife (Some newEventLoopThread) None (StartLoop :: AwaitLoop :: (if uses then [UseLoop; Exit] else [Exit])) NotStarted.

(** * Properties *)

(** ** One loop per thread *)

(** Loops are made at addresses that are free. *)
Definition fresh_op (y : loops) (o : loops_op) : Prop :=
  match o with Construct _ this _ => live y !! this = None | _ => True end.

Definition loops_inv (y : loops) : Prop :=
  forall i this, getEventLoopOfCurrentThread i y = Some this <-> exists fd, live y !! this = Some (i, fd).

Lemma loops_step_inv y o :
  loops_inv y -> fresh_op y o ->
  match loops_step y o with
  | Ok y' => loops_inv y'
  | Fail f => match o with
              | Construct i this fd => f = Aborted /\ (fd < 0 \/ is_Some (getEventLoopOfCurrentThread i y))
              | Destruct i this => getEventLoopOfCurrentThread i y <> Some this
              end
  end.
Proof.
  unfold loops_inv, getEventLoopOfCurrentThread. intros Hy Hf. destruct o as [i this fd|i this]; cbn [loops_step].
  - unfold constructLoop, createEventfd. destruct (Z.ltb_spec fd 0) as [Hn|Hn]; cbn [res_bind]; [by auto|].
    destruct (t_loopInThisThread y !! i) eqn:Ei; [by eauto|]. cbn in Hf |- *. intros j a.
    setoid_rewrite lookup_insert_Some. rewrite Hy. split.
    + intros [[-> ->]|[Hne [fd' Ha]]]; [by exists fd; left|]. exists fd'. right. split; [congruence|done].
    + intros [fd' [[-> [= -> ->]]|[Hne Ha]]]; [by left|]. right. split; [|by eauto]. intros <-.
      assert (t_loopInThisThread y !! i = Some a) by (rewrite Hy; eauto). congruence.
  - unfold destroyLoop, isInLoopThread. destruct (live y !! this) as [[j fd]|] eqn:El; cbn [fst snd].
    2:{ rewrite Hy. intros [? ?]. congruence. }
    case_bool_decide as Hj.
    + subst j. cbn. intros j a. setoid_rewrite lookup_delete_Some. rewrite Hy. split.
      * intros [Hne [fd' Ha]]. exists fd'. split; [congruence|done].
      * intros [fd' [Hne Ha]]. split; [|by eauto]. intros ->.
        assert (t_loopInThisThread y !! j = Some a) by (rewrite Hy; eauto).
        assert (t_loopInThisThread y !! j = Some this) by (rewrite Hy; eauto). congruence.
    + rewrite Hy. intros [? ?]. congruence.
Qed.

(** Sequences of constructions at free addresses and destructions. *)
Inductive loops_run : loops -> list loops_op -> loops -> Prop :=
| loops_nil y : loops_run y [] y
| loops_cons y o y1 ops y' : fresh_op y o -> loops_step y o = Ok y1 -> loops_run y1 ops y' -> loops_run y (o :: ops) y'.

(** C39: a thread has at most one loop: [getEventLoopOfCurrentThread] gives exactly the live
    loop the thread made, a second construction in a thread that has one aborts, and
    after its destruction another can be made. *)
Theorem one_loop_per_thread ops y :
  loops_run newLoops ops y ->
  (forall i a, getEventLoopOfCurrentThread i y = Some a <-> exists fd, live y !! a = Some (i, fd)) /\
  (forall i a b fd fd', live y !! a = Some (i, fd) -> live y !! b = Some (i, fd') -> a = b) /\
  (forall i this fd, live y !! this = None ->
     (exists y', constructLoop i this fd y = Ok y') <-> 0 <= fd /\ getEventLoopOfCurrentThread i y = None) /\
  (forall i this, (exists y', destroyLoop i this y = Ok y') <-> getEventLoopOfCurrentThread i y = Some this).
Proof.
  intros Hr. assert (loops_inv y) as Hy.
  { assert (loops_inv newLoops) as H0 by (intros i this; split; [done|by intros [? ?]]).
    induction Hr as [|y0 o y1 ops y' Hf E _ IH]; [done|]. apply IH.
    pose proof (loops_step_inv y0 o H0 Hf) as H1. by rewrite E in H1. }
  clear Hr. unfold loops_inv, getEventLoopOfCurrentThread in *. split_and!.
  - exact Hy.
  - intros i a b fd fd' Ha Hb. assert (t_loopInThisThread y !! i = Some a) by (rewrite Hy; eauto).
    assert (t_loopInThisThread y !! i = Some b) by (rewrite Hy; eauto). congruence.
  - intros i this fd Hfr. unfold constructLoop, createEventfd. destruct (Z.ltb_spec fd 0); cbn [res_bind].
    + split; [by intros [? ?]|lia].
    + destruct (t_loopInThisThread y !! i); split; [by intros [? ?]|by intros [? ?]|done|eauto].
  - intros i this. rewrite Hy. unfold destroyLoop, isInLoopThread. destruct (live y !! this) as [[j fd]|]; cbn [fst snd].
    + case_bool_decide; subst; split; eauto; [by intros [? ?]|intros [? ?]; congruence].
    + split; [by intros [? ?]|by intros [? ?]].
Qed.

(** ** The thread of a loop *)

Section Proofs.
Context (wakeupChannel_ : Z) (handler body : Z -> list call_loop) (init : list call_loop).

(** Handlers and functors queue functors at most.  (What they run with [runInLoop]
    they run themselves, so its calls are theirs.) *)
Definition tame (cs : list call_loop) : Prop :=
  Forall (fun c => match c with QueueInLoop _ => True | _ => False end) cs.

Context (Hhandler : forall c, tame (handler c)) (Hbody : forall f, tame (body f)) (Hinit : tame init).

Local Abbreviation loopStep := (loopStep wakeupChannel_ handler body).
Local Abbreviation solo := (solo wakeupChannel_ handler body).
Local Abbreviation step := (life_step wakeupChannel_ handler body init).

Definition tame_phase (l : EventLoop) : Prop :=
  match at_ l with Handling cs _ | Calling cs _ => tame cs | _ => True end.

Lemma tame_flat cs : tame cs -> flat cs.
Proof. intros H. eapply Forall_impl; [exact H|]. by intros []. Qed.

Lemma queueInLoop_frame f l :
  quit_ (queueInLoop true f l) = quit_ l /\ at_ (queueInLoop true f l) = at_ l /\ looping_ (queueInLoop true f l) = looping_ l.
Proof. unfold queueInLoop. cbn. by destruct (callingPendingFunctors_ l). Qed.

Lemma tame_step active l :
  tame_phase l -> tame_phase (loopStep active l) /\ quit_ (loopStep active l) = quit_ l /\
  (at_ l <> Idle -> at_ (loopStep active l) = Idle -> quit_ l = true).
Proof.
  unfold tame_phase, EventLoops.loopStep. destruct (at_ l) as [| |[|c cs] [|x todo]|[|c cs] [|x todo]] eqn:Ea; intros Ht.
  all: try (cbn; split_and!; (done || by apply Forall_nil)).
  - by rewrite Ea.
  - unfold handleChannel. destruct (_ =? _); cbn; split_and!; (done || apply Hhandler || by apply Forall_nil).
  - apply Forall_cons in Ht as [Hc Ht]. destruct c as [f| |]; try done. cbn. split_and!; [done|apply queueInLoop_frame|done].
  - apply Forall_cons in Ht as [Hc Ht]. destruct c as [f| |]; try done. cbn. split_and!; [done|apply queueInLoop_frame|done].
  - unfold doneCalling, testQuit. cbn. destruct (quit_ l) eqn:Eq; cbn; by rewrite ?Eq.
  - apply Forall_cons in Ht as [Hc Ht]. destruct c as [f| |]; try done. cbn. split_and!; [done|apply queueInLoop_frame|done].
  - apply Forall_cons in Ht as [Hc Ht]. destruct c as [f| |]; try done. cbn. split_and!; [done|apply queueInLoop_frame|done].
Qed.

Lemma do_calls_tame cs l :
  tame cs -> at_ (do_calls body cs l) = at_ l /\ looping_ (do_calls body cs l) = looping_ l /\ quit_ (do_calls body cs l) = quit_ l.
Proof.
  intros Hc. revert l. induction Hc as [|c cs Hc _ IH]; intros l; [done|]. cbn [do_calls fold_left].
  destruct (IH (snd (do_call body c l))) as (H1 & H2 & H3). unfold do_calls in *. rewrite H1, H2, H3.
  destruct c as [f| |]; try done. cbn. by destruct (queueInLoop_frame f l) as (-> & -> & ->).
Qed.

(** What is known of the loop where the thread is. *)
Definition loop_fine (p : thread_at) (l : EventLoop) : Prop :=
  match p with
  | InitCallback | PublishLoop | EnterLoop => at_ l = Idle /\ looping_ l = false
  | InLoop => at_ l <> Idle /\ tame_phase l
  | _ => True
  end.

Definition running_at (p : thread_at) : bool := bool_decide (p = EnterLoop \/ p = InLoop).
Definition ending_at (p : thread_at) : bool :=
  bool_decide (p = LockMutex \/ p = ClearLoop \/ p = UnlockMutex \/ p = DestroyLoop).

(** The object while the thread is at [p] and after. *)
Definition object_at (exiting joined : bool) (p : thread_at) : EventLoopThread :=
  mkELT (bool_decide (p = EnterLoop \/ p = InLoop \/ p = LockMutex \/ p = ClearLoop)) exiting true joined
    (bool_decide (p = ClearLoop \/ p = UnlockMutex)).

Inductive life_inv (uses : bool) : life -> Prop :=
| lv_begin : life_inv uses (begin_life uses)
| lv_construct tl :
    tl = (if uses then [UseLoop; Exit] else [Exit]) ->
    life_inv uses (mkLife (Some (object_at false false ConstructLoop)) None (AwaitLoop :: tl) ConstructLoop)
| lv_starting tl l p :
    tl = (if uses then [UseLoop; Exit] else [Exit]) -> p = InitCallback \/ p = PublishLoop -> loop_fine p l -> quit_ l = false ->
    life_inv uses (mkLife (Some (object_at false false p)) (Some l) (AwaitLoop :: tl) p)
| lv_running o l p :
    o = (if uses then [AwaitLoop; UseLoop; Exit] else [AwaitLoop; Exit]) \/ (uses = true /\ o = [UseLoop; Exit]) \/ o = [Exit] ->
    running_at p = true -> loop_fine p l -> quit_ l = false -> (uses = true -> o = [Exit] -> p = InLoop) ->
    life_inv uses (mkLife (Some (object_at false false p)) (Some l) o p)
| lv_quitting l p :
    running_at p = true -> loop_fine p l -> quit_ l = false -> (uses = true -> p = InLoop) ->
    life_inv uses (mkLife (Some (object_at true false p)) (Some l) [SetQuit; Wakeup; Join; Free] p)
| lv_ending o j l p :
    (o = [Wakeup; Join; Free] \/ o = [Join; Free]) /\ j = false \/ o = [JoinWait; Free] /\ j = true ->
    running_at p || ending_at p = true -> loop_fine p l -> (uses = true -> p <> EnterLoop /\ (p = InLoop -> quit_ l = true)) ->
    life_inv uses (mkLife (Some (object_at true j p)) (Some l) o p)
| lv_ended o j :
    (o = [Wakeup; Join; Free] \/ o = [Join; Free]) /\ j = false \/ (o = [JoinWait; Free] \/ o = [Free]) /\ j = true ->
    life_inv uses (mkLife (Some (object_at true j ThreadEnded)) None o ThreadEnded)
| lv_over : life_inv uses (mkLife None None [] ThreadEnded).

(** The one fault there is. *)
Definition wakeup_race (y : life) (m : mover) : Prop :=
  m = Owner /\ owner y = [Wakeup; Join; Free] /\ thread y = ThreadEnded.

Lemma owner_step_inv uses y :
  life_inv uses y ->
  match owner_step y with Ok y' => life_inv uses y' | Fail f => f = OutOfRange /\ wakeup_race y Owner end.
Proof.
  intros Hy. destruct Hy as [|tl ->|tl l p -> Hp Hl Hq|o l p Ho Hp Hl Hq Hu|l p Hp Hl Hq Hu|o j l p Ho Hp Hl Hu|o j Ho|].
  - cbn. by apply lv_construct.
  - cbn. by apply lv_construct.
  - destruct Hp as [->| ->]; cbn; apply lv_starting; auto.
  - assert (p = EnterLoop \/ p = InLoop) as Hp' by (by apply bool_decide_eq_true in Hp).
    assert (loop_ (object_at false false p) = true /\ mutex_held (object_at false false p) = false) as [E1 E2].
    { by destruct Hp' as [->| ->]. }
    destruct Ho as [->|[[-> ->]| ->]].
    + destruct uses; cbn [owner_step owner with_object object]; unfold awaitLoop; rewrite E1, E2; cbn [andb negb].
      * apply lv_running; auto. by intros _ [=].
      * apply lv_running; auto; done.
    + cbn [owner_step owner with_object object with_loop stack_loop]. destruct Hp' as [->| ->].
      * destruct Hl as [Hl1 Hl2]. rewrite Hl1. apply lv_running; cbn; auto.
      * destruct Hl as [Hl1 Hl2]. destruct (at_ l) eqn:Ea; [done|..]; apply lv_running; cbn; rewrite ?Ea; auto.
    + cbn [owner_step owner with_object object]. unfold exitThread.
      destruct Hp' as [->| ->]; [apply (lv_quitting uses l EnterLoop)|apply (lv_quitting uses l InLoop)]; auto.
  - cbn. apply (lv_ending uses _ false); [by auto|by rewrite Hp| |].
    + unfold loop_fine in *. destruct p; try done.
    + intros ->. split; [|done]. rewrite (Hu eq_refl). done.
  - destruct Ho as [[[->| ->] ->]|[-> ->]].
    + cbn. apply (lv_ending uses _ false); auto.
    + cbn. apply (lv_ending uses _ true); auto.
    + cbn. rewrite bool_decide_false by (intros ->; done). by apply (lv_ending uses _ true); auto.
  - destruct Ho as [[[->| ->] ->]|[[->| ->] ->]].
    + cbn. done.
    + cbn. apply (lv_ended uses _ true). auto.
    + cbn. apply (lv_ended uses _ true). auto.
    + cbn. apply lv_over.
  - cbn. apply lv_over.
Qed.

Lemma thread_step_inv uses y active :
  life_inv uses y -> exists y', threadFunc wakeupChannel_ handler body init active y = Ok y' /\ life_inv uses y'.
Proof.
  assert (forall l p, loop_fine InLoop l -> p = (if at_ (loopStep active l) is Idle then LockMutex else InLoop) ->
    loop_fine p (loopStep active l) /\ quit_ (loopStep active l) = quit_ l /\ (p = LockMutex -> quit_ l = true) /\
    (p = LockMutex \/ p = InLoop)) as Hstep.
  { intros l p [Ha Ht] ->. destruct (tame_step active l Ht) as (H1 & H2 & H3).
    destruct (at_ (loopStep active l)) eqn:E; cbn; rewrite ?E; split_and!; auto; done. }
  assert (forall l, loop_fine EnterLoop l -> exists l', enter l = Ok l' /\ loop_fine InLoop l' /\ at_ l' = Polling /\ quit_ l' = false) as Henter.
  { intros l [Ha Hl]. unfold enter. rewrite Hl. cbn. eexists. split; [reflexivity|]. by split_and!. }
  intros Hy. destruct Hy as [|tl ->|tl l p -> Hp Hl Hq|o l p Ho Hp Hl Hq Hu|l p Hp Hl Hq Hu|o j l p Ho Hp Hl Hu|o j Ho|].
  - cbn. eexists. split; [reflexivity|]. apply lv_begin.
  - cbn. eexists. split; [reflexivity|]. by apply (lv_starting uses _ newEventLoop InitCallback); auto.
  - destruct (do_calls_tame init l Hinit) as (H1 & H2 & H3).
    assert (at_ l = Idle /\ looping_ l = false) as [Ha Hlo] by (by destruct Hp as [->| ->]).
    destruct Hp as [->| ->]; cbn; eexists; (split; [reflexivity|]).
    + apply (lv_starting uses _ _ PublishLoop); auto; [split|]; congruence.
    + apply (lv_running uses _ l EnterLoop); [by destruct uses; auto|done|done|done|by intros -> [=]].
  - assert (p = EnterLoop \/ p = InLoop) as [->| ->] by (by apply bool_decide_eq_true in Hp).
    + destruct (Henter l Hl) as (l' & E & Hf & Ha & Hq'). cbn. rewrite E. cbn. rewrite Ha.
      eexists. split; [reflexivity|]. apply (lv_running uses o l' InLoop); auto.
    + cbn. destruct (Hstep l _ Hl eq_refl) as (H1 & H2 & H3 & [H4|H4]); rewrite H4 in *.
      * rewrite (H3 eq_refl) in Hq. done.
      * eexists. split; [reflexivity|]. apply (lv_running uses o _ InLoop); auto. congruence.
  - assert (p = EnterLoop \/ p = InLoop) as [->| ->] by (by apply bool_decide_eq_true in Hp).
    + destruct (Henter l Hl) as (l' & E & Hf & Ha & Hq'). cbn. rewrite E. cbn. rewrite Ha.
      eexists. split; [reflexivity|]. apply (lv_quitting uses l' InLoop); auto.
    + cbn. destruct (Hstep l _ Hl eq_refl) as (H1 & H2 & H3 & [H4|H4]); rewrite H4 in *.
      * rewrite (H3 eq_refl) in Hq. done.
      * eexists. split; [reflexivity|]. apply (lv_quitting uses _ InLoop); auto. congruence.
  - assert (p = EnterLoop \/ p = InLoop \/ p = LockMutex \/ p = ClearLoop \/ p = UnlockMutex \/ p = DestroyLoop) as Hp'.
    { apply orb_true_iff in Hp as [Hp|Hp]; apply bool_decide_eq_true in Hp; tauto. }
    destruct Hp' as [->|[->|[->|[->|[->| ->]]]]].
    + destruct (Henter l Hl) as (l' & E & Hf & Ha & Hq'). cbn. rewrite E. cbn. rewrite Ha.
      eexists. split; [reflexivity|]. apply (lv_ending uses o j l' InLoop); auto. intros Hu'. by destruct (Hu Hu').
    + cbn. destruct (Hstep l _ Hl eq_refl) as (H1 & H2 & H3 & [H4|H4]); rewrite H4 in *; eexists; (split; [reflexivity|]).
      * apply (lv_ending uses o j _ LockMutex); [done|done|done|by split].
      * apply (lv_ending uses o j _ InLoop); auto. intros Hu'. destruct (Hu Hu') as [_ Hi]. split; [done|]. rewrite H2. auto.
    + cbn. eexists. split; [reflexivity|]. apply (lv_ending uses o j l ClearLoop); [done|done|done|by split].
    + cbn. eexists. split; [reflexivity|]. apply (lv_ending uses o j l UnlockMutex); [done|done|done|by split].
    + cbn. eexists. split; [reflexivity|]. apply (lv_ending uses o j l DestroyLoop); [done|done|done|by split].
    + cbn. eexists. split; [reflexivity|]. apply (lv_ended uses o j). destruct Ho as [?|[-> ->]]; auto.
  - cbn. eexists. split; [reflexivity|]. by apply lv_ended.
  - cbn. eexists. split; [reflexivity|]. by apply lv_over.
Qed.

Lemma life_run_inv uses sch y :
  life_inv uses y ->
  match res_fold step y sch with
  | Ok y' => life_inv uses y'
  | Fail f => f = OutOfRange /\ exists sch1 rest y1, sch = sch1 ++ Owner :: rest /\
      res_fold step y sch1 = Ok y1 /\ owner y1 = [Wakeup; Join; Free] /\ thread y1 = ThreadEnded
  end.
Proof.
  revert y. induction sch as [|m sch IH]; intros y Hy; [done|]. cbn [res_fold]. destruct m as [|active]; cbn [life_step].
  - pose proof (owner_step_inv uses y Hy) as Hs. destruct (owner_step y) as [y1|f] eqn:E; cbn [res_bind].
    + specialize (IH y1 Hs). destruct (res_fold step y1 sch); [done|]. destruct IH as (-> & sch1 & rest & y2 & -> & E2 & H2).
      split; [done|]. exists (Owner :: sch1), rest, y2. cbn [res_fold life_step app]. by rewrite E.
    + destruct Hs as (-> & _ & H1 & H2). split; [done|]. by exists [], sch, y.
  - destruct (thread_step_inv uses y active Hy) as (y1 & E & Hs). rewrite E. cbn [res_bind].
    specialize (IH y1 Hs). destruct (res_fold step y1 sch); [done|]. destruct IH as (-> & sch1 & rest & y2 & -> & E2 & H2).
    split; [done|]. exists (Thread active :: sch1), rest, y2. cbn [res_fold life_step app]. by rewrite E.
Qed.

(** ** The destructor returns *)

Definition can_finish (y : life) : Prop := exists sch y', res_fold step y sch = Ok y' /\ owner y' = [].

Lemma can_step m y y1 : step y m = Ok y1 -> can_finish y1 -> can_finish y.
Proof. intros E (sch & y' & E' & Ho). exists (m :: sch), y'. cbn [res_fold]. by rewrite E. Qed.

(** A loop that was told to quit leaves [loop()]. *)
Lemma quit_leaves l : quit_ l = true -> at_ l <> Idle -> tame_phase l -> exists n, at_ (solo n l) = Idle.
Proof.
  assert (forall l cs fs, quit_ l = true -> at_ l = Calling cs fs -> tame cs -> exists n, at_ (solo n l) = Idle) as Hcall.
  { intros l0 cs fs Hq Ha Ht.
    destruct (calling_finishes wakeupChannel_ handler body fs cs l0) as [n Hn]; [intros f; apply tame_flat, Hbody|done|by apply tame_flat|].
    exists n. destruct Hn as [Hn|Hn]; [|done]. exfalso.
    assert (forall k, quit_ (solo k l0) = true /\ at_ (solo k l0) <> Polling) as Hk; [|by destruct (Hk n)].
    clear n Hn. induction k as [|k [IH1 IH2]]; [split; [done|]; cbn; by rewrite Ha|].
    change (solo (S k) l0) with (loopStep [] (solo k l0)). split; [by apply loopStep_monotone|].
    unfold EventLoops.loopStep. destruct (at_ (solo k l0)) as [| |[|c cs'] [|x todo]|[|c cs'] [|x todo]] eqn:E; try done.
    all: try (destruct (do_call _ _ _); done).
    - by rewrite E.
    - unfold handleChannel. by destruct (_ =? _).
    - unfold doneCalling, testQuit. cbn. by rewrite IH1. }
  intros Hq Ha Ht.
  assert (forall l cs todo, quit_ l = true -> at_ l = Handling cs todo -> tame cs -> exists n, at_ (solo n l) = Idle) as Hhand.
  { intros l0 cs todo Hq0 Ha0 Ht0.
    destruct (handling_finishes wakeupChannel_ handler body todo cs l0) as (n & fs & Hn); [intros c; apply tame_flat, Hhandler|done|by apply tame_flat|].
    assert (quit_ (solo n l0) = true) as Hqn.
    { clear Hn. induction n as [|n IH]; [done|]. by apply loopStep_monotone. }
    destruct (Hcall _ _ _ Hqn Hn) as [m Hm]; [by apply Forall_nil|]. exists (n + m)%nat. by rewrite solo_add. }
  unfold tame_phase in Ht. destruct (at_ l) as [| |cs todo|cs fs] eqn:E; [done| |by eapply Hhand|by eapply Hcall].
  destruct (Hhand (loopStep [] l) [] []) as [n Hn].
  - by apply loopStep_monotone.
  - unfold EventLoops.loopStep. by rewrite E.
  - by apply Forall_nil.
  - exists (S n). by rewrite solo_S.
Qed.

Lemma ended_finishes o j : (o = [Join; Free] /\ j = false) \/ ((o = [JoinWait; Free] \/ o = [Free]) /\ j = true) ->
  can_finish (mkLife (Some (object_at true j ThreadEnded)) None o ThreadEnded).
Proof.
  assert (can_finish (mkLife (Some (object_at true true ThreadEnded)) None [Free] ThreadEnded)) as H1.
  { by exists [Owner]; eexists. }
  assert (can_finish (mkLife (Some (object_at true true ThreadEnded)) None [JoinWait; Free] ThreadEnded)) as H2.
  { eapply (can_step Owner); [reflexivity|exact H1]. }
  intros [[-> ->]|[[->| ->] ->]]; [|exact H2|exact H1]. eapply (can_step Owner); [reflexivity|exact H2].
Qed.

Lemma joining_finishes l p :
  running_at p || ending_at p = true -> p <> EnterLoop -> loop_fine p l -> (p = InLoop -> quit_ l = true) ->
  can_finish (mkLife (Some (object_at true true p)) (Some l) [JoinWait; Free] p).
Proof.
  assert (forall l, can_finish (mkLife (Some (object_at true true DestroyLoop)) (Some l) [JoinWait; Free] DestroyLoop)) as H1.
  { intros l0. eapply (can_step (Thread [])); [reflexivity|]. apply ended_finishes. auto. }
  assert (forall l, can_finish (mkLife (Some (object_at true true UnlockMutex)) (Some l) [JoinWait; Free] UnlockMutex)) as H2.
  { intros l0. eapply (can_step (Thread [])); [reflexivity|]. apply H1. }
  assert (forall l, can_finish (mkLife (Some (object_at true true ClearLoop)) (Some l) [JoinWait; Free] ClearLoop)) as H3.
  { intros l0. eapply (can_step (Thread [])); [reflexivity|]. apply H2. }
  assert (forall l, can_finish (mkLife (Some (object_at true true LockMutex)) (Some l) [JoinWait; Free] LockMutex)) as H4.
  { intros l0. eapply (can_step (Thread [])); [reflexivity|]. apply H3. }
  intros Hp Hne Hl Hq.
  assert (p = EnterLoop \/ p = InLoop \/ p = LockMutex \/ p = ClearLoop \/ p = UnlockMutex \/ p = DestroyLoop) as Hp'.
  { apply orb_true_iff in Hp as [Hp|Hp]; apply bool_decide_eq_true in Hp; tauto. }
  destruct Hp' as [->|[->|[->|[->|[->| ->]]]]]; auto; [done|]. destruct Hl as [Ha Ht].
  destruct (quit_leaves l (Hq eq_refl) Ha Ht) as [n Hn]. clear Hq Ht. revert l Ha Hn.
  induction n as [|n IH]; intros l Ha Hn; [done|]. rewrite solo_S in Hn.
  destruct (decide (at_ (loopStep [] l) = Idle)) as [E|E].
  - eapply (can_step (Thread [])); [cbn; by rewrite E|]. apply H4.
  - eapply (can_step (Thread [])); [|apply (IH (loopStep [] l) E Hn)]. cbn. by destruct (at_ (loopStep [] l)).
Qed.

Lemma ending_finishes o j l p :
  (o = [Wakeup; Join; Free] \/ o = [Join; Free]) /\ j = false \/ o = [JoinWait; Free] /\ j = true ->
  running_at p || ending_at p = true -> p <> EnterLoop -> loop_fine p l -> (p = InLoop -> quit_ l = true) ->
  can_finish (mkLife (Some (object_at true j p)) (Some l) o p).
Proof.
  intros Ho Hp Hne Hl Hq.
  assert (forall l, loop_fine p l -> (p = InLoop -> quit_ l = true) ->
    can_finish (mkLife (Some (object_at true false p)) (Some l) [Join; Free] p)) as Hj.
  { intros l0 Hl0 Hq0. eapply (can_step Owner); [reflexivity|]. by apply joining_finishes. }
  destruct Ho as [[[->| ->] ->]|[-> ->]]; [|by apply Hj|by apply joining_finishes].
  eapply (can_step Owner); [reflexivity|]. apply Hj; [|done]. unfold loop_fine in *. by destruct p.
Qed.

Lemma running_finishes l :
  loop_fine InLoop l -> quit_ l = false ->
  can_finish (mkLife (Some (object_at true false InLoop)) (Some l) [SetQuit; Wakeup; Join; Free] InLoop) /\
  can_finish (mkLife (Some (object_at false false InLoop)) (Some l) [Exit] InLoop) /\
  can_finish (mkLife (Some (object_at false false InLoop)) (Some l) [UseLoop; Exit] InLoop) /\
  can_finish (mkLife (Some (object_at false false InLoop)) (Some l) [AwaitLoop; UseLoop; Exit] InLoop).
Proof.
  intros Hl Hq.
  assert (can_finish (mkLife (Some (object_at true false InLoop)) (Some l) [SetQuit; Wakeup; Join; Free] InLoop)) as H1.
  { eapply (can_step Owner); [reflexivity|]. by apply (ending_finishes _ false (set_quit true l) InLoop); auto. }
  assert (can_finish (mkLife (Some (object_at false false InLoop)) (Some l) [Exit] InLoop)) as H2.
  { eapply (can_step Owner); [reflexivity|exact H1]. }
  assert (can_finish (mkLife (Some (object_at false false InLoop)) (Some l) [UseLoop; Exit] InLoop)) as H3.
  { eapply (can_step Owner); [|exact H2]. destruct Hl as [Ha _]. cbn. by destruct (at_ l). }
  split_and!; [done|done|done|]. eapply (can_step Owner); [reflexivity|exact H3].
Qed.

Lemma life_can_finish y :
  life_inv true y -> can_finish y \/ (owner y = [Wakeup; Join; Free] /\ thread y = ThreadEnded).
Proof.
  assert (forall l o, loop_fine EnterLoop l -> o = [AwaitLoop; UseLoop; Exit] \/ o = [UseLoop; Exit] ->
    can_finish (mkLife (Some (object_at false false EnterLoop)) (Some l) o EnterLoop)) as He.
  { intros l o [Ha Hlo] Ho. destruct (enter l) as [l'|] eqn:E; unfold enter in E; rewrite Hlo in E; cbn in E; [|done].
    assert (at_ l' = Polling /\ quit_ l' = false) as [Ha' Hq'] by (by simplify_eq).
    destruct (running_finishes l') as (_ & _ & H1 & H2); [split; [by rewrite Ha'|unfold tame_phase; by rewrite Ha']|done|].
    eapply (can_step (Thread [])); [cbn; unfold enter; rewrite Hlo; cbn; reflexivity|].
    apply (f_equal (fun r => if r is Ok l then l else l')) in E. cbn in E. rewrite E. by destruct Ho as [->| ->]. }
  assert (forall l, loop_fine PublishLoop l ->
    can_finish (mkLife (Some (object_at false false PublishLoop)) (Some l) [AwaitLoop; UseLoop; Exit] PublishLoop)) as Hp.
  { intros l Hl. eapply (can_step (Thread [])); [reflexivity|]. apply (He l); auto. }
  assert (forall l, loop_fine InitCallback l ->
    can_finish (mkLife (Some (object_at false false InitCallback)) (Some l) [AwaitLoop; UseLoop; Exit] InitCallback)) as Hi.
  { intros l [Ha Hlo]. eapply (can_step (Thread [])); [reflexivity|]. apply Hp.
    destruct (do_calls_tame init l Hinit) as (H1 & H2 & _). split; congruence. }
  assert (can_finish (mkLife (Some (object_at false false ConstructLoop)) None [AwaitLoop; UseLoop; Exit] ConstructLoop)) as Hc.
  { eapply (can_step (Thread [])); [reflexivity|]. by apply Hi. }
  intros Hy. destruct Hy as [|tl ->|tl l p -> Hpp Hl Hq|o l p Ho Hpp Hl Hq Hu|l p Hpp Hl Hq Hu|o j l p Ho Hpp Hl Hu|o j Ho|].
  - left. eapply (can_step Owner); [reflexivity|exact Hc].
  - by left.
  - left. destruct Hpp as [->| ->]; auto.
  - left. assert (p = EnterLoop \/ p = InLoop) as [->| ->] by (by apply bool_decide_eq_true in Hpp).
    + destruct Ho as [->|[[_ ->]| ->]]; [by apply He; auto..|]. by specialize (Hu eq_refl eq_refl).
    + destruct (running_finishes l Hl Hq) as (_ & H1 & H2 & H3). by destruct Ho as [->|[[_ ->]| ->]].
  - left. rewrite (Hu eq_refl) in *. by apply running_finishes.
  - left. destruct (Hu eq_refl). by apply ending_finishes.
  - destruct Ho as [[[->| ->] ->]|[Ho ->]]; [by right|left; apply ended_finishes; auto..].
  - left. by exists [], (mkLife None None [] ThreadEnded).
Qed.

(** ** Theorems *)

(** The creator has the loop and has not told it to quit. *)
Definition before_quit (c : owner_call) : bool := match c with UseLoop | Exit | SetQuit => true | _ => false end.

(** C11: an [EventLoopThread] whose loop only the destructor ends: however its creator and
    the thread interleave, [startLoop] returns only when the loop exists, the loop
    stays until the destructor tells it to quit, and when the destructor has returned
    the loop is gone and the thread has ended.  If the creator has used the loop in
    between, the destructor can always come to its end.  The one fault there can be is
    the one the comment in [EventLoop::quit] warns of: the loop sees [quit_] and is
    gone before [quit()] wakes it up. *)
Theorem loop_thread_life uses sch :
  match res_fold step (begin_life uses) sch with
  | Ok y =>
      (forall c rest, owner y = c :: rest -> before_quit c = true ->
         is_Some (stack_loop y) /\ (thread y = EnterLoop \/ thread y = InLoop)) /\
      (owner y = [] -> object y = None /\ stack_loop y = None /\ thread y = ThreadEnded) /\
      (uses = true -> can_finish y \/ (owner y = [Wakeup; Join; Free] /\ thread y = ThreadEnded))
  | Fail f => f = OutOfRange /\ exists sch1 rest y1, sch = sch1 ++ Owner :: rest /\
      res_fold step (begin_life uses) sch1 = Ok y1 /\ owner y1 = [Wakeup; Join; Free] /\ thread y1 = ThreadEnded
  end.
Proof.
  pose proof (life_run_inv uses sch (begin_life uses) (lv_begin uses)) as Hr.
  destruct (res_fold step (begin_life uses) sch) as [y|f]; [|exact Hr]. split_and!.
  - intros c rest Ho Hc. destruct Hr as [|tl ->|tl l p -> Hp Hl Hq|o l p Hoo Hp Hl Hq Hu|l p Hp Hl Hq Hu|o j l p Hoo Hp Hl Hu|o j Hoo|]; cbn in Ho |- *; simplify_eq; try done.
    1,2: split; [done|]; by apply bool_decide_eq_true in Hp.
    + destruct Hoo as [[[?|?] _]|[? _]]; by simplify_eq.
    + destruct Hoo as [[[?|?] _]|[[?|?] _]]; by simplify_eq.
  - intros Ho. destruct Hr as [|tl ->|tl l p -> Hp Hl Hq|o l p Hoo Hp Hl Hq Hu|l p Hp Hl Hq Hu|o j l p Hoo Hp Hl Hu|o j Hoo|]; cbn in Ho |- *; try done; subst o.
    + destruct Hoo as [Ho|[[_ Ho]|Ho]]; [by destruct uses|done|done].
    + by destruct Hoo as [[[?|?] _]|[? _]].
    + by destruct Hoo as [[[?|?] _]|[[?|?] _]].
  - intros ->. by apply life_can_finish.
Qed.
End Proofs.

(** A creator that destroys the object right after [startLoop]: if [quit()] comes
    before the thread enters [loop()], which clears [quit_], the loop runs for ever and
    the destructor waits for it for ever. *)
Theorem destructor_can_hang wakeupChannel_ handler body :
  (forall c, tame (handler c)) -> (forall f, tame (body f)) ->
  let run := res_fold (life_step wakeupChannel_ handler body []) in
  exists y, run (begin_life false) [Owner; Thread []; Thread []; Thread []; Owner; Owner; Owner; Owner; Owner; Thread []] = Ok y /\
    owner y = [JoinWait; Free] /\ forall sch, exists y', run y sch = Ok y' /\ owner y' = [JoinWait; Free].
Proof.
  intros Hh Hb run. eexists. split; [reflexivity|]. split; [reflexivity|].
  assert (forall sch l, loop_fine InLoop l -> quit_ l = false ->
    exists y', run (mkLife (Some (object_at true true InLoop)) (Some l) [JoinWait; Free] InLoop) sch = Ok y' /\ owner y' = [JoinWait; Free]) as H.
  { induction sch as [|m sch IH]; intros l [Ha Ht] Hq; [by eexists|]. cbn [run res_fold]. destruct m as [|active].
    - cbn. by apply IH.
    - destruct (tame_step wakeupChannel_ handler body Hh Hb active l Ht) as (H1 & H2 & H3). cbn.
      destruct (at_ (loopStep wakeupChannel_ handler body active l)) eqn:E;
        [specialize (H3 Ha eq_refl); congruence|..]; cbn; (apply IH; [split; [by rewrite E|done]|congruence]). }
  intros sch. by apply H.
Qed.

Lemma loop_thread_life_witness :
  let sch := [Owner; Thread []; Thread []; Thread []; Owner; Thread []; Owner; Owner; Owner; Owner; Owner;
              Thread [7]; Thread []; Thread []; Thread []; Thread []; Thread []; Thread []; Thread []; Thread []; Owner; Owner] in
  exists y, res_fold (life_step 7 (fun _ => []) (fun _ => []) [QueueInLoop 1]) (begin_life true) sch = Ok y /\
    owner y = [] /\ object y = None /\ stack_loop y = None /\ thread y = ThreadEnded.
Proof.
  intros sch.
  assert (forall c : Z, tame []) as H0 by (intros; by apply Forall_nil).
  assert (tame [QueueInLoop 1]) as H1 by (by apply Forall_cons; split; [|apply Forall_nil]).
  pose proof (loop_thread_life 7 (fun _ => []) (fun _ => []) [QueueInLoop 1] H0 H0 H1 true sch) as Hl.
  destruct (res_fold _ _ sch) as [y|f] eqn:E; [|by vm_compute in E].
  assert (owner y = []) as Ho by (vm_compute in E; by inversion E).
  exists y. split; [done|]. split; [done|]. by apply Hl.
Defined.

(** A loop that ends by itself: the destructor then finds no loop, does not join, and
    destroys the mutex while the thread still holds it; or it calls [quit()] on a loop
    that is gone. *)
Example self_quit_races :
  let run := res_fold (life_step 7 (fun _ => []) (fun _ => [Quit]) [QueueInLoop 1]) (begin_life true) in
  let sch := [Owner; Thread []; Thread []; Thread []; Owner; Thread []; Owner] in
  let loop := [Thread []; Thread []; Thread []; Thread []; Thread []] in
  run (sch ++ loop ++ [Thread []; Thread []; Owner; Owner]) = Fail AssertFailed /\
  run (sch ++ [Owner] ++ loop ++ [Thread []; Thread []; Thread []; Thread []; Owner]) = Fail OutOfRange.
Proof. by vm_compute. Qed.

(** And the race of [quit()] itself: the loop is gone between its two halves. *)
Example quit_races :
  res_fold (life_step 7 (fun _ => []) (fun _ => []) []) (begin_life true)
    [Owner; Thread []; Thread []; Thread []; Owner; Thread []; Owner; Owner; Owner;
     Thread []; Thread []; Thread []; Thread []; Thread []; Thread []; Thread []; Owner] = Fail OutOfRange.
Proof. by vm_compute. Qed.

Lemma one_loop_per_thread_witness :
  exists y, loops_run newLoops [Construct 0 100 5; Construct 1 200 6; Destruct 0 100; Construct 0 300 7] y /\
    getEventLoopOfCurrentThread 0 y = Some 300 /\ (exists fd, live y !! 300 = Some (0%nat, fd)) /\
    forall y', constructLoop 0 400 8 y <> Ok y'.
Proof.
  eexists. split.
  { repeat (eapply loops_cons; [done|reflexivity|]). apply loops_nil. }
  match goal with |- context [getEventLoopOfCurrentThread _ ?y] => set (y0 := y) end.
  assert (loops_run newLoops [Construct 0 100 5; Construct 1 200 6; Destruct 0 100; Construct 0 300 7] y0) as Hr.
  { repeat (eapply loops_cons; [done|reflexivity|]). apply loops_nil. }
  destruct (one_loop_per_thread _ _ Hr) as (H1 & _ & H3 & _).
  assert (getEventLoopOfCurrentThread 0 y0 = Some 300) as Hg by reflexivity.
  split; [exact Hg|]. split; [by apply H1|]. intros y' E.
  destruct (proj1 (H3 0%nat 400 8 eq_refl) (ex_intro _ y' E)) as [_ Hn]. congruence.
Defined.
