(* ===== verification/TcpConn.v ===== *)
(** * TCP connections (src/src/muduo/net/TcpConnection.h, TcpConnection.cc)

    One connection together with what it touches: its channel in the poller, the
    functors its loop still has to run, the delayed closes its timers hold, and
    the trace of what the kernel and the user saw.  The user's callbacks are
    arbitrary functions of that trace which answer with a list of calls on the
    connection; none of those calls runs another callback before it returns, so
    a callback is a script.  write(2), readv(2) and the poller are parameters.

    The object outlives every functor that mentions it: the raw [this] the code
    binds in [send], [shutdown], [startRead] and [stopRead] is assumed kept alive
    by a shared_ptr of the user. *)

From S2P Require Import Prelude Endian NetBuffer Channels Pollers.

Inductive StateE := kDisconnected | kConnecting | kConnected | kDisconnecting.

#[export] Instance StateE_eq_dec : EqDecision StateE.
Proof. solve_decision. Defined.

(** errno values of Linux. *)
Definition EWOULDBLOCK : Z := 11.
Definition EPIPE : Z := 32.
Definition ECONNRESET : Z := 104.

(** What happens on the outside. *)
Inductive event :=
| Connection (up : bool)          (** connectionCallback_ *)
| Message (content : list byte)   (** messageCallback_ *)
| WriteComplete                   (** writeCompleteCallback_ *)
| HighWater (n : Z)               (** highWaterMarkCallback_ *)
| Closed                          (** closeCallback_ *)
| Submit (data : list byte)       (** bytes handed to [sendInLoop] *)
| Wrote (data : list byte)        (** bytes write(2) took *)
| WriteFault                      (** EPIPE or ECONNRESET: the data is dropped *)
| ShutdownWrite                   (** shutdown(2) of the write side *)
| Destroyed.                      (** [connectDestroyed] is done *)

(** Calls a user makes on a connection. *)
Inductive api :=
| Send (data : list byte)
| SendInput                       (** [send(buf)] with the input buffer *)
| Shutdown
| ForceClose
| ForceCloseWithDelay
| StartRead
| StopRead.

(** Functors in the loop's queue. *)
Inductive task :=
| TConnectEstablished
| TConnectDestroyed
| TSendInLoop (data : list byte)
| TShutdownInLoop
| TForceCloseInLoop
| TStartReadInLoop
| TStopReadInLoop
| TWriteComplete
| THighWater (n : Z).

Record TcpConnection := mkTcpConnection {
  state_ : StateE;
  reading_ : bool;
  channel_ : Z;
  highWaterMark_ : Z;
  inputBuffer_ : Buffer;
  outputBuffer_ : Buffer;
}.

Definition newTcpConnection (channel : Z) : TcpConnection :=
  mkTcpConnection kConnecting true channel (64 * 1024 * 1024)
    (newBuffer kInitialSize) (newBuffer kInitialSize).

Definition stateToString (s : StateE) : string :=
  match s with
  | kDisconnected => "kDisconnected"
  | kConnecting => "kConnecting"
  | kConnected => "kConnected"
  | kDisconnecting => "kDisconnecting"
  end.

Definition setState (s : StateE) (c : TcpConnection) : TcpConnection :=
  mkTcpConnection s (reading_ c) (channel_ c) (highWaterMark_ c) (inputBuffer_ c)
    (outputBuffer_ c).
Definition setReading (b : bool) (c : TcpConnection) : TcpConnection :=
  mkTcpConnection (state_ c) b (channel_ c) (highWaterMark_ c) (inputBuffer_ c)
    (outputBuffer_ c).
Definition setInput (b : Buffer) (c : TcpConnection) : TcpConnection :=
  mkTcpConnection (state_ c) (reading_ c) (channel_ c) (highWaterMark_ c) b (outputBuffer_ c).
Definition setOutput (b : Buffer) (c : TcpConnection) : TcpConnection :=
  mkTcpConnection (state_ c) (reading_ c) (channel_ c) (highWaterMark_ c) (inputBuffer_ c) b.
Definition setHighWaterMarkCallback (n : Z) (c : TcpConnection) : TcpConnection :=
  mkTcpConnection (state_ c) (reading_ c) (channel_ c) n (inputBuffer_ c) (outputBuffer_ c).

Definition connected (c : TcpConnection) : bool := bool_decide (state_ c = kConnected).
Definition disconnected (c : TcpConnection) : bool := bool_decide (state_ c = kDisconnected).

(** The user's callbacks; the two optional ones may be empty.  [onMessage] also
    says how many bytes it retrieves from the buffer it is given. *)
Record Handlers := mkHandlers {
  onConnection : list event -> list api;
  onMessage : list event -> list byte -> Z * list api;
  onWriteComplete : option (list event -> list api);
  onHighWaterMark : option (list event -> list api);
}.

(** [defaultConnectionCallback] and [defaultMessageCallback]. *)
Definition defaultHandlers : Handlers :=
  mkHandlers (fun _ => []) (fun _ content => (len content, [])) None None.

Section Connection.
Context {P : Type} `{PollerOps P}.
(** The outcome of the k-th write(2): a count or an errno. *)
Variable write : nat -> list byte -> Z + Z.
Variable user : Handlers.

Record World := mkWorld {
  conn : TcpConnection;
  chans : store * P;
  pending : list task;
  delayed : nat;
  writes : nat;
  trace : list event;
}.

Definition on_conn (f : TcpConnection -> TcpConnection) (w : World) : World :=
  mkWorld (f (conn w)) (chans w) (pending w) (delayed w) (writes w) (trace w).
Definition on_chans (s : store * P) (w : World) : World :=
  mkWorld (conn w) s (pending w) (delayed w) (writes w) (trace w).
Definition queueTask (t : task) (w : World) : World :=
  mkWorld (conn w) (chans w) (pending w ++ [t]) (delayed w) (writes w) (trace w).
Definition log (e : event) (w : World) : World :=
  mkWorld (conn w) (chans w) (pending w) (delayed w) (writes w) (trace w ++ [e]).
Definition addTimer (w : World) : World :=
  mkWorld (conn w) (chans w) (pending w) (S (delayed w)) (writes w) (trace w).
Definition countWrite (w : World) : World :=
  mkWorld (conn w) (chans w) (pending w) (delayed w) (S (writes w)) (trace w).

Definition theChannel (w : World) : res Channel := deref (fst (chans w)) (channel_ (conn w)).

(** A method of [channel_] that goes through the poller. *)
Definition withChannel (f : bool -> Z -> store * P -> res (store * P)) (w : World) : res World :=
  let! s := f true (channel_ (conn w)) (chans w) in Ok (on_chans s w).

(** ** Sending *)

(** The direct write of [sendInLoop]: [nwrote], [remaining] and [faultError]. *)
Definition tryWrite (data : list byte) (w : World) : World * Z * Z * bool :=
  let w1 := countWrite w in
  match write (writes w) data with
  | inl n =>
      let remaining := u64 (len data - n) in
      let w2 := log (Wrote (take (Z.to_nat n) data)) w1 in
      let w3 := if (remaining =? 0) && bool_decide (is_Some (onWriteComplete user))
                then queueTask TWriteComplete w2 else w2 in
      (w3, n, remaining, false)
  | inr errno =>
      (w1, 0, len data,
       negb (errno =? EWOULDBLOCK) && ((errno =? EPIPE) || (errno =? ECONNRESET)))
  end.

Definition sendInLoop (data : list byte) (w : World) : res World :=
  if disconnected (conn w) then Ok w
  else
    let w := log (Submit data) w in
    let! c := theChannel w in
    let '(w, nwrote, remaining, faultError) :=
      if negb (isWriting c) && (readableBytes (outputBuffer_ (conn w)) =? 0)
      then tryWrite data w
      else (w, 0, len data, false) in
    assert! remaining <=? len data ;;
    if negb faultError && (0 <? remaining) then
      let oldLen := readableBytes (outputBuffer_ (conn w)) in
      let total := u64 (oldLen + remaining) in
      let w := if (highWaterMark_ (conn w) <=? total) && (oldLen <? highWaterMark_ (conn w))
                  && bool_decide (is_Some (onHighWaterMark user))
               then queueTask (THighWater total) w else w in
      let! out := append (outputBuffer_ (conn w)) (drop (Z.to_nat nwrote) data) in
      let w := on_conn (setOutput out) w in
      if negb (isWriting c) then withChannel enableWriting w else Ok w
    else Ok (if faultError then log WriteFault w else w).

Definition send (inLoop : bool) (data : list byte) (w : World) : res World :=
  if connected (conn w)
  then if inLoop then sendInLoop data w else Ok (queueTask (TSendInLoop data) w)
  else Ok w.

(** [send] of a buffer, here the input buffer. *)
Definition send_input (inLoop : bool) (w : World) : res World :=
  if connected (conn w) then
    let buf := inputBuffer_ (conn w) in
    if inLoop then
      let! data := load buf (peek buf) (readableBytes buf) in
      let! w := sendInLoop data w in
      Ok (on_conn (setInput (retrieveAll (inputBuffer_ (conn w)))) w)
    else
      let! '(data, buf') := retrieveAllAsString buf in
      Ok (queueTask (TSendInLoop data) (on_conn (setInput buf') w))
  else Ok w.

(** ** Closing *)

Definition shutdownInLoop (w : World) : res World :=
  let! c := theChannel w in
  if negb (isWriting c) then Ok (log ShutdownWrite w) else Ok w.

Definition shutdown (inLoop : bool) (w : World) : res World :=
  if connected (conn w) then
    let w := on_conn (setState kDisconnecting) w in
    if inLoop then shutdownInLoop w else Ok (queueTask TShutdownInLoop w)
  else Ok w.

Definition forceClose (w : World) : World :=
  match state_ (conn w) with
  | kConnected | kDisconnecting =>
      queueTask TForceCloseInLoop (on_conn (setState kDisconnecting) w)
  | _ => w
  end.

Definition forceCloseWithDelay (w : World) : World :=
  match state_ (conn w) with
  | kConnected | kDisconnecting => addTimer (on_conn (setState kDisconnecting) w)
  | _ => w
  end.

(** ** Reading on and off *)

Definition startReadInLoop (w : World) : res World :=
  let! c := theChannel w in
  if negb (reading_ (conn w)) || negb (isReading c) then
    let! w := withChannel enableReading w in
    Ok (on_conn (setReading true) w)
  else Ok w.

Definition startRead (inLoop : bool) (w : World) : res World :=
  if inLoop then startReadInLoop w else Ok (queueTask TStartReadInLoop w).

Definition stopReadInLoop (w : World) : res World :=
  let! c := theChannel w in
  if reading_ (conn w) || isReading c then
    let! w := withChannel disableReading w in
    Ok (on_conn (setReading false) w)
  else Ok w.

Definition stopRead (inLoop : bool) (w : World) : res World :=
  if inLoop then stopReadInLoop w else Ok (queueTask TStopReadInLoop w).

(** ** Callbacks *)

Definition call_api (inLoop : bool) (w : World) (a : api) : res World :=
  match a with
  | Send data => send inLoop data w
  | SendInput => send_input inLoop w
  | Shutdown => shutdown inLoop w
  | ForceClose => Ok (forceClose w)
  | ForceCloseWithDelay => Ok (forceCloseWithDelay w)
  | StartRead => startRead inLoop w
  | StopRead => stopRead inLoop w
  end.

Definition run_script (ops : list api) (w : World) : res World :=
  res_fold (call_api true) w ops.

Definition connectionCallback (w : World) : res World :=
  let w := log (Connection (connected (conn w))) w in
  run_script (onConnection user (trace w)) w.

Definition messageCallback (w : World) : res World :=
  let content := content (inputBuffer_ (conn w)) in
  let w := log (Message content) w in
  let '(n, ops) := onMessage user (trace w) content in
  let! buf := retrieve (inputBuffer_ (conn w)) n in
  run_script ops (on_conn (setInput buf) w).

Definition optionalCallback (e : event) (cb : option (list event -> list api)) (w : World)
    : res World :=
  match cb with
  | None => Fail (Thrown bad_function_call)
  | Some f => let w := log e w in run_script (f (trace w)) w
  end.

(** [closeCallback_], as TcpServer and TcpClient set it: the owner forgets the
    connection and queues [connectDestroyed]. *)
Definition closeCallback (w : World) : World := queueTask TConnectDestroyed (log Closed w).

(** ** Event handlers *)

Definition handleClose (w : World) : res World :=
  assert! match state_ (conn w) with kConnected | kDisconnecting => true | _ => false end ;;
  let w := on_conn (setState kDisconnected) w in
  let! w := withChannel disableAll w in
  let! w := connectionCallback w in
  Ok (closeCallback w).

(** [handleError] only logs. *)
Definition handleError (w : World) : res World := Ok w.

Definition handleRead (readv : list Z -> io_read) (w : World) : res World :=
  let! '(n, savedErrno, buf) := readFd readv (inputBuffer_ (conn w)) in
  let w := on_conn (setInput buf) w in
  if 0 <? n then messageCallback w
  else if n =? 0 then handleClose w
  else handleError w.

Definition handleWrite (w : World) : res World :=
  let! c := theChannel w in
  if isWriting c then
    let out := outputBuffer_ (conn w) in
    let! data := load out (peek out) (readableBytes out) in
    let r := write (writes w) data in
    let w := countWrite w in
    match r with
    | inl n =>
        if 0 <? n then
          let w := log (Wrote (take (Z.to_nat n) data)) w in
          let! out' := retrieve out n in
          let w := on_conn (setOutput out') w in
          if readableBytes out' =? 0 then
            let! w := withChannel disableWriting w in
            let w := if bool_decide (is_Some (onWriteComplete user))
                     then queueTask TWriteComplete w else w in
            if bool_decide (state_ (conn w) = kDisconnecting) then shutdownInLoop w else Ok w
          else Ok w
        else Ok w
    | inr _ => Ok w
    end
  else Ok w.

Definition forceCloseInLoop (w : World) : res World :=
  match state_ (conn w) with
  | kConnected | kDisconnecting => handleClose w
  | _ => Ok w
  end.

Definition connectEstablished (w : World) : res World :=
  assert! bool_decide (state_ (conn w) = kConnecting) ;;
  let w := on_conn (setState kConnected) w in
  let w := on_chans (alter tie (channel_ (conn w)) (fst (chans w)), snd (chans w)) w in
  let! w := withChannel enableReading w in
  connectionCallback w.

Definition connectDestroyed (w : World) : res World :=
  let! w := (if connected (conn w) then
               let! w := withChannel disableAll (on_conn (setState kDisconnected) w) in
               connectionCallback w
             else Ok w) in
  let! w := withChannel channel_remove w in
  Ok (log Destroyed w).

(** [~TcpConnection]. *)
Definition destroyConnection (c : TcpConnection) : res unit :=
  cassert (disconnected c).

(** ** The loop's view: one functor, one event, one timer *)

Definition run_task (t : task) (w : World) : res World :=
  match t with
  | TConnectEstablished => connectEstablished w
  | TConnectDestroyed => connectDestroyed w
  | TSendInLoop data => sendInLoop data w
  | TShutdownInLoop => shutdownInLoop w
  | TForceCloseInLoop => forceCloseInLoop w
  | TStartReadInLoop => startReadInLoop w
  | TStopReadInLoop => stopReadInLoop w
  | TWriteComplete => optionalCallback WriteComplete (onWriteComplete user) w
  | THighWater n => optionalCallback (HighWater n) (onHighWaterMark user) w
  end.

(** The callbacks the constructor installs in [channel_]. *)
Definition connCallbacks (readv : list Z -> io_read) : Callbacks World :=
  mkCallbacks (Some (fun _ => handleRead readv)) (Some handleWrite) (Some handleClose)
    (Some handleError).

Definition setHandling (b : bool) (w : World) : World :=
  on_chans (alter (set_eventHandling b) (channel_ (conn w)) (fst (chans w)), snd (chans w)) w.

(** A call from another thread is not one step: after its test of [state_] it sets
    the state, in [shutdown], [forceClose] and [forceCloseWithDelay], and then queues a
    functor or a timer; the loop may run before each of the two. *)
Definition mark (w : World) : World := on_conn (setState kDisconnecting) w.

Definition post (a : api) (w : World) : res World :=
  match a with
  | Send data => Ok (queueTask (TSendInLoop data) w)
  | SendInput =>
      let! '(data, buf') := retrieveAllAsString (inputBuffer_ (conn w)) in
      Ok (queueTask (TSendInLoop data) (on_conn (setInput buf') w))
  | Shutdown => Ok (queueTask TShutdownInLoop w)
  | ForceClose => Ok (queueTask TForceCloseInLoop w)
  | ForceCloseWithDelay => Ok (addTimer w)
  | StartRead => Ok (queueTask TStartReadInLoop w)
  | StopRead => Ok (queueTask TStopReadInLoop w)
  end.

Inductive input :=
| IEvent (revents : Z) (readv : list Z -> io_read)
| ITask
| ITimer
| IApi (a : api)                  (** from another thread, in one step *)
| IMark                           (** another thread, in the middle of a call *)
| IPost (a : api).

Definition exec (w : World) (i : input) : res World :=
  match i with
  | IEvent revents readv =>
      let! c := theChannel w in
      let c := set_revents revents c in
      let w := on_chans (<[channel_ (conn w) := c]> (fst (chans w)), snd (chans w)) w in
      handleEvent c true (connCallbacks readv) setHandling 0 w
  | ITask =>
      match pending w with
      | [] => Ok w
      | t :: ts =>
          run_task t (mkWorld (conn w) (chans w) ts (delayed w) (writes w) (trace w))
      end
  | ITimer =>
      match delayed w with
      | O => Ok w
      | S n => Ok (forceClose (mkWorld (conn w) (chans w) (pending w) n (writes w) (trace w)))
      end
  | IApi a => call_api false w a
  | IMark => Ok (mark w)
  | IPost a => post a w
  end.

(** A connection the acceptor just made: the channel is fresh and
    [connectEstablished] is queued. *)
Definition newWorld (ch fd : Z) (s : store * P) : World :=
  mkWorld (newTcpConnection ch) (<[ch := newChannel fd]> (fst s), snd s)
    [TConnectEstablished] 0 0 [].

End Connection.

(** ** What the trace says *)

Definition submitted (tr : list event) : list byte :=
  concat (omap (fun e => match e with Submit d => Some d | _ => None end) tr).
Definition wrote (tr : list event) : list byte :=
  concat (omap (fun e => match e with Wrote d => Some d | _ => None end) tr).
(** The steps of the connection's life. *)
Definition life (tr : list event) : list event :=
  omap (fun e => match e with Connection _ | Closed | Destroyed => Some e | _ => None end) tr.

Lemma submitted_snoc tr e :
  submitted (tr ++ [e]) = submitted tr ++ (match e with Submit d => d | _ => [] end).
Proof.
  unfold submitted; rewrite omap_app, concat_app; f_equal.
  by destruct e; simpl; rewrite ?app_nil_r.
Qed.

Lemma wrote_snoc tr e :
  wrote (tr ++ [e]) = wrote tr ++ (match e with Wrote d => d | _ => [] end).
Proof.
  unfold wrote; rewrite omap_app, concat_app; f_equal.
  by destruct e; simpl; rewrite ?app_nil_r.
Qed.

Lemma life_snoc tr e :
  life (tr ++ [e]) =
  life tr ++ (match e with Connection _ | Closed | Destroyed => [e] | _ => [] end).
Proof. unfold life; rewrite omap_app; f_equal; by destruct e. Qed.

Lemma fault_snoc (tr : list event) e : WriteFault ∉ tr ++ [e] -> WriteFault ∉ tr.
Proof. intros Hn Hi; apply Hn, elem_of_app; by left. Qed.

(** The write side is shut down while the connection is up only after everything
    handed over was written (or data was dropped). *)
Definition flushed (tr : list event) : Prop :=
  forall t1 t2, tr = t1 ++ ShutdownWrite :: t2 -> Connection false ∉ t1 -> WriteFault ∉ t1 ->
    submitted t1 = wrote t1.

Lemma flushed_snoc tr e :
  flushed tr ->
  (e = ShutdownWrite -> Connection false ∉ tr -> WriteFault ∉ tr -> submitted tr = wrote tr) ->
  flushed (tr ++ [e]).
Proof.
  intros Hf He t1 t2 Heq; destruct (decide (t2 = [])) as [->|Hne].
  - apply app_inj_tail in Heq as [<- ->]; by apply He.
  - destruct (exists_last Hne) as (t3 & e' & ->).
    change (t1 ++ ShutdownWrite :: t3 ++ [e']) with (t1 ++ (ShutdownWrite :: t3) ++ [e']) in Heq.
    rewrite app_assoc in Heq; apply app_inj_tail in Heq as [-> _]; by eapply Hf.
Qed.

Lemma flushed_other tr e : e <> ShutdownWrite -> flushed tr -> flushed (tr ++ [e]).
Proof. intros He Hf; by apply flushed_snoc. Qed.

(** The two functors of the connection's life that are still queued. *)
Definition lifeTasks (ts : list task) : list task :=
  omap (fun t => match t with TConnectEstablished | TConnectDestroyed => Some t
                 | _ => None end) ts.

Lemma lifeTasks_snoc ts t :
  lifeTasks (ts ++ [t]) =
  lifeTasks ts ++ (match t with TConnectEstablished | TConnectDestroyed => [t]
                   | _ => [] end).
Proof. unfold lifeTasks; rewrite omap_app; f_equal; by destruct t. Qed.

Section ConnectionProofs.
Context {P : Type} `{PollerSpec P}.
Context (write : nat -> list byte -> Z + Z) (user : Handlers) (ch fd : Z).

(** write(2) takes no more than it is given. *)
Definition write_ok : Prop :=
  forall k data n, write k data = inl n -> 0 <= n <= len data.

(** User code that leaves [startRead] and [stopRead] alone, and whose messages
    exist in memory. *)
Definition api_ok (a : api) : Prop :=
  match a with
  | Send data => len data <= max_size
  | StartRead | StopRead => False
  | _ => True
  end.

Definition user_ok : Prop :=
  (forall tr, Forall api_ok (onConnection user tr)) /\
  (forall tr c, 0 <= fst (onMessage user tr c) <= len c /\
                Forall api_ok (snd (onMessage user tr c))) /\
  (forall f tr, onWriteComplete user = Some f -> Forall api_ok (f tr)) /\
  (forall f tr, onHighWaterMark user = Some f -> Forall api_ok (f tr)).

Definition task_ok (t : task) : Prop :=
  match t with
  | TSendInLoop data => len data <= max_size
  | TStartReadInLoop | TStopReadInLoop => False
  | TWriteComplete => is_Some (onWriteComplete user)
  | THighWater _ => is_Some (onHighWaterMark user)
  | _ => True
  end.

(** *** The channel *)

(** The loop's channels and poller at some moment, and that since then only this
    channel and this descriptor have changed. *)
Context (s0 : store * P).

Definition others (s : store * P) : Prop :=
  (forall a, a <> ch ->
     option_relation same_channel (fun _ => False) (fun _ => False) (fst s0 !! a) (fst s !! a)) /\
  (forall f, f <> fd ->
     registered (snd s) !! f = registered (snd s0) !! f /\ watched (snd s) f = watched (snd s0) f).

Definition chan_fresh (s : store * P) : Prop :=
  exists c, fst s !! ch = Some c /\ fd_ c = fd /\ pinv (fst s) (snd s) /\
    events_ c = 0 /\ registered (snd s) !! fd = None /\ watched (snd s) fd = None /\ others s.

Definition chan_live (s : store * P) (writing : bool) : Prop :=
  exists c, fst s !! ch = Some c /\ fd_ c = fd /\ pinv (fst s) (snd s) /\ mask_ok c /\
    tied_ c = true /\
    registered (snd s) !! fd = Some ch /\ watched (snd s) fd = Some (ch, events_ c) /\
    isReading c = true /\ isWriting c = writing /\ others s.

Definition chan_off (s : store * P) : Prop :=
  exists c, fst s !! ch = Some c /\ fd_ c = fd /\ pinv (fst s) (snd s) /\
    events_ c = 0 /\ registered (snd s) !! fd = Some ch /\ watched (snd s) fd = None /\ others s.

Definition chan_gone (s : store * P) : Prop :=
  exists c, fst s !! ch = Some c /\ pinv (delete ch (fst s)) (snd s) /\
    events_ c = 0 /\ registered (snd s) !! fd = None /\ watched (snd s) fd = None /\ others s.

Context (fd_nonneg : 0 <= fd).

Lemma others_insert s c : others s -> others (<[ch := c]> (fst s), snd s).
Proof. intros [H1 H2]; split; [|done]; intros a Ha; cbn [fst]; rewrite lookup_insert_ne by done; auto. Qed.

Lemma others_alter s f : others s -> others (alter f ch (fst s), snd s).
Proof. intros [H1 H2]; split; [|done]; intros a Ha; cbn [fst]; rewrite lookup_alter_ne by done; auto. Qed.

(** What the laws of the poller say of the others after an operation on this channel. *)
Lemma others_law st p c st' p' :
  others (st, p) -> same_store (<[ch := c]> st) st' ->
  (forall f, f <> fd -> registered p' !! f = registered p !! f) ->
  (forall f, f <> fd -> watched p' f = watched p f) -> others (st', p').
Proof.
  intros [H1 H2] Hs Hr Hw; split; cbn [fst snd] in *.
  - intros a Ha; specialize (H1 a Ha); specialize (Hs a); rewrite lookup_insert_ne in Hs by done.
    destruct (fst s0 !! a), (st !! a), (st' !! a); try done; destruct H1 as [i ->], Hs as [j ->]; by exists j.
  - intros f Hf; destruct (H2 f Hf); rewrite Hr, Hw by done; done.
Qed.

Lemma nonempty_mask c : mask_ok c -> isReading c = true -> events_ c <> 0.
Proof. unfold isReading, has; intros _ Hr E; by rewrite E in Hr. Qed.

(** A mask operation on the registered (or fresh) channel that leaves it reading. *)
Lemma chan_update_live (f : Channel -> Channel) s c :
  others s -> fst s !! ch = Some c -> fd_ c = fd -> pinv (fst s) (snd s) ->
  (registered (snd s) !! fd = Some ch \/ registered (snd s) !! fd = None) ->
  fd_ (f c) = fd -> index_ (f c) = index_ c -> mask_ok (f c) -> isReading (f c) = true ->
  tied_ (f c) = true ->
  exists s', channel_update true f ch s = Ok s' /\ chan_live s' (isWriting (f c)).
Proof.
  destruct s as [st p]; intros Ho; simpl; intros Hc Hfd Hinv Hreg Hf Hi Hm Hr Ht.
  pose proof (nonempty_mask _ Hm Hr) as Hne.
  unfold channel_update, deref; simpl; rewrite Hc; simpl.
  destruct (update_law st p ch c (set_addedToLoop true (f c)) Hinv Hc)
    as (st' & p' & -> & Hinv' & Hs & Hreg' & W & _ & _ & Wo).
  { rewrite <- Hfd in *; split_and!; try done; destruct Hreg; auto. }
  destruct (same_store_lookup _ _ ch _ Hs (lookup_insert_eq _ _ _)) as [i Hi'].
  eexists; split; [done|]; eexists; split; [exact Hi'|]; simpl in *.
  rewrite Hfd in *; rewrite Hreg', lookup_insert_eq; split_and!; try done; [by apply W|].
  eapply others_law; try done; intros f' Hf'; by rewrite Hreg', lookup_insert_ne.
Qed.

Lemma chan_live_enableWriting s b :
  chan_live s b -> exists s', enableWriting true ch s = Ok s' /\ chan_live s' true.
Proof.
  intros (c & Hc & Hfd & Hinv & Hm & Ht & Hreg & _ & Hr & _ & Ho).
  destruct (mask_ok_ops _ Hm) as (_ & _ & Hm' & _).
  destruct (writing_masks c) as (E1 & E2 & _).
  destruct (chan_update_live writingOn s c) as (s' & E & L); try done; [by left|congruence|].
  rewrite E1 in L; eauto.
Qed.

Lemma chan_live_disableWriting s b :
  chan_live s b -> exists s', disableWriting true ch s = Ok s' /\ chan_live s' false.
Proof.
  intros (c & Hc & Hfd & Hinv & Hm & Ht & Hreg & _ & Hr & _ & Ho).
  destruct (mask_ok_ops _ Hm) as (_ & _ & _ & Hm' & _).
  destruct (writing_masks c) as (_ & _ & E1 & E2).
  destruct (chan_update_live writingOff s c) as (s' & E & L); try done; [by left|congruence|].
  rewrite E1 in L; eauto.
Qed.

Lemma chan_fresh_enableReading s :
  chan_fresh s ->
  exists s', enableReading true ch (alter tie ch (fst s), snd s) = Ok s' /\ chan_live s' false.
Proof.
  intros (c0 & Hc & Hfd & Hinv & He & Hreg & _ & Ho); destruct s as [st p]; simpl in *.
  assert (mask_ok (tie c0)) as Hm by (unfold mask_ok; simpl; lia).
  destruct (mask_ok_ops _ Hm) as (Hm' & _); destruct (reading_masks (tie c0)) as (E1 & E2 & _).
  assert (isWriting (readingOn (tie c0)) = false) as E3.
  { rewrite E2; unfold isWriting, has; simpl; by rewrite He. }
  destruct (chan_update_live readingOn (alter tie ch st, p) (tie c0)) as (s' & E & L);
    simpl; try done.
  - by apply (others_alter (st, p)).
  - by rewrite lookup_alter_eq, Hc.
  - rewrite (alter_Some _ _ _ c0) by done; by eapply frame_law.
  - by right.
  - rewrite E3 in L; eauto.
Qed.

Lemma chan_live_disableAll s b :
  chan_live s b -> exists s', disableAll true ch s = Ok s' /\ chan_off s'.
Proof.
  destruct s as [st p]; intros (c & Hc & Hfd & Hinv & Hm & _ & Hreg & _ & Hr & _ & Ho); simpl in *.
  unfold disableAll, channel_update, deref; simpl; rewrite Hc; simpl.
  destruct (update_law st p ch c (set_addedToLoop true (allOff c)) Hinv Hc)
    as (st' & p' & -> & Hinv' & Hs & Hreg' & _ & W & _ & Wo).
  { rewrite <- Hfd in *; split_and!; try done; by left. }
  destruct (same_store_lookup _ _ ch _ Hs (lookup_insert_eq _ _ _)) as [i Hi'].
  eexists; split; [done|]; eexists; split; [exact Hi'|]; simpl in *; rewrite Hfd in *.
  rewrite Hreg', lookup_insert_eq; split_and!; try done; [by apply W, nonempty_mask|].
  eapply others_law; try done; intros f Hf; by rewrite Hreg', lookup_insert_ne.
Qed.

Lemma chan_off_remove s :
  chan_off s -> exists s', channel_remove true ch s = Ok s' /\ chan_gone s'.
Proof.
  destruct s as [st p]; intros (c & Hc & Hfd & Hinv & He & Hreg & Hw & Ho); simpl in *.
  unfold channel_remove, deref; simpl; rewrite Hc; simpl; unfold isNoneEvent; rewrite He; simpl.
  destruct (remove_law st p ch c (set_addedToLoop false c) Hinv Hc)
    as (st' & p' & -> & Hinv' & Hs & Hreg' & W1 & W2); try done; try by rewrite Hfd.
  destruct (same_store_lookup _ _ ch _ Hs (lookup_insert_eq _ _ _)) as [i Hi'].
  eexists; split; [done|]; eexists; split; [exact Hi'|]; simpl; rewrite Hfd in *.
  rewrite Hreg', lookup_delete_eq; split_and!; try done.
  eapply others_law; try done; intros f Hf; by rewrite Hreg', lookup_delete_ne.
Qed.

(** *** The world *)

Abbreviation World := (World (P := P)).

(** Bytes handed over, minus bytes written, are in the output buffer, followed
    by [rest], which is on its way there; unless data was dropped. *)
Definition stream (w : World) (rest : list byte) : Prop :=
  flushed (trace w) /\
  (WriteFault ∉ trace w ->
   submitted (trace w) = wrote (trace w) ++ content (outputBuffer_ (conn w)) ++ rest).

Definition common (w : World) (rest : list byte) : Prop :=
  channel_ (conn w) = ch /\ inv (inputBuffer_ (conn w)) /\ inv (outputBuffer_ (conn w)) /\
  stream w rest /\ Forall task_ok (pending w).

Definition isLive (s : StateE) : Prop := s = kConnected \/ s = kDisconnecting.

Definition core (w : World) (rest : list byte) (writing : bool) : Prop :=
  common w rest /\ isLive (state_ (conn w)) /\ lifeTasks (pending w) = [] /\
  life (trace w) = [Connection true] /\ chan_live (chans w) writing.

(** Established: reading is on, and writing is on exactly when output is
    pending. *)
Definition live (w : World) : Prop :=
  core w [] (negb (len (content (outputBuffer_ (conn w))) =? 0)).

Definition fresh (w : World) : Prop :=
  common w [] /\ state_ (conn w) = kConnecting /\ pending w = [TConnectEstablished] /\
  trace w = [] /\ content (outputBuffer_ (conn w)) = [] /\ chan_fresh (chans w).

Definition dead (w : World) : Prop :=
  common w [] /\ state_ (conn w) = kDisconnected /\
  ((chan_off (chans w) /\ lifeTasks (pending w) = [TConnectDestroyed] /\
    life (trace w) = [Connection true; Connection false; Closed]) \/
   (chan_gone (chans w) /\ lifeTasks (pending w) = [] /\
    life (trace w) = [Connection true; Connection false; Closed; Destroyed])).

Definition winv (w : World) : Prop := fresh w \/ live w \/ dead w.

Context (Hwrite : write_ok) (Huser : user_ok).

(** Events that are neither data nor life. *)
Definition neutral (e : event) : Prop :=
  match e with
  | Message _ | WriteComplete | HighWater _ => True
  | _ => False
  end.

Ltac split_world := unfold core, common; split_and!; try done.

Lemma stream_neutral w e rest :
  neutral e -> stream w rest -> stream (log e w) rest.
Proof.
  intros He [Hfl Hs]; split; cbn [log trace conn].
  { apply flushed_other; [by destruct e|done]. }
  rewrite submitted_snoc, wrote_snoc.
  intros Hf; destruct e; try done; rewrite !app_nil_r; apply Hs; by eapply fault_snoc.
Qed.

Lemma stream_shutdown w :
  (content (outputBuffer_ (conn w)) = [] \/ Connection false ∈ trace w) ->
  stream w [] -> stream (log ShutdownWrite w) [].
Proof.
  intros Hc [Hfl Hs]; split; cbn [log trace conn].
  - apply flushed_snoc; [done|]; intros _ Hn Hf; destruct Hc as [Hc|]; [|done].
    rewrite Hs, Hc by done; by rewrite !app_nil_r.
  - rewrite submitted_snoc, wrote_snoc, !app_nil_r; intros Hf; rewrite Hs by (by eapply fault_snoc).
    by rewrite app_nil_r.
Qed.

Lemma core_log e w d b : neutral e -> core w d b -> core (log e w) d b.
Proof.
  intros He ((? & ? & ? & Hs & ?) & ? & ? & Hl & ?); split_world.
  - by apply stream_neutral.
  - cbn [log trace]; rewrite life_snoc, Hl; by destruct e.
Qed.

Lemma core_queue t w d b :
  task_ok t -> match t with TConnectEstablished | TConnectDestroyed => False | _ => True end ->
  core w d b -> core (queueTask t w) d b.
Proof.
  intros Ht Hl ((? & ? & ? & ? & Hp) & ? & Hlt & ? & ?); split_world;
    cbn [queueTask pending].
  - apply Forall_app_2; [done|by constructor].
  - rewrite lifeTasks_snoc, Hlt; by destruct t.
Qed.

Lemma core_state s w d b : isLive s -> core w d b -> core (on_conn (setState s) w) d b.
Proof. intros Hs ((? & ? & ? & ? & ?) & ? & ? & ? & ?); split_world. Qed.

Lemma core_timer w d b : core w d b -> core (addTimer w) d b.
Proof. intros ((? & ? & ? & ? & ?) & ? & ? & ? & ?); split_world. Qed.

Lemma core_input i w d b : inv i -> core w d b -> core (on_conn (setInput i) w) d b.
Proof. intros Hi ((? & ? & ? & ? & ?) & ? & ? & ? & ?); split_world. Qed.

Lemma theChannel_live w d b :
  core w d b -> exists c, theChannel w = Ok c /\ isWriting c = b /\
    fst (chans w) !! ch = Some c.
Proof.
  intros ((Hch & _) & _ & _ & _ & c & Hc & _ & _ & _ & _ & _ & _ & _ & Hw & _).
  exists c; unfold theChannel, deref; by rewrite Hch, Hc.
Qed.

(** The direct write of [sendInLoop]. *)
Lemma tryWrite_core data w :
  content (outputBuffer_ (conn w)) = [] -> core w data false -> len data <= max_size ->
  exists w' n r f, tryWrite write user data w = (w', n, r, f) /\
    conn w' = conn w /\ 0 <= n <= len data /\ r = len data - n /\
    ((f = false /\ core w' (drop (Z.to_nat n) data) false) \/
     (f = true /\ core (log WriteFault w') [] false)).
Proof.
  intros Ho ((? & ? & ? & [Hfl Hs] & ?) & ? & ? & Hl & ?) Hd; unfold tryWrite.
  destruct (write (writes w) data) as [n|e] eqn:E.
  - pose proof (Hwrite _ _ _ E) as Hn.
    rewrite u64_small by (unfold max_size in *; lia).
    set (w2 := log _ _).
    assert (core w2 (drop (Z.to_nat n) data) false) as Hc2.
    { split_world; subst w2; cbn [log countWrite trace conn].
      - split; [by apply flushed_other|]; intros Hf; cbn [log countWrite trace conn] in *.
        rewrite submitted_snoc, wrote_snoc, app_nil_r, Hs by (by eapply fault_snoc).
        by rewrite Ho, !app_nil_l, <- app_assoc, take_drop.
      - by rewrite life_snoc, Hl. }
    do 4 eexists; split; [done|]; split_and!; try done; try lia.
    + by destruct (_ && _).
    + left; split; [done|]; destruct (_ && bool_decide _) eqn:Eq; [|done].
      bool_hyps; by apply core_queue.
  - do 4 eexists; split; [done|]; pose proof (len_nonneg data).
    split_and!; try done; try lia.
    destruct (negb _ && _); [right|left]; (split; [done|]); split_world.
    + split; [by apply flushed_other|]; intros Hf; destruct Hf; apply elem_of_app; right; by left.
    + cbn [log trace countWrite]; by rewrite life_snoc, Hl.
Qed.

(** The tail of [sendInLoop]: the buffer took the rest; writing is switched on
    when it was off. *)
Lemma enqueue_live (w : World) out rest (wr : bool) :
  core w rest wr -> wr = negb (len (content (outputBuffer_ (conn w))) =? 0) ->
  0 < len rest -> inv out ->
  content out = content (outputBuffer_ (conn w)) ++ rest ->
  safe (if negb wr then withChannel enableWriting (on_conn (setOutput out) w)
        else Ok (on_conn (setOutput out) w)) live.
Proof.
  intros ((Hch & ? & ? & [Hfl Hs] & ?) & ? & ? & ? & Hlive) Hwr Hr Hio Hco.
  set (w' := on_conn (setOutput out) w).
  assert (core w' [] wr) as Hc'.
  { split_world; split; [done|]; intros Hf; cbn [on_conn conn setOutput outputBuffer_ trace w'].
    by rewrite Hco, app_nil_r, Hs. }
  assert (negb (len (content out) =? 0) = true) as Hne.
  { rewrite Hco, len_app; pose proof (len_nonneg (content (outputBuffer_ (conn w)))).
    apply negb_true_iff, Z.eqb_neq; lia. }
  destruct wr; cbn [negb safe].
  - unfold live; subst w'; cbn [on_conn conn setOutput outputBuffer_]; by rewrite Hne.
  - unfold withChannel; cbn [on_conn conn setOutput channel_ chans w']; rewrite Hch.
    destruct (chan_live_enableWriting _ _ Hlive) as (s' & -> & Hl'); cbn [res_bind safe].
    unfold live; subst w'; cbn [on_chans on_conn conn setOutput outputBuffer_]; rewrite Hne.
    destruct Hc' as ((? & ? & ? & ? & ?) & ? & ? & ? & _); split_world.
Qed.

Lemma sendInLoop_live data w :
  len data <= max_size -> live w -> safe (sendInLoop write user data w) live.
Proof.
  intros Hd Hlive; unfold sendInLoop.
  pose proof Hlive as ((? & ? & Hio & [Hfl Hs] & ?) & Hst & ? & Hl & ?).
  unfold disconnected; rewrite bool_decide_eq_false_2 by (destruct Hst; congruence).
  set (w1 := log (Submit data) w).
  set (wr := negb (len (content (outputBuffer_ (conn w))) =? 0)).
  assert (core w1 data wr) as Hc1.
  { split_world; subst w1; cbn [log trace conn].
    - split; [by apply flushed_other|]; intros Hf; cbn [log trace conn] in *.
      rewrite submitted_snoc, wrote_snoc, app_nil_r, Hs by (by eapply fault_snoc).
      by rewrite app_nil_r, <- app_assoc.
    - by rewrite life_snoc, Hl. }
  destruct (theChannel_live _ _ _ Hc1) as (c & -> & Hwr & _); cbn [res_bind].
  rewrite Hwr, readableBytes_content by done.
  assert (exists w2 n r f,
    (if negb wr && (len (content (outputBuffer_ (conn w1))) =? 0)
     then tryWrite write user data w1 else (w1, 0, len data, false)) = (w2, n, r, f) /\
    conn w2 = conn w /\ 0 <= n <= len data /\ r = len data - n /\
    ((f = false /\ core w2 (drop (Z.to_nat n) data) wr) \/
     (f = true /\ wr = false /\ core (log WriteFault w2) [] wr)))
    as (w2 & n & r & f & -> & Hcn & Hn & -> & Hw2).
  { subst wr; change (conn w1) with (conn w) in *.
    destruct (len (content _) =? 0) eqn:E; cbn [negb andb] in *.
    - destruct (tryWrite_core data w1) as (w2 & n & r & f & E2 & ? & ? & ? & Hw); try done.
      { bool_hyps; by apply len_0_nil. }
      exists w2, n, r, f; split_and!; try done; try lia.
      destruct Hw as [[-> Hw]|[-> Hw]]; [by left|by right].
    - exists w1, 0, (len data), false; pose proof (len_nonneg data).
      split_and!; try done; try lia; by left. }
  apply safe_assert; [apply Z.leb_le; lia|].
  destruct Hw2 as [[-> Hw2]|(-> & _ & Hw2)]; cbn [negb andb].
  2:{ unfold live; cbn [safe log conn]; rewrite Hcn; exact Hw2. }
  destruct (Z.ltb_spec 0 (len data - n)) as [Hr|Hr].
  2:{ unfold live; cbn [safe]; rewrite Hcn.
      rewrite drop_ge in Hw2 by (unfold len in *; lia); exact Hw2. }
  rewrite Hcn; set (w3 := if _ && bool_decide _ then _ else _).
  assert (core w3 (drop (Z.to_nat n) data) wr /\ conn w3 = conn w) as [Hw3 Hc3].
  { subst w3; destruct (_ && bool_decide _) eqn:Eq; [|done]; bool_hyps.
    split; [by apply core_queue|done]. }
  rewrite Hc3; eapply safe_bind'.
  { apply append_safe; [done|]; unfold len in *; rewrite length_drop; lia. }
  intros out (Hio' & Hco); apply (enqueue_live w3 out _ wr Hw3); rewrite ?Hc3; try done.
  unfold len in *; rewrite length_drop; lia.
Qed.

Lemma shutdownInLoop_live w : live w -> safe (shutdownInLoop w) live.
Proof.
  intros Hl; unfold shutdownInLoop; destruct (theChannel_live _ _ _ Hl) as (c & -> & Hwr & _).
  cbn [res_bind]; rewrite Hwr, negb_involutive; destruct (len _ =? 0) eqn:E; [|done].
  bool_hyps; apply len_0_nil in E; destruct Hl as ((? & ? & ? & ? & ?) & ? & ? & Hlf & ?).
  unfold live; cbn [safe log conn]; rewrite E in *; split_world.
  - apply stream_shutdown; auto.
  - cbn [log trace]; by rewrite life_snoc, Hlf.
Qed.

(** The content of the input buffer as a string. *)
Lemma input_string b : inv b ->
  exists data b', retrieveAllAsString b = Ok (data, b') /\ load b (peek b) (readableBytes b) = Ok data /\
    inv b' /\ len data <= max_size.
Proof.
  intros Hin; exists (content b).
  assert (load b (peek b) (readableBytes b) = Ok (content b) /\ len (content b) <= max_size) as [Hld Hmax].
  { rewrite readableBytes_content, load_peek, take_ge by (unfold len; auto; lia).
    split; [done|]; destruct (inv_rep _ Hin) as (Eb & Er & Ew & Es); unfold size in Es.
    rewrite Eb, !len_app in Es; pose proof (len_nonneg (content b)).
    pose proof (len_nonneg (take (Z.to_nat (readerIndex_ b)) (buffer_ b))).
    pose proof (len_nonneg (drop (Z.to_nat (writerIndex_ b)) (buffer_ b))). lia. }
  destruct (retrieve_spec b (len (content b)) Hin) as (b' & Hb & Hib & _); [split; auto with cpp; lia|].
  exists b'; unfold retrieveAllAsString, retrieveAsString; rewrite Z.leb_refl; cbn [cassert res_bind].
  rewrite Hld; cbn [res_bind]; rewrite readableBytes_content, Hb by done; by split_and!.
Qed.

(** Every call a user makes on an established connection keeps it established. *)
Lemma call_api_live b a w :
  api_ok a -> live w -> safe (call_api write user b w a) live.
Proof.
  intros Ha Hl; pose proof Hl as (Hcom & Hst & _); destruct a; cbn [call_api]; try done.
  - unfold send; destruct (connected _); [|done].
    destruct b; [by apply sendInLoop_live|by apply core_queue].
  - unfold send_input; destruct (connected _); [|done].
    pose proof Hcom as (_ & Hin & _ & _ & _).
    destruct (input_string _ Hin) as (data & buf & Hstr & Hld & Hib & Hmax); destruct b.
    + rewrite Hld; cbn [res_bind]; eapply safe_bind'; [by apply sendInLoop_live|].
      intros w' Hl'; cbn [safe]; pose proof Hl' as ((_ & Hin' & _) & _).
      apply core_input; [|done]; destruct (retrieveAll_spec _ Hin') as (b' & [= <-] & ? & _); done.
    + rewrite Hstr; cbn [res_bind safe]; apply core_queue; [done..|]; by apply core_input.
  - unfold shutdown; destruct (connected _); [|done].
    assert (live (on_conn (setState kDisconnecting) w)) as Hl' by (apply core_state; [by right|done]).
    destruct b; [by apply shutdownInLoop_live|by apply core_queue].
  - unfold forceClose; destruct Hst as [-> | ->]; cbn [safe];
      apply core_queue; try done; (apply core_state; [by right|done]).
  - unfold forceCloseWithDelay; destruct Hst as [-> | ->]; cbn [safe];
      apply core_timer, core_state; try done; by right.
Qed.

Lemma run_script_live ops w :
  Forall api_ok ops -> live w -> safe (run_script write user ops w) live.
Proof.
  intros Ho Hl; apply safe_fold; [done|]; intros w' a Ha Hl'.
  apply call_api_live; [|done]; by eapply Forall_forall.
Qed.

(** On a closed connection they do nothing. *)
Lemma call_api_closed b a w :
  api_ok a -> state_ (conn w) = kDisconnected -> call_api write user b w a = Ok w.
Proof.
  intros Ha Hs; destruct a; try done; cbn [call_api];
    unfold send, send_input, shutdown, forceClose, forceCloseWithDelay, connected;
    by rewrite Hs.
Qed.

Lemma run_script_closed ops w :
  Forall api_ok ops -> state_ (conn w) = kDisconnected -> run_script write user ops w = Ok w.
Proof.
  unfold run_script; intros Ho Hs; induction Ho as [|a ops Ha Ho IH]; [done|].
  cbn [res_fold]; by rewrite call_api_closed.
Qed.

(** *** The event handlers *)

(** A connection closed during the dispatch; [connectDestroyed] is still queued. *)
Definition closing (w : World) : Prop := dead w /\ chan_off (chans w).

Lemma handleClose_closing w : live w -> safe (handleClose write user w) closing.
Proof.
  intros Hl; pose proof Hl as ((Hch & ? & ? & [Hfl Hs] & ?) & Hst & Hlt & Hlf & Hchan).
  unfold handleClose; apply safe_assert; [by destruct Hst as [-> | ->]|].
  unfold withChannel; cbn [on_conn conn setState channel_ chans]; rewrite Hch.
  destruct (chan_live_disableAll _ _ Hchan) as (s' & -> & Hoff); cbn [res_bind].
  unfold connectionCallback; rewrite run_script_closed by (apply (proj1 Huser) || reflexivity).
  cbn [res_bind safe]; unfold closing, dead, common, closeCallback.
  cbn [queueTask log on_chans on_conn conn setState channel_ state_ inputBuffer_ outputBuffer_
       chans pending trace connected].
  split_and!; try done.
  - split; [by repeat apply flushed_other|]; intros Hf; cbn [queueTask log on_chans on_conn conn setState outputBuffer_ trace] in *.
    rewrite !submitted_snoc, !wrote_snoc, !app_nil_r.
    rewrite Hs by (eapply fault_snoc, fault_snoc; eauto); by rewrite app_nil_r.
  - apply Forall_app_2; [done|by constructor].
  - left; split; [done|]; rewrite lifeTasks_snoc, Hlt, !life_snoc, Hlf; by split.
Qed.

Lemma messageCallback_live w : live w -> safe (messageCallback write user w) live.
Proof.
  intros Hl; unfold messageCallback; cbn [log conn].
  set (c := content _); set (w1 := log _ w).
  assert (live w1) as Hl1 by by apply core_log.
  destruct Huser as (_ & Hm & _); destruct (Hm (trace w1) c) as [Hn Ho].
  cbn [log trace w1] in *; destruct (onMessage user _ c) as [n ops] eqn:E; cbn [fst snd] in *.
  pose proof Hl as ((_ & Hin & _) & _).
  destruct (retrieve_spec _ n Hin Hn) as (b' & -> & Hb' & _); cbn [res_bind].
  apply run_script_live; [done|]; by apply core_input.
Qed.

Definition handled (w : World) : Prop := live w \/ closing w.

Lemma handleRead_ok readv w :
  readv_ok readv -> live w -> safe (handleRead write user readv w) handled.
Proof.
  intros Hrd Hl; pose proof Hl as ((_ & Hin & _) & _); unfold handleRead.
  eapply safe_bind'; [by apply readFd_safe|]; intros [[n e] b] [Hb _].
  assert (live (on_conn (setInput b) w)) as Hl1 by by apply core_input.
  repeat case_match.
  - eapply safe_mono; [by apply messageCallback_live|by left].
  - eapply safe_mono; [by apply handleClose_closing|by right].
  - by left.
Qed.

(** Part of the output was written. *)
Lemma written_core w n out :
  live w -> 0 <= n <= len (content (outputBuffer_ (conn w))) -> inv out ->
  content out = drop (Z.to_nat n) (content (outputBuffer_ (conn w))) ->
  core (on_conn (setOutput out)
          (log (Wrote (take (Z.to_nat n) (content (outputBuffer_ (conn w))))) (countWrite w)))
       [] (negb (len (content (outputBuffer_ (conn w))) =? 0)).
Proof.
  intros ((? & ? & ? & [Hfl Hs] & ?) & ? & ? & Hlf & ?) Hn Hi Hc; split_world.
  - split; [by apply flushed_other|]; intros Hf.
    cbn [on_conn log countWrite conn setOutput outputBuffer_ trace] in *.
    rewrite submitted_snoc, wrote_snoc, Hc, !app_nil_r, Hs by (by eapply fault_snoc).
    by rewrite app_nil_r, <- app_assoc, take_drop.
  - cbn [on_conn log countWrite trace]; by rewrite life_snoc, Hlf.
Qed.

Lemma handleWrite_live w : live w -> safe (handleWrite write user w) live.
Proof.
  intros Hl; pose proof Hl as ((Hch & Hin & Hout & [Hfl Hs] & ?) & Hst & Hlt & Hlf & Hchan).
  unfold handleWrite; destruct (theChannel_live _ _ _ Hl) as (c & -> & Hwr & _); cbn [res_bind].
  rewrite Hwr; set (out := outputBuffer_ (conn w)) in *.
  destruct (len (content out) =? 0) eqn:E0; cbn [negb]; [done|].
  rewrite readableBytes_content, load_peek, take_ge by (unfold len; auto; lia); cbn [res_bind].
  destruct (write (writes w) (content out)) as [n|e] eqn:E; [|done].
  destruct (Z.ltb_spec 0 n) as [Hn0|]; [|done].
  pose proof (Hwrite _ _ _ E) as Hn.
  destruct (retrieve_spec out n Hout Hn) as (out' & Hret & Hio' & Hco' & _).
  rewrite Hret; cbn [res_bind]; rewrite (readableBytes_content out') by done.
  pose proof (written_core w n out' Hl Hn Hio' Hco') as Hc.
  change (outputBuffer_ (conn w)) with out in Hc; rewrite E0 in Hc.
  set (w1 := on_conn (setOutput out') _) in *.
  destruct (len (content out') =? 0) eqn:E1.
  2:{ cbn [safe]; unfold live; subst w1; cbn [on_conn conn setOutput outputBuffer_].
      by rewrite E1. }
  pose proof Hc as ((Hch1 & ? & ? & ? & ?) & Hst1 & ? & ? & Hchan1); unfold withChannel.
  rewrite Hch1; destruct (chan_live_disableWriting _ _ Hchan1) as (s' & -> & Hl'); cbn [res_bind].
  set (w2 := on_chans s' w1).
  assert (live w2) as Hl2.
  { unfold live; subst w2 w1; cbn [on_chans on_conn conn setOutput outputBuffer_].
    rewrite E1; split_world. }
  set (w3 := if bool_decide (is_Some (onWriteComplete user)) then _ else w2).
  assert (live w3) as Hl3.
  { subst w3; destruct (bool_decide _) eqn:Ed; [|done]; bool_hyps; by apply core_queue. }
  destruct (bool_decide (state_ _ = _)); [by apply shutdownInLoop_live|done].
Qed.

(** *** Dispatch *)

Lemma chan_live_handling b s wr :
  chan_live s wr -> chan_live (alter (set_eventHandling b) ch (fst s), snd s) wr.
Proof.
  intros (c & Hc & Hfd & Hinv & Hm & Ht & Hreg & Hw & Hr & Hwr & Ho).
  exists (set_eventHandling b c); cbn [fst snd]; rewrite lookup_alter_eq, Hc.
  split_and!; try done; [|by apply others_alter]; rewrite (alter_Some _ _ _ c) by done; by eapply frame_law.
Qed.

Lemma chan_off_handling b s :
  chan_off s -> chan_off (alter (set_eventHandling b) ch (fst s), snd s).
Proof.
  intros (c & Hc & Hfd & Hinv & He & Hreg & Hw & Ho).
  exists (set_eventHandling b c); cbn [fst snd]; rewrite lookup_alter_eq, Hc.
  split_and!; try done; [|by apply others_alter]; rewrite (alter_Some _ _ _ c) by done; by eapply frame_law.
Qed.

Lemma setHandling_live b w : live w -> live (setHandling b w).
Proof.
  intros ((Hch & ? & ? & ? & ?) & ? & ? & ? & Hc); unfold live, setHandling; split_world.
  cbn [on_chans chans conn]; rewrite Hch; by apply chan_live_handling.
Qed.

Lemma setHandling_closing b w : closing w -> closing (setHandling b w).
Proof.
  intros [[(Hch & ? & ? & ? & ?) (Hst & Hd)] Hoff]; unfold setHandling.
  assert (chan_off (chans (on_chans (alter (set_eventHandling b) (channel_ (conn w)) (fst (chans w)),
            snd (chans w)) w))) as Hoff'.
  { cbn [on_chans chans]; rewrite Hch; by apply chan_off_handling. }
  split; [|done]; unfold dead, common; split_and!; try done; left; split; [done|].
  destruct Hd as [(_ & ? & ?)|[(c & _ & _ & _ & Hreg & _) _]]; [done|].
  destruct Hoff as (c' & _ & _ & _ & _ & Hreg' & _); congruence.
Qed.

(** Events poll(2) may report for a mask: requested ones, errors, hang-ups and that
    the descriptor is not open. *)
Definition poll_reports (mask revents : Z) : Prop :=
  Z.land revents (Z.lnot (Z.lor mask (Z.lor POLLERR (Z.lor POLLHUP POLLNVAL)))) = 0.

(** A hang-up without POLLIN comes without urgent data, as on a TCP socket of Linux,
    which is readable when it is hung up. *)
Definition hup_reads (revents : Z) : Prop :=
  has revents POLLHUP = true -> has revents POLLIN = false ->
  has revents (Z.lor POLLIN (Z.lor POLLPRI POLLRDHUP)) = false.

Definition event_ok (mask revents : Z) : Prop := poll_reports mask revents /\ hup_reads revents.

Lemma dispatch_ok revents readv w :
  hup_reads revents -> readv_ok readv -> live w ->
  safe (handleEventWithGuard (connCallbacks write user readv) setHandling revents 0 w) handled.
Proof.
  intros Hev Hrd Hl; unfold handleEventWithGuard; cbn [connCallbacks closeCallback_
    errorCallback_ readCallback_ writeCallback_ call option_map].
  apply (setHandling_live true) in Hl; set (w0 := setHandling true w) in *.
  assert (forall w', handled w' -> safe (if has revents POLLOUT
            then handleWrite write user w' else Ok w') handled) as Hwr.
  { intros w' Hw'; destruct (has revents POLLOUT); [|done].
    destruct Hw' as [Hw'|Hw'].
    - eapply safe_mono; [by apply handleWrite_live|by left].
    - unfold handleWrite, theChannel, deref; pose proof Hw' as [[(Hch & _) _] Hoff].
      pose proof Hoff as (c & Hc & _ & _ & He & _); rewrite Hch, Hc; cbn [res_bind].
      unfold isWriting, has; rewrite He; by right. }
  assert (forall w', handled w' -> safe (let! s := (if has revents POLLOUT
            then handleWrite write user w' else Ok w') in Ok (setHandling false s)) handled) as Hend.
  { intros w' Hw'; eapply safe_bind'; [by apply Hwr|]; intros w2 [Hw2|Hw2];
      [left; by apply setHandling_live|right; by apply setHandling_closing]. }
  destruct (has revents POLLHUP && negb (has revents POLLIN)) eqn:E.
  - bool_hyps; rewrite (Hev ltac:(done) ltac:(done)).
    eapply safe_bind'; [by apply handleClose_closing|]; intros w1 Hw1.
    destruct (has revents (Z.lor POLLERR POLLNVAL)); cbn [handleError res_bind]; apply Hend; by right.
  - cbn [res_bind]; destruct (has revents (Z.lor POLLERR POLLNVAL)); cbn [handleError res_bind];
      (destruct (has revents (Z.lor POLLIN _)); [|apply Hend; by left]);
      (eapply safe_bind'; [by apply handleRead_ok|apply Hend]).
Qed.

(** *** The life cycle *)

Lemma connectEstablished_live w : fresh w ->
  safe (connectEstablished write user (mkWorld (conn w) (chans w) [] (delayed w) (writes w) (trace w)))
    live.
Proof.
  intros ((Hch & ? & ? & [Hfl Hs] & ?) & Hst & Hp & Htr & Hc & Hchan); unfold connectEstablished.
  apply safe_assert; [cbn [conn]; by rewrite Hst|].
  unfold withChannel; cbn [on_chans on_conn conn setState channel_ chans fst snd]; rewrite Hch.
  destruct (chan_fresh_enableReading _ Hchan) as (s' & -> & Hl'); cbn [res_bind].
  unfold connectionCallback; apply run_script_live; [apply (proj1 Huser)|]; unfold live.
  cbn [log on_chans on_conn conn setState outputBuffer_]; rewrite Hc; split_world;
    cbn [log on_chans on_conn conn setState outputBuffer_ trace connected].
  - split; [by apply flushed_other|]; intros Hf; cbn [log on_chans on_conn conn setState outputBuffer_ trace] in *.
    rewrite submitted_snoc, wrote_snoc, Htr, Hc; done.
  - by left.
  - by rewrite Htr.
Qed.

Lemma connectDestroyed_dead w ts :
  closing w -> pending w = TConnectDestroyed :: ts ->
  safe (connectDestroyed write user (mkWorld (conn w) (chans w) ts (delayed w) (writes w) (trace w)))
    (fun w' => dead w' /\ chan_gone (chans w')).
Proof.
  intros [((Hch & ? & ? & [Hfl Hs] & Ht) & Hst & Hd) Hoff] Hp; unfold connectDestroyed.
  unfold connected; rewrite bool_decide_eq_false_2 by (cbn [conn]; by rewrite Hst).
  cbn [res_bind].
  unfold withChannel; cbn [conn chans]; rewrite Hch.
  destruct (chan_off_remove _ Hoff) as (s' & -> & Hg); cbn [res_bind safe].
  assert (lifeTasks ts = [] /\ life (trace w) = [Connection true; Connection false; Closed]) as [Hlt Hlf].
  { destruct Hd as [(_ & Hlt & Hlf)|[(c & _ & _ & _ & Hreg & _) _]].
    - rewrite Hp in Hlt; simpl in Hlt; split; [by injection Hlt|done].
    - destruct Hoff as (c' & _ & _ & _ & _ & Hreg' & _); congruence. }
  rewrite Hp in Ht; apply Forall_cons in Ht as [_ Ht]; split; [|done].
  unfold dead, common; cbn [log on_chans conn pending trace chans]; split_and!; try done.
  - split; [by apply flushed_other|]; intros Hf; cbn [log on_chans conn trace] in *; rewrite submitted_snoc, wrote_snoc, !app_nil_r.
    rewrite Hs by (by eapply fault_snoc); by rewrite app_nil_r.
  - right; split_and!; try done; by rewrite life_snoc, Hlf.
Qed.

Definition popTask (w : World) (ts : list task) : World :=
  mkWorld (conn w) (chans w) ts (delayed w) (writes w) (trace w).

Lemma live_pop w t ts :
  live w -> pending w = t :: ts ->
  live (popTask w ts) /\ task_ok t /\
  match t with TConnectEstablished | TConnectDestroyed => False | _ => True end.
Proof.
  intros ((? & ? & ? & ? & Ht) & ? & Hlt & ? & ?) Hp; rewrite Hp in Ht, Hlt.
  apply Forall_cons in Ht as [Ht Hts].
  assert (lifeTasks ts = [] /\ match t with TConnectEstablished | TConnectDestroyed => False
            | _ => True end) as [Hl1 Hl2] by (destruct t; done).
  split; [|done]; unfold live; split_world.
Qed.

Lemma optionalCallback_live e cb w :
  neutral e -> is_Some cb -> (forall f tr, cb = Some f -> Forall api_ok (f tr)) -> live w ->
  safe (optionalCallback write user e cb w) live.
Proof.
  intros He [f ->] Hf Hl; cbn [optionalCallback]; apply run_script_live; [by apply Hf|].
  by apply core_log.
Qed.

Lemma run_task_live t w :
  task_ok t -> match t with TConnectEstablished | TConnectDestroyed => False | _ => True end ->
  live w -> safe (run_task write user t w) handled.
Proof.
  intros Ht Hn Hl; pose proof Huser as (_ & _ & Hu1 & Hu2).
  assert (forall r, safe r live -> safe r handled) as Hsub by (intros; eapply safe_mono; [done|by left]).
  destruct t; try done; cbn [run_task].
  - by apply Hsub, sendInLoop_live.
  - by apply Hsub, shutdownInLoop_live.
  - unfold forceCloseInLoop; pose proof Hl as (_ & Hst & _).
    eapply safe_mono; [|by right]; destruct Hst as [-> | ->]; by apply handleClose_closing.
  - apply Hsub, optionalCallback_live; try done; eauto.
  - apply Hsub, optionalCallback_live; try done; eauto.
Qed.

Lemma dead_log e w : neutral e -> dead w -> dead (log e w).
Proof.
  intros He ((? & ? & ? & ? & ?) & ? & Hd); unfold dead, common; split_and!; try done.
  - by apply stream_neutral.
  - cbn [log trace chans pending]; rewrite life_snoc.
    replace (match e with Connection _ | Closed | Destroyed => [e] | _ => [] end) with (@nil event)
      by (by destruct e).
    by rewrite app_nil_r.
Qed.

Lemma dead_shutdown w : dead w -> dead (log ShutdownWrite w).
Proof.
  intros ((? & ? & ? & ? & ?) & ? & Hd); unfold dead, common; split_and!; try done.
  - apply stream_shutdown; [right|done].
    assert (Connection false ∈ life (trace w)) as Hin.
    { destruct Hd as [(_ & _ & ->)|(_ & _ & ->)]; right; by left. }
    unfold life in Hin; apply list_elem_of_omap in Hin as (e & He & E); by destruct e; simplify_eq/=.
  - cbn [log trace chans pending]; by rewrite life_snoc, app_nil_r.
Qed.

Lemma dead_pop w t ts :
  dead w -> pending w = t :: ts ->
  match t with TConnectEstablished | TConnectDestroyed => False | _ => True end ->
  dead (popTask w ts) /\ task_ok t.
Proof.
  intros ((? & ? & ? & ? & Ht) & Hst & Hd) Hp Hn; rewrite Hp in Ht, Hd.
  apply Forall_cons in Ht as [Ht Hts]; split; [|done].
  assert (lifeTasks (t :: ts) = lifeTasks ts) as El by by destruct t.
  rewrite El in Hd; unfold dead, common; by split_and!.
Qed.

Lemma theChannel_dead w :
  dead w -> exists c, theChannel w = Ok c /\ isWriting c = false.
Proof.
  intros ((Hch & _) & _ & Hd); unfold theChannel, deref; rewrite Hch.
  destruct Hd as [[(c & -> & _ & _ & He & _) _]|[(c & -> & _ & He & _) _]];
    exists c; (split; [done|]); unfold isWriting, has; by rewrite He.
Qed.

Lemma run_task_dead t w :
  task_ok t -> match t with TConnectEstablished | TConnectDestroyed => False | _ => True end ->
  dead w -> safe (run_task write user t w) (fun w' => dead w' /\ chans w' = chans w).
Proof.
  intros Ht Hn Hd; pose proof Huser as (_ & _ & Hu1 & Hu2); pose proof Hd as (_ & Hst & _).
  destruct t; try done; cbn [run_task].
  - unfold sendInLoop, disconnected; by rewrite bool_decide_eq_true_2.
  - unfold shutdownInLoop; destruct (theChannel_dead _ Hd) as (c & -> & E); cbn [res_bind].
    rewrite E; split; [by apply dead_shutdown|done].
  - unfold forceCloseInLoop; by rewrite Hst.
  - destruct Ht as [f Hf]; rewrite Hf; cbn [optionalCallback].
    rewrite run_script_closed by eauto; split; [by apply dead_log|done].
  - destruct Ht as [f Hf]; rewrite Hf; cbn [optionalCallback].
    rewrite run_script_closed by eauto; split; [by apply dead_log|done].
Qed.

(** *** Every step *)

(** What the outside may do next. *)
Definition enabled (w : World) (i : input) : Prop :=
  match i with
  | IEvent revents readv =>
      exists mask, watched (snd (chans w)) fd = Some (ch, mask) /\ event_ok mask revents /\
        readv_ok readv
  | IApi a => api_ok a
  | IMark => isLive (state_ (conn w))
  | IPost a => api_ok a /\ state_ (conn w) <> kConnecting
  | ITask | ITimer => True
  end.

Lemma dead_queue t w :
  task_ok t -> match t with TConnectEstablished | TConnectDestroyed => False | _ => True end ->
  dead w -> dead (queueTask t w).
Proof.
  intros Ht Hn ((? & ? & ? & ? & Hts) & Hst & Hd); unfold dead, common; split_and!; try done.
  - apply Forall_app; split; [done|by constructor].
  - cbn [queueTask pending chans trace]; rewrite lifeTasks_snoc.
    by destruct t; try done; rewrite app_nil_r.
Qed.

(** The rest of a call, on a connection that is up or down. *)
Lemma post_live a w : api_ok a -> live w -> safe (post a w) live.
Proof.
  intros Ha Hl; pose proof Hl as ((_ & Hin & _) & _); destruct a; cbn [post]; try done; try by apply core_queue.
  destruct (input_string _ Hin) as (data & buf & -> & _ & Hib & Hmax); cbn [res_bind safe].
  apply core_queue; [done..|]; by apply core_input.
Qed.

Lemma post_dead a w : api_ok a -> dead w -> safe (post a w) (fun w' => dead w' /\ chans w' = chans w).
Proof.
  intros Ha Hd; pose proof Hd as ((Hch & Hin & Hout & Hs & Ht) & Hst & Hrest); destruct a; cbn [post]; try done;
    try (split; [by apply dead_queue|done]).
  destruct (input_string _ Hin) as (data & buf & -> & _ & Hib & Hmax); cbn [res_bind safe].
  split; [|done]; apply dead_queue; [done..|]; unfold dead, common; by split_and!.
Qed.
Lemma fresh_api w a b : fresh w -> api_ok a -> call_api write user b w a = Ok w.
Proof.
  intros (_ & Hst & _) Ha; destruct a; try done; cbn [call_api];
    unfold send, send_input, shutdown, forceClose, forceCloseWithDelay, connected; by rewrite Hst.
Qed.

Lemma exec_task w : winv w -> safe (exec write user w ITask) winv.
Proof.
  intros Hw; cbn [exec]; destruct (pending w) as [|t ts] eqn:Hp; [done|].
  destruct Hw as [Hw|[Hw|Hw]].
  - pose proof Hw as (_ & _ & Hp' & _); rewrite Hp in Hp'; injection Hp' as -> ->.
    eapply safe_mono; [by apply connectEstablished_live|by right; left].
  - destruct (live_pop _ _ _ Hw Hp) as (Hw' & Ht & Hn).
    eapply safe_mono; [by apply run_task_live|]; intros w' [?|[? _]]; right; auto.
  - destruct (decide (lifeTasks [t] = [])) as [Hn|Hn].
    + destruct (dead_pop _ _ _ Hw Hp) as [Hw' Ht]; [by destruct t|].
      eapply safe_mono; [apply run_task_dead; try done; by destruct t|intros w' [? _]; by right; right].
    + pose proof Hw as (_ & _ & Hd); rewrite Hp in Hd.
      assert (t = TConnectDestroyed /\ chan_off (chans w)) as [-> Hoff].
      { destruct t; try done.
        - destruct Hd as [(_ & Hlt & _)|(_ & Hlt & _)]; done.
        - destruct Hd as [(? & Hlt & _)|(_ & Hlt & _)]; done. }
      eapply safe_mono; [by apply connectDestroyed_dead|intros w' [? _]; by right; right].
Qed.

Lemma exec_event_live w revents readv :
  live w -> enabled w (IEvent revents readv) -> safe (exec write user w (IEvent revents readv)) handled.
Proof.
  intros Hl (mask & Hm & [_ Hev] & Hrd); pose proof Hl as ((Hch & ? & ? & ? & ?) & ? & ? & ? & Hc).
  destruct Hc as (c & Hc & Hfd & Hinv & Hmk & Htied & Hreg & Hwt & Hr & Hwr & Ho).
  cbn [exec]; unfold theChannel, deref; rewrite Hch, Hc; cbn [res_bind].
  unfold handleEvent; cbn [tied_ set_revents revents_]; rewrite Htied.
  apply dispatch_ok; try done.
  unfold live; cbn [on_chans conn]; split_world; exists (set_revents revents c).
  cbn [on_chans chans fst snd]; rewrite lookup_insert_eq; split_and!; try done; [by eapply frame_law|].
  by apply others_insert.
Qed.

Lemma event_live w revents readv : winv w -> enabled w (IEvent revents readv) -> live w.
Proof.
  intros Hw (mask & Hm & _).
  destruct Hw as [(_ & _ & _ & _ & _ & c & _ & _ & _ & _ & _ & Hn & _)|[?|(_ & _ & Hd)]]; [|done|].
  - congruence.
  - destruct Hd as [[(c & _ & _ & _ & _ & _ & Hn & _) _]|[(c & _ & _ & _ & _ & Hn & _) _]]; congruence.
Qed.

Lemma exec_event w revents readv :
  winv w -> enabled w (IEvent revents readv) -> safe (exec write user w (IEvent revents readv)) winv.
Proof.
  intros Hw He; eapply safe_mono; [apply exec_event_live; [by eapply event_live|done]|].
  intros w' [?|[? _]]; right; auto.
Qed.

Lemma exec_winv w i : winv w -> enabled w i -> safe (exec write user w i) winv.
Proof.
  intros Hw He; destruct i as [revents readv| | |a| |a].
  - by apply exec_event.
  - by apply exec_task.
  - cbn [exec]; destruct (delayed w) as [|n] eqn:Hd; [done|]; cbn [safe].
    set (w' := mkWorld _ _ _ _ _ _).
    assert (winv w') as Hw' by (destruct Hw as [?|[?|?]]; [left|right; left|right; right]; done).
    destruct Hw' as [Hw'|[Hw'|Hw']].
    + unfold forceClose; pose proof Hw' as (_ & -> & _); by left.
    + right; left; exact (call_api_live true ForceClose w' I Hw').
    + unfold forceClose; pose proof Hw' as (_ & -> & _); by right; right.
  - cbn [exec]; cbn [enabled] in He; destruct Hw as [Hw|[Hw|Hw]].
    + rewrite fresh_api by done; by left.
    + eapply safe_mono; [by apply call_api_live|by right; left].
    + rewrite call_api_closed; [by right; right|done|by destruct Hw as (_ & ? & _)].
  - cbn [enabled] in He; destruct Hw as [(_ & Hst & _)|[Hw|(_ & Hst & _)]]; [rewrite Hst in He; by destruct He| |rewrite Hst in He; by destruct He].
    right; left; apply core_state; [by right|done].
  - destruct He as [Ha Hst]; destruct Hw as [(_ & Hst' & _)|[Hw|Hw]]; [done|..].
    + eapply safe_mono; [by apply post_live|by right; left].
    + eapply safe_mono; [by apply post_dead|intros w' [? _]; by right; right].
Qed.

(** A channel address and a descriptor nobody uses. *)
Definition start_ok (s : store * P) : Prop :=
  pinv (fst s) (snd s) /\ fst s !! ch = None /\ registered (snd s) !! fd = None /\
  watched (snd s) fd = None.

Inductive reachable (s : store * P) : World -> Prop :=
| reach_new : reachable s (newWorld ch fd s)
| reach_step w i w' : reachable s w -> enabled w i -> exec write user w i = Ok w' ->
    reachable s w'.

Lemma newWorld_fresh : start_ok s0 -> fresh (newWorld ch fd s0).
Proof.
  intros (Hinv & Hch & Hreg & Hwat); destruct defaultBuffer_spec as (Hb & Hc & _).
  unfold fresh, common, newWorld; cbn [conn pending trace chans newTcpConnection channel_
    inputBuffer_ outputBuffer_ state_]; split_and!; try done.
  - split; [|done]; intros [|e t1] t2 E; done.
  - by repeat constructor.
  - exists (newChannel fd); cbn [fst snd]; rewrite lookup_insert_eq; split_and!; try done.
    + by apply new_law.
    + apply others_insert; split; [|done]; intros a _; apply same_store_refl.
Qed.

Lemma reachable_winv w : start_ok s0 -> reachable s0 w -> winv w.
Proof.
  intros Hs; induction 1 as [|w i w' _ IH He E]; [left; by apply newWorld_fresh|].
  exact (safe_Ok _ _ _ (exec_winv w i IH He) E).
Qed.

End ConnectionProofs.

(** ** Theorems *)

(** A concrete run for the witnesses: an echo service on poll(2), whose first
    write takes two bytes. *)
Definition demo_write (k : nat) (data : list byte) : Z + Z :=
  inl (if decide (k = 0%nat) then Z.min 2 (len data) else len data).

Definition echo : Handlers :=
  mkHandlers (fun _ => []) (fun _ _ => (0, [SendInput])) (Some (fun _ => [])) None.

Definition demo_start : store * PollPoller := (∅, newPollPoller).

Definition demo_inputs : list input :=
  [ITask; IEvent POLLIN (deliver [x68; x65; x6c; x6c; x6f]); IApi Shutdown; ITask;
   IEvent POLLOUT (deliver [])].

Definition demo_run (n : nat) : World (P := PollPoller) :=
  match res_fold (exec demo_write echo) (newWorld 100 7 demo_start) (take n demo_inputs) with
  | Ok w => w
  | Fail _ => newWorld 100 7 demo_start
  end.

Lemma demo_write_ok : write_ok demo_write.
Proof.
  intros k data n [= <-]; pose proof (len_nonneg data); destruct (decide _); lia.
Qed.

Lemma echo_ok : user_ok echo.
Proof.
  split_and!; try done.
  - intros tr c; simpl; split; [split; auto with cpp; lia|]; by repeat constructor.
  - intros f tr [= <-]; constructor.
Qed.

Lemma demo_start_ok : start_ok 100 7 demo_start.
Proof. destruct pp_idle as (? & ? & ?); by split_and!. Qed.

Lemma demo_reachable n : (n <= 5)%nat -> reachable demo_write echo 100 7 demo_start (demo_run n).
Proof.
  assert (forall k i, (k < 5)%nat -> demo_inputs !! k = Some i ->
            exec demo_write echo (demo_run k) i = Ok (demo_run (S k)) /\
            enabled 100 7 (demo_run k) i) as Hstep.
  { intros k i Hk Hi; destruct k as [|[|[|[|[|k]]]]]; [..|lia]; injection Hi as <-;
      (split; [vm_compute; reflexivity|]); try done; [exists 3|exists 7];
      (split; [vm_compute; reflexivity|]; split; [by split|apply deliver_ok]). }
  induction n as [|n IH]; intros Hn; [apply reach_new|].
  destruct (lookup_lt_is_Some_2 demo_inputs n) as [i Hi]; [simpl; lia|].
  destruct (Hstep n i) as [E He]; [lia|done|].
  eapply reach_step; [apply IH; lia|exact He|exact E].
Qed.

Section Theorems.
Context {P : Type} `{PollerSpec P}.
Context (write : nat -> list byte -> Z + Z) (user : Handlers) (ch fd : Z) (s : store * P).
Hypothesis Hwrite : write_ok write.
Hypothesis Huser : user_ok user.
Hypothesis Hfd : 0 <= fd.
Hypothesis Hstart : start_ok ch fd s.

(** C1: Whatever the peer, the kernel, other threads and the user's callbacks do, no
    step of a connection faults: no assert of the connection, its channel, its buffers
    or the poller fails, no byte outside a buffer is touched, and no empty callback is
    called.  What [enabled] and [user_ok] ask for: nobody uses [startRead] or
    [stopRead]; poll(2) reports urgent data with a hang-up only together with POLLIN
    ([hup_reads]); and another thread that has seen the connection up in [shutdown],
    [forceClose] or [forceCloseWithDelay] sets the state before the connection closes
    ([IMark]); [overtaken_calls_assert] shows what happens otherwise. *)
Theorem conn_never_faults w i :
  reachable write user ch fd s w -> enabled ch fd w i ->
  safe (exec write user w i) (fun _ => True).
Proof.
  intros Hr He; eapply safe_mono; [|done].
  apply (exec_winv write user ch fd s Hfd Hwrite Huser); [|done].
  by apply (reachable_winv write user ch fd s Hfd Hwrite Huser w).
Qed.

(** C2: As long as no write has failed with EPIPE or ECONNRESET, which makes
    [sendInLoop] drop what it was given ([WriteFault]), the bytes the kernel took are,
    in order, a prefix of the bytes handed to the connection, and exactly the missing
    ones wait in the output buffer. *)
Theorem conn_stream w :
  reachable write user ch fd s w -> WriteFault ∉ trace w ->
  submitted (trace w) = wrote (trace w) ++ content (outputBuffer_ (conn w)).
Proof.
  intros Hr Hf; pose proof (reachable_winv write user ch fd s Hfd Hwrite Huser w Hstart Hr) as Hw.
  assert (stream w []) as [_ Hs].
  { destruct Hw as [((_ & _ & _ & ? & _) & _)|[((_ & _ & _ & ? & _) & _)|((_ & _ & _ & ? & _) & _)]];
      done. }
  by rewrite (Hs Hf), app_nil_r.
Qed.

(** While a connection is up the kernel is asked for readable events, and
    for writable events exactly when output is pending, so pending output is never
    forgotten and an idle connection does not spin. *)
Theorem conn_write_interest w :
  reachable write user ch fd s w -> state_ (conn w) = kConnected \/ state_ (conn w) = kDisconnecting ->
  exists mask, watched (snd (chans w)) fd = Some (ch, mask) /\ has mask kReadEvent = true /\
    (has mask kWriteEvent = true <-> content (outputBuffer_ (conn w)) <> []).
Proof.
  intros Hr Hst; pose proof (reachable_winv write user ch fd s Hfd Hwrite Huser w Hstart Hr) as Hw.
  destruct Hw as [(_ & Hst' & _)|[(_ & _ & _ & _ & c & _ & _ & _ & _ & _ & _ & Hwt & Hrd & Hwr & _)|(_ & Hst' & _)]];
    [rewrite Hst' in Hst; by destruct Hst| |rewrite Hst' in Hst; by destruct Hst].
  exists (events_ c); split_and!; try done; unfold isWriting in Hwr; rewrite Hwr.
  destruct (content _) as [|x l]; [done|]; rewrite len_cons.
  rewrite (proj2 (Z.eqb_neq _ _)) by (pose proof (len_nonneg l); lia); done.
Qed.

(** The connection callback runs once when the connection comes up and once
    when it goes down, the close callback once after that, and
    [connectDestroyed] once at the end; the state always tells which of these have
    happened, and a closed connection is no longer watched by the kernel. *)
Theorem conn_lifecycle w :
  reachable write user ch fd s w ->
  match state_ (conn w) with
  | kConnecting => life (trace w) = []
  | kConnected | kDisconnecting => life (trace w) = [Connection true]
  | kDisconnected =>
      watched (snd (chans w)) fd = None /\
      (life (trace w) = [Connection true; Connection false; Closed] /\
       lifeTasks (pending w) = [TConnectDestroyed] \/
       life (trace w) = [Connection true; Connection false; Closed; Destroyed] /\
       lifeTasks (pending w) = [])
  end.
Proof.
  intros Hr; pose proof (reachable_winv write user ch fd s Hfd Hwrite Huser w Hstart Hr) as Hw.
  destruct Hw as [(_ & -> & _ & -> & _)|[(_ & Hst & _ & Hl & _)|(_ & -> & Hd)]]; [done| |].
  - by destruct Hst as [-> | ->].
  - destruct Hd as [((c & _ & _ & _ & _ & _ & Hn & _) & ? & ?)|((c & _ & _ & _ & _ & Hn & _) & ? & ?)]; auto.
Qed.

(** C35: [shutdown] is graceful: when the write side of the socket is shut down on
    a connection that is up, and no write has failed with EPIPE or ECONNRESET before,
    every byte handed over so far has been written. *)
Theorem conn_graceful_shutdown w t1 t2 :
  reachable write user ch fd s w -> trace w = t1 ++ ShutdownWrite :: t2 ->
  Connection false ∉ t1 -> WriteFault ∉ t1 -> submitted t1 = wrote t1.
Proof.
  intros Hr; pose proof (reachable_winv write user ch fd s Hfd Hwrite Huser w Hstart Hr) as Hw.
  assert (stream w []) as [Hs _].
  { destruct Hw as [((_ & _ & _ & ? & _) & _)|[((_ & _ & _ & ? & _) & _)|((_ & _ & _ & ? & _) & _)]];
      done. }
  apply Hs.
Qed.

(** A connection that is shutting down cannot be torn down from outside, as
    [~TcpServer] does with every connection it still has: [connectDestroyed] only
    disables the channel in state [kConnected], so [Channel::remove]'s assert fails. *)
Theorem destroy_while_disconnecting w :
  reachable write user ch fd s w -> state_ (conn w) = kDisconnecting ->
  connectDestroyed write user w = Fail AssertFailed.
Proof.
  intros Hr Hst; pose proof (reachable_winv write user ch fd s Hfd Hwrite Huser w Hstart Hr) as Hw.
  destruct Hw as [(_ & Hst' & _)|[Hl|(_ & Hst' & _)]]; [congruence| |congruence].
  unfold connectDestroyed, connected; rewrite bool_decide_eq_false_2 by (rewrite Hst; done).
  cbn [res_bind]; unfold withChannel, channel_remove, deref.
  destruct Hl as ((Hch & _) & _ & _ & _ & c & Hc & _ & _ & Hm & _ & _ & _ & Hrd & _).
  rewrite Hch, Hc; cbn [res_bind]; unfold isNoneEvent, kNoneEvent.
  by rewrite (proj2 (Z.eqb_neq _ _)) by (by apply nonempty_mask).
Qed.
End Theorems.

Lemma conn_never_faults_witness :
  safe (exec demo_write echo (demo_run 4) (IEvent POLLOUT (deliver []))) (fun _ => True).
Proof.
  apply (conn_never_faults demo_write echo 100 7 demo_start demo_write_ok echo_ok
           ltac:(lia) demo_start_ok).
  - apply demo_reachable; lia.
  - exists 7; split; [vm_compute; reflexivity|]; split; [by split|apply deliver_ok].
Defined.

Lemma conn_stream_witness :
  submitted (trace (demo_run 4)) = [x68; x65; x6c; x6c; x6f] /\
  wrote (trace (demo_run 4)) = [x68; x65] /\
  submitted (trace (demo_run 4)) =
    wrote (trace (demo_run 4)) ++ content (outputBuffer_ (conn (demo_run 4))).
Proof.
  split; [vm_compute; reflexivity|]; split; [vm_compute; reflexivity|].
  apply (conn_stream demo_write echo 100 7 demo_start demo_write_ok echo_ok
           ltac:(lia) demo_start_ok); [apply demo_reachable; lia|].
  assert (existsb (fun e => match e with WriteFault => true | _ => false end)
            (trace (demo_run 4)) = false) as E by (vm_compute; reflexivity).
  intros Hin; apply not_true_iff_false in E; apply E, existsb_exists.
  exists WriteFault; split; [by apply list_elem_of_In|done].
Defined.

Lemma conn_write_interest_witness :
  exists mask, watched (snd (chans (demo_run 2))) 7 = Some (100, mask) /\
    has mask kReadEvent = true /\
    (has mask kWriteEvent = true <-> content (outputBuffer_ (conn (demo_run 2))) <> []).
Proof.
  apply (conn_write_interest demo_write echo 100 7 demo_start demo_write_ok echo_ok
           ltac:(lia) demo_start_ok); [apply demo_reachable; lia|].
  left; vm_compute; reflexivity.
Defined.

Lemma conn_lifecycle_witness :
  state_ (conn (demo_run 4)) = kDisconnecting /\ life (trace (demo_run 4)) = [Connection true].
Proof.
  split; [vm_compute; reflexivity|].
  pose proof (conn_lifecycle demo_write echo 100 7 demo_start demo_write_ok echo_ok
           ltac:(lia) demo_start_ok (demo_run 4) (demo_reachable 4 ltac:(lia))) as Hl.
  exact Hl.
Defined.

Lemma conn_graceful_shutdown_witness :
  exists t1 t2, trace (demo_run 5) = t1 ++ ShutdownWrite :: t2 /\
    wrote t1 = [x68; x65; x6c; x6c; x6f] /\ submitted t1 = wrote t1.
Proof.
  exists [Connection true; Message [x68; x65; x6c; x6c; x6f]; Submit [x68; x65; x6c; x6c; x6f];
     Wrote [x68; x65]; Wrote [x6c; x6c; x6f]], [].
  split; [vm_compute; reflexivity|]; split; [reflexivity|].
  apply (conn_graceful_shutdown demo_write echo 100 7 demo_start demo_write_ok echo_ok
           ltac:(lia) demo_start_ok (demo_run 5) _ [] (demo_reachable 5 ltac:(lia))).
  - vm_compute; reflexivity.
  - intros Hin%list_elem_of_In; simpl in Hin; intuition discriminate.
  - intros Hin%list_elem_of_In; simpl in Hin; intuition discriminate.
Defined.

Lemma destroy_while_disconnecting_witness :
  connectDestroyed demo_write echo (demo_run 4) = Fail AssertFailed.
Proof.
  apply (destroy_while_disconnecting demo_write echo 100 7 demo_start demo_write_ok echo_ok
           ltac:(lia) demo_start_ok); [apply demo_reachable; lia|vm_compute; reflexivity].
Defined.

(** User code that pauses reading on a new connection and then closes it. *)
Definition pausing : Handlers :=
  mkHandlers (fun tr => if bool_decide (length tr = 1%nat) then [StopRead; ForceClose] else [])
    (fun _ c => (len c, [])) None None.

(** With epoll, [stopRead] followed by [forceClose] leaves the closed
    connection's descriptor in the epoll set with an empty mask; the hang-up the
    kernel then reports runs [handleClose] a second time, whose assert fails. *)
Theorem stopRead_close_asserts :
  exists w : World (P := EPollPoller (gmap Z (Z * Z))),
    res_fold (exec demo_write pausing) (newWorld 100 7 (∅, newEPollPoller ∅)) [ITask; ITask] = Ok w /\
    state_ (conn w) = kDisconnected /\ watched (snd (chans w)) 7 = Some (100, 0) /\
    enabled 100 7 w (IEvent POLLHUP (deliver [])) /\
    exec demo_write pausing w (IEvent POLLHUP (deliver [])) = Fail AssertFailed.
Proof.
  eexists; split; [vm_compute; reflexivity|].
  split; [reflexivity|]; split; [vm_compute; reflexivity|]; split; [|vm_compute; reflexivity].
  exists 0; split; [vm_compute; reflexivity|]; split; [by split|apply deliver_ok].
Qed.

(** User code that asks for more input when the connection goes down. *)
Definition eager : Handlers :=
  mkHandlers (fun tr => if bool_decide (length tr = 2%nat) then [StartRead] else [])
    (fun _ c => (len c, [])) None None.

(** [startRead] on a connection that was just closed switches its channel on
    again, and [connectDestroyed] then fails the assert of [Channel::remove]. *)
Theorem startRead_after_close_asserts :
  exists w : World (P := PollPoller),
    res_fold (exec demo_write eager) (newWorld 100 7 demo_start)
      [ITask; IEvent POLLIN (deliver [])] = Ok w /\
    state_ (conn w) = kDisconnected /\ pending w = [TConnectDestroyed] /\
    exec demo_write eager w ITask = Fail AssertFailed.
Proof.
  eexists; split; [vm_compute; reflexivity|]; split_and!; vm_compute; reflexivity.
Qed.

(** What the theorems above leave out does fail.  A connection has closed after
    another thread, in [forceClose] or [shutdown], has seen it up ("FIXME: use compare
    and swap"): the thread sets the state back.  Then [forceCloseInLoop] closes a second
    time and an assert of the channel's removal fails; after [shutdown] the connection
    stays in [kDisconnecting], and the assert of [~TcpConnection] fails.  And when
    poll(2) reports a hang-up and urgent data without POLLIN, the connection closes and
    then reads the end of the stream, which closes it again. *)
Theorem overtaken_calls_assert :
  exists up w : World (P := PollPoller),
    reachable demo_write echo 100 7 demo_start up /\ state_ (conn up) = kConnected /\
    exec demo_write echo up (IEvent POLLIN (deliver [])) = Ok w /\
    reachable demo_write echo 100 7 demo_start w /\ state_ (conn w) = kDisconnected /\
    res_fold (exec demo_write echo) w [IMark; IPost ForceClose; ITask; ITask] = Fail AssertFailed /\
    (exists w', res_fold (exec demo_write echo) w [IMark; IPost Shutdown; ITask; ITask] = Ok w' /\
       pending w' = [] /\ destroyConnection (conn w') = Fail AssertFailed) /\
    poll_reports 3 (Z.lor POLLHUP POLLPRI) /\ watched (snd (chans up)) 7 = Some (100, 3) /\
    exec demo_write echo up (IEvent (Z.lor POLLHUP POLLPRI) (deliver [])) = Fail AssertFailed.
Proof.
  assert (enabled 100 7 (demo_run 1) (IEvent POLLIN (deliver []))) as He.
  { exists 3; split; [vm_compute; reflexivity|]; split; [by split|apply deliver_ok]. }
  exists (demo_run 1); eexists; split; [apply demo_reachable; lia|]; split; [vm_compute; reflexivity|].
  split; [vm_compute; reflexivity|]; split.
  - eapply reach_step; [apply (demo_reachable 1); lia|exact He|vm_compute; reflexivity].
  - split; [reflexivity|]; split; [vm_compute; reflexivity|]; split; [eexists; split; [vm_compute; reflexivity|by split]|].
    split; [reflexivity|]; split; vm_compute; reflexivity.
Qed.
