(* ===== verification/TimerThreads.v ===== *)
(** * Timers across threads (src/src/muduo/net/TimerQueue.cc, EventLoop.cc)

    [addTimer] and [cancel] called outside the loop thread only queue a functor
    with the raw pointer of the timer; the loop runs it later.  Here the queue of
    TimerQueues runs with those functors: threads add and cancel, the loop runs its
    alarms, its own calls and the functors, interleaved in any way.  A timer whose
    functor has not run is on the heap and in no set of the queue.

    The second part is the life of a loop's own descriptors: the timerfd with its
    channel, the eventfd with its, and the timers, from the constructors of
    TimerQueue and EventLoop to their destructors, on the poller the loop shares
    with its users. *)

From S2P Require Import Prelude LoopThreads TcpConn Timestamps Channels Pollers TimerQueues.

(** ** Timers and functors *)

Inductive functor :=
| FAddTimerInLoop (a : Z)            (** [bind(&TimerQueue::addTimerInLoop, this, timer)] *)
| FCancelInLoop (id : TimerId).

#[export] Instance TimerId_eq_dec : EqDecision TimerId.
Proof. solve_decision. Defined.
#[export] Instance functor_eq_dec : EqDecision functor.
Proof. solve_decision. Defined.

Record Timers := mkTimers {
  queue : TimerQueue;
  functors : list functor;           (** those of the loop's queue that concern timers *)
}.

Definition newTimers : Timers := mkTimers newTimerQueue [].

Section Threads.
Variable alloc : gset Z -> option Z.
Variable callback : Z -> TimerQueue -> list timer_op.

(** [addTimer] in another thread: the timer is made and its functor queued, *)
Definition postTimer (when interval : Z) (repeat : bool) (s : Timers) : res (Timers * Z) :=
  let q := queue s in
  match alloc (dom (heap q)) with
  | None => Fail (Thrown bad_alloc)
  | Some a =>
      let seq := numCreated q + 1 in
      let q := mkTimerQueue (<[a := newTimer when interval repeat seq]> (heap q)) (timers_ q)
                 (activeTimers_ q) (callingExpiredTimers_ q) (cancelingTimers_ q) seq (armed q)
                 (fired q) in
      Ok (mkTimers q (functors s ++ [FAddTimerInLoop a]), a)
  end.

(** and then the handle is made, [TimerId(timer, timer->sequence())], from the timer,
    which belongs to the loop by now. *)
Definition readSequence (a : Z) (s : Timers) : res TimerId :=
  match heap (queue s) !! a with
  | Some t => Ok (mkTimerId a (sequence_ t))
  | None => Fail OutOfRange
  end.

(** The call, when the loop does not come in between. *)
Definition addTimerRemote (when interval : Z) (repeat : bool) (s : Timers) : res (Timers * TimerId) :=
  let! '(s, a) := postTimer when interval repeat s in
  let! id := readSequence a s in
  Ok (s, id).

(** [cancel]: [runInLoop] runs the functor at once in the loop thread. *)
Definition cancelTimer (inLoop : bool) (id : TimerId) (s : Timers) : res Timers :=
  if inLoop then let! q := cancelInLoop id (queue s) in Ok (mkTimers q (functors s))
  else Ok (mkTimers (queue s) (functors s ++ [FCancelInLoop id])).

Definition runFunctor (f : functor) (now : Timestamp) (q : TimerQueue) : res TimerQueue :=
  match f with
  | FAddTimerInLoop a => addTimerInLoop a now q
  | FCancelInLoop id => cancelInLoop id q
  end.

Inductive timers_input :=
| Remote (op : timer_op)        (** another thread, up to the functor *)
| Handle (a : Z)                (** the rest of its [addTimer] *)
| Functor (now : Timestamp)     (** the loop runs its next functor *)
| Local (k : tick).             (** the loop thread calls, or the timerfd is readable *)

Definition timers_step (s : Timers) (i : timers_input) : res Timers :=
  match i with
  | Remote (AddTimer when interval repeat) => let! '(s, _) := postTimer when interval repeat s in Ok s
  | Handle a => let! _ := readSequence a s in Ok s
  | Remote (Cancel id) => cancelTimer false id s
  | Functor now =>
      match functors s with
      | [] => Ok s
      | f :: fs => let! q := runFunctor f now (queue s) in Ok (mkTimers q fs)
      end
  | Local k => let! q := tick_step alloc callback (queue s) k in Ok (mkTimers q (functors s))
  end.
End Threads.

(** [delete timer.second] for every entry of [timers_]. *)
Definition deleteTimer (h : gmap Z Timer) (e : Entry) : res (gmap Z Timer) :=
  match h !! snd e with
  | Some _ => Ok (delete (snd e) h)
  | None => Fail OutOfRange
  end.

Definition deleteTimers (q : TimerQueue) : res TimerQueue :=
  let! h := res_fold deleteTimer (heap q) (timers_ q) in Ok (set_heap h q).

(** ** The loop's own descriptors *)

(** timerfd_create(2) returned [fd]; the log statement of a failure aborts. *)
Definition createTimerfd (fd : Z) : res Z := if fd <? 0 then Fail Aborted else Ok fd.

Section Parts.
Context {P : Type} `{PollerOps P}.

Record Parts := mkParts {
  loop_chans : store * P;      (** the channels and the poller of the loop *)
  open_fds : list Z;           (** its own descriptors that are open *)
  loop_timers : Timers;
}.

Definition on_loop_chans (s : store * P) (p : Parts) : Parts := mkParts s (open_fds p) (loop_timers p).
Definition on_timers (t : Timers) (p : Parts) : Parts := mkParts (loop_chans p) (open_fds p) t.

(** A channel for a descriptor, always reading. *)
Definition readChannel (ch fd : Z) (p : Parts) : res Parts :=
  let! s := enableReading true ch (<[ch := newChannel fd]> (fst (loop_chans p)), snd (loop_chans p)) in
  Ok (mkParts s (open_fds p ++ [fd]) (loop_timers p)).

(** close(2) of a descriptor of the loop. *)
Definition closeFd (fd : Z) (p : Parts) : res Parts :=
  if bool_decide (fd ∈ open_fds p)
  then Ok (mkParts (loop_chans p) (filter (fun f => f <> fd) (open_fds p)) (loop_timers p))
  else Fail OutOfRange.

(** [disableAll(); remove(); close(fd)]. *)
Definition dropChannel (ch fd : Z) (p : Parts) : res Parts :=
  let! s := disableAll true ch (loop_chans p) in
  let! s := channel_remove true ch s in
  closeFd fd (on_loop_chans s p).

Definition destroyChannel (ch : Z) (p : Parts) : res Parts :=
  let! s := channel_destroy true ch (loop_chans p) in Ok (on_loop_chans s p).

Definition constructTimerQueue (ch tfd : Z) (p : Parts) : res Parts :=
  let! timerfd_ := createTimerfd tfd in
  readChannel ch timerfd_ (on_timers newTimers p).

Definition destroyTimerQueue (ch tfd : Z) (p : Parts) : res Parts :=
  let! p := dropChannel ch tfd p in
  let! q := deleteTimers (queue (loop_timers p)) in
  destroyChannel ch (on_timers (mkTimers q (functors (loop_timers p))) p).

(** The constructor and the destructor of EventLoop, with the members that own
    descriptors; the pointer of the thread is in LoopThreads. *)
Definition constructParts (tch tfd wch wfd : Z) (s : store * P) : res Parts :=
  let! p := constructTimerQueue tch tfd (mkParts s [] newTimers) in
  let! wakeupFd_ := createEventfd wfd in
  readChannel wch wakeupFd_ p.

Definition destroyParts (tch tfd wch wfd : Z) (p : Parts) : res Parts :=
  let! p := dropChannel wch wfd p in
  let! p := destroyChannel wch p in
  destroyTimerQueue tch tfd p.
End Parts.

(** ** Properties *)

(** The timers whose functors have not run. *)
Definition waiting (fs : list functor) : list Z :=
  omap (fun f => match f with FAddTimerInLoop a => Some a | FCancelInLoop _ => None end) fs.

Lemma waiting_snoc fs f :
  waiting (fs ++ [f]) = waiting fs ++ (match f with FAddTimerInLoop a => [a] | _ => [] end).
Proof. unfold waiting; rewrite omap_app; by destruct f. Qed.

(** A timer that waits behind a functor that cancels was made after its timer. *)
Definition ordered (s : Timers) : Prop :=
  forall l1 id l2, functors s = l1 ++ FCancelInLoop id :: l2 -> forall a t,
    a ∈ waiting l2 -> heap (queue s) !! a = Some t -> tid_sequence_ id < sequence_ t.

(** The handles in the functors were handed out. *)
Definition handed (s : Timers) : Prop :=
  forall id, FCancelInLoop id ∈ functors s -> tid_sequence_ id <= numCreated (queue s).

Definition threads_inv (s : Timers) : Prop :=
  at_rest (waiting (functors s)) (queue s) /\ ordered s /\ handed s.

(** The list of those being called counts as a set. *)
Lemma tq_inv_perm X Y q : X ≡ₚ Y -> tq_inv X q -> tq_inv Y q.
Proof.
  intros Hp [I1 I2 I3 I4 [I5 I5'] I6]; split; try done.
  - intros w a Hin; rewrite <- Hp; by apply I2.
  - intros a t Ht; rewrite <- Hp; by apply I4.
  - split; [by rewrite <- Hp|]; intros a; rewrite <- Hp; apply I5'.
Qed.

Section ThreadProofs.
Context (alloc : gset Z -> option Z) (callback : Z -> TimerQueue -> list timer_op).
Context (Halloc : alloc_ok alloc).

Abbreviation timers_step := (timers_step alloc callback).

(** A handle is legal when it was handed out; it is made in time when the loop has not
    deleted the timer. *)
Definition input_legal (s : Timers) (i : timers_input) : Prop :=
  match i with
  | Remote (Cancel id) => tid_sequence_ id <= numCreated (queue s)
  | Handle a => is_Some (heap (queue s) !! a)
  | _ => True
  end.

Definition step_post (s s' : Timers) : Prop :=
  threads_inv s' /\ evolves (queue s) (queue s') /\
  exists l, fired (queue s') = fired (queue s) ++ l /\
    forall n, n ∈ l -> exists a t, heap (queue s) !! a = Some t /\ sequence_ t = n.

Lemma quiet (q q' : TimerQueue) : fired q' = fired q -> exists l, fired q' = fired q ++ l /\
  forall n, n ∈ l -> exists a t, heap q !! a = Some t /\ sequence_ t = n.
Proof. intros E; exists []; rewrite app_nil_r; split; [done|]; intros n Hn; by apply not_elem_of_nil in Hn. Qed.

Lemma postTimer_spec when interval repeat s :
  threads_inv s ->
  safe (postTimer alloc when interval repeat s) (fun '(s', a) =>
    step_post s s' /\ heap (queue s) !! a = None /\ numCreated (queue s') = numCreated (queue s) + 1 /\
    heap (queue s') = <[a := newTimer when interval repeat (numCreated (queue s) + 1)]> (heap (queue s))).
Proof.
  intros ([Hi Hc] & Ho & Hh); unfold postTimer; destruct (alloc _) as [a|] eqn:Ea; [|done].
  destruct (Halloc _ _ Ea) as [Hna Hr]; apply not_elem_of_dom in Hna.
  set (t := newTimer _ _ _ _); pose proof (tq_inv_alloc (waiting (functors s)) (queue s) a t Hi Hna Hr eq_refl) as Hi1.
  cbn [safe]; split; [|done]; split_and!; [split_and!|..].
  - split; [|done]; cbn [functors queue]; rewrite waiting_snoc.
    eapply tq_inv_perm; [apply Permutation_cons_append|exact Hi1].
  - intros l1 id l2; cbn [functors queue heap]; intros E b tb Hb.
    destruct l2 as [|f l2 _] using rev_ind; [by apply not_elem_of_nil in Hb|].
    rewrite app_comm_cons, app_assoc in E; apply app_inj_tail in E as [E <-].
    rewrite waiting_snoc in Hb; apply elem_of_app in Hb as [Hb| ->%list_elem_of_singleton].
    + rewrite lookup_insert_ne; [by apply (Ho l1 id l2)|]; intros ->.
      destruct (tq_called _ _ Hi) as [_ Hx]; destruct (Hx b) as [t' ?]; [|congruence].
      rewrite E; unfold waiting; rewrite omap_app; apply elem_of_app; by right.
    + rewrite lookup_insert_eq; intros [= <-]; cbn [sequence_ t newTimer].
      assert (FCancelInLoop id ∈ functors s) as Hin by (rewrite E; apply elem_of_app; right; left).
      apply Hh in Hin; lia.
  - intros id; cbn [functors queue numCreated]; intros [Hin|[=]%list_elem_of_singleton]%elem_of_app.
    apply Hh in Hin; lia.
  - split; cbn [queue numCreated heap]; [lia|]; intros b tb; destruct (decide (a = b)) as [<-|Hne]; [|rewrite lookup_insert_ne by done; eauto].
    rewrite lookup_insert_eq; intros [= <-]; simpl; lia.
  - by apply quiet.
Qed.

Lemma addTimerRemote_spec when interval repeat s :
  threads_inv s ->
  safe (addTimerRemote alloc when interval repeat s) (fun '(s', id) =>
    step_post s s' /\ heap (queue s) !! timer_ id = None /\ tid_sequence_ id = numCreated (queue s) + 1 /\
    numCreated (queue s') = tid_sequence_ id /\
    heap (queue s') = <[timer_ id := newTimer when interval repeat (tid_sequence_ id)]> (heap (queue s))).
Proof.
  intros Hs; unfold addTimerRemote; eapply safe_bind'; [by apply postTimer_spec|].
  intros [s' a] (Hp & Hn & Hc & Hh); unfold readSequence; rewrite Hh, lookup_insert_eq; cbn [res_bind safe].
  by split_and!.
Qed.

(** What a step of the loop does to the functors that are left. *)
Lemma rest_inv q q' fs :
  threads_inv (mkTimers q fs) -> at_rest (waiting fs) q' -> numCreated q <= numCreated q' ->
  (forall a, a ∈ waiting fs -> heap q' !! a = heap q !! a) -> threads_inv (mkTimers q' fs).
Proof.
  intros (_ & Ho & Hh) Hr Hn Hheap; split_and!; [done|..].
  - intros l1 id l2 E a t Ha; cbn [queue functors] in *; rewrite Hheap; [by eapply Ho|].
    rewrite E; unfold waiting; rewrite omap_app; apply elem_of_app; by right.
  - intros id Hid; apply Hh in Hid; cbn [queue] in *; lia.
Qed.

Lemma runFunctor_spec f fs now q :
  threads_inv (mkTimers q (f :: fs)) ->
  safe (runFunctor f now q) (fun q' => step_post (mkTimers q (f :: fs)) (mkTimers q' fs) /\
    (forall id, f = FCancelInLoop id -> forall t, heap q' !! timer_ id = Some t -> sequence_ t <> tid_sequence_ id)).
Proof.
  intros ([Hi Hc] & Ho & Hh); cbn [functors queue] in *.
  assert (ordered (mkTimers q fs) /\ handed (mkTimers q fs)) as [Ho' Hh'].
  { split; [intros l1 id l2 E; apply (Ho (f :: l1)); cbn in *; by rewrite E|intros id Hid; apply Hh; by right]. }
  destruct f as [a|id]; cbn [runFunctor].
  - change (waiting _) with (a :: waiting fs) in Hi; destruct (tq_called _ _ Hi) as [_ Hx].
    destruct (Hx a) as [t Ht]; [left|].
    destruct (addTimerInLoop_spec _ q a t now Hi Ht) as (q' & -> & Hi' & _ & Eh & Ef & Ec & _ & En & _).
    cbn [safe]; split; [|done]; split_and!; [split_and!|..]; cbn [queue functors].
    + split; [done|congruence].
    + intros l1 id l2 E b tb; cbn [queue]; rewrite Eh; by apply (Ho' l1 id l2).
    + intros id Hid; cbn [queue]; rewrite En; by apply Hh'.
    + split; [lia|]; rewrite Eh; eauto.
    + by apply quiet.
  - change (waiting _) with (waiting fs) in Hi.
    destruct (cancelInLoop_spec _ q id Hi) as (q' & -> & (Hi' & Hx & Ef & Ec & _ & [Hn Hev]) & Hcan & _).
    assert (forall a t, a ∈ waiting fs -> heap q' !! a = Some t -> tid_sequence_ id < sequence_ t) as Hlate.
    { intros a t Ha; rewrite Hx by done; by apply (Ho [] id fs). }
    cbn [safe]; split; [split_and!|]; cbn [queue functors].
    + eapply rest_inv; [|split; [exact Hi'|congruence]|done|done]; split_and!; [by split|done..].
    + by split.
    + by apply quiet.
    + intros id' [= <-] t Ht Es; destruct (decide (timer_ id ∈ waiting fs)) as [Hin|Hin].
      * specialize (Hlate _ _ Hin Ht); lia.
      * destruct (Hcan (or_intror Hin) t Ht Es) as [? _]; done.
Qed.

Lemma timers_step_spec s i :
  threads_inv s -> input_legal s i -> safe (timers_step s i) (step_post s).
Proof.
  intros Hs Hl; destruct i as [[when interval repeat|id]|a|now|k]; cbn [TimerThreads.timers_step].
  - eapply safe_bind'; [by apply postTimer_spec|]; by intros [s' a] [? _].
  - cbn [cancelTimer safe input_legal] in *; destruct s as [q fs]; destruct Hs as (Hr & Ho & Hh); cbn [queue functors] in *.
    split_and!; [split_and!|split; [cbn; lia|eauto]|by apply quiet].
    + cbn [functors queue]; rewrite waiting_snoc; by rewrite app_nil_r.
    + intros l1 id' l2 E a t Ha; cbn [functors queue] in *.
      destruct l2 as [|f l2 _] using rev_ind; [by apply not_elem_of_nil in Ha|].
      rewrite app_comm_cons, app_assoc in E; apply app_inj_tail in E as [E <-].
      rewrite waiting_snoc, app_nil_r in Ha; by apply (Ho l1 id' l2).
    + intros id' [Hin|[= ->]%list_elem_of_singleton]%elem_of_app; [by apply Hh|done].
  - destruct Hl as [t Ht]; unfold readSequence; rewrite Ht; cbn [res_bind safe].
    split_and!; [done|apply evolves_refl|by apply quiet].
  - destruct s as [q [|f fs]]; cbn [functors queue].
    + split_and!; [done|apply evolves_refl|by apply quiet].
    + eapply safe_bind'; [by apply runFunctor_spec|]; by intros q' [? _].
  - destruct s as [q fs]; cbn [functors queue]; pose proof Hs as (Hr & _).
    eapply safe_bind'; [apply (tick_rest alloc callback Halloc (waiting fs) q k Hr)|].
    intros q' (Hr' & Hev & Hheap & Hl'); cbn [safe]; split_and!; try done.
    eapply rest_inv; try done; apply Hev.
Qed.

(** Runs. *)
Inductive runs : Timers -> Timers -> Prop :=
| runs_nil s : runs s s
| runs_cons s1 i s2 s3 : input_legal s1 i -> timers_step s1 i = Ok s2 -> runs s2 s3 -> runs s1 s3.

Lemma runs_inv s s' : runs s s' -> threads_inv s -> threads_inv s' /\ evolves (queue s) (queue s').
Proof.
  induction 1 as [s|s1 i s2 s3 Hl E _ IH]; intros Hs; [split; [done|apply evolves_refl]|].
  destruct (safe_Ok _ _ _ (timers_step_spec s1 i Hs Hl) E) as (Hs2 & Hev & _).
  destruct (IH Hs2); split; [done|by eapply evolves_trans].
Qed.

(** Off the heap, for good. *)
Definition silent (n : Z) (s : Timers) : Prop :=
  n <= numCreated (queue s) /\ forall a t, heap (queue s) !! a = Some t -> sequence_ t <> n.

Lemma silent_evolves n s s' : silent n s -> evolves (queue s) (queue s') -> silent n s'.
Proof.
  intros [Hn Hs] [Hle Hev]; split; [lia|]; intros a t Ht E.
  destruct (Hev a t Ht) as (t0 & Ht0 & E0); [lia|]; apply (Hs a t0 Ht0); congruence.
Qed.

Lemma silent_runs n s s' :
  runs s s' -> threads_inv s -> silent n s -> exists l, fired (queue s') = fired (queue s) ++ l /\ n ∉ l.
Proof.
  induction 1 as [s|s1 i s2 s3 Hl E _ IH]; intros Hs Hn.
  { exists []; rewrite app_nil_r; split; [done|apply not_elem_of_nil]. }
  destruct (safe_Ok _ _ _ (timers_step_spec s1 i Hs Hl) E) as (Hs2 & Hev & l & Hf & Hl').
  destruct IH as (l' & Hf' & Hn'); [done|by eapply silent_evolves|].
  exists (l ++ l'); rewrite Hf', Hf, app_assoc; split; [done|]; apply not_elem_of_app; split; [|done].
  intros Hin; destruct (Hl' _ Hin) as (a & t & Ht & Es); by apply (proj2 Hn a t Ht).
Qed.

(** Its cancellation is under way. *)
Definition doomed (id : TimerId) (s : Timers) : Prop :=
  tid_sequence_ id <= numCreated (queue s) /\
  (forall a t, heap (queue s) !! a = Some t -> sequence_ t = tid_sequence_ id -> a = timer_ id) /\
  (FCancelInLoop id ∈ functors s \/ silent (tid_sequence_ id) s).

Lemma doomed_step id s i s' :
  threads_inv s -> input_legal s i -> timers_step s i = Ok s' -> doomed id s -> doomed id s'.
Proof.
  intros Hs Hl E (Hn & Haddr & Hd); pose proof (safe_Ok _ _ _ (timers_step_spec s i Hs Hl) E) as (_ & [Hle Hev] & _).
  assert (forall a t, heap (queue s') !! a = Some t -> sequence_ t = tid_sequence_ id -> a = timer_ id) as Haddr'.
  { intros a t Ht Es; destruct (Hev a t Ht) as (t0 & Ht0 & E0); [lia|]; apply (Haddr a t0 Ht0); congruence. }
  split_and!; [lia|done|]; destruct Hd as [Hin|Hsil]; [|right; by eapply silent_evolves].
  destruct i as [[when interval repeat|id']|a|now|k]; cbn [TimerThreads.timers_step] in E.
  - apply res_bind_Ok in E as ([s1 a1] & E & [= <-]); unfold postTimer in E.
    destruct (alloc _); [|done]; injection E as <- _; left; apply elem_of_app; by left.
  - injection E as <-; left; apply elem_of_app; by left.
  - apply res_bind_Ok in E as (h & _ & [= <-]); by left.
  - destruct s as [q [|f fs]]; cbn [functors queue] in *; [injection E as <-; by left|].
    apply res_bind_Ok in E as (q' & E & [= <-]).
    apply elem_of_cons in Hin as [<-|Hin]; [right|by left].
    destruct (safe_Ok _ _ _ (runFunctor_spec _ fs now q Hs) E) as [_ Hoff]; split; [cbn [queue] in *; lia|].
    intros a t Ht Es; pose proof (Haddr' a t Ht Es) as ->; by apply (Hoff id eq_refl t).
  - apply res_bind_Ok in E as (q' & _ & [= <-]); by left.
Qed.

Lemma doomed_runs id s s' : runs s s' -> threads_inv s -> doomed id s -> doomed id s'.
Proof.
  induction 1 as [s|s1 i s2 s3 Hl E _ IH]; intros Hs Hd; [done|].
  apply IH; [|by eapply doomed_step]; by destruct (safe_Ok _ _ _ (timers_step_spec s1 i Hs Hl) E).
Qed.

(** *** The destructor *)

Lemma deleteTimers_spec X q :
  tq_inv X q -> exists q', deleteTimers q = Ok q' /\ dom (heap q') = list_to_set X /\
    (forall a, a ∈ X -> heap q' !! a = heap q !! a).
Proof.
  intros Hi; unfold deleteTimers.
  assert (forall l h, NoDup (snd <$> l) -> (forall e : Entry, e ∈ l -> is_Some (h !! snd e)) ->
    exists h', res_fold deleteTimer h l = Ok h' /\ forall a, h' !! a = if bool_decide (a ∈ snd <$> l) then None else h !! a) as Hfold.
  { induction l as [|e l IH]; intros h Hnd Hs; cbn [res_fold].
    - exists h; split; [done|]; intros a; by rewrite bool_decide_false by (apply not_elem_of_nil).
    - rewrite fmap_cons in Hnd; apply NoDup_cons in Hnd as [Hn Hnd]; unfold deleteTimer at 1.
      destruct (Hs e) as [t ->]; [left|]; cbn [res_bind].
      destruct (IH (delete (snd e) h) Hnd) as (h' & E & Hh').
      { intros e' He'; rewrite lookup_delete_ne; [apply Hs; by right|]; intros Eq; apply Hn, list_elem_of_fmap; eauto. }
      exists h'; split; [done|]; intros a; rewrite Hh', fmap_cons.
      destruct (decide (a = snd e)) as [->|Hne].
      + rewrite lookup_delete_eq, (bool_decide_true (snd e ∈ _ :: _)) by left; by case_bool_decide.
      + rewrite lookup_delete_ne by done; rewrite (bool_decide_ext (a ∈ _ :: _) (a ∈ snd <$> l)); [done|]; rewrite elem_of_cons; split; [by intros [?|?]|by right]. }
  assert (forall e, e ∈ timers_ q -> is_Some (heap q !! snd e) /\ snd e ∉ X) as Hin.
  { intros [w a] He; destruct (tq_timers _ _ Hi _ _ He) as (? & t & ? & _); eauto. }
  destruct (Hfold (timers_ q) (heap q)) as (h' & -> & Hh').
  { apply NoDup_fmap_2_strong; [|by apply sorted_NoDup, (tq_sorted _ _ Hi)].
    intros [w a] [w' a'] H1 H2; simpl; intros <-; f_equal.
    destruct (tq_timers _ _ Hi _ _ H1) as (_ & t & Ht & <-), (tq_timers _ _ Hi _ _ H2) as (_ & t' & Ht' & <-); congruence. }
  { intros e He; by apply Hin. }
  cbn [res_bind]; eexists; split; [done|]; cbn [heap set_heap]; split.
  - apply set_eq; intros a; rewrite elem_of_dom, elem_of_list_to_set, Hh'; case_bool_decide as Ha; split.
    + by intros [].
    + intros HX; apply list_elem_of_fmap in Ha as (e & -> & He); by destruct (Hin e He).
    + intros [t Ht]; destruct (tq_heap _ _ Hi _ _ Ht) as ([Ht'|] & _); [|done].
      destruct Ha; apply list_elem_of_fmap; by exists (expiration_ t, a).
    + apply (tq_called _ _ Hi).
  - intros a Ha; rewrite Hh', bool_decide_false; [done|]; intros (e & -> & He)%list_elem_of_fmap; by destruct (Hin e He).
Qed.
End ThreadProofs.

(** *** Channels of the loop itself *)

Section PartProofs.
Context {P : Type} `{PollerSpec P}.
Implicit Types s : store * P.

(** A channel that reads and is not being handled. *)
Definition own (ch fd : Z) s : Prop :=
  exists c, fst s !! ch = Some c /\ fd_ c = fd /\ mask_ok c /\ isReading c = true /\
    eventHandling_ c = false /\ registered (snd s) !! fd = Some ch /\
    watched (snd s) fd = Some (ch, events_ c).

Lemma own_frame ch fd ch' fd' s s' :
  own ch fd s -> others ch' fd' s s' -> ch <> ch' -> fd <> fd' -> own ch fd s'.
Proof.
  intros (c & Hc & Hfd & Hm & Hr & Hh & Hreg & Hw) [O1 O2] Hch Hf.
  specialize (O1 ch Hch); destruct (O2 fd Hf) as [Or Ow]; rewrite Hc in O1.
  destruct (fst s' !! ch) as [c'|] eqn:Hc'; [|done]; destruct O1 as [i ->].
  exists (set_index i c); rewrite Or, Ow; by split_and!.
Qed.

Lemma others_self ch fd s : others ch fd s s.
Proof. split; [|done]; intros a _; by apply same_store_refl. Qed.

Lemma open_own ch fd s :
  pinv (fst s) (snd s) -> fst s !! ch = None -> registered (snd s) !! fd = None -> 0 <= fd ->
  exists s', enableReading true ch (<[ch := newChannel fd]> (fst s), snd s) = Ok s' /\
    pinv (fst s') (snd s') /\ own ch fd s' /\ others ch fd s s'.
Proof.
  destruct s as [st p]; cbn [fst snd]; intros Hp Hc Hreg Hfd; unfold enableReading, channel_update, deref; cbn [fst snd].
  rewrite lookup_insert_eq; cbn [res_bind]; set (c' := set_addedToLoop true (readingOn (newChannel fd))).
  destruct (update_law (<[ch := newChannel fd]> st) p ch (newChannel fd) c') as (st' & p' & E & Hp' & Hs & Hr & W & _ & _ & Wo).
  { by apply new_law. }
  { apply lookup_insert_eq. }
  { split_and!; try done; by right. }
  rewrite E; eexists; split; [done|]; cbn [fst snd]; split; [done|].
  destruct (same_store_lookup _ _ ch _ Hs (lookup_insert_eq _ _ _)) as [i Hi].
  cbn [fd_ newChannel] in *; split.
  - exists (set_index i c'); cbn [fst snd]; rewrite Hr, lookup_insert_eq; split_and!; try done; by apply W.
  - eapply (others_law ch fd (st, p) (<[ch := newChannel fd]> st) p c'); try done.
    + apply (others_insert ch fd (st, p) (st, p)), others_self.
    + intros f Hf; by rewrite Hr, lookup_insert_ne.
Qed.

Lemma others_trans ch fd s1 s2 s3 : others ch fd s1 s2 -> others ch fd s2 s3 -> others ch fd s1 s3.
Proof.
  intros [A1 A2] [B1 B2]; split.
  - intros a Ha; specialize (A1 a Ha); specialize (B1 a Ha).
    destruct (fst s1 !! a), (fst s2 !! a), (fst s3 !! a); try done; destruct A1 as [i ->], B1 as [j ->]; by exists j.
  - intros f Hf; destruct (A2 f Hf), (B2 f Hf); split; congruence.
Qed.

(** [disableAll(); remove()] and the destructor of the channel. *)
Lemma close_own ch fd s :
  pinv (fst s) (snd s) -> own ch fd s -> 0 <= fd ->
  exists s1 s2 s3, disableAll true ch s = Ok s1 /\ channel_remove true ch s1 = Ok s2 /\
    (forall s2', snd s2' = snd s2 -> fst s2' !! ch = fst s2 !! ch -> channel_destroy true ch s2' = Ok (delete ch (fst s2'), snd s2')) /\
    s3 = (delete ch (fst s2), snd s2) /\ pinv (fst s3) (snd s3) /\
    registered (snd s3) !! fd = None /\ watched (snd s3) fd = None /\ others ch fd s s3.
Proof.
  destruct s as [st p]; cbn [fst snd]; intros Hp (c & Hc & Hfd & Hm & Hr & Hh & Hreg & Hw) Hnn; cbn [fst snd] in *.
  unfold disableAll, channel_update, deref; cbn [fst snd]; rewrite Hc; cbn [res_bind].
  destruct (update_law st p ch c (set_addedToLoop true (allOff c)) Hp Hc)
    as (st1 & p1 & -> & Hp1 & Hs1 & Hr1 & _ & W1 & _ & Wo1).
  { rewrite <- Hfd in *; split_and!; try done; by left. }
  destruct (same_store_lookup _ _ ch _ Hs1 (lookup_insert_eq _ _ _)) as [i Hi1]; cbn [fd_] in *; rewrite Hfd in *.
  exists (st1, p1); unfold channel_remove, deref; cbn [fst snd]; rewrite Hi1; cbn [res_bind].
  destruct (remove_law st1 p1 ch _ (set_addedToLoop false (set_index i (set_addedToLoop true (allOff c)))) Hp1 Hi1)
    as (st2 & p2 & E2 & Hp2 & Hs2 & Hr2 & W2 & Wo2); try done.
  { cbn; by rewrite Hfd, Hr1, lookup_insert_eq. }
  destruct (same_store_lookup _ _ ch _ Hs2 (lookup_insert_eq _ _ _)) as [j Hi2]; cbn [fd_ set_index set_addedToLoop allOff set_events] in *.
  rewrite Hfd in *; rewrite E2; eexists _, _; split_and!; try done; cbn [fst snd].
  - intros [st' p'] Ep Es; cbn [fst snd] in *; unfold channel_destroy, hasChannel, deref; cbn [fst snd].
    rewrite Es, Hi2; cbn; rewrite Hh, Hfd, Ep, Hr2, lookup_delete_eq; done.
  - by rewrite Hr2, lookup_delete_eq.
  - eapply (others_trans _ _ _ (st2, p2)).
    + eapply (others_trans _ _ _ (st1, p1)).
      * eapply (others_law ch fd (st, p) st p); [apply others_self|exact Hs1|..|done].
        intros f Hf; by rewrite Hr1, lookup_insert_ne.
      * eapply (others_law ch fd (st1, p1) st1 p1); [apply others_self|exact Hs2|..|done].
        intros f Hf; by rewrite Hr2, lookup_delete_ne.
    + split; [|done]; intros a Ha; cbn [fst]; rewrite lookup_delete_ne by done; apply same_store_refl.
Qed.

Lemma dropChannel_spec ch fd (p : Parts) :
  pinv (fst (loop_chans p)) (snd (loop_chans p)) -> own ch fd (loop_chans p) -> 0 <= fd -> fd ∈ open_fds p ->
  exists p1, dropChannel ch fd p = Ok p1 /\ open_fds p1 = filter (fun f => f <> fd) (open_fds p) /\
    loop_timers p1 = loop_timers p /\
    forall t, exists p2, destroyChannel ch (on_timers t p1) = Ok p2 /\
      open_fds p2 = open_fds p1 /\ loop_timers p2 = t /\
      pinv (fst (loop_chans p2)) (snd (loop_chans p2)) /\ fst (loop_chans p2) !! ch = None /\
      registered (snd (loop_chans p2)) !! fd = None /\ watched (snd (loop_chans p2)) fd = None /\
      others ch fd (loop_chans p) (loop_chans p2).
Proof.
  intros Hp Ho Hfd Hin; destruct (close_own ch fd _ Hp Ho Hfd) as (s1 & s2 & s3 & E1 & E2 & E3 & -> & Hp3 & Hr3 & Hw3 & Ho3).
  unfold dropChannel; rewrite E1; cbn [res_bind]; rewrite E2; cbn [res_bind]; unfold closeFd.
  cbn [on_loop_chans open_fds loop_chans]; rewrite bool_decide_true by done.
  eexists; split_and!; [done..|]; intros t; unfold destroyChannel; cbn [on_timers loop_chans].
  rewrite (E3 s2) by done; cbn [res_bind]; eexists; split_and!; try done; cbn; by rewrite lookup_delete_eq.
Qed.

Context (alloc : gset Z -> option Z) (callback : Z -> TimerQueue -> list timer_op).
Context (tch tfd wch wfd : Z).
Context (Halloc : alloc_ok alloc).

(** What happens to a loop between its constructor and its destructor: others use
    their channels on its poller, and its timers run. *)
Inductive parts_step (p : Parts) : Parts -> Prop :=
| ps_user ch fd s' :
    others ch fd (loop_chans p) s' -> pinv (fst s') (snd s') -> ch <> tch -> ch <> wch -> fd <> tfd -> fd <> wfd ->
    parts_step p (on_loop_chans s' p)
| ps_timers i t :
    input_legal (loop_timers p) i -> timers_step alloc callback (loop_timers p) i = Ok t ->
    parts_step p (on_timers t p).

Record parts_inv (p : Parts) : Prop := {
  pa_poller : pinv (fst (loop_chans p)) (snd (loop_chans p));
  pa_timer : own tch tfd (loop_chans p);
  pa_wakeup : own wch wfd (loop_chans p);
  pa_fds : open_fds p = [tfd; wfd];
  pa_timers : threads_inv (loop_timers p);
}.

Lemma newTimers_inv : threads_inv newTimers.
Proof.
  split_and!; [apply newTimerQueue_rest|..].
  - intros [|f l1] id l2 E; done.
  - intros id Hid; by apply not_elem_of_nil in Hid.
Qed.

Lemma constructParts_inv s :
  pinv (fst s) (snd s) -> fst s !! tch = None -> fst s !! wch = None -> tch <> wch ->
  registered (snd s) !! tfd = None -> registered (snd s) !! wfd = None -> tfd <> wfd -> 0 <= tfd -> 0 <= wfd ->
  exists p, constructParts tch tfd wch wfd s = Ok p /\ parts_inv p.
Proof.
  intros Hp Ht Hw Hne Hrt Hrw Hnf Htf Hwf; unfold constructParts, constructTimerQueue, createTimerfd, readChannel.
  rewrite (proj2 (Z.ltb_ge _ _)) by done; cbn [res_bind on_timers loop_chans open_fds].
  destruct (open_own tch tfd s Hp Ht Hrt Htf) as (s1 & -> & Hp1 & Ho1 & Oth1); cbn [res_bind loop_chans open_fds].
  unfold createEventfd; rewrite (proj2 (Z.ltb_ge _ _)) by done; cbn [res_bind].
  destruct Oth1 as [O1 O2].
  destruct (open_own wch wfd s1 Hp1) as (s2 & -> & Hp2 & Ho2 & Oth2).
  { specialize (O1 wch (not_eq_sym Hne)); rewrite Hw in O1; by destruct (fst s1 !! wch). }
  { by destruct (O2 wfd (not_eq_sym Hnf)) as [-> _]. }
  { done. }
  cbn [res_bind]; eexists; split; [done|]; split; cbn; try done; [by eapply own_frame|apply newTimers_inv].
Qed.

Lemma parts_step_inv p p' : parts_step p p' -> parts_inv p -> parts_inv p'.
Proof.
  intros [ch fd s' Ho Hp H1 H2 H3 H4|i t Hl E] [P1 P2 P3 P4 P5].
  - split; try done; cbn; by eapply own_frame.
  - split; try done; cbn; by destruct (safe_Ok _ _ _ (timers_step_spec alloc callback Halloc _ i P5 Hl) E).
Qed.
End PartProofs.

(** ** Theorems *)

Section Theorems.
Context (alloc : gset Z -> option Z) (callback : Z -> TimerQueue -> list timer_op).
Hypothesis Halloc : alloc_ok alloc.

(** C9: Threads may add and cancel timers while the loop runs: no interleaving of
    their calls with the functors, the alarms and the loop's own calls violates an
    assert of the queue or touches a deleted timer, with one exception.  [addTimer]
    reads the sequence number after it has queued the functor, and this read faults
    exactly if the loop has deleted the timer by then ([late_read_faults] is such a
    run). *)
Theorem remote_timers_never_fault s i :
  runs alloc callback newTimers s ->
  match i with
  | Handle a => (is_Some (heap (queue s) !! a) -> timers_step alloc callback s i = Ok s) /\
                (heap (queue s) !! a = None -> timers_step alloc callback s i = Fail OutOfRange)
  | _ => input_legal s i -> safe (timers_step alloc callback s i) (fun _ => True)
  end.
Proof.
  intros Hr; destruct (runs_inv alloc callback Halloc _ _ Hr newTimers_inv) as [Hs _].
  assert (input_legal s i -> safe (timers_step alloc callback s i) (fun _ => True)) as Hstep.
  { intros Hl; eapply safe_mono; [by apply timers_step_spec|done]. }
  destruct i as [op|a|now|k]; try done; cbn [timers_step]; unfold readSequence.
  split; [by intros [t ->]|by intros ->].
Qed.

(** C21: Cancelling from another thread is final: a timer that was added and then
    cancelled from other threads never runs again once the functor of [cancel] has
    run, whatever the threads and the loop did in between and do afterwards. *)
Theorem remote_cancel_is_final s0 when interval repeat s1 id s2 s3 s4 s5 :
  runs alloc callback newTimers s0 -> addTimerRemote alloc when interval repeat s0 = Ok (s1, id) ->
  runs alloc callback s1 s2 -> cancelTimer false id s2 = Ok s3 ->
  runs alloc callback s3 s4 -> FCancelInLoop id ∉ functors s4 ->
  runs alloc callback s4 s5 ->
  exists l, fired (queue s5) = fired (queue s4) ++ l /\ tid_sequence_ id ∉ l.
Proof.
  intros R0 Ea R1 Ec R3 Hdone R4.
  destruct (runs_inv alloc callback Halloc _ _ R0 newTimers_inv) as [I0 _].
  destruct (safe_Ok _ _ _ (addTimerRemote_spec alloc Halloc when interval repeat s0 I0) Ea)
    as ((I1 & _) & Hnew & Hseq & Hnum & Hheap).
  destruct (runs_inv alloc callback Halloc _ _ R1 I1) as [I2 [Hle Hev]].
  assert (input_legal s2 (Remote (Cancel id))) as Hl by (cbn; lia).
  destruct (safe_Ok _ _ _ (timers_step_spec alloc callback Halloc s2 (Remote (Cancel id)) I2 Hl) Ec) as (I3 & _).
  assert (doomed id s3) as Hd.
  { injection Ec as <-; split_and!; cbn [queue functors].
    - lia.
    - intros a t Ht Es; destruct (Hev a t Ht) as (t1 & Ht1 & E1); [lia|].
      destruct I1 as ([Hi1 _] & _); eapply (tq_seq _ _ Hi1 a (timer_ id) t1); [done|by rewrite Hheap, lookup_insert_eq|].
      cbn; congruence.
    - left; apply elem_of_app; right; left. }
  destruct (runs_inv alloc callback Halloc _ _ R3 I3) as [I4 _].
  destruct (doomed_runs alloc callback Halloc id _ _ R3 I3 Hd) as (_ & _ & [?|Hsil]); [done|].
  by eapply silent_runs.
Qed.

(** A timer another thread added cannot be cancelled by the loop before its functor
    has run: the call changes nothing, and the functor then puts the timer into the
    queue. *)
Theorem early_cancel_is_lost s a fs t now :
  runs alloc callback newTimers s -> functors s = FAddTimerInLoop a :: fs -> heap (queue s) !! a = Some t ->
  cancelTimer true (mkTimerId a (sequence_ t)) s = Ok s /\
  exists s', timers_step alloc callback s (Functor now) = Ok s' /\ (expiration_ t, a) ∈ timers_ (queue s').
Proof.
  intros Hr Hf Ht; destruct (runs_inv alloc callback Halloc _ _ Hr newTimers_inv) as [[[Hi Hc] _] _].
  rewrite Hf in Hi; change (waiting _) with (a :: waiting fs) in Hi; split.
  - unfold cancelTimer, cancelInLoop; rewrite (tq_sizes _ _ Hi); cbn [cassert res_bind timer_ tid_sequence_].
    rewrite bool_decide_false.
    2:{ rewrite (tq_active_iff _ _ _ _ Hi); intros (t' & Ht' & _ & Hin).
        destruct (tq_timers _ _ Hi _ _ Hin) as [Hn _]; apply Hn; left. }
    rewrite Hc; cbn [res_bind]; rewrite (tq_sizes _ _ Hi); cbn [cassert res_bind]; by destruct s.
  - cbn [timers_step]; rewrite Hf; cbn [runFunctor].
    destruct (addTimerInLoop_spec _ _ a t now Hi Ht) as (q' & -> & _ & Hp & _); cbn [res_bind].
    eexists; split; [done|]; cbn [queue]; rewrite Hp; left.
Qed.

(** C25: A loop cleans up after itself: after any use of its poller by others and of its
    timers by any thread, the destructors of EventLoop and TimerQueue meet every
    assert, close the eventfd and the timerfd once, take their channels and nothing
    else from the poller, and delete every timer once, but those whose functor the
    loop has not run; these leak. *)
Theorem loop_cleans_up {P : Type} `{PollerSpec P} tch tfd wch wfd (s : store * P) p0 p :
  pinv (fst s) (snd s) -> fst s !! tch = None -> fst s !! wch = None -> tch <> wch ->
  registered (snd s) !! tfd = None -> registered (snd s) !! wfd = None -> tfd <> wfd -> 0 <= tfd -> 0 <= wfd ->
  constructParts tch tfd wch wfd s = Ok p0 -> rtc (parts_step alloc callback tch tfd wch wfd) p0 p ->
  exists p', destroyParts tch tfd wch wfd p = Ok p' /\ open_fds p' = [] /\
    pinv (fst (loop_chans p')) (snd (loop_chans p')) /\
    fst (loop_chans p') !! tch = None /\ fst (loop_chans p') !! wch = None /\
    registered (snd (loop_chans p')) !! tfd = None /\ registered (snd (loop_chans p')) !! wfd = None /\
    (forall f, f <> tfd -> f <> wfd -> registered (snd (loop_chans p')) !! f = registered (snd (loop_chans p)) !! f /\
       watched (snd (loop_chans p')) f = watched (snd (loop_chans p)) f) /\
    dom (heap (queue (loop_timers p'))) = list_to_set (waiting (functors (loop_timers p))).
Proof.
  intros Hp Ht Hw Hch Hrt Hrw Hfd Htf Hwf Ec Hr.
  destruct (constructParts_inv tch tfd wch wfd s Hp Ht Hw Hch Hrt Hrw Hfd Htf Hwf) as (p1 & E1 & I0).
  rewrite Ec in E1; injection E1 as <-.
  assert (parts_inv tch tfd wch wfd p) as [P1 P2 P3 P4 P5].
  { clear Ec; induction Hr as [|p0 p1 p2 Hs _ IH]; [done|]; apply IH; by eapply parts_step_inv. }
  unfold destroyParts; destruct (dropChannel_spec wch wfd p P1 P3 Hwf) as (p1 & -> & F1 & T1 & D1).
  { rewrite P4; right; left. }
  destruct (D1 (loop_timers p1)) as (p2 & E2 & F2 & T2 & I2 & N2 & R2 & _ & O2).
  replace (on_timers (loop_timers p1) p1) with p1 in E2 by (by destruct p1).
  cbn [res_bind]; rewrite E2; cbn [res_bind]; unfold destroyTimerQueue.
  destruct (dropChannel_spec tch tfd p2 I2) as (p3 & -> & F3 & T3 & D3).
  { by eapply own_frame. }
  { done. }
  { rewrite F2, F1, P4; apply list_elem_of_filter; split; [done|left]. }
  cbn [res_bind]; rewrite T3, T2, T1; destruct P5 as ([Hi _] & _).
  destruct (deleteTimers_spec _ _ Hi) as (q' & -> & Hdom & _); cbn [res_bind].
  destruct (D3 (mkTimers q' (functors (loop_timers p)))) as (p4 & -> & F4 & T4 & I4 & N4 & R4 & _ & O4).
  exists p4; split_and!; try done.
  - rewrite F4, F3, F2, F1, P4, !filter_cons, !filter_nil. destruct (decide (tfd <> wfd)); [|done].
    destruct (decide (wfd <> wfd)); [done|]. by rewrite filter_cons, decide_False by (by intros ?).
  - destruct O4 as [O4 _]; specialize (O4 wch (not_eq_sym Hch)); rewrite N2 in O4; by destruct (fst (loop_chans p4) !! wch).
  - destruct O4 as [_ O4]; by destruct (O4 wfd (not_eq_sym Hfd)) as [-> _].
  - intros f H1 H2; destruct O4 as [_ O4], O2 as [_ O2]; destruct (O4 f H1) as [-> ->], (O2 f H2) as [-> ->]; done.
  - by rewrite T4.
Qed.
End Theorems.

(** *** Witnesses *)

(** Inputs that hand out no handle. *)
Definition plain (i : timers_input) : Prop := match i with Remote (Cancel _) | Handle _ => False | _ => True end.

Lemma runs_fold alloc callback ks s s' :
  Forall plain ks -> res_fold (timers_step alloc callback) s ks = Ok s' -> runs alloc callback s s'.
Proof.
  intros Hp; revert s; induction Hp as [|i ks Hi _ IH]; intros s; cbn [res_fold].
  - intros [= <-]; constructor.
  - intros (s1 & E & E')%res_bind_Ok; eapply runs_cons; [|exact E|by apply IH]; by destruct i as [[|id]| | |].
Qed.

Definition demo_runs (ks : list timers_input) (s : Timers) : Timers :=
  from_res s (res_fold (timers_step demo_alloc demo_callback) s ks).

(** A repeating timer, added and cancelled by another thread. *)
Definition demo_added : Timers := demo_runs [Remote (AddTimer 1000 1000000 true)] newTimers.
Definition demo_fired : Timers := demo_runs [Functor 10; Local (Alarm 3000)] demo_added.
Definition demo_cancelling : Timers := from_res demo_fired (cancelTimer false (mkTimerId 1 1) demo_fired).
Definition demo_cancelled : Timers := demo_runs [Local (Alarm 2000000); Functor 2000001] demo_cancelling.
Definition demo_later : Timers := demo_runs [Local (Alarm 9000000)] demo_cancelled.

Lemma remote_timers_never_fault_witness :
  safe (timers_step demo_alloc demo_callback demo_added (Remote (Cancel (mkTimerId 1 1)))) (fun _ => True) /\
  timers_step demo_alloc demo_callback demo_added (Handle 1) = Ok demo_added.
Proof.
  assert (runs demo_alloc demo_callback newTimers demo_added) as Hr.
  { apply (runs_fold _ _ [Remote (AddTimer 1000 1000000 true)]); [by repeat constructor|vm_compute; reflexivity]. }
  split.
  - apply (remote_timers_never_fault demo_alloc demo_callback demo_alloc_ok demo_added (Remote (Cancel (mkTimerId 1 1))) Hr).
    vm_compute; discriminate.
  - apply (remote_timers_never_fault demo_alloc demo_callback demo_alloc_ok demo_added (Handle 1) Hr).
    eexists; vm_compute; reflexivity.
Defined.

(** The timer of a one-shot call is inserted, runs and is deleted before the thread
    that added it makes its handle. *)
Theorem late_read_faults :
  exists s, runs demo_alloc demo_callback newTimers s /\ fired (queue s) = [1] /\
    timers_step demo_alloc demo_callback s (Handle 1) = Fail OutOfRange.
Proof.
  eexists; split; [|split].
  - apply (runs_fold _ _ [Remote (AddTimer 1000 0 false); Functor 10; Local (Alarm 3000)]);
      [by repeat constructor|vm_compute; reflexivity].
  - reflexivity.
  - vm_compute; reflexivity.
Qed.

Lemma remote_cancel_is_final_witness :
  fired (queue demo_cancelled) = [1; 1] /\
  exists l, fired (queue demo_later) = fired (queue demo_cancelled) ++ l /\ 1 ∉ l.
Proof.
  split; [vm_compute; reflexivity|].
  apply (remote_cancel_is_final demo_alloc demo_callback demo_alloc_ok newTimers 1000 1000000 true demo_added (mkTimerId 1 1)
    demo_fired demo_cancelling demo_cancelled demo_later).
  - constructor.
  - vm_compute; reflexivity.
  - apply (runs_fold _ _ [Functor 10; Local (Alarm 3000)]); [by repeat constructor|vm_compute; reflexivity].
  - vm_compute; reflexivity.
  - apply (runs_fold _ _ [Local (Alarm 2000000); Functor 2000001]); [by repeat constructor|vm_compute; reflexivity].
  - apply (bool_decide_unpack _); vm_compute; exact I.
  - apply (runs_fold _ _ [Local (Alarm 9000000)]); [by repeat constructor|vm_compute; reflexivity].
Defined.

Lemma early_cancel_is_lost_witness :
  cancelTimer true (mkTimerId 1 1) demo_added = Ok demo_added /\
  exists s', timers_step demo_alloc demo_callback demo_added (Functor 10) = Ok s' /\ (1000, 1) ∈ timers_ (queue s').
Proof.
  apply (early_cancel_is_lost demo_alloc demo_callback demo_alloc_ok demo_added 1 [] (newTimer 1000 1000000 true 1) 10);
    [|vm_compute; reflexivity..].
  apply (runs_fold _ _ [Remote (AddTimer 1000 1000000 true)]); [by repeat constructor|vm_compute; reflexivity].
Defined.

(** The loop of an idle thread, destroyed with a timer on its way. *)
Lemma loop_cleans_up_witness :
  exists p0 p', constructParts 1 3 2 4 demo_start = Ok p0 /\
    destroyParts 1 3 2 4 (on_timers demo_added p0) = Ok p' /\ open_fds p' = [] /\
    dom (heap (queue (loop_timers p'))) = {[1]}.
Proof.
  destruct (constructParts 1 3 2 4 demo_start) as [p0|] eqn:E0; [|by vm_compute in E0].
  destruct (loop_cleans_up demo_alloc demo_callback demo_alloc_ok 1 3 2 4 demo_start p0 (on_timers demo_added p0))
    as (p' & E & Hf & _ & _ & _ & _ & _ & _ & Hd).
  - apply demo_start_ok.
  - reflexivity.
  - reflexivity.
  - discriminate.
  - reflexivity.
  - reflexivity.
  - discriminate.
  - discriminate.
  - discriminate.
  - exact E0.
  - apply rtc_once, (ps_timers _ _ _ _ _ _ _ (Remote (AddTimer 1000 1000000 true))); [exact I|].
    vm_compute in E0; injection E0 as <-; vm_compute; reflexivity.
  - exists p0, p'; split_and!; try done; rewrite Hd; vm_compute; reflexivity.
Defined.
