(* ===== verification/Servers.v ===== *)
(** * Accepting and serving (src/src/muduo/net/Acceptor.cc, TcpServer.cc,
    EventLoopThreadPool.cc, SocketsOps.cc)

    The acceptor over the results of the system calls it makes; the pool that
    hands out loops in turn; and the server, which creates connections in one
    loop, lives in another, and forgets them when they close.  Every loop has its
    queue of functors; loops run interleaved in any order. *)

From S2P Require Import Prelude Formats.

(** ** Acceptor *)

(** errno values of Linux. *)
Definition EPERM : Z := 1.
Definition EINTR : Z := 4.
Definition EAGAIN : Z := 11.
Definition EMFILE : Z := 24.
Definition EPROTO : Z := 71.
Definition ECONNABORTED : Z := 103.

(** [sockets::accept]: errors that are not expected abort the process. *)
Definition sockets_accept (r : Z + Z) : res (Z + Z) :=
  match r with
  | inl connfd => Ok (inl connfd)
  | inr savedErrno =>
      if bool_decide (savedErrno ∈ [EAGAIN; ECONNABORTED; EINTR; EPROTO; EPERM; EMFILE])
      then Ok (inr savedErrno) else Fail Aborted
  end.

(** What the acceptor does to descriptors. *)
Inductive fd_event :=
| Opened (fd : Z)
| Closed (fd : Z)
| Handed (fd : Z).             (** to [newConnectionCallback_] *)

Record Acceptor := mkAcceptor {
  acceptSocket_ : Z;
  listenning_ : bool;
  idleFd_ : Z;
  newConnectionCallback_ : bool;
  fds : list fd_event;
}.

(** [open(2)] of /dev/null and friends: a descriptor or -1. *)
Definition opened (r : Z) : list fd_event := if 0 <=? r then [Opened r] else [].
Definition closed (fd : Z) : list fd_event := if 0 <=? fd then [Closed fd] else [].

Definition newAcceptor (socket idle : Z) : res Acceptor :=
  if socket <? 0 then Fail Aborted
  else assert! 0 <=? idle ;; Ok (mkAcceptor socket false idle false [Opened socket; Opened idle]).

Definition listen (a : Acceptor) : Acceptor :=
  mkAcceptor (acceptSocket_ a) true (idleFd_ a) (newConnectionCallback_ a) (fds a).

(** [handleRead]; [r1] and [r2] are what the two accepts return, [r3] what the
    last open(2) returns. *)
Definition handleRead (r1 : Z + Z) (r2 r3 : Z) (a : Acceptor) : res Acceptor :=
  let! r := sockets_accept r1 in
  match r with
  | inl connfd =>
      Ok (mkAcceptor (acceptSocket_ a) (listenning_ a) (idleFd_ a) (newConnectionCallback_ a)
            (fds a ++ [Opened connfd] ++
             if newConnectionCallback_ a then [Handed connfd] else [Closed connfd]))
  | inr errno =>
      if errno =? EMFILE then
        Ok (mkAcceptor (acceptSocket_ a) (listenning_ a) r3 (newConnectionCallback_ a)
              (fds a ++ closed (idleFd_ a) ++ opened r2 ++ closed r2 ++ opened r3))
      else Ok a
  end.

(** [~Acceptor] and the [~Socket] of its member. *)
Definition destroyAcceptor (a : Acceptor) : list fd_event :=
  fds a ++ closed (idleFd_ a) ++ closed (acceptSocket_ a).

(** ** EventLoopThreadPool *)

Record Pool := mkPool {
  baseLoop_ : Z;
  started_ : bool;
  numThreads_ : Z;
  next_ : Z;
  loops_ : list Z;
}.

Definition newPool (base : Z) : Pool := mkPool base false 0 0 [].

Definition setThreadNum (n : Z) (p : Pool) : Pool :=
  mkPool (baseLoop_ p) (started_ p) n (next_ p) (loops_ p).

(** [start]; [new_loop i] is the loop the i-th thread returns from [startLoop]. *)
Definition pool_start (new_loop : nat -> Z) (p : Pool) : res Pool :=
  assert! negb (started_ p) ;;
  Ok (mkPool (baseLoop_ p) true (numThreads_ p) (next_ p)
        (loops_ p ++ (new_loop <$> seq 0 (Z.to_nat (numThreads_ p))))).

Definition getNextLoop (p : Pool) : res (Z * Pool) :=
  assert! started_ p ;;
  match loops_ p with
  | [] => Ok (baseLoop_ p, p)
  | _ =>
      match loops_ p !! Z.to_nat (next_ p) with
      | None => Fail OutOfRange
      | Some loop =>
          let n := next_ p + 1 in
          let n := if len (loops_ p) <=? n then 0 else n in
          Ok (loop, mkPool (baseLoop_ p) (started_ p) (numThreads_ p) n (loops_ p))
      end
  end.

Definition getLoopForHash (hashCode : Z) (p : Pool) : res Z :=
  match loops_ p with
  | [] => Ok (baseLoop_ p)
  | _ => match loops_ p !! Z.to_nat (hashCode mod len (loops_ p)) with
         | Some loop => Ok loop
         | None => Fail OutOfRange
         end
  end.

Definition getAllLoops (p : Pool) : res (list Z) :=
  assert! started_ p ;;
  Ok (match loops_ p with [] => [baseLoop_ p] | l => l end).

(** ** TcpServer *)

(** A connection as the server sees it; its inner life is in TcpConn. *)
Inductive cstate := Connecting | Connected | Disconnected | Destroyed.

#[export] Instance cstate_eq_dec : EqDecision cstate.
Proof. solve_decision. Defined.

Record Conn := mkConn { c_name : list byte; c_loop : Z; c_state : cstate }.

(** Functors the server and its connections put into loops. *)
Inductive task :=
| ConnectEstablished (c : Z)
| ConnectDestroyed (c : Z)
| RemoveConnectionInLoop (c : Z).

#[export] Instance task_eq_dec : EqDecision task.
Proof. solve_decision. Defined.

Record TcpServer := mkServer {
  ipPort_ : list byte;
  name_ : list byte;
  threadPool_ : Pool;
  listening : bool;
  nextConnId_ : Z;
  connections_ : gmap (list byte) Z;
  conns : gmap Z Conn;               (** every connection object ever made *)
  queues : Z -> list task;           (** the functors pending in each loop *)
  server_alive : bool;
}.

Definition newServer (ipPort name : list byte) (base : Z) : TcpServer :=
  mkServer ipPort name (newPool base) false 1 ∅ ∅ (fun _ => []) true.

Definition set_pool (p : Pool) (s : TcpServer) : TcpServer :=
  mkServer (ipPort_ s) (name_ s) p (listening s) (nextConnId_ s) (connections_ s) (conns s) (queues s)
    (server_alive s).
Definition set_conns (m : gmap Z Conn) (s : TcpServer) : TcpServer :=
  mkServer (ipPort_ s) (name_ s) (threadPool_ s) (listening s) (nextConnId_ s) (connections_ s) m
    (queues s) (server_alive s).
Definition set_connections (m : gmap (list byte) Z) (s : TcpServer) : TcpServer :=
  mkServer (ipPort_ s) (name_ s) (threadPool_ s) (listening s) (nextConnId_ s) m (conns s) (queues s)
    (server_alive s).
Definition set_queue (l : Z) (q : list task) (s : TcpServer) : TcpServer :=
  mkServer (ipPort_ s) (name_ s) (threadPool_ s) (listening s) (nextConnId_ s) (connections_ s) (conns s)
    (fun l' => if l' =? l then q else queues s l') (server_alive s).

Definition queueInLoop (l : Z) (t : task) (s : TcpServer) : TcpServer :=
  set_queue l (queues s l ++ [t]) s.

Definition theConn (c : Z) (s : TcpServer) : res Conn :=
  match conns s !! c with Some x => Ok x | None => Fail OutOfRange end.

Definition set_state (c : Z) (st : cstate) (x : Conn) (s : TcpServer) : TcpServer :=
  set_conns (<[c := mkConn (c_name x) (c_loop x) st]> (conns s)) s.

(** [TcpConnection::connectEstablished] and [connectDestroyed], for the server. *)
Definition connectEstablished (c : Z) (s : TcpServer) : res TcpServer :=
  let! x := theConn c s in
  assert! bool_decide (c_state x = Connecting) ;;
  Ok (set_state c Connected x s).

(** The channel must have been added, and not removed before. *)
Definition connectDestroyed (c : Z) (s : TcpServer) : res TcpServer :=
  let! x := theConn c s in
  assert! match c_state x with Connected | Disconnected => true | _ => false end ;;
  Ok (set_state c Destroyed x s).

Definition removeConnectionInLoop (c : Z) (s : TcpServer) : res TcpServer :=
  if server_alive s then
    let! x := theConn c s in
    let n := match connections_ s !! c_name x with Some _ => 1 | None => 0 end in
    let s := set_connections (delete (c_name x) (connections_ s)) s in
    assert! n =? 1 ;;
    Ok (queueInLoop (c_loop x) (ConnectDestroyed c) s)
  else Fail OutOfRange.

(** [removeConnection], called in loop [l]; [loop_->runInLoop] runs it at once in
    the server's own loop. *)
Definition removeConnection (l c : Z) (s : TcpServer) : res TcpServer :=
  if server_alive s then
    let base := baseLoop_ (threadPool_ s) in
    if l =? base then removeConnectionInLoop c s
    else Ok (queueInLoop base (RemoveConnectionInLoop c) s)
  else Fail OutOfRange.

(** [TcpConnection::handleClose] in the connection's loop. *)
Definition conn_handleClose (c : Z) (s : TcpServer) : res TcpServer :=
  let! x := theConn c s in
  assert! bool_decide (c_state x = Connected) ;;
  removeConnection (c_loop x) c (set_state c Disconnected x s).

Definition server_setThreadNum (n : Z) (s : TcpServer) : res TcpServer :=
  assert! 0 <=? n ;; Ok (set_pool (setThreadNum n (threadPool_ s)) s).

(** [start] in the server's loop.  The server's own flag [started_] is raised
    together with the pool's, which is the one kept here. *)
Definition start (new_loop : nat -> Z) (s : TcpServer) : res TcpServer :=
  if started_ (threadPool_ s) then Ok s
  else
    let! p := pool_start new_loop (threadPool_ s) in
    assert! negb (listening s) ;;
    Ok (mkServer (ipPort_ s) (name_ s) p true (nextConnId_ s) (connections_ s) (conns s) (queues s)
          (server_alive s)).

Definition connName (s : TcpServer) (id : Z) : list byte :=
  name_ s ++ fst (snprintf 64 ([x2d] ++ ipPort_ s ++ [x23] ++ format_d false 0 id)).

(** [newConnection]: the connection object [c] is new. *)
Definition newConnection (c : Z) (s : TcpServer) : res TcpServer :=
  let! '(ioLoop, p) := getNextLoop (threadPool_ s) in
  let name := connName s (nextConnId_ s) in
  let s := mkServer (ipPort_ s) (name_ s) p (listening s) (nextConnId_ s + 1)
             (<[name := c]> (connections_ s)) (<[c := mkConn name ioLoop Connecting]> (conns s))
             (queues s) (server_alive s) in
  if ioLoop =? baseLoop_ p then connectEstablished c s
  else Ok (queueInLoop ioLoop (ConnectEstablished c) s).

Definition run_task (t : task) (s : TcpServer) : res TcpServer :=
  match t with
  | ConnectEstablished c => connectEstablished c s
  | ConnectDestroyed c => connectDestroyed c s
  | RemoveConnectionInLoop c => removeConnectionInLoop c s
  end.

(** [~TcpServer]: the connections are told to go, in the order of their names. *)
Definition destroyServer (s : TcpServer) : res TcpServer :=
  let base := baseLoop_ (threadPool_ s) in
  let! s := res_fold (fun s (e : list byte * Z) =>
      let! x := theConn (snd e) s in
      if c_loop x =? base then connectDestroyed (snd e) s
      else Ok (queueInLoop (c_loop x) (ConnectDestroyed (snd e)) s)) s (map_to_list (connections_ s)) in
  Ok (mkServer (ipPort_ s) (name_ s) (threadPool_ s) (listening s) (nextConnId_ s) ∅ (conns s) (queues s)
        false).

(** What can happen: a client connects, a loop runs its next functor, a
    connection closes. *)
Inductive input :=
| Accept
| RunTask (l : Z)
| Close (c : Z).

Definition exec (s : TcpServer) (i : input) : res TcpServer :=
  match i with
  | Accept => newConnection (nextConnId_ s) s
  | RunTask l =>
      match queues s l with
      | [] => Ok s
      | t :: q => run_task t (set_queue l q s)
      end
  | Close c =>
      match conns s !! c with
      | Some x => if bool_decide (c_state x = Connected) then conn_handleClose c s else Ok s
      | None => Ok s
      end
  end.

(** * Properties *)

(** ** Descriptors of the acceptor *)

#[export] Instance fd_event_eq_dec : EqDecision fd_event.
Proof. solve_decision. Defined.

Definition count (e : fd_event) (l : list fd_event) : Z := len (filter (fun e' => e' = e) l).

Definition one (b : bool) : Z := if b then 1 else 0.

(** Every descriptor obtained was closed or handed on, but for the ones held. *)
Definition balanced (a : Acceptor) : Prop := forall fd,
  count (Opened fd) (fds a) =
    count (Closed fd) (fds a) + count (Handed fd) (fds a)
    + one (fd =? acceptSocket_ a) + one ((0 <=? fd) && (fd =? idleFd_ a)).

Lemma count_app e l1 l2 : count e (l1 ++ l2) = count e l1 + count e l2.
Proof. unfold count. by rewrite filter_app, len_app. Qed.

Lemma count_nil e : count e [] = 0.
Proof. done. Qed.

Lemma count_cons e x l : count e (x :: l) = one (bool_decide (x = e)) + count e l.
Proof.
  unfold count. rewrite filter_cons. case_bool_decide as H.
  - rewrite decide_True by done. rewrite len_cons. cbn. lia.
  - rewrite decide_False by done. cbn. lia.
Qed.

Lemma count_opened fd r : count (Opened fd) (opened r) = one ((0 <=? fd) && (fd =? r)).
Proof.
  unfold opened. destruct (Z.leb_spec 0 r).
  - rewrite count_cons, count_nil. case_bool_decide as E; [injection E as ->|].
    + by rewrite (proj2 (Z.leb_le _ _)), Z.eqb_refl by done.
    + destruct (Z.eqb_spec fd r); [congruence|]. by rewrite andb_false_r.
  - rewrite count_nil. destruct (Z.leb_spec 0 fd), (Z.eqb_spec fd r); try done; lia.
Qed.

Lemma count_closed fd r : count (Closed fd) (closed r) = one ((0 <=? fd) && (fd =? r)).
Proof.
  unfold closed. destruct (Z.leb_spec 0 r).
  - rewrite count_cons, count_nil. case_bool_decide as E; [injection E as ->|].
    + by rewrite (proj2 (Z.leb_le _ _)), Z.eqb_refl by done.
    + destruct (Z.eqb_spec fd r); [congruence|]. by rewrite andb_false_r.
  - rewrite count_nil. destruct (Z.leb_spec 0 fd), (Z.eqb_spec fd r); try done; lia.
Qed.

Lemma count_other fd r :
  count (Handed fd) (opened r) = 0 /\ count (Handed fd) (closed r) = 0 /\
  count (Closed fd) (opened r) = 0 /\ count (Opened fd) (closed r) = 0.
Proof. unfold opened, closed. by destruct (0 <=? r). Qed.

Lemma handleRead_balanced r1 r2 r3 a a' :
  (forall fd, r1 = inl fd -> 0 <= fd) -> balanced a -> handleRead r1 r2 r3 a = Ok a' -> balanced a'.
Proof.
  intros H1 Hb E fd. specialize (Hb fd). unfold handleRead in E. destruct r1 as [connfd|errno].
  - cbn in E. injection E as <-. cbn [fds acceptSocket_ idleFd_]. rewrite ?count_app, ?count_cons, ?count_nil.
    specialize (H1 connfd eq_refl).
    destruct (newConnectionCallback_ a); rewrite ?count_cons, ?count_nil;
      repeat case_bool_decide; simplify_eq; cbn [one] in *; lia.
  - apply res_bind_Ok in E as (r & Hr & E). unfold sockets_accept in Hr.
    case_bool_decide; [|done]. injection Hr as <-.
    destruct (errno =? EMFILE); injection E as <-; [|done].
    cbn [fds acceptSocket_ idleFd_]. rewrite !count_app, !count_opened, !count_closed.
    destruct (count_other fd r2) as (-> & -> & -> & ->). destruct (count_other fd r3) as (-> & _ & -> & _).
    destruct (count_other fd (idleFd_ a)) as (_ & -> & _ & ->). lia.
Qed.

(** The results of the calls one [handleRead] makes. *)
Record calls := mkCalls { call_accept : Z + Z; call_accept2 : Z; call_open : Z }.

Definition serve (a : Acceptor) (c : calls) : res Acceptor :=
  handleRead (call_accept c) (call_accept2 c) (call_open c) a.

(** The acceptor leaks no descriptor, also when the process is out of
    descriptors: over any results of the system calls, each descriptor obtained is
    handed to the server or closed, and closed in the end if it is still held. *)
Theorem acceptor_no_leak socket idle cb cs a a' :
  Forall (fun c => forall fd, call_accept c = inl fd -> 0 <= fd) cs ->
  newAcceptor socket idle = Ok a ->
  res_fold serve (mkAcceptor (acceptSocket_ a) true (idleFd_ a) cb (fds a)) cs = Ok a' ->
  forall fd, count (Opened fd) (destroyAcceptor a') =
    count (Closed fd) (destroyAcceptor a') + count (Handed fd) (destroyAcceptor a').
Proof.
  intros Hcs Ha Hrun fd. unfold newAcceptor in Ha. destruct (Z.ltb_spec socket 0); [done|].
  destruct (Z.leb_spec 0 idle); [|done]. cbn in Ha. injection Ha as <-. cbn [acceptSocket_ idleFd_ fds] in Hrun.
  assert (balanced a' /\ 0 <= acceptSocket_ a') as [Hb Hs].
  { set (a0 := mkAcceptor _ _ _ _ _) in Hrun.
    assert (balanced a0 /\ 0 <= acceptSocket_ a0) as H0'.
    { split; [|done]. intros fd'. cbn [fds acceptSocket_ idleFd_ a0]. rewrite ?count_cons, ?count_nil.
      repeat case_bool_decide; simplify_eq; rewrite ?Z.eqb_refl;
        repeat match goal with |- context [?x =? ?y] => destruct (Z.eqb_spec x y) end;
        repeat match goal with |- context [?x <=? ?y] => destruct (Z.leb_spec x y) end; cbn; congruence || lia. }
    clearbody a0. revert a0 H0' Hrun. induction Hcs as [|c cs Hc _ IH]; intros a0 [Hb0 Hs0] Hrun; cbn in Hrun.
    - by injection Hrun as <-.
    - apply res_bind_Ok in Hrun as (a1 & E1 & Hrun). apply (IH a1); [|done].
      split; [by eapply handleRead_balanced|].
      unfold serve, handleRead in E1. apply res_bind_Ok in E1 as ([?|?] & _ & E1); [by injection E1 as <-|].
      case_match; by injection E1 as <-. }
  unfold destroyAcceptor. rewrite !count_app, !count_closed, (Hb fd).
  destruct (count_other fd (idleFd_ a')) as (_ & -> & _ & ->).
  destruct (count_other fd (acceptSocket_ a')) as (_ & -> & _ & ->).
  destruct (Z.leb_spec 0 fd), (Z.eqb_spec fd (acceptSocket_ a')); cbn [andb one]; lia.
Qed.

Lemma acceptor_no_leak_witness :
  let cs := [mkCalls (inl 7) 0 0; mkCalls (inr EMFILE) 4 4; mkCalls (inr EAGAIN) 0 0] in
  exists a', res_fold serve (mkAcceptor 3 true 4 true [Opened 3; Opened 4]) cs = Ok a' /\
    count (Opened 4) (destroyAcceptor a') =
      count (Closed 4) (destroyAcceptor a') + count (Handed 4) (destroyAcceptor a').
Proof.
  intros cs. eexists. split; [reflexivity|].
  apply (acceptor_no_leak 3 4 true cs (mkAcceptor 3 false 4 false [Opened 3; Opened 4])).
  - repeat (apply Forall_cons; split; [cbn; intros ? [= <-]; lia|]). apply Forall_nil. done.
  - reflexivity.
  - reflexivity.
Defined.

(** ** The pool *)

(** The loop the k-th connection (from 0) gets. *)
Definition turn (p : Pool) (k : Z) : Z :=
  match loops_ p with
  | [] => baseLoop_ p
  | l => nth (Z.to_nat (k mod len l)) l 0
  end.

Definition pool_ok (p : Pool) (k : Z) : Prop :=
  started_ p = true /\ (baseLoop_ p ∉ loops_ p) /\ 0 <= k /\
  next_ p = if bool_decide (loops_ p = []) then 0 else k mod len (loops_ p).

Lemma getNextLoop_turn p k :
  pool_ok p k ->
  exists p', getNextLoop p = Ok (turn p k, p') /\ pool_ok p' (k + 1) /\
    baseLoop_ p' = baseLoop_ p /\ loops_ p' = loops_ p.
Proof.
  intros (Hs & Hb & Hk & Hn). unfold getNextLoop, turn. rewrite Hs. cbn [cassert res_bind].
  destruct (loops_ p) as [|l0 ls] eqn:Hl.
  { exists p. unfold pool_ok. rewrite Hl. split_and!; try done. lia. }
  rewrite <- Hl in *. rewrite bool_decide_false in Hn by (by rewrite Hl).
  assert (0 < len (loops_ p)) as Hpos by (rewrite Hl, len_cons; pose proof (len_nonneg ls); lia).
  pose proof (Z.mod_pos_bound k (len (loops_ p)) Hpos) as Hr. rewrite Hn.
  destruct (lookup_lt_is_Some_2 (loops_ p) (Z.to_nat (k mod len (loops_ p)))) as [x Hx];
    [unfold len in *; lia|].
  rewrite Hx. eexists; split; [repeat f_equal; symmetry; by apply nth_lookup_Some|].
  split; [|done]. unfold pool_ok; cbn. split_and!; [done..|lia|].
  rewrite bool_decide_false by (by rewrite Hl).
  destruct (Z.leb_spec (len (loops_ p)) (k mod len (loops_ p) + 1)).
  - symmetry. apply Z.mod_divide; [lia|]. exists (k / len (loops_ p) + 1).
    pose proof (Z.div_mod k (len (loops_ p)) ltac:(lia)). nia.
  - symmetry. pose proof (Z.div_mod k (len (loops_ p)) ltac:(lia)).
    symmetry; apply Z.mod_unique with (k / len (loops_ p)); [left; lia|lia].
Qed.

(** ** Tasks of a connection *)

Definition conn_of (t : task) : Z :=
  match t with ConnectEstablished c | ConnectDestroyed c | RemoveConnectionInLoop c => c end.

(** The functors about connection [c] that wait in loop [l]. *)
Definition pend (c l : Z) (s : TcpServer) : list task := filter (fun t => conn_of t = c) (queues s l).

Lemma pend_queue c l l' t s :
  pend c l (queueInLoop l' t s) =
    pend c l s ++ if bool_decide (l = l' /\ conn_of t = c) then [t] else [].
Proof.
  unfold pend, queueInLoop, set_queue; cbn. destruct (Z.eqb_spec l l') as [->|Hne].
  - rewrite filter_app. f_equal. rewrite filter_cons, filter_nil.
    destruct (decide (conn_of t = c)); [by rewrite bool_decide_true|by rewrite bool_decide_false by tauto].
  - by rewrite bool_decide_false, app_nil_r by tauto.
Qed.

Lemma pend_pop c l l' t q s : queues s l' = t :: q ->
  pend c l s = (if bool_decide (l = l' /\ conn_of t = c) then [t] else []) ++ pend c l (set_queue l' q s).
Proof.
  intros Hq. unfold pend, set_queue; cbn. destruct (Z.eqb_spec l l') as [->|Hne].
  - rewrite Hq, filter_cons. destruct (decide (conn_of t = c)).
    + by rewrite bool_decide_true.
    + by rewrite bool_decide_false by tauto.
  - by rewrite bool_decide_false by tauto.
Qed.

(** What waits for a connection, by its state and whether the server knows it. *)
Definition expected (base c l : Z) (x : Conn) (known : bool) : list task :=
  match c_state x with
  | Connecting => if l =? c_loop x then [ConnectEstablished c] else []
  | Connected | Destroyed => []
  | Disconnected =>
      if known then (if l =? base then [RemoveConnectionInLoop c] else [])
      else (if l =? c_loop x then [ConnectDestroyed c] else [])
  end.

Definition known (c : Z) (x : Conn) (s : TcpServer) : bool :=
  bool_decide (connections_ s !! c_name x = Some c).

Record conn_ok (c : Z) (x : Conn) (s : TcpServer) : Prop := {
  co_id : 1 <= c < nextConnId_ s;
  co_name : c_name x = connName s c;
  co_loop : c_loop x = turn (threadPool_ s) (c - 1);
  co_base : c_state x = Connecting -> c_loop x <> baseLoop_ (threadPool_ s);
  co_closed : c_state x = Disconnected -> known c x s = true -> c_loop x <> baseLoop_ (threadPool_ s);
  co_known : match c_state x with
             | Connecting | Connected => known c x s = true
             | Destroyed => known c x s = false
             | Disconnected => True
             end;
  co_pend : forall l, pend c l s = expected (baseLoop_ (threadPool_ s)) c l x (known c x s);
}.

(** Names of connections are as distinct as their numbers. *)
Definition names_fit (s : TcpServer) : Prop := len (ipPort_ s) <= 51.

Record server_inv (s : TcpServer) : Prop := {
  si_alive : server_alive s = true;
  si_pool : pool_ok (threadPool_ s) (nextConnId_ s - 1);
  si_names : names_fit s;
  si_conns : forall c x, conns s !! c = Some x -> conn_ok c x s;
  si_map : forall n c, connections_ s !! n = Some c -> exists x, conns s !! c = Some x /\ c_name x = n;
  si_tasks : forall l t, t ∈ queues s l -> is_Some (conns s !! conn_of t);
}.

Lemma decimal_nonneg id : 0 <= id -> format_d false 0 id = digits_of 10 id.
Proof.
  intros. unfold format_d. by rewrite (proj2 (Z.ltb_ge _ _)), Z.abs_eq, Nat.sub_0_l by lia.
Qed.

Lemma connName_inj s id1 id2 :
  names_fit s -> 0 <= id1 < 2 ^ 31 -> 0 <= id2 < 2 ^ 31 -> connName s id1 = connName s id2 -> id1 = id2.
Proof.
  intros Hf H1 H2 E. unfold connName in E. apply app_inv_head in E.
  assert (forall id, 0 <= id < 2 ^ 31 ->
    fst (snprintf 64 ([x2d] ++ ipPort_ s ++ [x23] ++ format_d false 0 id)) =
      [x2d] ++ ipPort_ s ++ [x23] ++ digits_of 10 id) as Hall.
  { intros id Hid. rewrite decimal_nonneg by lia. unfold snprintf; cbn [fst]. apply take_ge.
    pose proof (digits_of_length_le 10 ltac:(lia) id 10 ltac:(cbn; lia) ltac:(lia)).
    unfold names_fit, len in Hf. rewrite !length_app. cbn [length]. lia. }
  rewrite !Hall in E by done. apply app_inv_head, app_inv_head, app_inv_head in E.
  rewrite <- (digits_of_value 10 ltac:(lia) id1), <- (digits_of_value 10 ltac:(lia) id2) by lia.
  by rewrite E.
Qed.

(** A connection whose tasks, record and table entry are untouched stays as it is. *)
Lemma conn_ok_frame c x s s' :
  conn_ok c x s -> nextConnId_ s <= nextConnId_ s' -> name_ s' = name_ s -> ipPort_ s' = ipPort_ s ->
  baseLoop_ (threadPool_ s') = baseLoop_ (threadPool_ s) -> loops_ (threadPool_ s') = loops_ (threadPool_ s) ->
  known c x s' = known c x s -> (forall l, pend c l s' = pend c l s) -> conn_ok c x s'.
Proof.
  intros [] Hn Hname Hip Hb Hl Hk Hp. split; rewrite ?Hk, ?Hb; try done.
  - lia.
  - unfold connName. by rewrite Hname, Hip.
  - unfold turn. by rewrite Hb, Hl.
  - intros l. by rewrite Hp.
Qed.

(** What every step leaves alone. *)
Definition same_server (s s' : TcpServer) : Prop :=
  server_alive s' = server_alive s /\ threadPool_ s' = threadPool_ s /\ nextConnId_ s' = nextConnId_ s /\
  name_ s' = name_ s /\ ipPort_ s' = ipPort_ s.

(** A step that concerns one connection only. *)
Lemma inv_update c x' s s' :
  server_inv s -> same_server s s' -> conns s' = <[c := x']> (conns s) -> is_Some (conns s !! c) ->
  conn_ok c x' s' ->
  (forall c' y, c' <> c -> conns s !! c' = Some y ->
     known c' y s' = known c' y s /\ forall l, pend c' l s' = pend c' l s) ->
  (forall n d, connections_ s' !! n = Some d -> connections_ s !! n = Some d) ->
  (forall x, conns s !! c = Some x -> c_name x' = c_name x) ->
  (forall l t, t ∈ queues s' l -> t ∈ queues s l \/ conn_of t = c) ->
  server_inv s'.
Proof.
  intros Hs (Ha & Hp & Hn & Hname & Hip) Hc Hex Hok Hframe Hmap Hnm Htask. destruct Hs. split.
  - by rewrite Ha.
  - by rewrite Hp, Hn.
  - unfold names_fit. by rewrite Hip.
  - intros c' y Hy. rewrite Hc in Hy. destruct (decide (c' = c)) as [->|Hne].
    + rewrite lookup_insert_eq in Hy. by injection Hy as <-.
    + rewrite lookup_insert_ne in Hy by done. destruct (Hframe c' y Hne Hy) as [Hk Hpd].
      apply (conn_ok_frame c' y s s'); try done; [by apply si_conns0|lia|by rewrite Hp..].
  - intros n d Hd. apply Hmap in Hd. destruct (si_map0 n d Hd) as (y & Hy & Hyn). rewrite Hc.
    destruct (decide (d = c)) as [->|Hne].
    + exists x'. rewrite lookup_insert_eq. split; [done|]. by rewrite (Hnm y Hy).
    + exists y. by rewrite lookup_insert_ne.
  - intros l t Ht. rewrite Hc. destruct (decide (conn_of t = c)) as [->|Hne]; [by rewrite lookup_insert_eq|].
    rewrite lookup_insert_ne by done. destruct (Htask l t Ht); [eauto|done].
Qed.

Lemma pend_nil_other c l s : (forall t, t ∈ queues s l -> conn_of t <> c) -> pend c l s = [].
Proof. intros H. apply filter_none, Forall_forall. eauto. Qed.

Lemma known_delete s c x c' y :
  server_inv s -> nextConnId_ s <= 2 ^ 31 -> conns s !! c = Some x -> conns s !! c' = Some y -> c' <> c ->
  bool_decide (delete (c_name x) (connections_ s) !! c_name y = Some c') = known c' y s.
Proof.
  intros Hs Hn Hx Hy Hne. destruct (si_conns _ Hs c x Hx), (si_conns _ Hs c' y Hy).
  unfold known. rewrite lookup_delete_ne; [done|]. intros E. rewrite co_name0, co_name1 in E.
  apply connName_inj in E; [done|apply (si_names _ Hs)|lia..].
Qed.

(** The functor at the head of a queue tells the state of its connection. *)
Lemma head_task s l t q :
  server_inv s -> queues s l = t :: q ->
  exists x, conns s !! conn_of t = Some x /\ conn_ok (conn_of t) x s /\
    (forall l', pend (conn_of t) l' (set_queue l q s) = []) /\
    match t with
    | ConnectEstablished _ => c_state x = Connecting /\ l = c_loop x
    | ConnectDestroyed _ => c_state x = Disconnected /\ known (conn_of t) x s = false /\ l = c_loop x
    | RemoveConnectionInLoop _ =>
        c_state x = Disconnected /\ known (conn_of t) x s = true /\ l = baseLoop_ (threadPool_ s)
    end.
Proof.
  intros Hs Hq. destruct (si_tasks _ Hs l t) as [x Hx]; [rewrite Hq; by left|].
  exists x. pose proof (si_conns _ Hs _ x Hx) as Hok. split_and!; [done|done|..].
  - intros l'. pose proof (co_pend _ _ _ Hok l') as Hp. rewrite (pend_pop _ _ _ _ _ _ Hq) in Hp.
    pose proof (co_pend _ _ _ Hok l) as Hp0. rewrite (pend_pop _ _ _ _ _ _ Hq), bool_decide_true in Hp0 by done.
    unfold expected in *. destruct (decide (l' = l)) as [->|Hne].
    + rewrite bool_decide_true in Hp by done. repeat case_match; simplify_eq/=; done.
    + rewrite bool_decide_false in Hp by tauto. cbn [app] in Hp. rewrite Hp.
      repeat case_match; simplify_eq/=; bool_hyps; try done; lia.
  - pose proof (co_pend _ _ _ Hok l) as Hp0. rewrite (pend_pop _ _ _ _ _ _ Hq), bool_decide_true in Hp0 by done.
    unfold expected in Hp0.
    destruct t; repeat case_match; simplify_eq/=; bool_hyps; try done; split_and!; try done; lia.
Qed.

Lemma pend_other_pop c l l' t q s : queues s l' = t :: q -> conn_of t <> c ->
  pend c l (set_queue l' q s) = pend c l s.
Proof. intros Hq Hne. rewrite (pend_pop c l l' t q s Hq). by rewrite bool_decide_false by tauto. Qed.

(** Running the next functor of a loop. *)
Lemma run_task_inv s l t q :
  server_inv s -> nextConnId_ s <= 2 ^ 31 -> queues s l = t :: q ->
  exists s', run_task t (set_queue l q s) = Ok s' /\ server_inv s' /\ nextConnId_ s' = nextConnId_ s.
Proof.
  intros Hs Hn Hq. destruct (head_task s l t q Hs Hq) as (x & Hx & Hok & Hnil & Hcase).
  set (s0 := set_queue l q s) in *.
  assert (forall l' t', t' ∈ queues s0 l' -> t' ∈ queues s l') as Hsub.
  { intros l' t'. unfold s0, set_queue; cbn. destruct (Z.eqb_spec l' l) as [-> |]; [|done].
    rewrite Hq. by right. }
  destruct t as [c|c|c]; cbn [run_task conn_of] in *.
  - destruct Hcase as [Hst ->]. unfold connectEstablished, theConn. cbn [conns s0 set_queue]. rewrite Hx; cbn [res_bind].
    rewrite bool_decide_true by done. cbn [cassert res_bind]. eexists; split; [done|]. split; [|done].
    eapply (inv_update c (mkConn (c_name x) (c_loop x) Connected) s); try done.
    + destruct Hok. rewrite Hst in *. split; try done; intros l'; exact (Hnil l').
    + intros c' y Hne Hy. split; [done|]. intros l'. by apply (pend_other_pop _ _ _ _ _ _ Hq).
    + intros y Hy. by simplify_eq.
    + eauto.
  - destruct Hcase as (Hst & Hk & ->). unfold connectDestroyed, theConn. cbn [conns s0 set_queue]. rewrite Hx; cbn [res_bind].
    rewrite Hst. cbn [cassert res_bind]. eexists; split; [done|]. split; [|done].
    eapply (inv_update c (mkConn (c_name x) (c_loop x) Destroyed) s); try done.
    + destruct Hok. rewrite Hst in *. split; try done; intros l'; exact (Hnil l').
    + intros c' y Hne Hy. split; [done|]. intros l'. by apply (pend_other_pop _ _ _ _ _ _ Hq).
    + intros y Hy. by simplify_eq.
    + eauto.
  - destruct Hcase as (Hst & Hk & ->). unfold removeConnectionInLoop, theConn.
    cbn [conns s0 set_queue server_alive connections_]. rewrite (si_alive _ Hs), Hx; cbn [res_bind].
    pose proof Hk as Hk'. unfold known in Hk'. bool_hyps. rewrite Hk'. cbn [Z.eqb cassert res_bind Pos.eqb].
    eexists; split; [done|]. split; [|done].
    set (s1 := set_connections _ _).
    eapply (inv_update c x s); try done.
    + cbn. by rewrite insert_id.
    + assert (known c x (queueInLoop (c_loop x) (ConnectDestroyed c) s1) = false) as Hkn.
      { unfold known; cbn. by rewrite lookup_delete_eq. }
      destruct Hok. split; rewrite ?Hkn, ?Hst; try done.
      intros l'. rewrite pend_queue. change (pend c l' s1) with (pend c l' s0). rewrite Hnil.
      unfold expected. rewrite Hst. cbn [app conn_of].
      destruct (Z.eqb_spec l' (c_loop x)); [by rewrite bool_decide_true|by rewrite bool_decide_false by tauto].
    + intros c' y Hne Hy. split.
      * unfold known at 1; cbn. by apply (known_delete s c x).
      * intros l'. rewrite pend_queue, bool_decide_false by (cbn; intros [_ ?]; congruence). rewrite app_nil_r.
        by apply (pend_other_pop _ _ _ _ _ _ Hq).
    + intros n d Hd. cbn in Hd. by apply lookup_delete_Some in Hd as [_ ?].
    + intros y Hy. by simplify_eq.
    + intros l' t'. cbn. destruct (Z.eqb_spec l' (c_loop x)).
      * rewrite elem_of_app, list_elem_of_singleton. intros [?| ->]; [|by right].
        left. apply Hsub. by subst.
      * left. by apply Hsub.
Qed.

(** A connection that is up closes. *)
Lemma close_inv s c x :
  server_inv s -> nextConnId_ s <= 2 ^ 31 -> conns s !! c = Some x -> c_state x = Connected ->
  exists s', conn_handleClose c s = Ok s' /\ server_inv s' /\ nextConnId_ s' = nextConnId_ s.
Proof.
  intros Hs Hn Hx Hst. pose proof (si_conns _ Hs c x Hx) as Hok.
  pose proof (co_known _ _ _ Hok) as Hk. rewrite Hst in Hk.
  assert (forall l, pend c l s = []) as Hnil.
  { intros l. rewrite (co_pend _ _ _ Hok). unfold expected. by rewrite Hst. }
  unfold conn_handleClose, theConn. rewrite Hx; cbn [res_bind]. rewrite bool_decide_true by done. cbn [cassert res_bind].
  unfold removeConnection. cbn [set_state set_conns server_alive threadPool_]. rewrite (si_alive _ Hs).
  set (x' := mkConn (c_name x) (c_loop x) Disconnected).
  destruct (Z.eqb_spec (c_loop x) (baseLoop_ (threadPool_ s))) as [Hb|Hb].
  - unfold removeConnectionInLoop, theConn. cbn [set_state server_alive set_conns conns connections_].
    rewrite (si_alive _ Hs), lookup_insert_eq; cbn [res_bind c_name].
    pose proof Hk as Hk'. unfold known in Hk'. bool_hyps. rewrite Hk'. cbn [Z.eqb cassert res_bind Pos.eqb c_loop].
    eexists; split; [done|]. split; [|done].
    eapply (inv_update c x' s); try done.
    + set (s' := queueInLoop _ _ _). assert (known c x' s' = false) as Hkn.
      { unfold known; cbn. by rewrite lookup_delete_eq. }
      destruct Hok. split; rewrite ?Hkn; try done.
      intros l'. unfold s'. rewrite pend_queue. cbn [conn_of]. unfold expected; cbn [c_state c_loop x'].
      match goal with |- pend c l' ?s1 ++ _ = _ => change (pend c l' s1) with (pend c l' s) end.
      rewrite Hnil. cbn [app].
      destruct (Z.eqb_spec l' (c_loop x)); [by rewrite bool_decide_true|by rewrite bool_decide_false by tauto].
    + intros c' y Hne Hy. split.
      * unfold known at 1; cbn. by apply (known_delete s c x).
      * intros l'. rewrite pend_queue, bool_decide_false by (cbn; intros [_ ?]; congruence). by rewrite app_nil_r.
    + intros n d Hd. cbn in Hd. by apply lookup_delete_Some in Hd as [_ ?].
    + intros y Hy. by simplify_eq.
    + intros l' t'. cbn. destruct (Z.eqb_spec l' (c_loop x)) as [-> |]; [|by left].
      rewrite elem_of_app, list_elem_of_singleton. intros [?| ->]; [by left|by right].
  - eexists; split; [done|]. split; [|done].
    eapply (inv_update c x' s); try done.
    + destruct Hok. split; try done. intros l'. rewrite pend_queue. cbn [conn_of].
      match goal with |- pend c l' ?s1 ++ _ = _ => change (pend c l' s1) with (pend c l' s) end.
      rewrite Hnil. cbn [app]. unfold expected; cbn [c_state x'].
      match goal with |- context [known c x' ?s1] => change (known c x' s1) with (known c x s) end. rewrite Hk.
      cbn [queueInLoop set_queue set_state set_conns threadPool_].
      destruct (Z.eqb_spec l' (baseLoop_ (threadPool_ s))); [by rewrite bool_decide_true|by rewrite bool_decide_false by tauto].
    + intros c' y Hne Hy. split; [done|].
      intros l'. rewrite pend_queue, bool_decide_false by (cbn; intros [_ ?]; congruence). by rewrite app_nil_r.
    + intros y Hy. by simplify_eq.
    + intros l' t'. cbn. destruct (Z.eqb_spec l' (baseLoop_ (threadPool_ s))) as [-> |]; [|by left].
      rewrite elem_of_app, list_elem_of_singleton. intros [?| ->]; [by left|by right].
Qed.

(** A client connects. *)
Lemma accept_inv s :
  server_inv s -> nextConnId_ s < 2 ^ 31 ->
  exists s', newConnection (nextConnId_ s) s = Ok s' /\ server_inv s' /\ nextConnId_ s' = nextConnId_ s + 1.
Proof.
  intros Hs Hn. set (c := nextConnId_ s).
  destruct (getNextLoop_turn _ _ (si_pool _ Hs)) as (p' & Hg & Hp' & Hb & Hl).
  pose proof (si_pool _ Hs) as (_ & _ & Hge & _).
  assert (conns s !! c = None) as Hfresh.
  { destruct (conns s !! c) as [x|] eqn:E; [|done]. pose proof (co_id _ _ _ (si_conns _ Hs c x E)). lia. }
  assert (forall c' y, conns s !! c' = Some y -> c_name y <> connName s c) as Hname.
  { intros c' y Hy E. destruct (si_conns _ Hs c' y Hy). rewrite co_name0 in E.
    apply connName_inj in E; [lia|apply (si_names _ Hs)|lia..]. }
  assert (forall l, pend c l s = []) as Hnil.
  { intros l. apply pend_nil_other. intros t Ht E. destruct (si_tasks _ Hs l t Ht) as [y Hy].
    rewrite E, Hfresh in Hy. done. }
  unfold newConnection. rewrite Hg; cbn [res_bind]. rewrite Hb.
  set (name := connName s (nextConnId_ s)). set (lp := turn (threadPool_ s) (nextConnId_ s - 1)).
  set (s1 := mkServer _ _ _ _ _ _ _ _ _).
  assert (forall st s', conns s' = <[c := mkConn name lp st]> (conns s) -> connections_ s' = connections_ s1 ->
    server_alive s' = server_alive s -> threadPool_ s' = p' -> nextConnId_ s' = c + 1 -> name_ s' = name_ s ->
    ipPort_ s' = ipPort_ s -> st = Connecting \/ st = Connected -> (st = Connecting -> lp <> baseLoop_ (threadPool_ s)) ->
    (forall l, pend c l s' = expected (baseLoop_ (threadPool_ s)) c l (mkConn name lp st) true) ->
    (forall c' l, c' <> c -> pend c' l s' = pend c' l s) ->
    (forall l t, t ∈ queues s' l -> t ∈ queues s l \/ conn_of t = c) -> server_inv s') as Hmain.
  { intros st s' Hc Hm Ha Hp Hid Hnm Hip Hst Hlp Hpd Hfr Htk.
    assert (known c (mkConn name lp st) s' = true) as Hk.
    { unfold known; cbn [c_name]. rewrite Hm; cbn. rewrite lookup_insert_eq. by rewrite bool_decide_true. }
    split.
    - rewrite Ha. apply (si_alive _ Hs).
    - rewrite Hp, Hid. replace (c + 1 - 1) with (nextConnId_ s - 1 + 1) by (unfold c; lia). done.
    - unfold names_fit. rewrite Hip. apply (si_names _ Hs).
    - intros c' y Hy. rewrite Hc in Hy. destruct (decide (c' = c)) as [->|Hne].
      + rewrite lookup_insert_eq in Hy. injection Hy as <-.
        split; rewrite ?Hk, ?Hp, ?Hb, ?Hid; cbn [c_state c_loop c_name]; try done.
        * unfold c in *; lia.
        * unfold connName. by rewrite Hnm, Hip.
        * unfold turn. by rewrite Hl, Hb.
        * destruct Hst as [-> | ->]; done.
        * by destruct Hst as [-> | ->].
      + rewrite lookup_insert_ne in Hy by done.
        apply (conn_ok_frame c' y s s'); try done; [by apply (si_conns _ Hs)|unfold c in Hid; lia|by rewrite Hp..| |].
        * unfold known. rewrite Hm; cbn. rewrite lookup_insert_ne; [done|]. intros E. by apply (Hname c' y Hy).
        * intros l. by apply Hfr.
    - intros n d Hd. rewrite Hm in Hd; cbn in Hd. rewrite Hc.
      apply lookup_insert_Some in Hd as [[<- <-]|[Hne Hd]]; [exists (mkConn name lp st); by rewrite lookup_insert_eq|].
      destruct (si_map _ Hs n d Hd) as (y & Hy & Hyn). exists y. rewrite lookup_insert_ne; [done|].
      intros ->. by rewrite Hfresh in Hy.
    - intros l t Ht. rewrite Hc. destruct (decide (conn_of t = c)) as [->|Hne]; [by rewrite lookup_insert_eq|].
      rewrite lookup_insert_ne by done. destruct (Htk l t Ht); [|done]. by apply (si_tasks _ Hs l t). }
  destruct (Z.eqb_spec lp (baseLoop_ (threadPool_ s))) as [Hlp|Hlp].
  - unfold connectEstablished, theConn. cbn [conns s1]. rewrite lookup_insert_eq; cbn [res_bind c_state].
    rewrite bool_decide_true by done. cbn [cassert res_bind]. eexists; split; [done|]. split; [|done].
    eapply (Hmain Connected); try done; [|by right|by left].
    cbn. by rewrite insert_insert_eq.
  - eexists; split; [done|]. split; [|done].
    eapply (Hmain Connecting); try done; [by left| | |].
    + intros l. rewrite pend_queue. change (pend c l s1) with (pend c l s). rewrite Hnil. cbn [app conn_of].
      unfold expected; cbn [c_state c_loop].
      destruct (Z.eqb_spec l lp); [by rewrite bool_decide_true|by rewrite bool_decide_false by tauto].
    + intros c' l Hne. rewrite pend_queue, bool_decide_false by (cbn; intros [_ ?]; unfold c in *; congruence).
      by rewrite app_nil_r.
    + intros l t. cbn. destruct (Z.eqb_spec l lp) as [->|]; [|by left].
      rewrite elem_of_app, list_elem_of_singleton. intros [?| ->]; [by left|by right].
Qed.

Lemma exec_inv s i :
  server_inv s -> nextConnId_ s < 2 ^ 31 ->
  exists s', exec s i = Ok s' /\ server_inv s' /\ nextConnId_ s' <= nextConnId_ s + 1.
Proof.
  intros Hs Hn. destruct i as [|l|c]; cbn [exec].
  - destruct (accept_inv s Hs Hn) as (s' & E & Hs' & Hid). exists s'. split_and!; [done..|lia].
  - destruct (queues s l) as [|t q] eqn:Hq; [exists s; split_and!; [done..|lia]|].
    destruct (run_task_inv s l t q Hs ltac:(lia) Hq) as (s' & E & Hs' & Hid). exists s'. split_and!; [done..|lia].
  - destruct (conns s !! c) as [x|] eqn:Hx; [|exists s; split_and!; [done..|lia]].
    case_bool_decide as Hst; [|exists s; split_and!; [done..|lia]].
    destruct (close_inv s c x Hs ltac:(lia) Hx Hst) as (s' & E & Hs' & Hid). exists s'. split_and!; [done..|lia].
Qed.

Lemma run_inv evs s :
  server_inv s -> nextConnId_ s + len evs <= 2 ^ 31 ->
  exists s', res_fold exec s evs = Ok s' /\ server_inv s'.
Proof.
  revert s; induction evs as [|i evs IH]; intros s Hs Hn; cbn [res_fold]; [eauto|].
  rewrite len_cons in Hn. pose proof (len_nonneg evs).
  destruct (exec_inv s i Hs ltac:(lia)) as (s1 & -> & Hs1 & Hn1). cbn [res_bind]. apply IH; [done|lia].
Qed.

(** A server with [n] I/O threads, listening. *)
Definition ready (new_loop : nat -> Z) (n : Z) (s0 : TcpServer) : res TcpServer :=
  let! s := server_setThreadNum n s0 in start new_loop s.

Lemma ready_inv new_loop n ipPort name base :
  0 <= n -> (forall i, new_loop i <> base) -> len ipPort <= 51 ->
  exists s, ready new_loop n (newServer ipPort name base) = Ok s /\ server_inv s /\ nextConnId_ s = 1 /\
    baseLoop_ (threadPool_ s) = base /\ loops_ (threadPool_ s) = new_loop <$> seq 0 (Z.to_nat n).
Proof.
  intros Hn Hl Hip. unfold ready, server_setThreadNum. rewrite (proj2 (Z.leb_le _ _)) by done.
  unfold start. cbn. eexists; split; [done|]. split; [|done]. split; cbn; try done.
  - unfold pool_ok; cbn. split_and!; [done| |lia|].
    + intros (i & E & _)%list_elem_of_fmap. by apply (Hl i).
    + case_bool_decide; [done|]. by rewrite Zmod_0_l.
  - intros l t Ht. by apply not_elem_of_nil in Ht.
Qed.

(** ** Theorems *)

(** However the loops of a server interleave, no assert fails when clients
    connect and connections close: every close is for a connection the server
    still knows, and a connection is established and destroyed once, in its own
    loop; the loops are taken in turn. *)
Theorem server_never_faults new_loop n ipPort name base evs :
  0 <= n -> (forall i, new_loop i <> base) -> len ipPort <= 51 -> len evs < 2 ^ 31 ->
  exists s0 s, ready new_loop n (newServer ipPort name base) = Ok s0 /\ res_fold exec s0 evs = Ok s /\
    (forall c x, conns s !! c = Some x ->
       c_loop x = turn (threadPool_ s) (c - 1) /\ c_name x = connName s c /\
       (connections_ s !! c_name x = Some c \/ c_state x = Disconnected \/ c_state x = Destroyed)).
Proof.
  intros Hn Hl Hip Hev. destruct (ready_inv new_loop n ipPort name base Hn Hl Hip) as (s0 & E0 & Hs0 & Hid & _).
  destruct (run_inv evs s0 Hs0) as (s & E & Hs); [lia|].
  exists s0, s. split_and!; [done..|]. intros c x Hx. destruct (si_conns _ Hs c x Hx). split_and!; [done..|].
  unfold known in co_known0. destruct (c_state x); try (by left; apply bool_decide_eq_true in co_known0); eauto.
Qed.

(** C17: Once every loop has run its functors, the server knows exactly the
    connections that are up, and all others have been destroyed. *)
Theorem server_settles new_loop n ipPort name base evs s0 s :
  0 <= n -> (forall i, new_loop i <> base) -> len ipPort <= 51 -> len evs < 2 ^ 31 ->
  ready new_loop n (newServer ipPort name base) = Ok s0 -> res_fold exec s0 evs = Ok s ->
  (forall l, queues s l = []) ->
  (forall c x, conns s !! c = Some x ->
     c_state x = Connected /\ connections_ s !! c_name x = Some c \/
     c_state x = Destroyed /\ connections_ s !! c_name x <> Some c) /\
  (forall nm c, connections_ s !! nm = Some c ->
     exists x, conns s !! c = Some x /\ c_name x = nm /\ c_state x = Connected).
Proof.
  intros Hn Hl Hip Hev E0 E Hq. destruct (ready_inv new_loop n ipPort name base Hn Hl Hip) as (s0' & E0' & Hs0 & Hid & _).
  rewrite E0 in E0'; injection E0' as <-. destruct (run_inv evs s0 Hs0) as (s' & E' & Hs); [lia|].
  rewrite E in E'; injection E' as <-.
  assert (forall c x, conns s !! c = Some x ->
     c_state x = Connected /\ connections_ s !! c_name x = Some c \/
     c_state x = Destroyed /\ connections_ s !! c_name x <> Some c) as Hall.
  { intros c x Hx. destruct (si_conns _ Hs c x Hx). unfold known in *.
    assert (forall l, expected (baseLoop_ (threadPool_ s)) c l x (bool_decide (connections_ s !! c_name x = Some c)) = [])
      as Hnil by (intros l; rewrite <- co_pend0; unfold pend; by rewrite Hq).
    unfold expected in Hnil. destruct (c_state x).
    - specialize (Hnil (c_loop x)). by rewrite Z.eqb_refl in Hnil.
    - left. split; [done|]. by apply bool_decide_eq_true in co_known0.
    - case_bool_decide; [specialize (Hnil (baseLoop_ (threadPool_ s)))|specialize (Hnil (c_loop x))];
        by rewrite Z.eqb_refl in Hnil.
    - right. split; [done|]. by apply bool_decide_eq_false in co_known0. }
  split; [done|]. intros nm c Hc. destruct (si_map _ Hs nm c Hc) as (x & Hx & <-). exists x.
  split_and!; [done..|]. destruct (Hall c x Hx) as [[? _]|[_ ?]]; done.
Qed.

(** ** Witnesses *)

Definition demo_loop (i : nat) : Z := Z.of_nat i + 1.
Definition demo_evs : list input := [Accept; Accept; Accept; RunTask 1; RunTask 2; Close 1; RunTask 1; RunTask 0; RunTask 1].

Lemma demo_loop_ne i : demo_loop i <> 0.
Proof. unfold demo_loop. lia. Qed.

Lemma server_never_faults_witness :
  exists s0 s, ready demo_loop 2 (newServer (bytes_of_string "1.2.3.4:80") (bytes_of_string "srv") 0) = Ok s0 /\
    res_fold exec s0 demo_evs = Ok s /\
    (forall c x, conns s !! c = Some x ->
       c_loop x = turn (threadPool_ s) (c - 1) /\ c_name x = connName s c /\
       (connections_ s !! c_name x = Some c \/ c_state x = Disconnected \/ c_state x = Destroyed)).
Proof. apply server_never_faults; [lia|exact demo_loop_ne|vm_compute; discriminate|vm_compute; reflexivity]. Defined.

Definition demo_new : TcpServer := newServer (bytes_of_string "1.2.3.4:80") (bytes_of_string "srv") 0.
Definition demo_server0 : TcpServer := from_res demo_new (ready demo_loop 1 demo_new).
Definition demo_server : TcpServer :=
  from_res demo_new (res_fold exec demo_server0 [Accept; RunTask 1; Close 1; RunTask 0; RunTask 1]).

Lemma demo_ready : ready demo_loop 1 demo_new = Ok demo_server0.
Proof. reflexivity. Qed.

Lemma demo_ran : res_fold exec demo_server0 [Accept; RunTask 1; Close 1; RunTask 0; RunTask 1] = Ok demo_server.
Proof. vm_compute. reflexivity. Qed.

Lemma demo_idle l : queues demo_server l = [].
Proof. destruct l as [|[p|p|]|p]; vm_compute; reflexivity. Qed.

Lemma server_settles_witness :
  c_state <$> conns demo_server !! 1 = Some Destroyed /\
  forall c x, conns demo_server !! c = Some x ->
    c_state x = Connected /\ connections_ demo_server !! c_name x = Some c \/
    c_state x = Destroyed /\ connections_ demo_server !! c_name x <> Some c.
Proof.
  split; [vm_compute; reflexivity|]. refine (proj1 (server_settles demo_loop 1 (bytes_of_string "1.2.3.4:80") (bytes_of_string "srv") 0
    [Accept; RunTask 1; Close 1; RunTask 0; RunTask 1] demo_server0 demo_server Z.le_0_1 demo_loop_ne _ _
    demo_ready demo_ran demo_idle)).
  - vm_compute; discriminate.
  - vm_compute; reflexivity.
Defined.

(** Destroying the server while a close of one of its connections is still
    queued makes the server's loop call a member of the destroyed server. *)
Theorem destroy_with_pending_close :
  exists s0 s1 s2, ready demo_loop 1 (newServer (bytes_of_string "1.2.3.4:80") (bytes_of_string "srv") 0) = Ok s0 /\
    res_fold exec s0 [Accept; RunTask 1; Close 1] = Ok s1 /\ destroyServer s1 = Ok s2 /\
    exec s2 (RunTask 0) = Fail OutOfRange.
Proof. eexists _, _, _. split; [reflexivity|]. split; [vm_compute; reflexivity|]. split; vm_compute; reflexivity. Qed.
