(* ===== verification/ServedConns.v ===== *)
(** * A server with its connections (src/src/muduo/net/TcpServer.cc, TcpConnection.cc)

    Servers keeps of a connection its name, loop and state; TcpConn follows one
    connection on its own.  Here they run together: the server of Servers with a
    connection of TcpConn for every number it knows, all connections of a loop
    sharing the channels and the poller of that loop.  Accepting creates both; the
    functors that establish and destroy a connection run when the loop takes them
    from the server's queue; the close callback of a connection is the server's
    [removeConnection].  A connection's own functors run in their order, loops and
    connections interleave in any way.

    The channel of a destroyed connection stays with its object and leaves the
    channels of the loop: the poller does not know it any more. *)

From S2P Require Import Prelude NetBuffer Channels Pollers Servers TcpConn.

Section Served.
Context {P : Type} `{PollerOps P}.
(** write(2) and the user's callbacks, for each connection. *)
Variables (write : Z -> nat -> list byte -> Z + Z) (user : Z -> Handlers).

Abbreviation World := (World (P := P)).

Record served := mkServed {
  server : TcpServer;
  worlds : gmap Z World;
  loops : Z -> store * P;            (** the channels and the poller of each loop *)
}.

Definition set_server (s : TcpServer) (y : served) : served := mkServed s (worlds y) (loops y).
Definition set_world (c : Z) (w : World) (y : served) : served := mkServed (server y) (<[c := w]> (worlds y)) (loops y).
Definition set_loop (l : Z) (s : store * P) (y : served) : served :=
  mkServed (server y) (worlds y) (fun l' => if l' =? l then s else loops y l').
Definition set_pending (ts : list task) (w : World) : World :=
  mkWorld (conn w) (chans w) ts (delayed w) (writes w) (trace w).

Definition gone (x : Conn) : bool := bool_decide (c_state x = Servers.Destroyed).

(** A connection with the channels of its loop, and back. *)
Definition view (y : served) (x : Conn) (w : World) : World := if gone x then w else on_chans (loops y (c_loop x)) w.

Definition theWorld (c : Z) (y : served) : res (Conn * World) :=
  match conns (server y) !! c, worlds y !! c with
  | Some x, Some w => Ok (x, view y x w)
  | _, _ => Fail OutOfRange
  end.

Definition store_world (c : Z) (x : Conn) (w : World) (y : served) : served :=
  if gone x then set_world c w y else set_loop (c_loop x) (chans w) (set_world c w y).

(** The two functors the server queues for a connection. *)
Definition is_life (t : task) : bool :=
  match t with TConnectEstablished | TConnectDestroyed => true | _ => false end.
Definition without_life (ts : list task) : list task := filter (fun t => negb (is_life t)) ts.

Definition established (c : Z) (y : served) : res served :=
  let! '(x, w) := theWorld c y in
  let! w := TcpConn.connectEstablished (write c) (user c) (set_pending (without_life (pending w)) w) in
  Ok (store_world c x w y).

Definition destroyed (c : Z) (y : served) : res served :=
  let! '(x, w) := theWorld c y in
  let! w := TcpConn.connectDestroyed (write c) (user c) (set_pending (without_life (pending w)) w) in
  Ok (set_loop (c_loop x) (delete (channel_ (conn w)) (fst (chans w)), snd (chans w)) (set_world c w y)).

(** [TcpServer::newConnection]: the connection has channel [ch] and descriptor [fd]. *)
Definition accept_conn (ch fd : Z) (y : served) : res served :=
  let c := nextConnId_ (server y) in
  let! s := newConnection c (server y) in
  let! x := theConn c s in
  let y := store_world c x (newWorld ch fd (loops y (c_loop x))) (set_server s y) in
  if bool_decide (c_state x = Servers.Connected) then established c y else Ok y.

(** The next functor of the server in a loop. *)
Definition follow (t : Servers.task) (y : served) : res served :=
  match t with
  | ConnectEstablished c => established c y
  | ConnectDestroyed c => destroyed c y
  | RemoveConnectionInLoop _ => Ok y
  end.

Definition run_next (l : Z) (y : served) : res served :=
  match queues (server y) l with
  | [] => Ok y
  | t :: _ =>
      let! y := follow t y in
      let! s := Servers.exec (server y) (RunTask l) in
      Ok (set_server s y)
  end.

(** A connection's own functors, in their order. *)
Fixpoint next_own (ts : list task) : option (task * list task) :=
  match ts with
  | [] => None
  | t :: ts =>
      if is_life t then match next_own ts with Some (t', r) => Some (t', t :: r) | None => None end
      else Some (t, ts)
  end.

Definition conn_exec (c : Z) (w : World) (i : TcpConn.input) : res World :=
  match i with
  | ITask =>
      match next_own (pending w) with
      | Some (t, ts) => TcpConn.run_task (write c) (user c) t (set_pending ts w)
      | None => Ok w
      end
  | _ => TcpConn.exec (write c) (user c) w i
  end.

(** An event, functor, timer or call of a connection.  When it has closed, its close
    callback has called the server. *)
Definition conn_step (c : Z) (i : TcpConn.input) (y : served) : res served :=
  let! '(x, w) := theWorld c y in
  let! w' := conn_exec c w i in
  let y := store_world c x w' y in
  if negb (disconnected (conn w)) && disconnected (conn w') then
    let! s := conn_handleClose c (server y) in
    Ok (set_server s y)
  else Ok y.

Inductive served_input :=
| SAccept (ch fd : Z)
| STask (l : Z)
| SConn (c : Z) (i : TcpConn.input).

Definition served_exec (y : served) (i : served_input) : res served :=
  match i with
  | SAccept ch fd => accept_conn ch fd y
  | STask l => run_next l y
  | SConn c i => match conns (server y) !! c with Some _ => conn_step c i y | None => Ok y end
  end.
End Served.

(** * Properties *)

Section Properties.
Context {P : Type} `{PollerSpec P}.
Context (write : Z -> nat -> list byte -> Z + Z) (user : Z -> Handlers).
Hypothesis Hwrite : forall c, write_ok (write c).
Hypothesis Huser : forall c, user_ok (user c).

Abbreviation World := (TcpConn.World (P := P)).
Abbreviation served := (served (P := P)).
Implicit Types (y : served) (w : World) (x : Conn).

(** ** One connection *)

(** What the server's state of a connection says of it. *)
Definition status (st : cstate) (u : Handlers) (ch fd : Z) (s0 : store * P) w : Prop :=
  match st with
  | Connecting => fresh u ch fd s0 w
  | Servers.Connected => live u ch fd s0 w
  | Disconnected => closing u ch fd s0 w
  | Servers.Destroyed => dead u ch fd s0 w /\ chan_gone ch fd s0 (chans w)
  end.

Lemma others_refl ch fd (s : store * P) : others ch fd s s.
Proof. split; [|done]. intros a _. apply same_store_refl. Qed.

(** The moment the others are compared with can be moved to now. *)
Lemma chan_rebase ch fd s0 (s : store * P) :
  (chan_fresh ch fd s0 s -> others ch fd s0 s /\ pinv (fst s) (snd s) /\ chan_fresh ch fd s s) /\
  (forall b, chan_live ch fd s0 s b -> others ch fd s0 s /\ pinv (fst s) (snd s) /\ chan_live ch fd s s b) /\
  (chan_off ch fd s0 s -> others ch fd s0 s /\ pinv (fst s) (snd s) /\ chan_off ch fd s s) /\
  (chan_gone ch fd s0 s -> others ch fd s0 s /\ pinv (delete ch (fst s)) (snd s) /\ chan_gone ch fd s s).
Proof.
  pose proof (others_refl ch fd s) as Hr. split_and!.
  - intros (c & H1 & H2 & H3 & H4 & H5 & H6 & H7). split_and!; [done..|]. exists c. by split_and!.
  - intros b (c & H1 & H2 & H3 & H4 & H5 & H6 & H7 & H8 & H9 & H10). split_and!; [done..|]. exists c. by split_and!.
  - intros (c & H1 & H2 & H3 & H4 & H5 & H6 & H7). split_and!; [done..|]. exists c. by split_and!.
  - intros (c & H1 & H2 & H3 & H4 & H5 & H6). split_and!; [done..|]. exists c. by split_and!.
Qed.

Lemma off_not_gone ch fd s0 (s : store * P) : chan_off ch fd s0 s -> chan_gone ch fd s0 s -> False.
Proof. intros (c & _ & _ & _ & _ & Hr & _) (c' & _ & _ & _ & Hr' & _). congruence. Qed.

(** A status with other channels, as long as the connection's own are right for it. *)
Lemma status_chans st u ch fd s0 s1 s w :
  status st u ch fd s0 w ->
  (chan_fresh ch fd s0 (chans w) -> chan_fresh ch fd s1 s) ->
  (forall b, chan_live ch fd s0 (chans w) b -> chan_live ch fd s1 s b) ->
  (chan_off ch fd s0 (chans w) -> chan_off ch fd s1 s) ->
  (st = Servers.Destroyed -> chan_gone ch fd s0 (chans w) -> chan_gone ch fd s1 s) ->
  status st u ch fd s1 (on_chans s w).
Proof.
  intros Hst Hf Hl Ho Hg. destruct st; cbn [status] in *.
  - destruct Hst as ((? & ? & ? & ? & ?) & ? & ? & ? & ? & ?). unfold fresh, common. split_and!; try done. by apply Hf.
  - destruct Hst as ((? & ? & ? & ? & ?) & ? & ? & ? & ?). unfold live, core, common. split_and!; try done. by apply Hl.
  - destruct Hst as [((? & ? & ? & ? & ?) & ? & Hd) Hoff]. unfold closing, dead, common. split_and!; try done; [|by apply Ho].
    destruct Hd as [(? & ? & ?)|(? & ? & ?)]; [left|by destruct (off_not_gone _ _ _ _ Hoff)]. split_and!; try done. by apply Ho.
  - destruct Hst as [((? & ? & ? & ? & ?) & ? & Hd) Hgone]. unfold dead, common. split_and!; try done; [|by apply Hg].
    destruct Hd as [(Hoff & ? & ?)|(? & ? & ?)]; [by destruct (off_not_gone _ _ _ _ Hoff)|right]. split_and!; try done. by apply Hg.
Qed.

Lemma on_chans_same w : on_chans (chans w) w = w.
Proof. by destruct w. Qed.

Lemma status_rebase st u ch fd s0 w : status st u ch fd s0 w -> status st u ch fd (chans w) w.
Proof.
  intros Hst. rewrite <- (on_chans_same w) at 2. destruct (chan_rebase ch fd s0 (chans w)) as (R1 & R2 & R3 & R4).
  eapply status_chans; [done|..]; [by intros (_ & _ & ?)%R1|by intros b (_ & _ & ?)%R2|by intros (_ & _ & ?)%R3|by intros _ (_ & _ & ?)%R4].
Qed.

(** What a connection has left alone, and that the poller is in order. *)
Lemma status_others st u ch fd s0 w : status st u ch fd s0 w ->
  others ch fd s0 (chans w) /\ channel_ (conn w) = ch /\
  match st with
  | Servers.Destroyed => pinv (delete ch (fst (chans w))) (snd (chans w))
  | _ => pinv (fst (chans w)) (snd (chans w)) /\ exists k, fst (chans w) !! ch = Some k /\ fd_ k = fd
  end.
Proof.
  destruct (chan_rebase ch fd s0 (chans w)) as (R1 & R2 & R3 & R4). intros Hst. destruct st; cbn [status] in Hst.
  - destruct Hst as ((? & _) & _ & _ & _ & _ & Hc). pose proof (R1 Hc) as (? & ? & _). destruct Hc as (k & ? & ? & _). eauto 10.
  - destruct Hst as ((? & _) & _ & _ & _ & Hc). pose proof (R2 _ Hc) as (? & ? & _). destruct Hc as (k & ? & ? & _). eauto 10.
  - destruct Hst as [((? & _) & _) Hc]. pose proof (R3 Hc) as (? & ? & _). destruct Hc as (k & ? & ? & _). eauto 10.
  - destruct Hst as [((? & _) & _) Hc]. pose proof (R4 Hc) as (? & ? & _). done.
Qed.

(** Another connection of the loop did something. *)
Lemma chan_frame ch fd ch' fd' (s s' : store * P) :
  others ch fd s s' -> pinv (fst s') (snd s') -> ch' <> ch -> fd' <> fd ->
  (chan_fresh ch' fd' s s -> chan_fresh ch' fd' s' s') /\
  (forall b, chan_live ch' fd' s s b -> chan_live ch' fd' s' s' b) /\
  (chan_off ch' fd' s s -> chan_off ch' fd' s' s').
Proof.
  intros [O1 O2] Hp Hch Hfd. specialize (O1 ch' Hch). destruct (O2 fd' Hfd) as [Or Ow]. pose proof (others_refl ch' fd' s') as Hr.
  assert (forall k, fst s !! ch' = Some k -> exists i, fst s' !! ch' = Some (set_index i k)) as Hk.
  { intros k E. rewrite E in O1. destruct (fst s' !! ch') as [k'|]; [|done]. destruct O1 as [i ->]. by exists i. }
  split_and!.
  - intros (k & Hk1 & ? & _ & ? & ? & ? & _). destruct (Hk k Hk1) as [i Hi]. exists (set_index i k).
    rewrite Or, Ow. by split_and!.
  - intros b (k & Hk1 & ? & _ & ? & ? & ? & ? & ? & ? & _). destruct (Hk k Hk1) as [i Hi]. exists (set_index i k).
    rewrite Or, Ow. by split_and!.
  - intros (k & Hk1 & ? & _ & ? & ? & ? & _). destruct (Hk k Hk1) as [i Hi]. exists (set_index i k).
    rewrite Or, Ow. by split_and!.
Qed.

Lemma status_frame st u ch fd ch' fd' s s' w :
  st <> Servers.Destroyed -> others ch fd s s' -> pinv (fst s') (snd s') -> ch' <> ch -> fd' <> fd ->
  status st u ch' fd' s (on_chans s w) -> status st u ch' fd' s' (on_chans s' w).
Proof.
  intros Hst Ho Hp Hch Hfd Hs. destruct (chan_frame ch fd ch' fd' s s' Ho Hp Hch Hfd) as (F1 & F2 & F3).
  change (on_chans s' w) with (on_chans s' (on_chans s w)).
  eapply status_chans; done.
Qed.

(** *** Functors *)

Lemma next_own_spec (u : Handlers) ts t r :
  next_own ts = Some (t, r) -> Forall (task_ok u) ts ->
  is_life t = false /\ task_ok u t /\ Forall (task_ok u) r /\ lifeTasks r = lifeTasks ts.
Proof.
  revert t r. induction ts as [|t0 ts IH]; intros t r E Hok; [done|]. cbn [next_own] in E.
  apply Forall_cons in Hok as [H0' Hok]. destruct (is_life t0) eqn:El.
  - destruct (next_own ts) as [[t' r']|] eqn:En; [|done]. injection E as <- <-.
    destruct (IH _ _ eq_refl Hok) as (? & ? & ? & Hl). split_and!; try done; [by constructor|].
    cbn. unfold lifeTasks in Hl. by rewrite Hl.
  - injection E as <- <-. split_and!; try done. by destruct t0.
Qed.

Lemma status_pending st u ch fd s0 ts w :
  st <> Connecting -> status st u ch fd s0 w -> lifeTasks ts = lifeTasks (pending w) -> Forall (task_ok u) ts ->
  status st u ch fd s0 (set_pending ts w).
Proof.
  intros Hne Hst Hl Hok. destruct st; cbn [status] in *; try done.
  - destruct Hst as ((? & ? & ? & ? & ?) & ? & ? & ? & ?). unfold live, core, common. split_and!; try done. by rewrite <- Hl in *.
  - destruct Hst as [((? & ? & ? & ? & ?) & ? & Hd) Hoff]. rewrite <- Hl in Hd. unfold closing, dead, common. by split_and!.
  - destruct Hst as [((? & ? & ? & ? & ?) & ? & Hd) Hg]. rewrite <- Hl in Hd. unfold dead, common. by split_and!.
Qed.

Lemma status_tasks st u ch fd s0 w : status st u ch fd s0 w -> Forall (task_ok u) (pending w).
Proof. intros Hst. destruct st; cbn [status] in Hst; [destruct Hst as ((?&?&?&?&?)&_)|destruct Hst as ((?&?&?&?&?)&_)|destruct Hst as [((?&?&?&?&?)&_) _]..]; done. Qed.

Definition is_down (st : cstate) : bool := match st with Disconnected | Servers.Destroyed => true | _ => false end.

Lemma status_state st u ch fd s0 w : status st u ch fd s0 w -> disconnected (conn w) = is_down st.
Proof.
  intros Hst. unfold disconnected. destruct st; cbn [status is_down] in *.
  - destruct Hst as (_ & -> & _). done.
  - destruct Hst as (_ & [-> | ->] & _); done.
  - destruct Hst as [(_ & -> & _) _]. done.
  - destruct Hst as [(_ & -> & _) _]. done.
Qed.

(** Down for good: what is left to run changes nothing but the trace. *)
Lemma down_task st u ch fd s0 wr t w :
  user_ok u -> task_ok u t -> is_life t = false -> is_down st = true -> status st u ch fd s0 w ->
  safe (TcpConn.run_task wr u t w) (status st u ch fd s0).
Proof.
  intros Hu Ht Hl Hd Hst.
  assert (dead u ch fd s0 w) as Hdead by (destruct st; try done; by destruct Hst).
  eapply safe_mono; [apply (run_task_dead wr u ch fd s0 Hu t w Ht); [by destruct t|done]|].
  intros w' [Hd' Hc]. destruct st; try done; cbn [status] in *; destruct Hst as [_ Hc0]; (split; [done|]); by rewrite Hc.
Qed.

Lemma down_idle st u ch fd s0 w n :
  is_down st = true \/ st = Connecting -> status st u ch fd s0 w ->
  status st u ch fd s0 (forceClose (mkWorld (conn w) (chans w) (pending w) n (writes w) (trace w))).
Proof.
  intros Hd Hst. unfold forceClose. cbn [conn].
  destruct st; cbn [status is_down] in *; destruct Hd as [Hd|Hd]; try done.
  - pose proof Hst as (_ & -> & _). done.
  - pose proof Hst as [(_ & -> & _) _]. done.
  - pose proof Hst as [(_ & -> & _) _]. done.
Qed.

(** Closing is left to events and to the loop's functors. *)
Definition may_close (i : TcpConn.input) : bool := match i with IEvent _ _ | ITask => true | _ => false end.

(** A step of a connection keeps what the server knows of it, but that it may close. *)
Lemma conn_exec_status c st ch fd s0 w i :
  0 <= fd -> status st (user c) ch fd s0 w -> TcpConn.enabled ch fd w i ->
  safe (conn_exec write user c w i)
    (fun w' => status st (user c) ch fd s0 w' \/
       st = Servers.Connected /\ may_close i = true /\ status Disconnected (user c) ch fd s0 w').
Proof.
  intros Hfd Hst He.
  assert (winv (user c) ch fd s0 w) as Hw.
  { destruct st; cbn [status] in Hst; [by left|by right; left|by right; right; destruct Hst..]. }
  assert (forall r, safe r (handled (user c) ch fd s0) -> st = Servers.Connected -> may_close i = true ->
    safe r (fun w' => status st (user c) ch fd s0 w' \/
       st = Servers.Connected /\ may_close i = true /\ status Disconnected (user c) ch fd s0 w')) as Hup.
  { intros r Hr -> Hi. eapply safe_mono; [exact Hr|]. intros w' [?|?]; [by left|by right]. }
  destruct i as [revents readv| | |a| |a]; cbn [conn_exec].
  - assert (st = Servers.Connected) as Hup'.
    { pose proof (event_live _ _ _ _ _ _ _ Hw He) as (_ & Hl & _). pose proof (status_state _ _ _ _ _ _ Hst) as Hs.
      unfold disconnected in Hs. destruct st; try done; [pose proof Hst as (_ & E & _); rewrite E in Hl; by destruct Hl|..];
        destruct Hl as [E|E]; by rewrite E in Hs. }
    apply Hup; [|done..]. rewrite Hup' in Hst. by apply exec_event_live.
  - destruct (next_own (pending w)) as [[t ts]|] eqn:En; [|by left].
    destruct (next_own_spec (user c) _ _ _ En (status_tasks _ _ _ _ _ _ Hst)) as (Hl & Ht & Hts & Hlt).
    destruct st.
    + cbn [status] in Hst. destruct Hst as (_ & _ & Hp & _). rewrite Hp in En. done.
    + apply Hup; [|done..]. apply run_task_live; try done; [by destruct t|].
      exact (status_pending Servers.Connected _ _ _ _ ts w ltac:(done) Hst Hlt Hts).
    + eapply safe_mono; [eapply (down_task Disconnected); try done; by apply status_pending|]. by left.
    + eapply safe_mono; [eapply (down_task Servers.Destroyed); try done; by apply status_pending|]. by left.
  - cbn [exec]. destruct (delayed w) as [|n]; [by left|]. cbn [safe]. left. destruct st; try (apply down_idle; [by auto|done]).
    cbn [status] in *. exact (call_api_live (write c) (user c) ch fd s0 Hfd (Hwrite c) true ForceClose
      (mkWorld (conn w) (chans w) (pending w) n (writes w) (trace w)) I Hst).
  - cbn [exec]. cbn [TcpConn.enabled] in He. destruct st; cbn [status] in Hst.
    + rewrite (fresh_api _ _ _ _ _ _ _ _ Hst He). by left.
    + eapply safe_mono; [by apply call_api_live|]. by left.
    + rewrite call_api_closed by (by destruct Hst as [(_ & ? & _) _]). by left.
    + rewrite call_api_closed by (by destruct Hst as [(_ & ? & _) _]). by left.
  - cbn [TcpConn.enabled] in He. cbn [exec safe]. left. pose proof (status_state _ _ _ _ _ _ Hst) as Hs.
    destruct st; cbn [status is_down] in *.
    + destruct Hst as (_ & E & _). rewrite E in He. by destruct He.
    + apply core_state; [by right|exact Hst].
    + destruct Hst as [(_ & E & _) _]. rewrite E in He. by destruct He.
    + destruct Hst as [(_ & E & _) _]. rewrite E in He. by destruct He.
  - cbn [TcpConn.enabled] in He. destruct He as [Ha Hne]. cbn [exec]. destruct st; cbn [status] in Hst.
    + by destruct Hst as (_ & ? & _).
    + eapply safe_mono; [by apply post_live|]. by left.
    + destruct Hst as [Hd Ho]. eapply safe_mono; [by apply post_dead|]. intros w' [Hd' Hc]. left. split; [done|]. by rewrite Hc.
    + destruct Hst as [Hd Ho]. eapply safe_mono; [by apply post_dead|]. intros w' [Hd' Hc]. left. split; [done|]. by rewrite Hc.
Qed.

(** ** What the server's steps do to its record of connections *)

Definition at_state (st : cstate) x : Conn := mkConn (c_name x) (c_loop x) st.

Lemma newConnection_conns c s s' :
  newConnection c s = Ok s' ->
  exists l p nm st, getNextLoop (threadPool_ s) = Ok (l, p) /\ conns s' = <[c := mkConn nm l st]> (conns s) /\
    (st = Connecting \/ st = Servers.Connected).
Proof.
  unfold newConnection. intros E. apply res_bind_Ok in E as ([l p] & El & E). exists l, p.
  destruct (l =? baseLoop_ p).
  - unfold Servers.connectEstablished, theConn in E. cbn [conns] in E. rewrite lookup_insert_eq in E. cbn in E. injection E as <-.
    eexists _, _. split; [done|]. cbn. rewrite insert_insert_eq. eauto.
  - injection E as <-. eexists _, _. split; [done|]. cbn. eauto.
Qed.

Lemma removeConnectionInLoop_conns c s s' : removeConnectionInLoop c s = Ok s' -> conns s' = conns s.
Proof.
  unfold removeConnectionInLoop. destruct (server_alive s); [|done]. intros E.
  apply res_bind_Ok in E as (x & _ & E). apply res_bind_Ok in E as (u & _ & E). by injection E as <-.
Qed.

Lemma handleClose_conns c s s' x :
  conns s !! c = Some x -> conn_handleClose c s = Ok s' -> conns s' = <[c := at_state Disconnected x]> (conns s).
Proof.
  intros Hx E. unfold conn_handleClose, theConn in E. rewrite Hx in E. cbn [res_bind] in E.
  apply res_bind_Ok in E as (u & _ & E). unfold removeConnection in E. destruct (server_alive _); [|done].
  destruct (_ =? _); [apply removeConnectionInLoop_conns in E; by rewrite E|by injection E as <-].
Qed.

Lemma runTask_conns t s s' x :
  conns s !! conn_of t = Some x -> Servers.run_task t s = Ok s' ->
  conns s' = match t with
             | ConnectEstablished c => <[c := at_state Servers.Connected x]> (conns s)
             | ConnectDestroyed c => <[c := at_state Servers.Destroyed x]> (conns s)
             | RemoveConnectionInLoop _ => conns s
             end.
Proof.
  destruct t as [c|c|c]; cbn [conn_of Servers.run_task]; intros Hx E.
  - unfold Servers.connectEstablished, theConn in E. rewrite Hx in E. cbn [res_bind] in E.
    apply res_bind_Ok in E as (u & _ & E). by injection E as <-.
  - unfold Servers.connectDestroyed, theConn in E. rewrite Hx in E. cbn [res_bind] in E.
    apply res_bind_Ok in E as (u & _ & E). by injection E as <-.
  - by apply removeConnectionInLoop_conns in E.
Qed.

(** ** The invariant *)

(** Every connection of the server has its channel and descriptor, and is what the
    server takes it for, seen with the channels of its loop. *)
Definition links (CH FD : Z -> Z) y : Prop :=
  forall c x, conns (server y) !! c = Some x ->
    exists w, worlds y !! c = Some w /\ 0 <= FD c /\
      status (c_state x) (user c) (CH c) (FD c) (chans (view y x w)) (view y x w).

Definition distinct (CH FD : Z -> Z) y : Prop :=
  forall c1 c2 x1 x2, c1 <> c2 -> conns (server y) !! c1 = Some x1 -> conns (server y) !! c2 = Some x2 ->
    gone x1 = false -> gone x2 = false -> c_loop x1 = c_loop x2 -> CH c1 <> CH c2 /\ FD c1 <> FD c2.

Record served_inv y : Prop := {
  sv_server : server_inv (server y);
  sv_loops : forall l, pinv (fst (loops y l)) (snd (loops y l));
  sv_links : exists CH FD, links CH FD y /\ distinct CH FD y;
}.

(** A connection did something in its loop. *)
Lemma links_update CH FD y y' c x x' w' s' :
  links CH FD y -> distinct CH FD y -> conns (server y) !! c = Some x -> gone x = false ->
  conns (server y') = <[c := x']> (conns (server y)) -> c_loop x' = c_loop x ->
  worlds y' = <[c := w']> (worlds y) ->
  (forall l, loops y' l = if l =? c_loop x then s' else loops y l) ->
  others (CH c) (FD c) (loops y (c_loop x)) s' -> pinv (fst s') (snd s') ->
  status (c_state x') (user c) (CH c) (FD c) (chans (view y' x' w')) (view y' x' w') ->
  links CH FD y' /\ distinct CH FD y'.
Proof.
  intros Hl Hd Hx Hg Hc Hlp Hw Hls Ho Hp Hst. split.
  - intros c2 x2 Hx2. rewrite Hc in Hx2. destruct (decide (c2 = c)) as [->|Hne].
    + rewrite lookup_insert_eq in Hx2. injection Hx2 as <-. exists w'. rewrite Hw, lookup_insert_eq.
      destruct (Hl c x Hx) as (w & _ & Hfd & _). by split_and!.
    + rewrite lookup_insert_ne in Hx2 by done. destruct (Hl c2 x2 Hx2) as (w2 & Hw2 & Hfd & Hs2). exists w2.
      rewrite Hw, lookup_insert_ne by done. split_and!; [done..|]. unfold view in *. destruct (gone x2) eqn:Hg2; [done|].
      rewrite Hls. destruct (Z.eqb_spec (c_loop x2) (c_loop x)) as [Heq|Hneq]; [|done].
      destruct (Hd c2 c x2 x) as [Hch Hfd']; try done. rewrite Heq in Hs2. cbn [chans on_chans] in *.
      eapply status_frame; [|exact Ho|exact Hp|done|done|exact Hs2]. unfold gone in Hg2. by apply bool_decide_eq_false in Hg2.
  - assert (forall c2 x2, conns (server y') !! c2 = Some x2 -> gone x2 = false ->
      exists x3, conns (server y) !! c2 = Some x3 /\ gone x3 = false /\ c_loop x3 = c_loop x2) as Hold.
    { intros c2 x2 H2 G2. rewrite Hc in H2. destruct (decide (c2 = c)) as [->|Hne].
      - rewrite lookup_insert_eq in H2. injection H2 as <-. by exists x.
      - rewrite lookup_insert_ne in H2 by done. by exists x2. }
    intros c1 c2 x1 x2 Hne H1 H2 G1 G2 Heq. destruct (Hold c1 x1 H1 G1) as (x3 & ? & ? & ?), (Hold c2 x2 H2 G2) as (x4 & ? & ? & ?).
    apply (Hd c1 c2 x3 x4); try done. congruence.
Qed.

(** A connection that is gone did something. *)
Lemma links_gone CH FD y c x w' :
  links CH FD y -> distinct CH FD y -> conns (server y) !! c = Some x -> gone x = true ->
  status Servers.Destroyed (user c) (CH c) (FD c) (chans w') w' ->
  links CH FD (set_world c w' y) /\ distinct CH FD (set_world c w' y).
Proof.
  intros Hl Hd Hx Hg Hst. split; [|done]. intros c2 x2 Hx2. cbn [set_world server worlds] in *.
  destruct (decide (c2 = c)) as [->|Hne].
  - simplify_eq. exists w'. rewrite lookup_insert_eq. destruct (Hl c x Hx) as (w & _ & Hfd & _). split_and!; [done..|].
    unfold view. rewrite Hg. unfold gone in Hg. apply bool_decide_eq_true in Hg. by rewrite Hg.
  - rewrite lookup_insert_ne by done. by apply Hl.
Qed.

(** A connection the server did not know. *)
Lemma links_new CH FD y y' c x' w' s' ch fd :
  links CH FD y -> distinct CH FD y -> conns (server y) !! c = None ->
  conns (server y') = <[c := x']> (conns (server y)) -> gone x' = false ->
  worlds y' !! c = Some w' -> (forall c', c' <> c -> worlds y' !! c' = worlds y !! c') ->
  (forall l, loops y' l = if l =? c_loop x' then s' else loops y l) ->
  others ch fd (loops y (c_loop x')) s' -> pinv (fst s') (snd s') -> 0 <= fd ->
  fst (loops y (c_loop x')) !! ch = None -> (forall a k, fst (loops y (c_loop x')) !! a = Some k -> fd_ k <> fd) ->
  status (c_state x') (user c) ch fd (chans (view y' x' w')) (view y' x' w') ->
  exists CH' FD', links CH' FD' y' /\ distinct CH' FD' y'.
Proof.
  intros Hl Hd Hnew Hc Hg' Hw Hws Hls Ho Hp Hfd Hch Hfds Hst.
  exists (fun c' => if c' =? c then ch else CH c'), (fun c' => if c' =? c then fd else FD c').
  assert (forall c2 x2, c2 <> c -> conns (server y') !! c2 = Some x2 -> conns (server y) !! c2 = Some x2) as Hold.
  { intros c2 x2 Hne H2. by rewrite Hc, lookup_insert_ne in H2. }
  assert (forall c2 x2, conns (server y) !! c2 = Some x2 -> gone x2 = false -> c_loop x2 = c_loop x' ->
    CH c2 <> ch /\ FD c2 <> fd) as Hdiff.
  { intros c2 x2 H2 G2 Heq. destruct (Hl c2 x2 H2) as (w2 & _ & _ & Hs2). unfold view in Hs2. rewrite G2, Heq in Hs2.
    apply status_others in Hs2 as (_ & _ & Hs2). unfold gone in G2. apply bool_decide_eq_false in G2.
    assert (exists k, fst (loops y (c_loop x')) !! CH c2 = Some k /\ fd_ k = FD c2) as (k & Hk & Hfk).
    { destruct (c_state x2); try done; by destruct Hs2. }
    split; [intros E; by rewrite E, Hch in Hk|]. rewrite <- Hfk. by eapply Hfds. }
  split.
  - intros c2 x2 Hx2. destruct (Z.eqb_spec c2 c) as [->|Hne].
    + rewrite Hc, lookup_insert_eq in Hx2. injection Hx2 as <-. by exists w'.
    + pose proof (Hold c2 x2 Hne Hx2) as Hx2'. destruct (Hl c2 x2 Hx2') as (w2 & Hw2 & Hfd2 & Hs2). exists w2.
      rewrite Hws by done. split_and!; [done..|]. unfold view in *. destruct (gone x2) eqn:Hg2; [done|].
      rewrite Hls. destruct (Z.eqb_spec (c_loop x2) (c_loop x')) as [Heq|Hneq]; [|done].
      destruct (Hdiff c2 x2 Hx2' Hg2 Heq) as [Hch' Hfd']. rewrite Heq in Hs2. cbn [chans on_chans] in *.
      eapply status_frame; [|exact Ho|exact Hp|done|done|exact Hs2]. unfold gone in Hg2. by apply bool_decide_eq_false in Hg2.
  - intros c1 c2 x1 x2 Hne H1 H2 G1 G2 Heq. destruct (Z.eqb_spec c1 c) as [->|N1], (Z.eqb_spec c2 c) as [->|N2]; [done|..].
    + rewrite Hc, lookup_insert_eq in H1. injection H1 as <-. destruct (Hdiff c2 x2) as [? ?]; auto.
    + rewrite Hc, lookup_insert_eq in H2. injection H2 as <-. destruct (Hdiff c1 x1) as [? ?]; auto.
    + apply (Hd c1 c2 x1 x2); auto.
Qed.

(** ** Steps *)

Lemma theWorld_ok CH FD c x y :
  links CH FD y -> conns (server y) !! c = Some x ->
  exists w, worlds y !! c = Some w /\ theWorld c y = Ok (x, view y x w) /\ 0 <= FD c /\
    status (c_state x) (user c) (CH c) (FD c) (chans (view y x w)) (view y x w).
Proof.
  intros Hl Hx. destruct (Hl c x Hx) as (w & Hw & Hfd & Hst). exists w. unfold theWorld. rewrite Hx, Hw. by split_and!.
Qed.

(** What the poller can report to a connection, and what other threads can ask of it. *)
Definition conn_enabled x w (i : TcpConn.input) : Prop :=
  match i with
  | IEvent _ _ => gone x = false /\ exists k, theChannel w = Ok k /\ TcpConn.enabled (channel_ (conn w)) (fd_ k) w i
  | IApi a => api_ok a
  | IMark => isLive (state_ (conn w))
  | IPost a => api_ok a /\ state_ (conn w) <> kConnecting
  | _ => True
  end.

Lemma conn_enabled_ok c x ch fd s0 w i :
  status (c_state x) (user c) ch fd s0 w -> conn_enabled x w i -> TcpConn.enabled ch fd w i.
Proof.
  intros Hst He. destruct i; cbn [conn_enabled] in He; try exact He. destruct He as (Hg & k & Hk & He).
  apply status_others in Hst as (_ & Hch & Hst). rewrite Hch in He. unfold gone in Hg. apply bool_decide_eq_false in Hg.
  assert (exists k', fst (chans w) !! ch = Some k' /\ fd_ k' = fd) as (k' & Hk' & Hfd).
  { destruct (c_state x); try done; by destruct Hst. }
  unfold theChannel, deref in Hk. rewrite Hch, Hk' in Hk. injection Hk as ->. by rewrite Hfd in He.
Qed.

Lemma view_stored y x w : gone x = false -> loops y (c_loop x) = chans w -> view y x w = w.
Proof. intros Hg Hl. unfold view. rewrite Hg, Hl. apply on_chans_same. Qed.

Lemma loops_pinv y (y' : served) l s' :
  (forall l, pinv (fst (loops y l)) (snd (loops y l))) -> (forall l', loops y' l' = if l' =? l then s' else loops y l') ->
  pinv (fst s') (snd s') -> forall l, pinv (fst (loops y' l)) (snd (loops y' l)).
Proof. intros Hp Hl Hs l'. rewrite Hl. by destruct (l' =? l). Qed.

Lemma view_chans y x w : gone x = false -> chans (view y x w) = loops y (c_loop x).
Proof. intros Hg. unfold view. by rewrite Hg. Qed.

Lemma not_gone x : c_state x <> Servers.Destroyed -> gone x = false.
Proof. apply bool_decide_eq_false. Qed.

(** What the server has done in a step. *)
Definition server_moves (s s' : TcpServer) (i : option Servers.input) : Prop :=
  match i with None => s' = s | Some i => Servers.exec s i = Ok s' end.

(** The connection is stored with what its step made of the loop. *)
Lemma stored_inv CH FD y c x x' w w' s' :
  served_inv y -> links CH FD y -> distinct CH FD y -> conns (server y) !! c = Some x -> gone x = false ->
  worlds y !! c = Some w -> server_inv s' -> conns s' = <[c := x']> (conns (server y)) -> c_loop x' = c_loop x ->
  c_state x' <> Servers.Destroyed -> status (c_state x') (user c) (CH c) (FD c) (loops y (c_loop x)) w' ->
  served_inv (set_server s' (store_world c x w' y)).
Proof.
  intros Hy Hl Hd Hx Hg Hw Hs' Hc Hlp Hst' Hst. unfold store_world. rewrite Hg.
  pose proof (status_others _ _ _ _ _ _ Hst) as (Ho & _ & Hp).
  assert (pinv (fst (chans w')) (snd (chans w'))) as Hp' by (destruct (c_state x'); try done; by destruct Hp).
  split; cbn [set_server server].
  - done.
  - eapply (loops_pinv y _ (c_loop x) (chans w')); [apply (sv_loops _ Hy)|done|done].
  - exists CH, FD. eapply (links_update CH FD y _ c x x' w' (chans w')); try done.
    rewrite view_stored; [by apply status_rebase in Hst|by apply not_gone|]. cbn. by rewrite Hlp, Z.eqb_refl.
Qed.

(** The same when the server's state of it has not changed. *)
Lemma same_status_inv CH FD y c x w w' :
  served_inv y -> links CH FD y -> distinct CH FD y -> conns (server y) !! c = Some x -> worlds y !! c = Some w ->
  status (c_state x) (user c) (CH c) (FD c) (chans (view y x w)) w' -> served_inv (store_world c x w' y).
Proof.
  intros Hy Hl Hd Hx Hw Hst. destruct (gone x) eqn:Hg.
  - unfold store_world. rewrite Hg. pose proof Hg as Hg'. unfold gone in Hg'. apply bool_decide_eq_true in Hg'. rewrite Hg' in Hst.
    destruct (links_gone CH FD y c x w' Hl Hd Hx Hg) as [Hl' Hd']; [by eapply status_rebase|].
    split; [apply (sv_server _ Hy)|apply (sv_loops _ Hy)|by exists CH, FD].
  - rewrite view_chans in Hst by done. pose proof Hg as Hg'. unfold gone in Hg'. apply bool_decide_eq_false in Hg'.
    replace (store_world c x w' y) with (set_server (server y) (store_world c x w' y))
      by (unfold store_world; by destruct (gone x)).
    eapply (stored_inv CH FD y c x x); try done; [apply (sv_server _ Hy)|by rewrite insert_id].
Qed.

Lemma conn_step_inv y c x i :
  served_inv y -> nextConnId_ (server y) <= 2 ^ 31 -> conns (server y) !! c = Some x ->
  (forall x w, theWorld c y = Ok (x, w) -> conn_enabled x w i) ->
  safe (conn_step write user c i y) (fun y' => served_inv y' /\ exists j, server_moves (server y) (server y') j).
Proof.
  intros Hy Hn Hx He. destruct (sv_links _ Hy) as (CH & FD & Hl & Hd).
  destruct (theWorld_ok CH FD c x y Hl Hx) as (w & Hw & Ew & Hfd & Hst). unfold conn_step. rewrite Ew. cbn [res_bind].
  specialize (He x _ Ew). pose proof (conn_enabled_ok _ _ _ _ _ _ _ Hst He) as He'.
  eapply safe_bind'; [eapply conn_exec_status; eassumption|]. intros w' Hw'. cbn beta in Hw'.
  pose proof (status_state _ _ _ _ _ _ Hst) as Hdn.
  destruct Hw' as [Hw'|(Hup & _ & Hw')]; pose proof (status_state _ _ _ _ _ _ Hw') as Hdn'; rewrite Hdn, Hdn'.
  - rewrite andb_negb_l. cbn [safe]. split; [|by exists None; destruct (gone x) eqn:Hg; unfold store_world; rewrite Hg].
    by eapply same_status_inv.
  - rewrite Hup. cbn [negb is_down andb]. assert (gone x = false) as Hg by (apply not_gone; by rewrite Hup).
    rewrite view_chans in Hw' by done.
    destruct (close_inv (server y) c x (sv_server _ Hy) Hn Hx Hup) as (s' & Es & Hs' & _).
    replace (server (store_world c x w' y)) with (server y) by (unfold store_world; by rewrite Hg).
    rewrite Es. cbn [res_bind safe]. split.
    + eapply (stored_inv CH FD y c x (at_state Disconnected x)); try done. by eapply handleClose_conns.
    + exists (Some (Close c)). cbn. rewrite Hx. by rewrite bool_decide_true.
Qed.

Lemma established_ok c x w ch fd s0 y :
  theWorld c y = Ok (x, w) -> 0 <= fd -> fresh (user c) ch fd s0 w ->
  safe (established write user c y) (fun y' => exists w', y' = store_world c x w' y /\ live (user c) ch fd s0 w').
Proof.
  intros Ew Hfd Hf. unfold established. rewrite Ew. cbn [res_bind]. pose proof Hf as (_ & _ & -> & _).
  eapply safe_bind'; [exact (connectEstablished_live (write c) (user c) ch fd s0 Hfd (Hwrite c) (Huser c) w Hf)|].
  intros w' Hl. by exists w'.
Qed.

Lemma lifeTasks_without ts : lifeTasks (without_life ts) = [].
Proof.
  unfold without_life. induction ts as [|t ts IH]; [done|]. rewrite filter_cons. by destruct t.
Qed.

(** The functor [connectDestroyed] of a closed connection. *)
Lemma connectDestroyed_status c w ch fd s0 :
  closing (user c) ch fd s0 w ->
  safe (TcpConn.connectDestroyed (write c) (user c) (set_pending (without_life (pending w)) w))
    (fun w' => channel_ (conn w') = ch /\ status Servers.Destroyed (user c) ch fd s0 w').
Proof.
  intros Hc. set (w1 := set_pending (TConnectDestroyed :: without_life (pending w)) w).
  assert (closing (user c) ch fd s0 w1) as Hc1.
  { apply (status_pending Disconnected); [done|done| |].
    - change (TConnectDestroyed :: lifeTasks (without_life (pending w)) = lifeTasks (pending w)). rewrite lifeTasks_without.
      destruct Hc as [(_ & _ & [(_ & -> & _)|(Hg & _)]) Hoff]; [done|by destruct (off_not_gone _ _ _ _ Hoff)].
    - constructor; [done|]. apply (status_tasks Disconnected _ ch fd s0) in Hc.
      apply Forall_forall. intros t Ht. apply list_elem_of_filter in Ht as [_ Ht]. by apply (proj1 (Forall_forall _ _) Hc). }
  eapply safe_mono; [exact (connectDestroyed_dead (write c) (user c) ch fd s0 w1 _ Hc1 eq_refl)|].
  intros w' [Hd Hg]. pose proof Hd as ((? & _) & _). by split_and!.
Qed.

Lemma destroyed_ok c x w ch fd s0 y :
  theWorld c y = Ok (x, w) -> closing (user c) ch fd s0 w ->
  safe (destroyed write user c y) (fun y' => exists w',
    y' = set_loop (c_loop x) (delete ch (fst (chans w')), snd (chans w')) (set_world c w' y) /\
    status Servers.Destroyed (user c) ch fd s0 w').
Proof.
  intros Ew Hc. unfold destroyed. rewrite Ew. cbn [res_bind].
  eapply safe_bind'; [by apply connectDestroyed_status|]. intros w' [<- Hd]. by exists w'.
Qed.

(** The loop's channels without the one that is gone. *)
Lemma gone_others ch fd s0 (s : store * P) :
  chan_gone ch fd s0 s -> others ch fd s0 (delete ch (fst s), snd s) /\ pinv (delete ch (fst s)) (snd s).
Proof.
  intros (k & _ & Hp & _ & _ & _ & [H1 H2]). split; [|done]. split; [|done].
  intros a Ha. cbn [fst]. rewrite lookup_delete_ne by done. auto.
Qed.

Lemma exec_RunTask s l t q : queues s l = t :: q -> Servers.exec s (RunTask l) = Servers.run_task t (set_queue l q s).
Proof. intros Hq. cbn. by rewrite Hq. Qed.

Lemma run_next_inv y l :
  served_inv y -> nextConnId_ (server y) <= 2 ^ 31 ->
  safe (run_next write user l y) (fun y' => served_inv y' /\ exists j, server_moves (server y) (server y') j).
Proof.
  intros Hy Hn. destruct (sv_links _ Hy) as (CH & FD & Hl & Hd). unfold run_next.
  destruct (queues (server y) l) as [|t q] eqn:Hq; [by split; [|exists None]|].
  destruct (head_task _ l t q (sv_server _ Hy) Hq) as (x & Hx & _ & _ & Hcase).
  destruct (run_task_inv _ l t q (sv_server _ Hy) Hn Hq) as (s' & Es & Hs' & _).
  pose proof (runTask_conns t (set_queue l q (server y)) s' x Hx Es) as Hc. cbn [conns set_queue] in Hc.
  rewrite <- (exec_RunTask _ _ _ _ Hq) in Es.
  destruct (theWorld_ok CH FD _ x y Hl Hx) as (w & Hw & Ew & Hfd & Hst).
  destruct t as [c|c|c]; cbn [follow conn_of] in *.
  - destruct Hcase as [Hcs _]. rewrite Hcs in Hst. assert (gone x = false) as Hg by (apply not_gone; by rewrite Hcs).
    eapply safe_bind'; [by eapply established_ok|]. intros y' (w' & -> & Hl'). cbn beta.
    replace (server (store_world c x w' y)) with (server y) by (unfold store_world; by rewrite Hg).
    rewrite Es. cbn [res_bind safe]. rewrite view_chans in Hl' by done. split; [|by exists (Some (RunTask l))].
    by eapply (stored_inv CH FD y c x (at_state Servers.Connected x)).
  - destruct Hcase as [Hcs _]. rewrite Hcs in Hst. assert (gone x = false) as Hg by (apply not_gone; by rewrite Hcs).
    eapply safe_bind'; [by eapply destroyed_ok|]. intros y' (w' & -> & Hst'). cbn [server set_loop set_world].
    rewrite Es. cbn [res_bind safe]. rewrite view_chans in Hst' by done. split; [|by exists (Some (RunTask l))].
    destruct (gone_others _ _ _ _ (proj2 Hst')) as [Ho Hp].
    split; cbn [set_server server].
    + done.
    + eapply (loops_pinv y _ (c_loop x)); [apply (sv_loops _ Hy)|done|done].
    + exists CH, FD. eapply (links_update CH FD y _ c x (at_state Servers.Destroyed x) w'); try done.
      by eapply status_rebase.
  - cbn [res_bind]. rewrite Es. cbn [res_bind safe]. split; [|by exists (Some (RunTask l))].
    split; cbn [set_server server]; [done|apply (sv_loops _ Hy)|]. exists CH, FD.
    split; [intros c2 x2|intros c1 c2 x1 x2]; cbn [server set_server]; rewrite Hc; [apply Hl|apply Hd].
Qed.

(** A new connection has an address and a descriptor nobody in its loop has. *)
Definition fresh_conn y (ch fd : Z) : Prop :=
  0 <= fd /\ forall l p, getNextLoop (threadPool_ (server y)) = Ok (l, p) ->
    start_ok ch fd (loops y l) /\ forall a k, fst (loops y l) !! a = Some k -> fd_ k <> fd.

Lemma accept_conn_inv y ch fd :
  served_inv y -> nextConnId_ (server y) < 2 ^ 31 -> fresh_conn y ch fd ->
  safe (accept_conn write user ch fd y) (fun y' => served_inv y' /\ exists j, server_moves (server y) (server y') j).
Proof.
  intros Hy Hn [Hfd Hnew]. destruct (sv_links _ Hy) as (CH & FD & Hl & Hd). unfold accept_conn.
  destruct (accept_inv _ (sv_server _ Hy) Hn) as (s' & Es & Hs' & _).
  destruct (newConnection_conns _ _ _ Es) as (l & p & nm & st & Hg & Hc & Hcase).
  destruct (Hnew l p Hg) as [Hstart Hfds]. set (c := nextConnId_ (server y)) in *. set (x := mkConn nm l st) in *.
  assert (gone x = false) as Hgx by (apply not_gone; by destruct Hcase as [-> | ->]).
  assert (conns (server y) !! c = None) as Hnone.
  { destruct (conns (server y) !! c) as [x2|] eqn:E; [|done]. pose proof (co_id _ _ _ (si_conns _ (sv_server _ Hy) c x2 E)). unfold c in *. lia. }
  rewrite Es. cbn [res_bind]. unfold theConn at 1. rewrite Hc, lookup_insert_eq. cbn [res_bind c_loop x c_state].
  set (w0 := newWorld ch fd (loops y l)). set (y1 := store_world c x w0 (set_server s' y)).
  pose proof (newWorld_fresh (user c) ch fd (loops y l) Hstart) as Hfr. fold w0 in Hfr.
  assert (server_moves (server y) s' (Some Accept)) as Hmv by exact Es.
  assert (forall y' w', server y' = s' -> worlds y' !! c = Some w' -> (forall c', c' <> c -> worlds y' !! c' = worlds y !! c') ->
    (forall l', loops y' l' = if l' =? l then chans w' else loops y l') -> status st (user c) ch fd (loops y l) w' ->
    served_inv y' /\ exists j, server_moves (server y) (server y') j) as Hend.
  { intros y' w' Hsv Hw' Hws Hls Hst. pose proof (status_others _ _ _ _ _ _ Hst) as (Ho & _ & Hp).
    assert (pinv (fst (chans w')) (snd (chans w'))) as Hp' by (destruct Hcase as [-> | ->]; by destruct Hp).
    split; [|exists (Some Accept); by rewrite Hsv]. split.
    - by rewrite Hsv.
    - eapply (loops_pinv y _ l); [apply (sv_loops _ Hy)|done|done].
    - eapply (links_new CH FD y y' c x w' (chans w') ch fd); try done; [by rewrite Hsv|by destruct Hstart as (_ & ? & _)|].
      rewrite view_stored; [by eapply status_rebase|done|]. cbn [c_loop x]. by rewrite Hls, Z.eqb_refl. }
  assert (worlds y1 = <[c := w0]> (worlds y) /\ server y1 = s' /\ loops y1 = (fun l' => if l' =? l then chans w0 else loops y l'))
    as (Hw1 & Hs1 & Hl1) by (unfold y1, store_world; by rewrite Hgx).
  case_bool_decide as Hup.
  - assert (theWorld c y1 = Ok (x, w0)) as Ew.
    { unfold theWorld. rewrite Hs1, Hc, Hw1, !lookup_insert_eq. rewrite view_stored; [done|done|]. rewrite Hl1. cbn. by rewrite Z.eqb_refl. }
    eapply safe_mono; [eapply established_ok; [exact Ew|exact Hfd|exact Hfr]|]. intros y' (w' & -> & Hlv).
    unfold store_world. rewrite Hgx. apply (Hend _ w'); cbn [set_loop set_world server worlds loops].
    + done.
    + by rewrite lookup_insert_eq.
    + intros c' Hne. by rewrite lookup_insert_ne, Hw1, lookup_insert_ne.
    + intros l'. rewrite Hl1. cbn [c_loop x]. by destruct (l' =? l).
    + by rewrite Hup.
  - cbn [safe]. apply (Hend _ w0); try done; [by rewrite Hw1, lookup_insert_eq|intros c' Hne; by rewrite Hw1, lookup_insert_ne|by rewrite Hl1|].
    by destruct Hcase as [-> | ->].
Qed.

(** ** Every step *)

Definition served_enabled y (i : served_input) : Prop :=
  match i with
  | SAccept ch fd => fresh_conn y ch fd
  | STask _ => True
  | SConn c i => forall x w, theWorld c y = Ok (x, w) -> conn_enabled x w i
  end.

Lemma served_exec_inv y i :
  served_inv y -> nextConnId_ (server y) < 2 ^ 31 -> served_enabled y i ->
  safe (served_exec write user y i) (fun y' => served_inv y' /\ exists j, server_moves (server y) (server y') j).
Proof.
  intros Hy Hn He. destruct i as [ch fd|l|c i]; cbn [served_exec served_enabled] in *.
  - by apply accept_conn_inv.
  - apply run_next_inv; [done|lia].
  - destruct (conns (server y) !! c) as [x|] eqn:Hx; [|by split; [|exists None]]. eapply conn_step_inv; try done. lia.
Qed.

(** Runs of [k] steps. *)
Inductive served_reach (y0 : served) : nat -> served -> Prop :=
| sr_start : served_reach y0 0 y0
| sr_step k y i y' : served_reach y0 k y -> served_enabled y i -> served_exec write user y i = Ok y' -> served_reach y0 (S k) y'.

Lemma served_reach_inv y0 k y :
  served_inv y0 -> nextConnId_ (server y0) + Z.of_nat k <= 2 ^ 31 -> served_reach y0 k y ->
  served_inv y /\ nextConnId_ (server y) <= nextConnId_ (server y0) + Z.of_nat k /\
  exists evs, len evs <= Z.of_nat k /\ res_fold Servers.exec (server y0) evs = Ok (server y).
Proof.
  intros Hy0 Hk Hr. induction Hr as [|k y i y' _ IH He E].
  - split_and!; [done|lia|by exists []].
  - destruct IH as (Hy & Hn & evs & Hlen & Hrun); [lia|].
    destruct (safe_Ok _ _ _ (served_exec_inv y i Hy ltac:(lia) He) E) as [Hy' [[j|] Hj]]; cbn [server_moves] in Hj.
    + destruct (exec_inv (server y) j (sv_server _ Hy) ltac:(lia)) as (s' & Es & _ & Hid). rewrite Hj in Es. injection Es as <-.
      split_and!; [done|lia|]. exists (evs ++ [j]). rewrite len_app, res_fold_app, Hrun. cbn [res_bind res_fold]. rewrite Hj.
      split; [change (len [j]) with 1; lia|done].
    + rewrite Hj. split_and!; [done|lia|]. exists evs. split; [lia|done].
Qed.
End Properties.

(** ** Theorems *)

Section Theorems.
Context {P : Type} `{PollerSpec P}.
Context (write : Z -> nat -> list byte -> Z + Z) (user : Z -> Handlers) (start : Z -> store * P).
Context (new_loop : nat -> Z) (n : Z) (ipPort name : list byte) (base : Z) (s0 : TcpServer).
Hypothesis Hwrite : forall c, write_ok (write c).
Hypothesis Huser : forall c, user_ok (user c).
Hypothesis Hstart : forall l, pinv (fst (start l)) (snd (start l)).
Hypothesis Hn : 0 <= n.
Hypothesis Hloops : forall i, new_loop i <> base.
Hypothesis Hip : len ipPort <= 51.
Hypothesis Hready : ready new_loop n (newServer ipPort name base) = Ok s0.

Lemma begin_inv : served_inv user (mkServed s0 ∅ start) /\ nextConnId_ s0 = 1.
Proof.
  destruct (ready_inv new_loop n ipPort name base Hn Hloops Hip) as (s1 & E & Hs & Hid & _). rewrite Hready in E. injection E as <-.
  assert (conns s0 = ∅) as Hc.
  { apply map_eq. intros c. rewrite lookup_empty. destruct (conns s0 !! c) as [x|] eqn:Ex; [|done].
    pose proof (co_id _ _ _ (si_conns _ Hs c x Ex)). lia. }
  split; [|done]. split; [done|done|]. exists (fun _ => 0), (fun _ => 0).
  split; [intros c x Hx|intros c1 c2 x1 x2 _ Hx]; cbn [server] in Hx; by rewrite Hc in Hx.
Qed.

(** C12: A server and its connections, all loops interleaved, never fault: whatever the
    peers, the kernel, other threads and the callbacks do, no assert of the server, of a
    connection, of its channel or of the poller of its loop fails, and no connection is
    used that is not there.  What [served_enabled] asks for is what [TcpConn.enabled]
    asks of each connection: no startRead or stopRead, urgent data with a hang-up only
    together with POLLIN, and a [shutdown] or [forceClose] of another thread that has
    seen the connection up sets the state before the connection closes; and there are
    fewer than 2^31 - 1 steps, since the numbers of connections are [int]s. *)
Theorem served_never_faults k y i :
  served_reach write user (mkServed s0 ∅ start) k y -> Z.of_nat k < 2 ^ 31 - 1 -> served_enabled y i ->
  safe (served_exec write user y i) (fun _ => True).
Proof.
  intros Hr Hk He. destruct begin_inv as [Hb Hid].
  destruct (served_reach_inv write user Hwrite Huser _ k y Hb ltac:(cbn [server]; lia) Hr) as (Hy & Hnx & _).
  cbn [server] in Hnx. eapply safe_mono; [apply (served_exec_inv write user Hwrite Huser y i Hy ltac:(lia) He)|done].
Qed.

(** What the server's state of a connection says it has been through. *)
Definition life_of (st : cstate) : list event :=
  match st with
  | Connecting => []
  | Servers.Connected => [Connection true]
  | Disconnected => [Connection true; Connection false; TcpConn.Closed]
  | Servers.Destroyed => [Connection true; Connection false; TcpConn.Closed; TcpConn.Destroyed]
  end.

Lemma status_life st u ch fd (s : store * P) w : status st u ch fd s w -> life (trace w) = life_of st.
Proof.
  intros Hst. destruct st; cbn [status life_of] in *.
  - destruct Hst as (_ & _ & _ & -> & _). done.
  - by destruct Hst as (_ & _ & _ & ? & _).
  - destruct Hst as [(_ & _ & [(_ & _ & ?)|(Hg & _)]) Hoff]; [done|]. by destruct (off_not_gone _ _ _ _ Hoff).
  - destruct Hst as [(_ & _ & [(Hoff & _)|(_ & _ & ?)]) Hg]; [|done]. by destruct (off_not_gone _ _ _ _ Hoff).
Qed.

Lemma status_stream st u ch fd (s : store * P) w : status st u ch fd s w -> stream w [].
Proof.
  intros Hst. destruct st; cbn [status] in Hst;
    [destruct Hst as ((_ & _ & _ & ? & _) & _)|destruct Hst as ((_ & _ & _ & ? & _) & _)|destruct Hst as [((_ & _ & _ & ? & _) & _) _]..]; done.
Qed.

(** C7: The server sees of its connections what they are: with the connections, every
    run of it is a run of the server alone; a connection has been established,
    closed and destroyed exactly as its state says; unless a write has failed with
    EPIPE or ECONNRESET its output is, in order, what was handed to it; and while it
    is up its loop watches it for input, and for output exactly when some is pending.
    The run is one [served_enabled] allows: no startRead or stopRead, and no [shutdown] or
    [forceClose] of another thread that the close overtakes. *)
Theorem served_refines k y :
  served_reach write user (mkServed s0 ∅ start) k y -> Z.of_nat k < 2 ^ 31 - 1 ->
  (exists evs, len evs <= Z.of_nat k /\ res_fold Servers.exec s0 evs = Ok (server y)) /\
  (forall c x, conns (server y) !! c = Some x ->
     exists w, worlds y !! c = Some w /\ life (trace w) = life_of (c_state x) /\
       (WriteFault ∉ trace w -> submitted (trace w) = wrote (trace w) ++ content (outputBuffer_ (conn w))) /\
       (c_state x = Servers.Connected -> exists fd mask,
          watched (snd (loops y (c_loop x))) fd = Some (channel_ (conn w), mask) /\ has mask kReadEvent = true /\
          (has mask kWriteEvent = true <-> content (outputBuffer_ (conn w)) <> []))).
Proof.
  intros Hr Hk. destruct begin_inv as [Hb Hid].
  destruct (served_reach_inv write user Hwrite Huser _ k y Hb ltac:(cbn [server]; lia) Hr) as (Hy & _ & Hevs).
  split; [done|]. intros c x Hx. destruct (sv_links _ _ Hy) as (CH & FD & Hl & _).
  destruct (Hl c x Hx) as (w & Hw & _ & Hst). exists w.
  assert (trace (view y x w) = trace w /\ conn (view y x w) = conn w) as [Et Ec] by (unfold view; by destruct (gone x)).
  split_and!; [done|rewrite <- Et; by eapply status_life|..].
  - intros Hf. rewrite <- Et, <- Ec in *. destruct (status_stream _ _ _ _ _ _ Hst) as [_ Hs]. by rewrite (Hs Hf), app_nil_r.
  - intros Hup. rewrite Hup in Hst. pose proof (view_chans y x w (not_gone x ltac:(by rewrite Hup))) as Ech.
    destruct Hst as ((Hch & _) & _ & _ & _ & kk & _ & _ & _ & _ & _ & _ & Hwt & Hrd & Hwr & _).
    rewrite Ec in *. rewrite Ech in Hwt. exists (FD c), (events_ kk). rewrite Hch. split_and!; try done.
    unfold isWriting in Hwr. rewrite Hwr. destruct (content _) as [|b l]; [done|]. rewrite len_cons.
    rewrite (proj2 (Z.eqb_neq _ _)) by (pose proof (len_nonneg l); lia). done.
Qed.
End Theorems.

(** *** Witnesses *)

(** A connection of an echo server: accepted, established in its loop, sent a
    message, closed by the peer, and destroyed. *)
Definition demo_steps : list served_input :=
  [SAccept 100 7; STask 1; SConn 1 (IEvent POLLIN (deliver [x68; x69; x21])); SConn 1 (IApi Shutdown);
   SConn 1 (IEvent POLLIN (deliver [])); STask 0; STask 1].

Definition demo_served (k : nat) : served (P := PollPoller) :=
  from_res (mkServed demo_server0 ∅ (fun _ => demo_start))
    (res_fold (served_exec (fun _ => demo_write) (fun _ => echo)) (mkServed demo_server0 ∅ (fun _ => demo_start)) (take k demo_steps)).

Lemma demo_event k mask ev data :
  match theWorld 1 (demo_served k) with
  | Ok (x, w) => gone x = false /\ (exists c, theChannel w = Ok c /\ fd_ c = 7) /\ channel_ (conn w) = 100 /\
                 watched (snd (chans w)) 7 = Some (100, mask)
  | Fail _ => False
  end -> event_ok mask ev -> served_enabled (demo_served k) (SConn 1 (IEvent ev (deliver data))).
Proof.
  intros Hk Hev x w E. rewrite E in Hk. destruct Hk as (Hg & (c & Hc & Hfd) & Hch & Hw). split; [done|].
  exists c. split; [done|]. rewrite Hfd, Hch. exists mask. split_and!; [done..|apply deliver_ok].
Qed.

Lemma demo_served_reach k : (k <= 7)%nat -> served_reach (fun _ => demo_write) (fun _ => echo) (mkServed demo_server0 ∅ (fun _ => demo_start)) k (demo_served k).
Proof.
  assert (forall j i, (j < 7)%nat -> demo_steps !! j = Some i ->
    served_exec (fun _ => demo_write) (fun _ => echo) (demo_served j) i = Ok (demo_served (S j)) /\ served_enabled (demo_served j) i) as Hstep.
  { intros j i Hj Hi. destruct j as [|[|[|[|[|[|[|j]]]]]]]; [..|lia]; injection Hi as <-; (split; [vm_compute; reflexivity|]).
    - split; [lia|]. intros l p E. assert (l = 1) as -> by (vm_compute in E; by injection E). split; [apply demo_start_ok|].
      intros a c Hc. change (fst (loops (demo_served 0) 1)) with (∅ : store) in Hc. by rewrite lookup_empty in Hc.
    - done.
    - apply (demo_event _ 3); [vm_compute; eauto 10|by split].
    - by intros x w _.
    - apply (demo_event _ 7); [vm_compute; eauto 10|by split].
    - done.
    - done. }
  induction k as [|k IH]; intros Hk; [apply sr_start|].
  destruct (lookup_lt_is_Some_2 demo_steps k) as [i Hi]; [cbn; lia|]. destruct (Hstep k i) as [E He]; [lia|done|].
  eapply sr_step; [apply IH; lia|exact He|exact E].
Qed.

Lemma demo_pinv : forall l : Z, pinv (fst demo_start) (snd demo_start).
Proof. intros _. apply demo_start_ok. Qed.

Lemma served_never_faults_witness :
  safe (served_exec (fun _ => demo_write) (fun _ => echo) (demo_served 5) (STask 0)) (fun _ => True).
Proof.
  apply (served_never_faults (fun _ => demo_write) (fun _ => echo) (fun _ => demo_start) demo_loop 1 (bytes_of_string "1.2.3.4:80")
    (bytes_of_string "srv") 0 demo_server0 (fun _ => demo_write_ok) (fun _ => echo_ok) demo_pinv Z.le_0_1 demo_loop_ne
    ltac:(vm_compute; discriminate) demo_ready 5); [apply demo_served_reach; lia|reflexivity|done].
Defined.

Lemma served_refines_witness :
  exists x w, conns (server (demo_served 7)) !! 1 = Some x /\ c_state x = Servers.Destroyed /\ worlds (demo_served 7) !! 1 = Some w /\
    wrote (trace w) = [x68; x69] /\
    life (trace w) = [Connection true; Connection false; TcpConn.Closed; TcpConn.Destroyed].
Proof.
  assert (exists x, conns (server (demo_served 7)) !! 1 = Some x /\ c_state x = Servers.Destroyed) as (x & Hx & Hst)
    by (vm_compute; eauto).
  destruct (served_refines (fun _ => demo_write) (fun _ => echo) (fun _ => demo_start) demo_loop 1 (bytes_of_string "1.2.3.4:80")
    (bytes_of_string "srv") 0 demo_server0 (fun _ => demo_write_ok) (fun _ => echo_ok) demo_pinv Z.le_0_1 demo_loop_ne
    ltac:(vm_compute; discriminate) demo_ready 7 (demo_served 7) (demo_served_reach 7 ltac:(lia)) ltac:(reflexivity)) as [_ Hall].
  destruct (Hall 1 x Hx) as (w & Hw & Hl & _). exists x, w. split_and!; [done..| |by rewrite Hl, Hst].
  assert (wrote ∘ trace <$> worlds (demo_served 7) !! 1 = Some [x68; x69]) as E by (vm_compute; reflexivity).
  rewrite Hw in E. by injection E.
Defined.
