(* ===== verification/ServerEnds.v ===== *)
(** * The end of a server (src/src/muduo/net/TcpServer.cc, TcpConnection.cc)

    The destructor of a server calls [connectDestroyed] on every connection it still
    knows, in their loops.  Here it runs on the server with its connections of
    ServedConns, without I/O threads, when the calls run at once: connections that
    are up are reported down and taken from the poller; one that is shutting down is
    not disabled before it is removed, and the destructor aborts. *)

From S2P Require Import Prelude NetBuffer Channels Pollers Servers TcpConn ServedConns.

Section End_.
Context {P : Type} `{PollerOps P}.
Variables (write : Z -> nat -> list byte -> Z + Z) (user : Z -> Handlers).

(** [conn->getLoop()->runInLoop(...)] for one entry of the map. *)
Definition end_conn (base : Z) (y : served (P := P)) (e : list byte * Z) : res served :=
  let! x := theConn (snd e) (server y) in
  if c_loop x =? base then destroyed write user (snd e) y else Ok y.

Definition destroy_served (y : served (P := P)) : res served :=
  let! y := res_fold (end_conn (baseLoop_ (threadPool_ (server y)))) y (map_to_list (connections_ (server y))) in
  let! s := destroyServer (server y) in
  Ok (set_server s y).
End End_.

(** ** One connection *)

Section Proofs.
Context {P : Type} `{PollerSpec P}.
Context (write : Z -> nat -> list byte -> Z + Z) (user : Z -> Handlers).
Hypothesis Huser : forall c, user_ok (user c).

Abbreviation World := (TcpConn.World (P := P)).
Abbreviation served := (served (P := P)).
Implicit Types (y : served) (w : World) (x : Conn).

(** Ended by the server. *)
Definition ended (ch fd : Z) (s0 : store * P) w : Prop :=
  channel_ (conn w) = ch /\ disconnected (conn w) = true /\ chan_gone ch fd s0 (chans w) /\
  life (trace w) = [Connection true; Connection false; TcpConn.Destroyed].

Lemma connectDestroyed_up c ch fd s0 w :
  0 <= fd -> live (user c) ch fd s0 w -> connected (conn w) = true ->
  exists w', TcpConn.connectDestroyed (write c) (user c) w = Ok w' /\ ended ch fd s0 w'.
Proof.
  intros Hfd ((Hch & _) & _ & _ & Hlife & Hlive) Hup. unfold TcpConn.connectDestroyed. rewrite Hup. cbn [res_bind].
  unfold withChannel at 1. cbn [on_conn conn setState channel_ chans]. rewrite Hch.
  destruct (chan_live_disableAll _ _ _ Hfd _ _ Hlive) as (s1 & E1 & Hoff). rewrite E1. cbn [res_bind].
  unfold connectionCallback. cbn [on_chans on_conn conn].
  rewrite run_script_closed; [|apply (proj1 (Huser c))|done]. cbn [res_bind].
  unfold withChannel. cbn [log on_chans on_conn conn chans setState channel_]. rewrite Hch.
  destruct (chan_off_remove _ _ _ _ Hoff) as (s2 & -> & Hg). cbn [res_bind]. eexists. split; [done|].
  split_and!; cbn; try done. rewrite !life_snoc, Hlife. done.
Qed.

(** Shutting down: its channel is still enabled. *)
Lemma connectDestroyed_half c ch fd s0 w :
  live (user c) ch fd s0 w -> state_ (conn w) = kDisconnecting ->
  TcpConn.connectDestroyed (write c) (user c) w = Fail AssertFailed.
Proof.
  intros ((Hch & _) & _ & _ & _ & Hlive) Hst. unfold TcpConn.connectDestroyed, connected. rewrite Hst.
  rewrite bool_decide_false by done. cbn [res_bind]. unfold withChannel, channel_remove, deref. rewrite Hch.
  destruct Hlive as (k & Hk & _ & _ & Hm & _ & _ & _ & Hr & _). rewrite Hk. cbn [res_bind].
  pose proof (nonempty_mask k Hm Hr) as Hne. unfold isNoneEvent. by rewrite (proj2 (Z.eqb_neq _ _)).
Qed.

(** ** All connections *)

(** What is known of the connections that were not ended yet ([D] were). *)
Record ends_inv (CH FD : Z -> Z) (D : list Z) y : Prop := {
  en_links : forall c x, conns (server y) !! c = Some x -> gone x = false -> c ∉ D ->
    exists w, worlds y !! c = Some w /\ 0 <= FD c /\ status (c_state x) (user c) (CH c) (FD c) (loops y (c_loop x)) (on_chans (loops y (c_loop x)) w);
  en_distinct : distinct CH FD y;
  en_done : forall c x, conns (server y) !! c = Some x -> c ∈ D ->
    gone x = false /\ exists w, worlds y !! c = Some w /\ channel_ (conn w) = CH c /\ disconnected (conn w) = true /\
      life (trace w) = [Connection true; Connection false; TcpConn.Destroyed] /\
      fst (loops y (c_loop x)) !! CH c = None /\ registered (snd (loops y (c_loop x))) !! FD c = None /\
      watched (snd (loops y (c_loop x))) (FD c) = None;
}.

Lemma live_pending st u ch fd s0 w : st = Servers.Connected -> status st u ch fd s0 w -> without_life (pending w) = pending w.
Proof.
  intros -> (_ & _ & Hl & _). unfold without_life. induction (pending w) as [|t ts IH]; [done|].
  rewrite filter_cons. destruct t; cbn in Hl |- *; try done; f_equal; by apply IH.
Qed.

Lemma set_pending_same w : set_pending (pending w) w = w.
Proof. by destruct w. Qed.

Lemma end_one CH FD D y c x w :
  ends_inv CH FD D y -> conns (server y) !! c = Some x -> c_state x = Servers.Connected -> c ∉ D ->
  worlds y !! c = Some w -> connected (conn w) = true ->
  exists y', destroyed write user c y = Ok y' /\ ends_inv CH FD (c :: D) y' /\ server y' = server y /\
    (forall c', c' <> c -> worlds y' !! c' = worlds y !! c').
Proof.
  intros [Hl Hd Hdone] Hx Hst HD Hw Hup. assert (gone x = false) as Hg by (apply not_gone; by rewrite Hst).
  destruct (Hl c x Hx Hg HD) as (w0 & Hw0 & Hfd & Hs). rewrite Hw in Hw0. injection Hw0 as <-.
  unfold destroyed, theWorld. rewrite Hx, Hw. cbn [res_bind]. unfold view. rewrite Hg.
  rewrite (live_pending _ _ _ _ _ _ Hst Hs), set_pending_same. rewrite Hst in Hs. cbn [status] in Hs.
  destruct (connectDestroyed_up c _ _ _ _ Hfd Hs Hup) as (w' & -> & Hch & Hdis & Hgone & Hlife). cbn [res_bind]. rewrite Hch.
  destruct (gone_others _ _ _ _ Hgone) as [Ho Hp]. pose proof Hgone as (k & _ & _ & _ & Hreg & Hwat & _).
  set (s1 := (delete (CH c) (fst (chans w')), snd (chans w'))) in *.
  eexists. split; [done|]. split; [|split; [done|intros c' Hne; cbn; by rewrite lookup_insert_ne]].
  assert (forall l, loops (set_loop (c_loop x) s1 (set_world c w' y)) l = if l =? c_loop x then s1 else loops y l) as Hls by done.
  split; cbn [server set_loop set_world].
  - intros c2 x2 Hx2 Hg2 HD2. apply not_elem_of_cons in HD2 as [Hne HD2]. destruct (Hl c2 x2 Hx2 Hg2 HD2) as (w2 & Hw2 & Hfd2 & Hs2).
    exists w2. cbn [worlds set_loop set_world]. rewrite lookup_insert_ne by done. split; [done|]. split; [done|]. rewrite Hls.
    destruct (Z.eqb_spec (c_loop x2) (c_loop x)) as [Heq|]; [|done]. rewrite Heq in Hs2.
    destruct (Hd c2 c x2 x Hne Hx2 Hx Hg2 Hg Heq) as [Hc1 Hc2].
    eapply status_frame; [|exact Ho|exact Hp|exact Hc1|exact Hc2|exact Hs2].
    intros E. unfold gone in Hg2. by rewrite E in Hg2.
  - done.
  - intros c2 x2 Hx2 HD2. apply elem_of_cons in HD2 as [->|HD2].
    + rewrite Hx in Hx2. injection Hx2 as <-. split; [done|]. exists w'. cbn [worlds set_loop set_world].
      rewrite lookup_insert_eq, Hls, Z.eqb_refl. cbn [s1 fst snd]. rewrite lookup_delete_eq. by split_and!.
    + destruct (Hdone c2 x2 Hx2 HD2) as (Hg2 & w2 & Hw2 & R1 & R2 & R3 & R4 & R5 & R6). split; [done|]. exists w2.
      assert (c2 <> c) as Hne by (intros ->; done). cbn [worlds set_loop set_world]. rewrite lookup_insert_ne by done.
      rewrite Hls. destruct (Z.eqb_spec (c_loop x2) (c_loop x)) as [Heq|]; [|by split_and!]. rewrite Heq in *.
      destruct (Hd c2 c x2 x Hne Hx2 Hx Hg2 Hg Heq) as [Hc1 Hc2]. destruct Ho as [O1 O2].
      specialize (O1 _ Hc1). rewrite R4 in O1. destruct (O2 _ Hc2) as [-> ->]. split_and!; try done. by destruct (fst s1 !! CH c2).
Qed.

Definition up_entry base y (e : list byte * Z) : Prop :=
  exists x w, conns (server y) !! snd e = Some x /\ c_loop x = base /\ c_state x = Servers.Connected /\
    worlds y !! snd e = Some w /\ connected (conn w) = true.

Lemma end_all CH FD base l D y :
  ends_inv CH FD D y -> Forall (up_entry base y) l -> NoDup (snd <$> l) -> (forall e, e ∈ l -> snd e ∉ D) ->
  exists y' D', res_fold (end_conn write user base) y l = Ok y' /\ server y' = server y /\ ends_inv CH FD D' y' /\
    (forall e, e ∈ l -> snd e ∈ D') /\ (forall c, c ∈ D -> c ∈ D').
Proof.
  revert D y. induction l as [|e l IH]; intros D y Hi Hl Hnd HD; cbn [res_fold].
  { exists y, D. split_and!; try done. intros e He. by apply not_elem_of_nil in He. }
  apply Forall_cons in Hl as [(x & w & Hx & Hb & Hst & Hw & Hup) Hl]. rewrite fmap_cons in Hnd. apply NoDup_cons in Hnd as [Hn Hnd].
  unfold end_conn at 1, theConn. rewrite Hx. cbn [res_bind]. rewrite (proj2 (Z.eqb_eq _ _) Hb).
  destruct (end_one CH FD D y (snd e) x w Hi Hx Hst (HD e ltac:(left)) Hw Hup) as (y1 & -> & Hi1 & Hs1 & Hw1). cbn [res_bind].
  destruct (IH (snd e :: D) y1 Hi1) as (y' & D' & E & Hs' & Hi' & Hin & Hsub).
  - apply Forall_forall. intros e' He'. destruct (proj1 (Forall_forall _ _) Hl e' He') as (x' & w' & ? & ? & ? & Hw' & ?).
    exists x', w'. rewrite Hs1. split_and!; try done. rewrite Hw1; [done|]. intros Heq. apply Hn, list_elem_of_fmap. by exists e'.
  - done.
  - intros e' He'. apply not_elem_of_cons. split; [|apply HD; by right]. intros Heq. apply Hn, list_elem_of_fmap. by exists e'.
  - exists y', D'. split_and!; [done|congruence|done| |].
    + intros e' [->|He']%elem_of_cons; [apply Hsub; left|by apply Hin].
    + intros c Hc. apply Hsub. by right.
Qed.

(** One that is shutting down. *)
Lemma end_half CH FD base l D y e x w :
  ends_inv CH FD D y -> Forall (fun e => exists x w, conns (server y) !! snd e = Some x /\ c_loop x = base /\
    c_state x = Servers.Connected /\ worlds y !! snd e = Some w) l ->
  NoDup (snd <$> l) -> (forall e, e ∈ l -> snd e ∉ D) -> e ∈ l -> conns (server y) !! snd e = Some x ->
  worlds y !! snd e = Some w -> state_ (conn w) = kDisconnecting ->
  res_fold (end_conn write user base) y l = Fail AssertFailed.
Proof.
  revert D y. induction l as [|e0 l IH]; intros D y Hi Hl Hnd HD He Hx Hw Hst; [by apply not_elem_of_nil in He|]. cbn [res_fold].
  apply Forall_cons in Hl as [(x0 & w0 & Hx0 & Hb0 & Hst0 & Hw0) Hl]. rewrite fmap_cons in Hnd. apply NoDup_cons in Hnd as [Hn Hnd].
  assert (gone x0 = false) as Hg0 by (apply not_gone; by rewrite Hst0).
  destruct (en_links _ _ _ _ Hi (snd e0) x0 Hx0 Hg0 (HD e0 ltac:(left))) as (w1 & Hw1 & Hfd & Hs). rewrite Hw0 in Hw1. injection Hw1 as <-.
  unfold end_conn at 1, theConn. rewrite Hx0. cbn [res_bind]. rewrite (proj2 (Z.eqb_eq _ _) Hb0).
  assert (isLive (state_ (conn w0))) as Hlive by (rewrite Hst0 in Hs; by destruct Hs as (_ & ? & _)).
  destruct Hlive as [Hup|Hhalf].
  - destruct (end_one CH FD D y (snd e0) x0 w0 Hi Hx0 Hst0 (HD e0 ltac:(left)) Hw0) as (y1 & -> & Hi1 & Hs1 & Hws1).
    { unfold connected. by rewrite Hup. }
    cbn [res_bind]. assert (forall e', e' ∈ l -> snd e' <> snd e0) as Hne.
    { intros e' He' Heq. apply Hn, list_elem_of_fmap. by exists e'. }
    assert (e ∈ l) as He'. { apply elem_of_cons in He as [->|He]; [|done]. rewrite Hw0 in Hw. injection Hw as <-. congruence. }
    apply (IH (snd e0 :: D) y1); try done.
    + apply Forall_forall. intros e' Hin. destruct (proj1 (Forall_forall _ _) Hl e' Hin) as (x' & w' & ? & ? & ? & ?).
      exists x', w'. rewrite Hs1, Hws1 by (by apply Hne). done.
    + intros e' Hin. apply not_elem_of_cons. split; [by apply Hne|apply HD; by right].
    + by rewrite Hs1.
    + by rewrite Hws1 by (by apply Hne).
  - unfold destroyed, theWorld. rewrite Hx0, Hw0. cbn [res_bind]. unfold view. rewrite Hg0.
    rewrite (live_pending _ _ _ _ _ _ Hst0 Hs), set_pending_same. rewrite Hst0 in Hs. cbn [status] in Hs.
    by rewrite (connectDestroyed_half (snd e0) _ _ _ _ Hs Hhalf).
Qed.
End Proofs.

(** ** The server's side *)

Lemma exec_loops s i s' : Servers.exec s i = Ok s' ->
  loops_ (threadPool_ s') = loops_ (threadPool_ s) /\ baseLoop_ (threadPool_ s') = baseLoop_ (threadPool_ s).
Proof.
  assert (forall c s s', removeConnectionInLoop c s = Ok s' -> threadPool_ s' = threadPool_ s) as Hrm.
  { clear. intros c s s' E. unfold removeConnectionInLoop in E. destruct (server_alive s); [|done].
    apply res_bind_Ok in E as (x & _ & E). apply res_bind_Ok in E as (u & _ & [= <-]). done. }
  assert (forall c s s', Servers.connectEstablished c s = Ok s' -> threadPool_ s' = threadPool_ s) as Hest.
  { clear. intros c s s' E. apply res_bind_Ok in E as (x & _ & E). apply res_bind_Ok in E as (u & _ & [= <-]). done. }
  destruct i as [|l|c]; cbn [Servers.exec]; intros E.
  - unfold newConnection in E. apply res_bind_Ok in E as ([l p] & Eg & E).
    assert (loops_ p = loops_ (threadPool_ s) /\ baseLoop_ p = baseLoop_ (threadPool_ s)) as Hp.
    { unfold getNextLoop in Eg. apply res_bind_Ok in Eg as (u & _ & Eg).
      destruct (loops_ (threadPool_ s)) as [|l0 ls] eqn:El; [injection Eg as _ <-; by rewrite El|].
      destruct (_ !! _); [|done]. by injection Eg as _ <-. }
    destruct (_ =? _); [apply Hest in E; by rewrite E|by injection E as <-].
  - destruct (queues s l) as [|t q]; [by injection E as <-|]. destruct t as [c|c|c]; cbn [Servers.run_task] in E.
    + apply Hest in E. by rewrite E.
    + apply res_bind_Ok in E as (x & _ & E). apply res_bind_Ok in E as (u & _ & [= <-]). done.
    + apply Hrm in E. by rewrite E.
  - destruct (conns s !! c) as [x|]; [|by injection E as <-]. destruct (bool_decide _); [|by injection E as <-].
    unfold conn_handleClose in E. apply res_bind_Ok in E as (x' & _ & E). apply res_bind_Ok in E as (u & _ & E).
    unfold removeConnection in E. destruct (server_alive _); [|done].
    destruct (_ =? _); [apply Hrm in E; by rewrite E|by injection E as <-].
Qed.

(** Without I/O threads the map holds exactly the connections that are up. *)
Lemma single_loop_map s : server_inv s -> loops_ (threadPool_ s) = [] ->
  (forall n c, connections_ s !! n = Some c ->
     exists x, conns s !! c = Some x /\ c_name x = n /\ c_loop x = baseLoop_ (threadPool_ s) /\ c_state x = Servers.Connected) /\
  (forall c x, conns s !! c = Some x -> c_state x = Servers.Connected -> connections_ s !! c_name x = Some c).
Proof.
  intros Hs Hl. split.
  - intros n c Hc. destruct (si_map _ Hs n c Hc) as (x & Hx & Hn). exists x. pose proof (si_conns _ Hs c x Hx) as Hok.
    assert (c_loop x = baseLoop_ (threadPool_ s)) as Hb by (rewrite (co_loop _ _ _ Hok); unfold turn; by rewrite Hl).
    assert (known c x s = true) as Hk by (unfold known; rewrite Hn; by rewrite bool_decide_true).
    split_and!; try done. destruct (c_state x) eqn:Hst; [|done|..].
    + by destruct (co_base _ _ _ Hok Hst).
    + by destruct (co_closed _ _ _ Hok Hst Hk).
    + pose proof (co_known _ _ _ Hok) as Hd. rewrite Hst in Hd. congruence.
  - intros c x Hx Hst. pose proof (co_known _ _ _ (si_conns _ Hs c x Hx)) as Hk. rewrite Hst in Hk.
    unfold known in Hk. by apply bool_decide_eq_true in Hk.
Qed.

(** The entries of the map. *)
Lemma entries s : server_inv s -> loops_ (threadPool_ s) = [] ->
  NoDup (snd <$> map_to_list (connections_ s)) /\
  forall c, c ∈ snd <$> map_to_list (connections_ s) <->
    exists x, conns s !! c = Some x /\ c_state x = Servers.Connected.
Proof.
  intros Hs Hl. destruct (single_loop_map s Hs Hl) as [Hmap Hups]. split.
  - apply NoDup_fmap_2_strong; [|apply NoDup_map_to_list].
    intros [n1 c1] [n2 c2] He1%elem_of_map_to_list He2%elem_of_map_to_list; cbn. intros <-. f_equal.
    destruct (Hmap _ _ He1) as (x1 & Hx1 & <- & _), (Hmap _ _ He2) as (x2 & Hx2 & <- & _). congruence.
  - intros c. rewrite list_elem_of_fmap. split.
    + intros ([n c'] & -> & He%elem_of_map_to_list). destruct (Hmap _ _ He) as (x & ? & _ & _ & ?). eauto.
    + intros (x & Hx & Hst). exists (c_name x, c). split; [done|]. apply elem_of_map_to_list. by apply Hups.
Qed.

Lemma destroyServer_single s : server_inv s -> loops_ (threadPool_ s) = [] ->
  exists s', destroyServer s = Ok s' /\ server_alive s' = false /\ connections_ s' = ∅ /\
    forall c x, conns s !! c = Some x -> c_state x = Servers.Connected -> conns s' !! c = Some (at_state Servers.Destroyed x).
Proof.
  intros Hs Hl. destruct (single_loop_map s Hs Hl) as [Hmap Hups]. unfold destroyServer.
  assert (forall l s1, threadPool_ s1 = threadPool_ s -> NoDup (snd <$> l) ->
    (forall e, e ∈ l -> exists x, conns s1 !! snd e = Some x /\ c_loop x = baseLoop_ (threadPool_ s) /\ c_state x = Servers.Connected) ->
    exists s2, res_fold (fun s (e : list byte * Z) => let! x := theConn (snd e) s in
        if c_loop x =? baseLoop_ (threadPool_ s1) then Servers.connectDestroyed (snd e) s
        else Ok (queueInLoop (c_loop x) (ConnectDestroyed (snd e)) s)) s1 l = Ok s2 /\
      (forall c x, conns s1 !! c = Some x -> c ∈ snd <$> l -> conns s2 !! c = Some (at_state Servers.Destroyed x)) /\
      (forall c, c ∉ snd <$> l -> conns s2 !! c = conns s1 !! c)) as Hfold.
  { induction l as [|e l IH]; intros s1 Hp Hnd Hin; cbn [res_fold].
    - exists s1. split_and!; try done. intros c x _ Hc. by apply not_elem_of_nil in Hc.
    - rewrite fmap_cons in Hnd. apply NoDup_cons in Hnd as [Hn Hnd]. destruct (Hin e ltac:(left)) as (x & Hx & Hb & Hst).
      unfold theConn at 1. rewrite Hx. cbn [res_bind]. rewrite Hp, (proj2 (Z.eqb_eq _ _) Hb).
      unfold Servers.connectDestroyed at 1, theConn. rewrite Hx. cbn [res_bind]. rewrite Hst. cbn [cassert res_bind].
      destruct (IH (set_state (snd e) Servers.Destroyed x s1) Hp Hnd) as (s2 & E & H1 & H2).
      { intros e' He'. destruct (Hin e' ltac:(by right)) as (x' & ? & ? & ?). exists x'. cbn [set_state set_conns conns].
        rewrite lookup_insert_ne; [done|]. intros Heq. apply Hn, list_elem_of_fmap. by exists e'. }
      cbn [set_state set_conns conns threadPool_] in *. rewrite Hp in E.
      exists s2. split_and!; [done| |].
      + intros c x' Hx'. rewrite fmap_cons. intros [->|Hc]%elem_of_cons.
        * rewrite Hx in Hx'. injection Hx' as <-. rewrite H2 by done. by rewrite lookup_insert_eq.
        * apply H1; [|done]. rewrite lookup_insert_ne; [done|]. by intros <-.
      + intros c. rewrite fmap_cons. intros [Hne Hc]%not_elem_of_cons. by rewrite H2, lookup_insert_ne. }
  destruct (Hfold (map_to_list (connections_ s)) s eq_refl) as (s2 & E & H1 & H2).
  - apply (entries s Hs Hl).
  - intros [n c] He%elem_of_map_to_list. destruct (Hmap _ _ He) as (x & ? & _ & ? & ?). eauto.
  - cbn zeta. rewrite E. cbn [res_bind]. eexists. split_and!; try done. cbn [conns]. intros c x Hx Hst. apply H1; [done|].
    apply list_elem_of_fmap. exists (c_name x, c). split; [done|]. apply elem_of_map_to_list. by apply Hups.
Qed.

(** ** Theorems *)

Section Theorems.
Context {P : Type} `{PollerSpec P}.
Context (write : Z -> nat -> list byte -> Z + Z) (user : Z -> Handlers) (start : Z -> store * P).
Context (new_loop : nat -> Z) (ipPort name : list byte) (base : Z) (s0 : TcpServer).
Hypothesis Hwrite : forall c, write_ok (write c).
Hypothesis Huser : forall c, user_ok (user c).
Hypothesis Hstart : forall l, pinv (fst (start l)) (snd (start l)).
Hypothesis Hloops : forall i, new_loop i <> base.
Hypothesis Hip : len ipPort <= 51.
Hypothesis Hready : ready new_loop 0 (newServer ipPort name base) = Ok s0.

Lemma single_loop k y :
  served_reach write user (mkServed s0 ∅ start) k y -> Z.of_nat k < 2 ^ 31 - 1 ->
  served_inv user y /\ loops_ (threadPool_ (server y)) = [].
Proof.
  intros Hr Hk. destruct (begin_inv user start new_loop 0 ipPort name base s0 Hstart (Z.le_refl 0) Hloops Hip Hready) as [Hb Hid].
  destruct (served_reach_inv write user Hwrite Huser _ k y Hb ltac:(cbn [server]; lia) Hr) as (Hy & _ & evs & _ & Hrun). split; [done|].
  destruct (ready_inv new_loop 0 ipPort name base (Z.le_refl 0) Hloops Hip) as (s1 & E & _ & _ & _ & Hl).
  rewrite Hready in E. injection E as <-. cbn in Hl. cbn [server] in Hrun.
  eapply (res_fold_inv (fun s => loops_ (threadPool_ s) = []) Servers.exec); [|exact Hl|exact Hrun].
  intros s a s' Hs Es. destruct (exec_loops s a s' Es) as [-> _]. done.
Qed.

(** C15: The destructor of a server without I/O threads: if no connection is shutting
    down, every connection that is up is reported down once, taken from the poller,
    and left disconnected, and no assert fails; if one is shutting down, the
    destructor fails an assert in [Channel::remove]. *)
Theorem server_destructor k y :
  served_reach write user (mkServed s0 ∅ start) k y -> Z.of_nat k < 2 ^ 31 - 1 ->
  let up c x w := conns (server y) !! c = Some x /\ c_state x = Servers.Connected /\ worlds y !! c = Some w in
  ((forall c x w, up c x w -> state_ (conn w) = kConnected) ->
   exists y', destroy_served write user y = Ok y' /\ server_alive (server y') = false /\ connections_ (server y') = ∅ /\
     forall c x w, up c x w -> exists w' fd, worlds y' !! c = Some w' /\ disconnected (conn w') = true /\
       life (trace w') = [Connection true; Connection false; TcpConn.Destroyed] /\
       registered (snd (loops y (c_loop x))) !! fd = Some (channel_ (conn w)) /\
       registered (snd (loops y' (c_loop x))) !! fd = None /\ fst (loops y' (c_loop x)) !! channel_ (conn w) = None) /\
  (forall c x w, up c x w -> state_ (conn w) = kDisconnecting -> destroy_served write user y = Fail AssertFailed).
Proof.
  intros Hr Hk up. destruct (single_loop k y Hr Hk) as [Hy Hl]. pose proof (sv_server _ _ Hy) as Hs.
  destruct (sv_links _ _ Hy) as (CH & FD & Hlk & Hd). destruct (entries _ Hs Hl) as [Hnd Hent].
  destruct (single_loop_map _ Hs Hl) as [Hmap _].
  assert (ends_inv user CH FD [] y) as Hi.
  { split; [|done|by intros c x _ ?%not_elem_of_nil]. intros c x Hx Hg _. destruct (Hlk c x Hx) as (w & Hw & Hfd & Hst).
    exists w. unfold view in Hst. rewrite Hg in Hst. by split_and!. }
  assert (forall e, e ∈ map_to_list (connections_ (server y)) -> exists x w, conns (server y) !! snd e = Some x /\
    c_loop x = baseLoop_ (threadPool_ (server y)) /\ c_state x = Servers.Connected /\ worlds y !! snd e = Some w) as Hall.
  { intros [n c] He%elem_of_map_to_list. destruct (Hmap _ _ He) as (x & Hx & _ & ? & ?). destruct (Hlk c x Hx) as (w & ? & _). eauto 10. }
  split.
  - intros Hconn. destruct (end_all write user Huser CH FD (baseLoop_ (threadPool_ (server y))) (map_to_list (connections_ (server y))) [] y Hi)
      as (y1 & D & E & Hs1 & Hi1 & Hin & _).
    { apply Forall_forall. intros e He. destruct (Hall e He) as (x & w & Hx & Hb & Hst & Hw). exists x, w. split_and!; try done.
      unfold connected. rewrite (Hconn (snd e) x w); [done|by split_and!]. }
    { done. }
    { intros e _. apply not_elem_of_nil. }
    destruct (destroyServer_single _ Hs Hl) as (s' & Es & Ha & Hc & _).
    unfold destroy_served. rewrite E. cbn [res_bind]. rewrite Hs1, Es. cbn [res_bind]. eexists. split; [done|]. split_and!; [done..|].
    intros c x w (Hx & Hst & Hw). assert (c ∈ D) as HD.
    { assert (c ∈ snd <$> map_to_list (connections_ (server y))) as Hc' by (apply Hent; eauto).
      apply list_elem_of_fmap in Hc' as (e & -> & He). by apply Hin. }
    rewrite <- Hs1 in Hx. destruct (en_done _ _ _ _ _ Hi1 c x Hx HD) as (Hg & w' & Hw' & R1 & R2 & R3 & R4 & R5 & _).
    rewrite Hs1 in Hx. destruct (Hlk c x Hx) as (w0 & Hw0 & _ & Hst0). rewrite Hw in Hw0. injection Hw0 as <-.
    unfold view in Hst0. rewrite Hg, Hst in Hst0. destruct Hst0 as ((Hch & _) & _ & _ & _ & kk & _ & _ & _ & _ & _ & Hreg & _).
    cbn [conn on_chans chans] in *. exists w', (FD c). rewrite Hch. by split_and!.
  - intros c x w (Hx & Hst & Hw) Hhalf. unfold destroy_served.
    assert (c ∈ snd <$> map_to_list (connections_ (server y))) as Hc by (apply Hent; eauto).
    apply list_elem_of_fmap in Hc as (e & -> & He).
    by rewrite (end_half write user Huser CH FD _ _ [] y e x w Hi (proj2 (Forall_forall _ _) Hall) Hnd (fun e _ => not_elem_of_nil (snd e)) He Hx Hw Hhalf).
Qed.
End Theorems.

(** *** Witnesses *)

(** An echo server without I/O threads, with one connection: up, then shut down. *)
Definition ends_server0 : TcpServer :=
  from_res (newServer [] [] 0) (ready demo_loop 0 (newServer (bytes_of_string "1.2.3.4:80") (bytes_of_string "srv") 0)).

Definition ends_begin : served (P := PollPoller) := mkServed ends_server0 ∅ (fun _ => demo_start).
Definition ends_step (y : served (P := PollPoller)) (i : served_input) : served :=
  from_res y (served_exec (fun _ => demo_write) (fun _ => echo) y i).
Definition ends_up : served := ends_step ends_begin (SAccept 100 7).
Definition ends_half : served := ends_step ends_up (SConn 1 (IApi Shutdown)).

Lemma ends_up_reach : served_reach (fun _ => demo_write) (fun _ => echo) ends_begin 1 ends_up.
Proof.
  apply (sr_step _ _ _ 0 ends_begin (SAccept 100 7)); [constructor| |vm_compute; reflexivity].
  split; [lia|]. intros l p E. vm_compute in E. injection E as <- _. split; [apply demo_start_ok|].
  intros a c Hc. change (fst (loops ends_begin 0)) with (∅ : store) in Hc. by rewrite lookup_empty in Hc.
Qed.

Lemma ends_half_reach : served_reach (fun _ => demo_write) (fun _ => echo) ends_begin 2 ends_half.
Proof. apply (sr_step _ _ _ 1 ends_up (SConn 1 (IApi Shutdown))); [exact ends_up_reach|by intros x w _|vm_compute; reflexivity]. Qed.

Lemma server_destructor_witness :
  (exists y' w, destroy_served (fun _ => demo_write) (fun _ => echo) ends_up = Ok y' /\ worlds y' !! 1 = Some w /\
    life (trace w) = [Connection true; Connection false; TcpConn.Destroyed]) /\
  destroy_served (fun _ => demo_write) (fun _ => echo) ends_half = Fail AssertFailed.
Proof.
  pose proof (server_destructor (fun _ => demo_write) (fun _ => echo) (fun _ => demo_start) demo_loop (bytes_of_string "1.2.3.4:80")
    (bytes_of_string "srv") 0 ends_server0 (fun _ => demo_write_ok) (fun _ => echo_ok) demo_pinv demo_loop_ne
    ltac:(vm_compute; discriminate) ltac:(vm_compute; reflexivity)) as H.
  split.
  - destruct (H 1%nat ends_up ends_up_reach ltac:(reflexivity)) as [Hup _]. cbn zeta in Hup. destruct Hup as (y' & E & _ & _ & Hall).
    { intros c x w (_ & _ & Hw). assert (state_ ∘ conn <$> worlds ends_up = {[1 := kConnected]}) as Hf by (vm_compute; reflexivity).
      assert ((state_ ∘ conn <$> worlds ends_up) !! c = Some (state_ (conn w))) as Hc by (rewrite lookup_fmap, Hw; reflexivity).
      rewrite Hf in Hc. by apply lookup_singleton_Some in Hc as [_ <-]. }
    assert (exists x w, Servers.conns (server ends_up) !! 1 = Some x /\ c_state x = Servers.Connected /\ worlds ends_up !! 1 = Some w)
      as (x & w & Hx & Hst & Hw) by (vm_compute; eauto).
    destruct (Hall 1 x w (conj Hx (conj Hst Hw))) as (w' & fd & Hw' & _ & Hl & _). exists y', w'. exact (conj E (conj Hw' Hl)).
  - destruct (H 2%nat ends_half ends_half_reach ltac:(reflexivity)) as [_ Hh]. cbn zeta in Hh.
    assert (exists x w, Servers.conns (server ends_half) !! 1 = Some x /\ c_state x = Servers.Connected /\ worlds ends_half !! 1 = Some w /\
      state_ (conn w) = kDisconnecting) as (x & w & Hx & Hst & Hw & Hs) by (vm_compute; eauto 10).
    exact (Hh 1 x w (conj Hx (conj Hst Hw)) Hs).
Defined.
