(* ===== verification/Clients.v ===== *)
(** * Connecting (src/src/muduo/net/Connector.h, Connector.cc, TcpClient.cc)

    The connector, which makes a socket, waits for it to connect, and tries again
    after growing delays; and the client that owns it and one connection at a
    time.  The results of socket(2), connect(2) and SO_ERROR are parameters and
    inputs; functors wait in the loop's queue and retries in its timers. *)

From S2P Require Import Prelude Formats Servers.

Inductive States := kDisconnected | kConnecting | kConnected.

#[export] Instance States_eq_dec : EqDecision States.
Proof. solve_decision. Defined.

Definition kMaxRetryDelayMs : Z := 30 * 1000.
Definition kInitRetryDelayMs : Z := 500.

(** errno values of Linux. *)
Definition EISCONN : Z := 106.
Definition EINPROGRESS : Z := 115.
Definition EADDRINUSE : Z := 98.
Definition EADDRNOTAVAIL : Z := 99.
Definition ECONNREFUSED : Z := 111.
Definition ENETUNREACH : Z := 101.

(** The functors in the loop's queue; the last is the one [~TcpClient] queues. *)
Inductive ctask := StartInLoop | StopInLoop | ResetChannel | SetCloseCallback.

#[export] Instance ctask_eq_dec : EqDecision ctask.
Proof. solve_decision. Defined.

(** [channel_] holds its descriptor and whether the poller watches it. *)
Record Connector := mkConnector {
  connect_ : bool;
  state_ : States;
  channel_ : option (Z * bool);
  retryDelayMs_ : Z;
  queue : list ctask;
  timers : list Z;               (** the delays of the retries still to come *)
  attempts : nat;                (** calls of [connect()] so far *)
  fdlog : list fd_event;
}.

Definition newConnector : Connector := mkConnector false kDisconnected None kInitRetryDelayMs [] [] 0 [].

Definition set_connect (b : bool) (c : Connector) : Connector :=
  mkConnector b (state_ c) (channel_ c) (retryDelayMs_ c) (queue c) (timers c) (attempts c) (fdlog c).
Definition setState (s : States) (c : Connector) : Connector :=
  mkConnector (connect_ c) s (channel_ c) (retryDelayMs_ c) (queue c) (timers c) (attempts c) (fdlog c).
Definition set_channel (ch : option (Z * bool)) (c : Connector) : Connector :=
  mkConnector (connect_ c) (state_ c) ch (retryDelayMs_ c) (queue c) (timers c) (attempts c) (fdlog c).
Definition set_delay (d : Z) (c : Connector) : Connector :=
  mkConnector (connect_ c) (state_ c) (channel_ c) d (queue c) (timers c) (attempts c) (fdlog c).
Definition set_tasks (q : list ctask) (ts : list Z) (c : Connector) : Connector :=
  mkConnector (connect_ c) (state_ c) (channel_ c) (retryDelayMs_ c) q ts (attempts c) (fdlog c).
Definition queueTask (t : ctask) (c : Connector) : Connector := set_tasks (queue c ++ [t]) (timers c) c.
Definition attempt (c : Connector) : Connector :=
  mkConnector (connect_ c) (state_ c) (channel_ c) (retryDelayMs_ c) (queue c) (timers c)
    (S (attempts c)) (fdlog c).
Definition logfd (e : fd_event) (c : Connector) : Connector :=
  mkConnector (connect_ c) (state_ c) (channel_ c) (retryDelayMs_ c) (queue c) (timers c) (attempts c)
    (fdlog c ++ [e]).

Section Connector.
(** The descriptor the k-th socket(2) returns, negative when it fails, and the
    errno of the k-th connect(2), 0 when it succeeds. *)
Variable socket : nat -> Z.
Variable connect_errno : nat -> Z.

Definition retry (sockfd : Z) (c : Connector) : Connector :=
  let c := setState kDisconnected (logfd (Closed sockfd) c) in
  if connect_ c then
    let c := set_tasks (queue c) (timers c ++ [retryDelayMs_ c]) c in
    set_delay (Z.min (retryDelayMs_ c * 2) kMaxRetryDelayMs) c
  else c.

Definition connecting (sockfd : Z) (c : Connector) : res Connector :=
  let c := setState kConnecting c in
  assert! bool_decide (channel_ c = None) ;;
  Ok (set_channel (Some (sockfd, true)) c).

Definition connect (c : Connector) : res Connector :=
  let k := attempts c in
  let c := attempt c in
  let sockfd := socket k in
  if sockfd <? 0 then Fail Aborted
  else
    let c := logfd (Opened sockfd) c in
    let savedErrno := connect_errno k in
    if bool_decide (savedErrno ∈ [0; EINPROGRESS; EINTR; EISCONN]) then connecting sockfd c
    else if bool_decide (savedErrno ∈ [EAGAIN; EADDRINUSE; EADDRNOTAVAIL; ECONNREFUSED; ENETUNREACH])
    then Ok (retry sockfd c)
    else Ok (logfd (Closed sockfd) c).

Definition startInLoop (c : Connector) : res Connector :=
  assert! bool_decide (state_ c = kDisconnected) ;;
  if connect_ c then connect c else Ok c.

(** [start] in the loop thread or another one. *)
Definition start (inLoop : bool) (c : Connector) : res Connector :=
  let c := set_connect true c in
  if inLoop then startInLoop c else Ok (queueTask StartInLoop c).

(** [disableAll], [remove], and the channel is to be reset later. *)
Definition removeAndResetChannel (c : Connector) : res (Z * Connector) :=
  match channel_ c with
  | Some (fd, true) => Ok (fd, queueTask ResetChannel (set_channel (Some (fd, false)) c))
  | Some (fd, false) => Fail AssertFailed     (** [Channel::remove] of a removed channel *)
  | None => Fail OutOfRange
  end.

Definition resetChannel (c : Connector) : Connector := set_channel None c.

Definition stop (c : Connector) : Connector := queueTask StopInLoop (set_connect false c).

Definition stopInLoop (c : Connector) : res Connector :=
  if bool_decide (state_ c = kConnecting) then
    let! '(sockfd, c) := removeAndResetChannel (setState kDisconnected c) in
    Ok (retry sockfd c)
  else Ok c.

Definition restart (c : Connector) : res Connector :=
  startInLoop (set_connect true (set_delay kInitRetryDelayMs (setState kDisconnected c))).

(** [handleWrite]: SO_ERROR and whether the socket is connected to itself; the
    result also says whether the socket went to [newConnectionCallback_]. *)
Definition handleWrite (err : Z) (self : bool) (c : Connector) : res (Connector * option Z) :=
  if bool_decide (state_ c = kConnecting) then
    let! '(sockfd, c) := removeAndResetChannel c in
    if negb (err =? 0) then Ok (retry sockfd c, None)
    else if self then Ok (retry sockfd c, None)
    else
      let c := setState kConnected c in
      if connect_ c then Ok (logfd (Handed sockfd) c, Some sockfd)
      else Ok (logfd (Closed sockfd) c, None)
  else
    assert! bool_decide (state_ c = kDisconnected) ;; Ok (c, None).

Definition handleError (c : Connector) : res Connector :=
  if bool_decide (state_ c = kConnecting) then
    let! '(sockfd, c) := removeAndResetChannel c in Ok (retry sockfd c)
  else Ok c.

(** [Channel::handleEvent]: the error callback, then the write callback. *)
Definition handleEvent (error writable : bool) (err : Z) (self : bool) (c : Connector)
    : res (Connector * option Z) :=
  let! c := (if error then handleError c else Ok c) in
  if writable then handleWrite err self c else Ok (c, None).

Definition run_ctask (t : ctask) (c : Connector) : res Connector :=
  match t with
  | StartInLoop => startInLoop c
  | StopInLoop => stopInLoop c
  | ResetChannel => Ok (resetChannel c)
  | SetCloseCallback => Ok c
  end.

(** ** TcpClient *)

(** The text of the peer's address, [getPeerAddr(sockfd).toIpPort()]. *)
Variable peer : list byte.

(** A connection is its number and its name.  [detached] says that its close
    callback is [detail::removeConnection] and no longer the client's own; [shut]
    and [forced] list the connections that were told to shut down or close,
    [gone] those whose [connectDestroyed] is queued.  [released]: the connector
    was destroyed with the client. *)
Record TcpClient := mkClient {
  connector_ : Connector;
  client_name : list byte;
  retry_ : bool;
  client_connect_ : bool;
  nextConnId_ : Z;
  connection_ : option (Z * list byte);
  client_alive : bool;
  detached : bool;
  released : bool;
  shut : list Z;
  forced : list Z;
  gone : list Z;
}.

Definition newClient (nameArg : list byte) (retry : bool) : TcpClient :=
  mkClient newConnector nameArg retry true 1 None true false false [] [] [].

Definition with_connector (x : Connector) (c : TcpClient) : TcpClient :=
  mkClient x (client_name c) (retry_ c) (client_connect_ c) (nextConnId_ c) (connection_ c)
    (client_alive c) (detached c) (released c) (shut c) (forced c) (gone c).
Definition want (b : bool) (c : TcpClient) : TcpClient :=
  mkClient (connector_ c) (client_name c) (retry_ c) b (nextConnId_ c) (connection_ c)
    (client_alive c) (detached c) (released c) (shut c) (forced c) (gone c).
Definition mark (sh fo : list Z) (c : TcpClient) : TcpClient :=
  mkClient (connector_ c) (client_name c) (retry_ c) (client_connect_ c) (nextConnId_ c) (connection_ c)
    (client_alive c) (detached c) (released c) (shut c ++ sh) (forced c ++ fo) (gone c).
Definition drop_connection (id : Z) (c : TcpClient) : TcpClient :=
  mkClient (connector_ c) (client_name c) (retry_ c) (client_connect_ c) (nextConnId_ c) None
    (client_alive c) (detached c) (released c) (shut c) (forced c) (gone c ++ [id]).
Definition detach (c : TcpClient) : TcpClient :=
  mkClient (connector_ c) (client_name c) (retry_ c) (client_connect_ c) (nextConnId_ c) (connection_ c)
    (client_alive c) true (released c) (shut c) (forced c) (gone c).
Definition end_client (rel : bool) (c : TcpClient) : TcpClient :=
  mkClient (connector_ c) (client_name c) (retry_ c) (client_connect_ c) (nextConnId_ c) (connection_ c)
    false (detached c) rel (shut c) (forced c) (gone c).

Definition client_connect (inLoop : bool) (c : TcpClient) : res TcpClient :=
  let c := want true c in
  let! x := start inLoop (connector_ c) in Ok (with_connector x c).

Definition client_disconnect (c : TcpClient) : TcpClient :=
  let c := want false c in
  match connection_ c with Some (id, _) => mark [id] [] c | None => c end.

Definition client_stop (c : TcpClient) : TcpClient :=
  with_connector (stop (connector_ c)) (want false c).

Definition client_connName (c : TcpClient) : list byte :=
  client_name c ++ fst (snprintf 32 ([x3a] ++ peer ++ [x23] ++ format_d false 0 (nextConnId_ c))).

(** [newConnection], called by the connector. *)
Definition client_newConnection (c : TcpClient) : res TcpClient :=
  if client_alive c then
    Ok (mkClient (connector_ c) (client_name c) (retry_ c) (client_connect_ c) (nextConnId_ c + 1)
          (Some (nextConnId_ c, client_connName c)) true false (released c) (shut c) (forced c) (gone c))
  else Fail OutOfRange.

(** [removeConnection], the close callback of connection [id]. *)
Definition client_removeConnection (id : Z) (c : TcpClient) : res TcpClient :=
  if client_alive c then
    assert! bool_decide (fst <$> connection_ c = Some id) ;;
    let c := drop_connection id c in
    if retry_ c && client_connect_ c then
      let! x := restart (connector_ c) in Ok (with_connector x c)
    else Ok c
  else Fail OutOfRange.

(** [~TcpClient], in the loop thread or not, the client's reference to the
    connection the only one or not.  With a connection the connector goes with
    the client ([~Connector] asserts it has no channel); without one it is stopped
    and held for a second. *)
Definition destroyClient (inLoop unique : bool) (c : TcpClient) : res TcpClient :=
  match connection_ c with
  | Some (id, _) =>
      let c := if inLoop then detach c
               else with_connector (queueTask SetCloseCallback (connector_ c)) c in
      let c := if unique then mark [] [id] c else c in
      assert! bool_decide (channel_ (connector_ c) = None) ;;
      Ok (end_client true c)
  | None => Ok (end_client false (with_connector (stop (connector_ c)) c))
  end.

(** What can happen to a client. *)
Inductive cinput :=
| CConnect (inLoop : bool)
| CDisconnect
| CStop
| CDestroy (inLoop unique : bool)
| CTask                                                        (** the loop runs its next functor *)
| CTimer                                                       (** the next retry is due *)
| CEvent (error writable : bool) (err : Z) (self : bool)       (** an event on the socket *)
| CClose.                                                      (** the connection closes *)

(** A functor of a connector that was destroyed touches freed memory. *)
Definition client_task (t : ctask) (c : TcpClient) : res TcpClient :=
  match t with
  | SetCloseCallback => Ok (detach c)
  | _ =>
      if released c then Fail OutOfRange
      else let! x := run_ctask t (connector_ c) in Ok (with_connector x c)
  end.

Definition cexec (c : TcpClient) (i : cinput) : res TcpClient :=
  match i with
  | CConnect inLoop => client_connect inLoop c
  | CDisconnect => Ok (client_disconnect c)
  | CStop => Ok (client_stop c)
  | CDestroy inLoop unique => destroyClient inLoop unique c
  | CTask =>
      match queue (connector_ c) with
      | [] => Ok c
      | t :: q => client_task t (with_connector (set_tasks q (timers (connector_ c)) (connector_ c)) c)
      end
  | CTimer =>
      match timers (connector_ c) with
      | [] => Ok c
      | _ :: ts =>
          let! x := startInLoop (set_tasks (queue (connector_ c)) ts (connector_ c)) in
          Ok (with_connector x c)
      end
  | CEvent error writable err self =>
      match channel_ (connector_ c) with
      | Some (_, true) =>
          let! '(x, sock) := handleEvent error writable err self (connector_ c) in
          let c := with_connector x c in
          match sock with Some _ => client_newConnection c | None => Ok c end
      | _ => Ok c
      end
  | CClose =>
      match connection_ c with
      | Some (id, _) =>
          if detached c then Ok (drop_connection id c) else client_removeConnection id c
      | None => Ok c
      end
  end.
End Connector.

(** * Properties *)

(** ** The connector's invariant *)

Definition pending (t : ctask) (q : list ctask) : nat := length (filter (fun t' => t' = t) q).
Arguments pending : simpl never.

(** No reset is queued behind a start: a start that runs finds no channel. *)
Fixpoint ordered (q : list ctask) : Prop :=
  match q with
  | [] => True
  | StartInLoop :: q' => pending ResetChannel q' = 0%nat /\ ordered q'
  | _ :: q' => ordered q'
  end.

Definition starts (c : Connector) : nat := (pending StartInLoop (queue c) + length (timers c))%nat.

Definition delay_ok (d : Z) : Prop := kInitRetryDelayMs <= d <= kMaxRetryDelayMs.

(** Every socket was closed or handed on, but for the one being connected. *)
Definition sockets_balanced (c : Connector) : Prop := forall fd,
  count (Opened fd) (fdlog c) = count (Closed fd) (fdlog c) + count (Handed fd) (fdlog c)
    + one (bool_decide (channel_ c = Some (fd, true))).

Record connector_inv (c : Connector) : Prop := {
  inv_channel : match channel_ c with
                | Some (_, true) => state_ c = kConnecting /\ pending ResetChannel (queue c) = 0%nat
                | Some (_, false) => state_ c <> kConnecting /\ pending ResetChannel (queue c) = 1%nat
                | None => state_ c <> kConnecting /\ pending ResetChannel (queue c) = 0%nat
                end;
  inv_starts : (starts c <= 1)%nat;
  inv_idle : state_ c <> kDisconnected -> starts c = 0%nat;
  inv_order : ordered (queue c);
  inv_delay : delay_ok (retryDelayMs_ c);
  inv_timers : Forall delay_ok (timers c);
  inv_fds : sockets_balanced c;
}.

Lemma pending_app t q1 q2 : pending t (q1 ++ q2) = (pending t q1 + pending t q2)%nat.
Proof. unfold pending. by rewrite filter_app, length_app. Qed.

Lemma pending_cons t t' q : pending t (t' :: q) = ((if decide (t' = t) then 1 else 0) + pending t q)%nat.
Proof. unfold pending. rewrite filter_cons. by destruct (decide (t' = t)). Qed.

Lemma pending_snoc t t' q : pending t (q ++ [t']) = (pending t q + if decide (t' = t) then 1 else 0)%nat.
Proof. rewrite pending_app, pending_cons. f_equal. unfold pending. cbn. lia. Qed.

Lemma ordered_snoc t q :
  ordered q -> (t = ResetChannel -> pending StartInLoop q = 0%nat) -> ordered (q ++ [t]).
Proof.
  induction q as [|t' q IH]; intros Hq Ht.
  - by destruct t.
  - destruct t'; cbn in Hq |- *; rewrite pending_cons in Ht; cbn in Ht; try (apply IH; [done|intros; by apply Ht]).
    destruct Hq as [H1 H2]. split.
    + rewrite pending_app, H1. rewrite pending_cons. cbn.
      destruct (decide (t = ResetChannel)) as [E|]; [by specialize (Ht E)|done].
    + apply IH; [done|]. intros E. by specialize (Ht E).
Qed.

Lemma ordered_tail t q : ordered (t :: q) -> ordered q.
Proof. by destruct t; cbn; [intros [? ?]| | |]. Qed.

Lemma newConnector_inv : connector_inv newConnector.
Proof.
  split; try done; unfold starts, pending; cbn; lia.
Qed.

Lemma delay_next d : delay_ok d -> delay_ok (Z.min (d * 2) kMaxRetryDelayMs).
Proof. unfold delay_ok, kInitRetryDelayMs, kMaxRetryDelayMs. lia. Qed.

(** Queueing a functor that is not a reset, nor a start when one is pending. *)
Lemma queueTask_inv t c :
  connector_inv c -> t <> ResetChannel ->
  (t = StartInLoop -> state_ c = kDisconnected /\ starts c = 0%nat) ->
  connector_inv (queueTask t c).
Proof.
  intros [Hch Hst Hid Ho Hd Ht Hf] H1 H2.
  assert (pending ResetChannel (queue c ++ [t]) = pending ResetChannel (queue c)) as E.
  { rewrite pending_snoc. destruct (decide (t = ResetChannel)); [done|]. cbn. lia. }
  assert (t = StartInLoop \/ starts (queueTask t c) = starts c) as Es.
  { destruct (decide (t = StartInLoop)) as [->|Hn]; [by left|right].
    unfold starts, queueTask, set_tasks. cbn. rewrite pending_snoc.
    destruct (decide (t = StartInLoop)); [done|]. cbn. lia. }
  split; try done.
  - cbn [queueTask set_tasks channel_ queue state_]. by rewrite E.
  - destruct Es as [->|Es]; [|lia]. destruct (H2 eq_refl) as [_ H]. unfold starts in *.
    unfold queueTask, set_tasks. cbn [queue timers]. rewrite pending_snoc, decide_True by done. lia.
  - destruct Es as [->|Es]; [|by rewrite Es]. by destruct (H2 eq_refl).
  - by apply ordered_snoc.
Qed.

Lemma set_connect_inv b c : connector_inv c -> connector_inv (set_connect b c).
Proof. by intros []. Qed.

(** [removeAndResetChannel] and then [retry] or giving the socket away, from a
    socket that is connecting. *)
Lemma channel_connecting c :
  connector_inv c -> state_ c = kConnecting -> exists fd, channel_ c = Some (fd, true).
Proof.
  intros [Hch _ _ _ _ _ _] Hs. destruct (channel_ c) as [[fd []]|]; [by exists fd| |];
    destruct Hch; congruence.
Qed.

(** The socket leaves the connector. *)
Definition leaves (fd : Z) (e : fd_event) : Prop := e = Closed fd \/ e = Handed fd.

Lemma left_inv c fd e st ts d :
  connector_inv c -> channel_ c = Some (fd, true) -> leaves fd e -> st <> kConnecting ->
  (ts = timers c \/ st = kDisconnected /\ exists t, delay_ok t /\ ts = timers c ++ [t]) -> delay_ok d ->
  connector_inv (mkConnector (connect_ c) st (Some (fd, false)) d (queue c ++ [ResetChannel]) ts
                   (attempts c) (fdlog c ++ [e])).
Proof.
  intros [Hch Hst Hid Ho Hd Ht Hf] Hc He Hs Hts Hd'. rewrite Hc in Hch. destruct Hch as [Hk Hr].
  assert (starts c = 0%nat) as H0 by (apply Hid; congruence). unfold starts in H0.
  assert (pending StartInLoop (queue c ++ [ResetChannel]) = 0%nat) as Hp.
  { rewrite pending_snoc, decide_False by done. lia. }
  split; cbn [channel_ queue state_ timers retryDelayMs_]; try done.
  - split; [done|]. rewrite pending_snoc, Hr. cbn. done.
  - unfold starts. cbn [queue timers]. rewrite Hp.
    destruct Hts as [->|(_ & t & _ & ->)]; rewrite ?length_app; cbn; lia.
  - intros Hn. unfold starts. cbn [queue timers]. rewrite Hp.
    destruct Hts as [->|(? & _)]; [lia|done].
  - apply ordered_snoc; [done|]. intros _. lia.
  - destruct Hts as [->|(_ & t & Ht' & ->)]; [done|]. apply Forall_app. split; [done|by constructor].
  - intros fd'. specialize (Hf fd'). unfold sockets_balanced. cbn [fdlog channel_].
    rewrite !count_app, !count_cons, !count_nil. rewrite Hc in Hf.
    rewrite (bool_decide_false (Some (fd, false) = Some (fd', true))) by congruence.
    destruct He as [->| ->]; cbn [one];
      repeat (case_bool_decide; simplify_eq; cbn [one] in *; try lia).
Qed.

(** ** What each step of the connector keeps *)

Lemma pop_inv c t q :
  connector_inv c -> queue c = t :: q -> t <> ResetChannel ->
  connector_inv (set_tasks q (timers c) c) /\
  (t = StartInLoop -> state_ c = kDisconnected /\ channel_ c = None
     /\ starts (set_tasks q (timers c) c) = 0%nat).
Proof.
  intros [Hch Hst Hid Ho Hd Ht Hf] Hq Hn.
  assert (pending ResetChannel (queue c) = pending ResetChannel q) as Er.
  { rewrite Hq, pending_cons, decide_False by done. done. }
  assert (starts c = (starts (set_tasks q (timers c) c) + if decide (t = StartInLoop) then 1 else 0)%nat) as Es.
  { unfold starts. cbn [set_tasks queue timers]. rewrite Hq, pending_cons. lia. }
  rewrite Hq in Ho. split.
  - split; try done.
    + cbn [set_tasks channel_ state_ queue]. by rewrite <- Er.
    + lia.
    + intros H. specialize (Hid H). lia.
    + by apply ordered_tail in Ho.
  - intros ->. rewrite decide_True in Es by done.
    assert (state_ c = kDisconnected) as Hs.
    { destruct (decide (state_ c = kDisconnected)) as [|H]; [done|]. specialize (Hid H). lia. }
    split_and!; [done| |lia]. cbn in Ho. destruct Ho as [Ho _]. rewrite Er, Ho in Hch.
    destruct (channel_ c) as [[fd []]|]; [|by destruct Hch|done]. destruct Hch. congruence.
Qed.

Lemma reset_inv c q :
  connector_inv c -> queue c = ResetChannel :: q ->
  connector_inv (resetChannel (set_tasks q (timers c) c)).
Proof.
  intros [Hch Hst Hid Ho Hd Ht Hf] Hq.
  rewrite Hq, pending_cons, decide_True in Hch by done.
  assert (exists fd, channel_ c = Some (fd, false)) as [fd Hc].
  { destruct (channel_ c) as [[fd []]|]; [by destruct Hch| by exists fd|by destruct Hch]. }
  assert (starts (resetChannel (set_tasks q (timers c) c)) = starts c) as Es.
  { unfold starts. cbn [resetChannel set_channel set_tasks queue timers].
    rewrite Hq, pending_cons, decide_False by done. done. }
  rewrite Hc in Hch. rewrite Hq in Ho. split; try done.
  - cbn [resetChannel set_channel set_tasks channel_ state_ queue]. destruct Hch. split; [done|lia].
  - lia.
  - intros H. rewrite Es. by apply Hid.
  - intros fd'. specialize (Hf fd'). rewrite Hc in Hf.
    rewrite bool_decide_false in Hf by congruence.
    cbn [resetChannel set_channel set_tasks channel_ fdlog]. by rewrite bool_decide_false by done.
Qed.

Lemma timer_inv c d ts :
  connector_inv c -> timers c = d :: ts -> channel_ c = None ->
  connector_inv (set_tasks (queue c) ts c) /\ state_ c = kDisconnected
  /\ starts (set_tasks (queue c) ts c) = 0%nat.
Proof.
  intros [Hch Hst Hid Ho Hd Ht Hf] Hts Hc.
  assert (starts c = S (starts (set_tasks (queue c) ts c))) as Es.
  { unfold starts. cbn [set_tasks queue timers]. rewrite Hts. cbn. lia. }
  split_and!; [|destruct (decide (state_ c = kDisconnected)) as [|H]; [done|]; specialize (Hid H); lia|lia].
  split; try done; cbn [set_tasks timers].
  - lia.
  - intros H. specialize (Hid H). lia.
  - rewrite Hts in Ht. by apply Forall_cons in Ht as [_ ?].
Qed.

Section Steps.
Context (socket : nat -> Z) (connect_errno : nat -> Z).
Hypothesis socket_ok : forall k, 0 <= socket k.

Lemma startInLoop_inv c :
  connector_inv c -> state_ c = kDisconnected -> starts c = 0%nat -> channel_ c = None ->
  exists c', startInLoop socket connect_errno c = Ok c' /\ connector_inv c' /\ connect_ c' = connect_ c.
Proof.
  intros Hi Hs H0 Hc. pose proof Hi as [Hch Hst Hid Ho Hd Ht Hf]. rewrite Hc in Hch. destruct Hch as [_ Hr].
  unfold startInLoop. rewrite bool_decide_true by done. cbn [cassert res_bind].
  destruct (connect_ c) eqn:Ec; [|by exists c].
  unfold connect. pose proof (socket_ok (attempts c)) as Hk.
  destruct (Z.ltb_spec (socket (attempts c)) 0); [lia|].
  unfold starts in *. case_bool_decide.
  { unfold connecting. rewrite bool_decide_true by done. cbn [cassert res_bind].
    eexists. split; [reflexivity|]. split; [|done]. split; cbn; try done.
    intros fd. specialize (Hf fd). rewrite Hc in Hf. cbn in Hf |- *.
    rewrite !count_app, !count_cons, !count_nil.
    repeat (case_bool_decide; simplify_eq; cbn [one] in *; try lia). }
  assert (forall fd, count (Opened fd) ((fdlog c ++ [Opened (socket (attempts c))])
      ++ [Closed (socket (attempts c))]) =
    count (Closed fd) ((fdlog c ++ [Opened (socket (attempts c))]) ++ [Closed (socket (attempts c))])
    + count (Handed fd) ((fdlog c ++ [Opened (socket (attempts c))]) ++ [Closed (socket (attempts c))]) + 0) as Hf'.
  { intros fd. specialize (Hf fd). rewrite Hc in Hf. rewrite !count_app, !count_cons, !count_nil.
    repeat (case_bool_decide; simplify_eq; cbn [one] in *; try lia). }
  case_bool_decide.
  - unfold retry. cbn [connect_ setState logfd attempt]. rewrite Ec. eexists. split; [reflexivity|].
    split; [|done]. split; cbn; try done.
    + rewrite Hc. done.
    + unfold starts. cbn. rewrite length_app. cbn. lia.
    + by apply delay_next.
    + apply Forall_app. split; [done|by constructor].
    + intros fd. cbn. rewrite Hc. apply Hf'.
  - eexists. split; [reflexivity|]. split; [|done]. split; cbn; try done.
    + rewrite Hc. split; [congruence|done].
    + intros fd. cbn. rewrite Hc. apply Hf'.
Qed.

(** A socket that is connecting leaves the connector through [retry]. *)
Lemma give_up_inv c fd :
  connector_inv c -> channel_ c = Some (fd, true) ->
  let c' := retry fd (queueTask ResetChannel (set_channel (Some (fd, false)) c)) in
  connector_inv c' /\ connect_ c' = connect_ c /\ state_ c' = kDisconnected /\ channel_ c' = Some (fd, false).
Proof.
  intros Hi Hc c'. assert (delay_ok (retryDelayMs_ c)) as Hd by apply Hi.
  unfold c', retry. cbn [connect_ setState logfd queueTask set_tasks set_channel].
  destruct (connect_ c) eqn:Ec; split_and!; try done.
  - apply (left_inv c fd (Closed fd) kDisconnected (timers c ++ [retryDelayMs_ c])); try done.
    + by left.
    + right. eauto.
    + by apply delay_next.
  - apply (left_inv c fd (Closed fd) kDisconnected (timers c)); try done; by left.
Qed.

Lemma stopInLoop_inv c :
  connector_inv c -> exists c', stopInLoop c = Ok c' /\ connector_inv c' /\ connect_ c' = connect_ c
    /\ (state_ c = kConnected -> c' = c).
Proof.
  intros Hi. unfold stopInLoop. case_bool_decide as Hs; [|by exists c].
  destruct (channel_connecting c Hi Hs) as [fd Hc].
  unfold removeAndResetChannel. cbn [channel_ setState]. rewrite Hc. cbn [res_bind].
  destruct (give_up_inv c fd Hi Hc) as (H1 & H2 & H3 & _).
  eexists. split; [reflexivity|]. split_and!; [exact H1|exact H2|congruence].
Qed.

Lemma handleEvent_inv e w err self c :
  connector_inv c -> state_ c = kConnecting ->
  exists c' sock, handleEvent e w err self c = Ok (c', sock) /\ connector_inv c' /\ connect_ c' = connect_ c
    /\ (sock <> None -> connect_ c = true /\ state_ c' = kConnected)
    /\ (e = false -> w = true -> err = 0 -> self = false -> connect_ c = true -> sock <> None).
Proof.
  intros Hi Hs. destruct (channel_connecting c Hi Hs) as [fd Hc].
  destruct (give_up_inv c fd Hi Hc) as (H1 & H2 & H3 & H4).
  unfold handleEvent. destruct e.
  { unfold handleError. rewrite bool_decide_true by done. unfold removeAndResetChannel. rewrite Hc.
    cbn [res_bind]. destruct w; [|eexists _, None; by split_and!].
    unfold handleWrite. rewrite bool_decide_false by (rewrite H3; done).
    rewrite bool_decide_true by done. eexists _, None. by split_and!. }
  cbn [res_bind]. destruct w; [|eexists _, None; by split_and!].
  unfold handleWrite. rewrite bool_decide_true by done. unfold removeAndResetChannel. rewrite Hc.
  cbn [res_bind]. destruct (Z.eqb_spec err 0); cbn [negb]; [|eexists _, None; by split_and!].
  destruct self; [eexists _, None; by split_and!|].
  cbn [connect_ setState queueTask set_tasks set_channel].
  assert (delay_ok (retryDelayMs_ c)) as Hd by apply Hi.
  destruct (connect_ c) eqn:Ec.
  - eexists _, (Some fd). split; [reflexivity|]. split_and!; try done.
    apply (left_inv c fd (Handed fd) kConnected (timers c)); try done; [by right|by left].
  - eexists _, None. split; [reflexivity|]. split_and!; try done.
    apply (left_inv c fd (Closed fd) kConnected (timers c)); try done; by left.
Qed.
End Steps.

(** ** The client *)

(** When a client may do what: [connect] when nothing is under way, in the loop
    only once the last channel is gone; the destructor in the loop thread, and
    with a connection only once the connector has nothing queued; nothing after
    the destructor.  A retry fires, and a new connection closes, only after the
    functor that resets the channel ran, which the loop does at the end of the
    iteration it was queued in. *)
Definition legal (c : TcpClient) (i : cinput) : bool :=
  let x := connector_ c in
  match i with
  | CConnect inLoop =>
      client_alive c && bool_decide (state_ x = kDisconnected) && (starts x =? 0)%nat
      && (negb inLoop || bool_decide (channel_ x = None))
  | CDisconnect | CStop => client_alive c
  | CDestroy inLoop _ =>
      client_alive c && inLoop
      && (bool_decide (connection_ c = None)
          || bool_decide (channel_ x = None) && bool_decide (queue x = []))
  | CTimer | CClose => bool_decide (channel_ x = None)
  | CTask | CEvent _ _ _ _ => true
  end.

Record client_inv (c : TcpClient) : Prop := {
  ci_connector : connector_inv (connector_ c);
  ci_connected : connection_ c <> None -> state_ (connector_ c) = kConnected;
  ci_alive : client_alive c = true -> released c = false;
  ci_dead : client_alive c = false ->
    if released c then detached c = true /\ queue (connector_ c) = [] /\ timers (connector_ c) = []
                       /\ channel_ (connector_ c) = None
    else connect_ (connector_ c) = false /\ connection_ c = None;
  ci_next : 1 <= nextConnId_ c;
  ci_ids : gone c ++ option_list (fst <$> connection_ c) = seqZ 1 (nextConnId_ c - 1);
}.

Section Client.
Context (socket : nat -> Z) (connect_errno : nat -> Z) (peer : list byte).
Hypothesis socket_ok : forall k, 0 <= socket k.

Local Abbreviation cexec := (cexec socket connect_errno peer).

Fixpoint legal_run (c : TcpClient) (evs : list cinput) : bool :=
  match evs with
  | [] => true
  | i :: evs' => legal c i && match cexec c i with Ok c' => legal_run c' evs' | Fail _ => true end
  end.

Lemma newClient_inv name r : client_inv (newClient name r).
Proof. split; cbn; try done; apply newConnector_inv. Qed.

(** A new state of the connector, the rest of the client as it was. *)
Lemma with_connector_inv c x :
  client_inv c -> connector_inv x ->
  (connection_ c <> None -> state_ x = kConnected) ->
  (client_alive c = false -> released c = false /\ connect_ x = connect_ (connector_ c)) ->
  client_inv (with_connector x c).
Proof.
  intros [H1 H2 H3 H4 H5 H6] Hx Hs Hd. split; cbn; try done.
  intros Ha. specialize (H4 Ha). destruct (Hd Ha) as [Hr Hc]. rewrite Hr in *. by rewrite Hc.
Qed.

(** A connection and a connector that is not idle exclude each other. *)
Lemma no_connection c : client_inv c -> state_ (connector_ c) <> kConnected -> connection_ c = None.
Proof. intros H Hs. destruct (connection_ c) eqn:E; [|done]. destruct Hs. apply H. by rewrite E. Qed.

Lemma restart_inv x :
  connector_inv x -> state_ x = kConnected -> channel_ x = None ->
  exists x', restart socket connect_errno x = Ok x' /\ connector_inv x'.
Proof.
  intros [Hch Hst Hid Ho Hd Ht Hf] Hs Hc. assert (starts x = 0%nat) as H0 by (apply Hid; congruence).
  destruct (startInLoop_inv socket connect_errno socket_ok
    (set_connect true (set_delay kInitRetryDelayMs (setState kDisconnected x)))) as (x' & E & H & _).
  - split; cbn; try done. rewrite Hc in *. by destruct Hch.
  - done.
  - done.
  - done.
  - by exists x'.
Qed.

Lemma close_step c :
  client_inv c -> channel_ (connector_ c) = None -> exists c', cexec c CClose = Ok c' /\ client_inv c'.
Proof.
  intros Hi Hc. pose proof Hi as [H1 H2 H3 H4 H5 H6]. cbn.
  destruct (connection_ c) as [[id nm]|] eqn:E; [|by exists c].
  assert (client_inv (drop_connection id c)) as Hd.
  { split; cbn; try done.
    - intros Ha. specialize (H4 Ha). destruct (released c); [done|]. by destruct H4.
    - cbn in H6. by rewrite app_nil_r. }
  destruct (detached c) eqn:Ed; [by eexists|].
  unfold client_removeConnection. destruct (client_alive c) eqn:Ea.
  - rewrite E, bool_decide_true by done. cbn [cassert res_bind].
    destruct (retry_ _ && client_connect_ _); [|by eexists].
    destruct (restart_inv (connector_ c)) as (x & Ex & Hx); [done|by apply H2|done|].
    cbn [connector_ drop_connection]. rewrite Ex. eexists. split; [reflexivity|].
    by apply with_connector_inv; [| |cbn|cbn; rewrite Ea].
  - specialize (H4 eq_refl). destruct (released c); [by destruct H4|]. by destruct H4.
Qed.

Lemma task_step c : client_inv c -> exists c', cexec c CTask = Ok c' /\ client_inv c'.
Proof.
  intros Hi. pose proof Hi as [H1 H2 H3 H4 H5 H6]. cbn [Clients.cexec].
  destruct (queue (connector_ c)) as [|t q] eqn:Eq; [by exists c|].
  assert (released c = false) as Hr.
  { destruct (client_alive c) eqn:Ea; [auto|]. specialize (H4 eq_refl). destruct (released c); [|done].
    destruct H4 as (_ & ? & _). congruence. }
  set (x := set_tasks q _ _).
  assert (forall x', connector_inv x' -> (connection_ c <> None -> state_ x' = kConnected) ->
    connect_ x' = connect_ (connector_ c) -> client_inv (with_connector x' c)) as Hw.
  { intros. by apply with_connector_inv. }
  destruct (decide (t = ResetChannel)) as [->|Hn].
  { cbn [client_task]. cbn [released with_connector]. rewrite Hr. eexists. split; [reflexivity|].
    apply Hw; [by apply reset_inv|done|done]. }
  destruct (pop_inv _ t q H1 Eq Hn) as [Hx Hstart].
  destruct t; cbn [client_task released with_connector connector_]; rewrite ?Hr.
  - destruct (Hstart eq_refl) as (Hs & Hc & H0).
    destruct (startInLoop_inv socket connect_errno socket_ok x) as (x' & E & Hx' & Hcn); try done.
    cbn [run_ctask]. rewrite E. eexists. split; [reflexivity|]. apply Hw; [done| |done].
    rewrite no_connection; [done|done|congruence].
  - destruct (stopInLoop_inv x Hx) as (x' & E & Hx' & Hcn & Hk).
    cbn [run_ctask]. rewrite E. eexists. split; [reflexivity|]. apply Hw; [done| |done].
    intros H. specialize (H2 H). by rewrite Hk.
  - done.
  - eexists. split; [reflexivity|]. pose proof (Hw x Hx H2 eq_refl) as [? ? ? Hd ? ?]. split; cbn; try done.
    intros Ha. specialize (Hd Ha). cbn in Hd. by rewrite Hr in *.
Qed.

(** The connector's part of an event. *)
Lemma event_connector c fd e w err self :
  client_inv c -> channel_ (connector_ c) = Some (fd, true) ->
  exists x sock, handleEvent e w err self (connector_ c) = Ok (x, sock) /\ client_inv (with_connector x c) /\
    connection_ c = None /\ (sock <> None -> client_alive c = true /\ state_ x = kConnected).
Proof.
  intros Hi Ec. pose proof Hi as [H1 H2 H3 H4 H5 H6].
  assert (state_ (connector_ c) = kConnecting) as Hs.
  { destruct H1 as [Hch _ _ _ _ _ _]. rewrite Ec in Hch. by destruct Hch. }
  assert (connection_ c = None) as Hn by (apply no_connection; [done|congruence]).
  assert (client_alive c = false -> released c = false) as Hr.
  { intros Ha. specialize (H4 Ha). destruct (released c); [|done]. destruct H4 as (_ & _ & _ & ?). congruence. }
  destruct (handleEvent_inv e w err self (connector_ c) H1 Hs) as (x & sock & E & Hx & Hcn & Hk & _).
  exists x, sock. split; [done|]. split; [|split; [done|]].
  - apply with_connector_inv; [done|done|by rewrite Hn|by split; [apply Hr|]].
  - intros Hsk. destruct (Hk Hsk) as [Hcon Hst]. split; [|done]. destruct (client_alive c) eqn:Ea; [done|].
    specialize (H4 eq_refl). rewrite Hr in H4 by done. destruct H4. congruence.
Qed.

Lemma event_step c e w err self :
  client_inv c -> exists c', cexec c (CEvent e w err self) = Ok c' /\ client_inv c'.
Proof.
  intros Hi. cbn [Clients.cexec].
  destruct (channel_ (connector_ c)) as [[fd []]|] eqn:Ec; [|by exists c|by exists c].
  destruct (event_connector c fd e w err self Hi Ec) as (x & sock & -> & Hw & Hn & Hk). cbn [res_bind].
  destruct sock as [s|]; [|by eexists]. destruct Hk as [Ha Hst]; [done|].
  unfold client_newConnection. cbn [client_alive with_connector]. rewrite Ha.
  eexists. split; [reflexivity|]. destruct Hi as [_ _ _ _ H5 H6], Hw as [W1 W2 W3 W4 W5 W6]. split; cbn in *; try done; try lia; [by rewrite Ha in *|].
  rewrite Hn, app_nil_r in H6. rewrite H6.
  replace (nextConnId_ c + 1 - 1) with ((nextConnId_ c - 1) + 1) by lia.
  rewrite seqZ_app by lia. f_equal. replace (1 + (nextConnId_ c - 1)) with (nextConnId_ c) by lia. done.
Qed.

Lemma connect_step c b :
  client_inv c -> legal c (CConnect b) = true -> exists c', cexec c (CConnect b) = Ok c' /\ client_inv c'.
Proof.
  intros Hi Hl. cbn in Hl. apply andb_prop in Hl as [Hl Hch]. apply andb_prop in Hl as [Hl H0].
  apply andb_prop in Hl as [Ha Hs]. apply bool_decide_eq_true in Hs. apply Nat.eqb_eq in H0.
  pose proof Hi as [H1 H2 H3 H4 H5 H6].
  assert (connection_ c = None) as Hn by (apply no_connection; [done|congruence]).
  assert (client_inv (want true c)) as Hw by (by split).
  assert (connector_inv (set_connect true (connector_ c))) as Hx by (by apply set_connect_inv).
  assert (exists x', start socket connect_errno b (connector_ c) = Ok x' /\ connector_inv x') as (x' & E & Hx').
  { unfold start. destruct b.
    - apply orb_prop in Hch as [?|Hch]; [done|]. apply bool_decide_eq_true in Hch.
      destruct (startInLoop_inv socket connect_errno socket_ok (set_connect true (connector_ c)))
        as (x' & E & Hx' & _); try done. by exists x'.
    - eexists. split; [reflexivity|]. by apply queueTask_inv. }
  cbn [Clients.cexec]. unfold client_connect. cbn [connector_ want]. rewrite E. eexists. split; [reflexivity|].
  apply with_connector_inv; try done; cbn; by rewrite ?Hn, ?Ha.
Qed.

Lemma timer_step c :
  client_inv c -> channel_ (connector_ c) = None -> exists c', cexec c CTimer = Ok c' /\ client_inv c'.
Proof.
  intros Hi Hc. pose proof Hi as [H1 H2 H3 H4 H5 H6]. cbn [Clients.cexec].
  destruct (timers (connector_ c)) as [|d ts] eqn:Et; [by exists c|].
  destruct (timer_inv _ d ts H1 Et Hc) as (Hx & Hs & H0).
  destruct (startInLoop_inv socket connect_errno socket_ok _ Hx Hs H0 Hc) as (x & E & Hx' & Hcn).
  rewrite E. eexists. split; [reflexivity|]. apply with_connector_inv; try done.
  - rewrite no_connection; [done|done|congruence].
  - intros Ha. specialize (H4 Ha). destruct (released c); [|done]. destruct H4 as (_ & _ & ? & _). congruence.
Qed.

Lemma destroy_step c b u :
  client_inv c -> legal c (CDestroy b u) = true -> exists c', cexec c (CDestroy b u) = Ok c' /\ client_inv c'.
Proof.
  intros Hi Hl. cbn in Hl. apply andb_prop in Hl as [Hl Hq]. apply andb_prop in Hl as [Ha Hb].
  destruct b; [|done]. pose proof Hi as [H1 H2 H3 H4 H5 H6].
  cbn [Clients.cexec]. unfold destroyClient. destruct (connection_ c) as [[id nm]|] eqn:E.
  - rewrite bool_decide_false in Hq by done. cbn in Hq. apply andb_prop in Hq as [Hc Hq].
    apply bool_decide_eq_true in Hc, Hq.
    assert (starts (connector_ c) = 0%nat) as H0 by (apply H1; rewrite H2 by done; done).
    assert (timers (connector_ c) = []) as Ht.
    { unfold starts in H0. apply length_zero_iff_nil. lia. }
    destruct u; cbn -[app]; rewrite bool_decide_true by done; cbn -[app]; eexists; split; try reflexivity;
      split; cbn -[app]; try done; by rewrite E.
  - eexists. split; [reflexivity|]. split; cbn; try done.
    + by apply queueTask_inv; [apply set_connect_inv| |].
    + by rewrite E.
Qed.

Lemma client_step c i :
  client_inv c -> legal c i = true -> exists c', cexec c i = Ok c' /\ client_inv c'.
Proof.
  intros Hi Hl. pose proof Hi as [H1 H2 H3 H4 H5 H6]. destruct i.
  - by apply connect_step.
  - eexists. split; [reflexivity|]. unfold client_disconnect. cbn [connection_ want].
    destruct (connection_ c) as [[id nm]|] eqn:E; split; cbn -[app]; try done; by rewrite E.
  - eexists. split; [reflexivity|]. cbn in Hl. apply with_connector_inv; [by split| | |by cbn; rewrite Hl].
    + by apply queueTask_inv; [apply set_connect_inv| |].
    + done.
  - by apply destroy_step.
  - by apply task_step.
  - apply timer_step; [done|]. by apply bool_decide_eq_true in Hl.
  - by apply event_step.
  - apply close_step; [done|]. by apply bool_decide_eq_true in Hl.
Qed.

Lemma client_run c evs :
  client_inv c -> legal_run c evs = true -> exists c', res_fold cexec c evs = Ok c' /\ client_inv c'.
Proof.
  revert c. induction evs as [|i evs IH]; intros c Hi Hl; [by exists c|].
  cbn [legal_run] in Hl. apply andb_prop in Hl as [Hl Hr].
  destruct (client_step c i Hi Hl) as (c1 & E & H1). rewrite E in Hr. cbn [res_fold]. rewrite E. by apply IH.
Qed.

(** ** Retrying *)

Definition refused (e : Z) : Prop := e ∈ [EAGAIN; EADDRINUSE; EADDRNOTAVAIL; ECONNREFUSED; ENETUNREACH].

Lemma refused_fails e : refused e -> e ∉ [0; EINPROGRESS; EINTR; EISCONN].
Proof.
  unfold refused. rewrite !elem_of_cons, !elem_of_nil.
  unfold EAGAIN, EADDRINUSE, EADDRNOTAVAIL, ECONNREFUSED, ENETUNREACH, EINPROGRESS, EINTR, EISCONN. lia.
Qed.

Lemma startInLoop_refused x :
  state_ x = kDisconnected -> connect_ x = true -> refused (connect_errno (attempts x)) ->
  exists l, startInLoop socket connect_errno x =
    Ok (mkConnector true kDisconnected (channel_ x) (Z.min (retryDelayMs_ x * 2) kMaxRetryDelayMs)
          (queue x) (timers x ++ [retryDelayMs_ x]) (S (attempts x)) l).
Proof.
  intros Hs Hc Hr. unfold startInLoop. rewrite bool_decide_true by done. cbn [cassert res_bind].
  rewrite Hc. unfold connect. pose proof (socket_ok (attempts x)).
  destruct (Z.ltb_spec (socket (attempts x)) 0); [lia|].
  rewrite bool_decide_false by (by apply refused_fails).
  rewrite bool_decide_true by done. unfold retry. cbn [connect_ setState logfd attempt]. rewrite Hc.
  eexists. unfold set_delay, set_tasks, setState, logfd, attempt. cbn. by rewrite Hc.
Qed.

(** After [S n] refusals. *)
Record refused_n (name : list byte) (r : bool) (n : nat) (c : TcpClient) : Prop := {
  rn_connect : connect_ (connector_ c) = true;
  rn_state : state_ (connector_ c) = kDisconnected;
  rn_channel : channel_ (connector_ c) = None;
  rn_queue : queue (connector_ c) = [];
  rn_timers : timers (connector_ c) = [Z.min (500 * 2 ^ Z.of_nat n) 30000];
  rn_delay : retryDelayMs_ (connector_ c) = Z.min (500 * 2 ^ Z.of_nat (S n)) 30000;
  rn_attempts : attempts (connector_ c) = S n;
  rn_rest : c = with_connector (connector_ c) (newClient name r);
}.

Lemma delay_double n :
  Z.min (Z.min (500 * 2 ^ Z.of_nat n) 30000 * 2) kMaxRetryDelayMs = Z.min (500 * 2 ^ Z.of_nat (S n)) 30000.
Proof.
  rewrite Nat2Z.inj_succ, Z.pow_succ_r by lia. change kMaxRetryDelayMs with 30000.
  pose proof (Z.pow_pos_nonneg 2 (Z.of_nat n)). lia.
Qed.

Lemma refusals name r n :
  (forall k, (k <= n)%nat -> refused (connect_errno k)) ->
  exists c, res_fold cexec (newClient name r) (CConnect true :: replicate n CTimer) = Ok c /\ refused_n name r n c.
Proof.
  induction n as [|n IH]; intros Hr.
  - destruct (startInLoop_refused (set_connect true newConnector)) as [l E]; [done|done|by apply Hr|].
    cbn [res_fold replicate Clients.cexec]. unfold client_connect, start. cbn [connector_ want newClient].
    rewrite E. eexists. split; [reflexivity|]. by split.
  - destruct IH as (c & E & [Hc Hs Hch Hq Ht Hd Ha Hn]); [intros; apply Hr; lia|].
    rewrite replicate_S_end. rewrite app_comm_cons, res_fold_app, E.
    cbn [res_bind res_fold Clients.cexec]. rewrite Ht.
    destruct (startInLoop_refused (set_tasks (queue (connector_ c)) [] (connector_ c))) as [l El];
      [done|done|cbn; rewrite Ha; by apply Hr|].
    rewrite El. cbn [res_bind]. eexists. split; [reflexivity|].
    split; cbn [connector_ with_connector connect_ state_ channel_ queue timers retryDelayMs_ attempts set_tasks];
      try done.
    + by rewrite Hd.
    + rewrite Hd. apply delay_double.
    + by rewrite Ha.
    + by rewrite Hn.
Qed.
End Client.

(** ** Misuse *)

Section Misuse.
Context (socket : nat -> Z) (connect_errno : nat -> Z) (peer : list byte).

Lemma startInLoop_in_progress x :
  state_ x = kDisconnected -> connect_ x = true -> channel_ x = None -> 0 <= socket (attempts x) ->
  connect_errno (attempts x) = EINPROGRESS ->
  startInLoop socket connect_errno x = Ok (set_channel (Some (socket (attempts x), true))
    (setState kConnecting (logfd (Opened (socket (attempts x))) (attempt x)))).
Proof.
  intros Hs Hc Hch Hk He. unfold startInLoop. rewrite bool_decide_true, Hc by done. cbn [cassert res_bind].
  unfold connect. destruct (Z.ltb_spec (socket (attempts x)) 0); [lia|].
  rewrite He, bool_decide_true by set_solver. unfold connecting. by rewrite bool_decide_true by done.
Qed.

Lemma startInLoop_busy x :
  state_ x <> kDisconnected -> startInLoop socket connect_errno x = Fail AssertFailed.
Proof. intros H. unfold startInLoop. by rewrite bool_decide_false. Qed.

Lemma connect_in_loop c x :
  startInLoop socket connect_errno (set_connect true (connector_ c)) = x ->
  cexec socket connect_errno peer c (CConnect true) =
    let! x := x in Ok (with_connector x (want true c)).
Proof. by intros <-. Qed.
End Misuse.

(** C20: a client used as intended - connecting when nothing is under way, stopping
    and disconnecting at any time, destroyed in its loop when its connector has
    nothing queued - trips none of the assertions of Connector.cc and TcpClient.cc
    and touches no freed object, whatever the sockets report and in whatever order
    functors, retries, events and closes happen.  Every socket opened was closed or
    became a connection, but for the one being connected; retries wait between 500
    and 30000 milliseconds; there is one connection at a time, and every earlier one
    went to [connectDestroyed], once. *)
Theorem client_never_fails socket connect_errno peer name r evs :
  (forall k, 0 <= socket k) ->
  legal_run socket connect_errno peer (newClient name r) evs = true ->
  exists c, res_fold (cexec socket connect_errno peer) (newClient name r) evs = Ok c
    /\ sockets_balanced (connector_ c)
    /\ Forall (fun d => 500 <= d <= 30000) (timers (connector_ c))
    /\ (connection_ c <> None -> state_ (connector_ c) = kConnected)
    /\ gone c ++ option_list (fst <$> connection_ c) = seqZ 1 (nextConnId_ c - 1).
Proof.
  intros Hs Hl. destruct (client_run socket connect_errno peer Hs _ _ (newClient_inv name r) Hl) as (c & E & Hi).
  exists c. destruct Hi as [[? ? ? ? ? ? ?] ? ? ? ? ?]. by split_and!.
Qed.

(** C23: a client whose first [n + 1] attempts are refused waits
    [min(500 * 2^n, 30000)] milliseconds before the next; if that attempt gets
    under way and the socket becomes writable without error, the client has its
    first connection. *)
Theorem client_connects_at_last socket connect_errno peer name r n :
  (forall k, 0 <= socket k) ->
  (forall k, (k <= n)%nat -> refused (connect_errno k)) ->
  connect_errno (S n) = EINPROGRESS ->
  exists c, res_fold (cexec socket connect_errno peer) (newClient name r)
              (CConnect true :: replicate n CTimer) = Ok c
    /\ timers (connector_ c) = [Z.min (500 * 2 ^ Z.of_nat n) 30000]
    /\ exists c', res_fold (cexec socket connect_errno peer) c [CTimer; CEvent false true 0 false] = Ok c'
         /\ connection_ c' = Some (1, client_connName peer (newClient name r))
         /\ state_ (connector_ c') = kConnected.
Proof.
  intros Hs Hr He. destruct (refusals socket connect_errno peer Hs name r n Hr) as (c & E & [Hc Hst Hch Hq Ht Hd Ha Hn]).
  exists c. split_and!; [done|done|].
  cbn [res_fold cexec]. rewrite Ht. unfold startInLoop. cbn [state_ connect_ set_tasks].
  rewrite bool_decide_true, Hc by done. cbn [cassert res_bind]. unfold connect. cbn [attempts set_tasks].
  pose proof (Hs (attempts (connector_ c))). destruct (Z.ltb_spec (socket (attempts (connector_ c))) 0); [lia|].
  rewrite Ha, He. rewrite bool_decide_true by set_solver.
  unfold connecting. cbn [channel_ setState logfd attempt set_tasks]. rewrite Hch. cbn.
  unfold handleWrite. rewrite bool_decide_true by done. cbn. rewrite Hc. cbn.
  unfold client_newConnection. rewrite Hn. cbn. by eexists.
Qed.

(** the uses the comments warn of do fail.  After [stop()], [connect()] while
    a retry is still due ("FIXME: cancel timer") makes the retry trip
    [assert(state_ == kDisconnected)]; so does [connect()] after a connection that
    was not to be retried closed ("FIXME: check state"); and a client destroyed in
    another thread ("FIXME: not 100% safe") has its close callback called on freed
    memory when the connection closes first. *)
Theorem client_misuse socket connect_errno peer :
  (forall c d ts, 0 <= socket (attempts (connector_ c)) -> connect_errno (attempts (connector_ c)) = EINPROGRESS ->
     state_ (connector_ c) = kDisconnected -> channel_ (connector_ c) = None ->
     timers (connector_ c) = d :: ts ->
     res_fold (cexec socket connect_errno peer) c [CStop; CConnect true; CTimer] = Fail AssertFailed) /\
  (forall c id name, connection_ c = Some (id, name) -> state_ (connector_ c) = kConnected ->
     client_alive c = true -> retry_ c = false ->
     res_fold (cexec socket connect_errno peer) c [CClose; CConnect true] = Fail AssertFailed) /\
  (forall c id name, connection_ c = Some (id, name) -> channel_ (connector_ c) = None -> detached c = false ->
     res_fold (cexec socket connect_errno peer) c [CDestroy false false; CClose] = Fail OutOfRange).
Proof.
  split_and!.
  - intros c d ts Hk He Hs Hc Ht.
    change (res_fold _ c (CStop :: _))
      with (res_fold (cexec socket connect_errno peer) (client_stop c) [CConnect true; CTimer]).
    cbn [res_fold]. erewrite connect_in_loop by (by apply startInLoop_in_progress).
    cbn [res_bind cexec with_connector connector_]. cbn [timers set_channel setState logfd attempt set_connect].
    change (timers (connector_ (client_stop c))) with (timers (connector_ c)). rewrite Ht.
    by rewrite startInLoop_busy.
  - intros c id name Hc Hs Ha Hr.
    assert (cexec socket connect_errno peer c CClose = Ok (drop_connection id c)) as E.
    { cbn [cexec]. rewrite Hc. unfold client_removeConnection. rewrite Ha, Hc.
      rewrite bool_decide_true by done. cbn [cassert res_bind retry_ drop_connection]. rewrite Hr.
      by destruct (detached c). }
    cbn [res_fold]. rewrite E. cbn [res_bind].
    erewrite connect_in_loop by (apply startInLoop_busy; cbn; congruence). done.
  - intros c id name Hc Hch Hd. cbn [res_fold cexec]. unfold destroyClient. rewrite Hc.
    rewrite bool_decide_true by done.
    cbn [cassert res_bind end_client with_connector connection_ detached]. rewrite Hc, Hd. done.
Qed.

(** *** Witnesses *)

Definition demo_errno (k : nat) : Z := if (k <=? 2)%nat then ECONNREFUSED else EINPROGRESS.
Definition demo_socket (k : nat) : Z := 7.
Definition demo_peer : list byte := bytes_of_string "1.2.3.4:80".
Definition demo_client : TcpClient := newClient (bytes_of_string "c") true.

Definition demo_run : list cinput :=
  [CConnect false; CTask; CTimer; CTimer; CTimer; CEvent false true 0 false; CTask; CClose;
   CEvent true true 111 false; CTask; CStop; CTask; CTimer; CDestroy true true; CTask].

Lemma client_never_fails_witness :
  exists c, res_fold (cexec demo_socket demo_errno demo_peer) demo_client demo_run = Ok c
    /\ sockets_balanced (connector_ c)
    /\ gone c ++ option_list (fst <$> connection_ c) = seqZ 1 (nextConnId_ c - 1).
Proof.
  destruct (client_never_fails demo_socket demo_errno demo_peer (bytes_of_string "c") true demo_run)
    as (c & H1 & H2 & _ & _ & H3).
  - intros k. unfold demo_socket. lia.
  - vm_compute. reflexivity.
  - exists c. by split_and!.
Defined.

Lemma client_connects_at_last_witness :
  exists c, timers (connector_ c) = [2000] /\
    exists c', res_fold (cexec demo_socket demo_errno demo_peer) c [CTimer; CEvent false true 0 false] = Ok c'
      /\ connection_ c' = Some (1, client_connName demo_peer demo_client).
Proof.
  destruct (client_connects_at_last demo_socket demo_errno demo_peer (bytes_of_string "c") true 2)
    as (c & _ & H1 & c' & H2 & H3 & _).
  - intros k. unfold demo_socket. lia.
  - intros k Hk. unfold demo_errno, refused. destruct (Nat.leb_spec k 2); [set_solver|lia].
  - reflexivity.
  - exists c. split; [exact H1|]. by exists c'.
Defined.

Lemma client_misuse_witness :
  res_fold (cexec demo_socket demo_errno demo_peer) demo_client
    [CConnect true; CTimer; CTimer; CStop; CConnect true; CTimer] = Fail AssertFailed.
Proof.
  destruct (client_misuse demo_socket demo_errno demo_peer) as [H _].
  change [CConnect true; CTimer; CTimer; CStop; CConnect true; CTimer]
    with ([CConnect true; CTimer; CTimer] ++ [CStop; CConnect true; CTimer]).
  rewrite res_fold_app.
  destruct (res_fold (cexec demo_socket demo_errno demo_peer) demo_client [CConnect true; CTimer; CTimer])
    as [c|] eqn:E; vm_compute in E; [|discriminate].
  injection E as <-. cbn [res_bind]. eapply H; vm_compute; [discriminate|reflexivity..].
Defined.
