(* ===== verification/ClientConns.v ===== *)
(** * A client with its connections (src/src/muduo/net/TcpClient.cc, TcpConnection.cc)

    Clients keeps of a connection its number and its name; here the client runs with
    the connections of TcpConn, one after the other, all on the channels and the
    poller of the client's loop.  The socket the connector hands over becomes a
    connection, which is established at once; the close callback of a connection is
    the client's [removeConnection], or [detail::removeConnection] once the client is
    gone, and the functor it queues destroys the connection later, when the next one
    may be up already.  [disconnect] and the destructor act on the connection. *)

From S2P Require Import Prelude NetBuffer Channels Pollers Servers Clients ServedConns TcpConn.

Section Joined.
Context {P : Type} `{PollerOps P}.
Variables (socket : nat -> Z) (connect_errno : nat -> Z) (peer : list byte).
(** write(2) and the user's callbacks, for each connection. *)
Variables (write : Z -> nat -> list byte -> Z + Z) (user : Z -> Handlers).

Abbreviation World := (TcpConn.World (P := P)).

Record joined := mkJoined {
  client : TcpClient;
  peers : gmap Z World;              (** the connections, by number *)
  loop : store * P;                  (** the channels and the poller of the loop *)
  ends : list Z;                     (** whose [connectDestroyed] is queued *)
  over : list Z;                     (** whose [connectDestroyed] has run *)
}.

Definition set_client (c : TcpClient) (j : joined) : joined := mkJoined c (peers j) (loop j) (ends j) (over j).
Definition set_ends (e o : list Z) (j : joined) : joined := mkJoined (client j) (peers j) (loop j) e o.

(** A connection with the channels of the loop, and back. *)
Definition is_over (id : Z) (j : joined) : bool := bool_decide (id ∈ over j).
Definition peer_view (id : Z) (j : joined) (w : World) : World := if is_over id j then w else on_chans (loop j) w.
Definition put (id : Z) (w : World) (j : joined) : joined :=
  mkJoined (client j) (<[id := w]> (peers j)) (if is_over id j then loop j else chans w) (ends j) (over j).

Definition thePeer (id : Z) (j : joined) : res World :=
  match peers j !! id with Some w => Ok (peer_view id j w) | None => Fail OutOfRange end.

(** The close callback: it queues [connectDestroyed]. *)
Definition closeCallback (id : Z) (j : joined) : res joined :=
  let! c := (if detached (client j) then Ok (drop_connection id (client j))
             else client_removeConnection socket connect_errno id (client j)) in
  Ok (set_ends (ends j ++ [id]) (over j) (set_client c j)).

Definition peer_step (id : Z) (i : TcpConn.input) (j : joined) : res joined :=
  let! w := thePeer id j in
  let! w' := conn_exec write user id w i in
  let j := put id w' j in
  if negb (disconnected (conn w)) && disconnected (conn w') then closeCallback id j else Ok j.

(** A call of the client on its connection, in the loop thread or not. *)
Definition ask (inLoop : bool) (a : api) (j : joined) : res joined :=
  match connection_ (client j) with
  | Some (id, _) =>
      let! w := thePeer id j in
      let! w := call_api (write id) (user id) inLoop w a in
      Ok (put id w j)
  | None => Ok j
  end.

Definition disconnect (inLoop : bool) (j : joined) : res joined :=
  ask inLoop Shutdown (set_client (client_disconnect (client j)) j).

Definition destroy (inLoop unique : bool) (j : joined) : res joined :=
  let! c := destroyClient inLoop unique (client j) in
  let! j := (if unique then ask inLoop ForceClose j else Ok j) in
  Ok (set_client c j).

(** [newConnection]: the connection has channel [ch] and the socket. *)
Definition newPeer (ch sockfd : Z) (j : joined) : res joined :=
  let id := nextConnId_ (client j) in
  let! c := client_newConnection peer (client j) in
  let w := newWorld ch sockfd (loop j) in
  let! w := connectEstablished (write id) (user id) (set_pending (without_life (pending w)) w) in
  Ok (put id w (set_client c j)).

(** An event on the connector's socket. *)
Definition connector_event (ch : Z) (error writable : bool) (err : Z) (self : bool) (j : joined) : res joined :=
  match Clients.channel_ (connector_ (client j)) with
  | Some (_, true) =>
      let! '(x, sock) := Clients.handleEvent error writable err self (connector_ (client j)) in
      let j := set_client (with_connector x (client j)) j in
      match sock with Some sockfd => newPeer ch sockfd j | None => Ok j end
  | _ => Ok j
  end.

(** The functor [connectDestroyed]. *)
Definition run_end (j : joined) : res joined :=
  match ends j with
  | [] => Ok j
  | id :: rest =>
      let! w := thePeer id j in
      let! w := connectDestroyed (write id) (user id) (set_pending (without_life (pending w)) w) in
      Ok (mkJoined (client j) (<[id := w]> (peers j)) (delete (channel_ (conn w)) (fst (chans w)), snd (chans w))
            rest (over j ++ [id]))
  end.

Inductive jinput :=
| JConnect (inLoop : bool)
| JDisconnect (inLoop : bool)
| JStop
| JDestroy (inLoop unique : bool)
| JTask                                                        (** the connector's next functor *)
| JTimer                                                       (** a retry is due *)
| JEvent (ch : Z) (error writable : bool) (err : Z) (self : bool)
| JConn (id : Z) (i : TcpConn.input)
| JEnd.                                                        (** the next [connectDestroyed] *)

(** The inputs that leave the connections alone. *)
Definition alone (i : cinput) (j : joined) : res joined :=
  let! c := cexec socket connect_errno peer (client j) i in Ok (set_client c j).

Definition jexec (j : joined) (i : jinput) : res joined :=
  match i with
  | JConnect b => alone (CConnect b) j
  | JDisconnect b => disconnect b j
  | JStop => alone CStop j
  | JDestroy b u => destroy b u j
  | JTask => alone CTask j
  | JTimer => alone CTimer j
  | JEvent ch error writable err self => connector_event ch error writable err self j
  | JConn id i => match peers j !! id with Some _ => peer_step id i j | None => Ok j end
  | JEnd => run_end j
  end.
End Joined.

(** * Properties *)

Section Properties.
Context {P : Type} `{PollerSpec P}.
Context (socket : nat -> Z) (connect_errno : nat -> Z) (peer : list byte).
Context (write : Z -> nat -> list byte -> Z + Z) (user : Z -> Handlers) (s0 : store * P).
Hypothesis socket_ok : forall k, 0 <= socket k.
Hypothesis Hwrite : forall c, write_ok (write c).
Hypothesis Huser : forall c, user_ok (user c).

Abbreviation World := (TcpConn.World (P := P)).
Abbreviation joined := (joined (P := P)).
Implicit Types (j : joined) (w : World).

(** What the client alone does in a step. *)
Definition client_input (i : jinput) : option cinput :=
  match i with
  | JConnect b => Some (CConnect b)
  | JDisconnect _ => Some CDisconnect
  | JStop => Some CStop
  | JDestroy b u => Some (CDestroy b u)
  | JTask => Some CTask
  | JTimer => Some CTimer
  | JEvent _ e w err self => Some (CEvent e w err self)
  | JConn _ _ | JEnd => None
  end.

Definition peer_enabled (id : Z) j w (i : TcpConn.input) : Prop :=
  match i with
  | IEvent _ _ => is_over id j = false /\ exists k, theChannel w = Ok k /\ TcpConn.enabled (channel_ (conn w)) (fd_ k) w i
  | IApi a => api_ok a
  | IMark => isLive (state_ (conn w))
  | IPost a => api_ok a /\ state_ (conn w) <> kConnecting
  | _ => True
  end.

(** The client is used as Clients asks for.  A new connection has an address and a
    descriptor nobody in the loop has; the poller reports to a connection what its
    channel asks for, and nothing that can close one happens before the functor that
    resets the connector's channel has run, which was queued before. *)
Definition jenabled j (i : jinput) : Prop :=
  (forall k, client_input i = Some k -> legal (client j) k = true) /\
  match i with
  | JEvent ch e w err self => forall x fd, Clients.handleEvent e w err self (connector_ (client j)) = Ok (x, Some fd) ->
      0 <= fd /\ start_ok ch fd (loop j) /\ forall a k, fst (loop j) !! a = Some k -> fd_ k <> fd
  | JConn id i => (forall w, thePeer id j = Ok w -> peer_enabled id j w i) /\
      (may_close i = true -> Clients.channel_ (connector_ (client j)) = None)
  | _ => True
  end.

(** ** The connections as a server would have them *)

Definition peer_state j (id : Z) : cstate :=
  if is_over id j then Servers.Destroyed else if bool_decide (id ∈ ends j) then Disconnected else Servers.Connected.

Definition peer_conn j (id : Z) : Conn := mkConn [] 0 (peer_state j id).

Definition as_served j : served (P := P) :=
  mkServed (set_conns (map_imap (fun id _ => Some (peer_conn j id)) (peers j)) (newServer [] [] 0)) (peers j)
    (fun l => if l =? 0 then loop j else s0).

Lemma as_served_lookup j id x :
  conns (server (as_served j)) !! id = Some x <-> x = peer_conn j id /\ is_Some (peers j !! id).
Proof.
  cbn. rewrite map_lookup_imap. destruct (peers j !! id) as [w|]; cbn.
  - split; [intros [= <-]; eauto|]. by intros [-> _].
  - split; [done|]. intros [_ Hn]. by apply is_Some_None in Hn.
Qed.

Lemma gone_over j id : ServedConns.gone (peer_conn j id) = is_over id j.
Proof.
  unfold ServedConns.gone, peer_conn, peer_state. cbn [c_state]. destruct (is_over id j); [done|].
  by destruct (bool_decide (id ∈ ends j)).
Qed.

Lemma view_same j id w : view (as_served j) (peer_conn j id) w = peer_view id j w.
Proof. unfold view, peer_view. by rewrite gone_over. Qed.

Record joined_inv j : Prop := {
  ji_client : client_inv (client j);
  ji_loop : pinv (fst (loop j)) (snd (loop j));
  ji_links : exists CH FD, links user CH FD (as_served j) /\ distinct CH FD (as_served j);
  ji_gone : Clients.gone (client j) = over j ++ ends j;
  ji_peers : forall id, is_Some (peers j !! id) <-> 1 <= id < nextConnId_ (client j);
}.

(** ** Connections and the client *)

Lemma ids_NoDup c : client_inv c -> NoDup (Clients.gone c ++ option_list (fst <$> connection_ c)).
Proof. intros Hc. rewrite (ci_ids _ Hc). apply NoDup_seqZ. Qed.

Lemma up_id j id : joined_inv j -> is_Some (peers j !! id) -> peer_state j id = Servers.Connected ->
  fst <$> connection_ (client j) = Some id.
Proof.
  intros Hj Hp Hst. apply (ji_peers _ Hj) in Hp. assert (id ∈ seqZ 1 (nextConnId_ (client j) - 1)) as Hin by (apply elem_of_seqZ; lia).
  rewrite <- (ci_ids _ (ji_client _ Hj)), (ji_gone _ Hj) in Hin. unfold peer_state, is_over in Hst.
  do 2 (case_bool_decide; [done|]). rewrite !elem_of_app in Hin. destruct Hin as [[?|?]|Hin]; [done..|].
  destruct (connection_ (client j)) as [[id' nm]|]; cbn in *; [|by apply not_elem_of_nil in Hin]. by apply list_elem_of_singleton in Hin as ->.
Qed.

Lemma id_up j id nm : joined_inv j -> connection_ (client j) = Some (id, nm) ->
  is_Some (peers j !! id) /\ peer_state j id = Servers.Connected.
Proof.
  intros Hj Hc. pose proof (ids_NoDup _ (ji_client _ Hj)) as Hnd. pose proof (ci_ids _ (ji_client _ Hj)) as Hids.
  rewrite Hc, (ji_gone _ Hj) in *. cbn in *. split.
  - apply (ji_peers _ Hj). assert (id ∈ seqZ 1 (nextConnId_ (client j) - 1)) as Hin by (rewrite <- Hids; apply elem_of_app; right; by left).
    apply elem_of_seqZ in Hin. lia.
  - apply NoDup_app in Hnd as (_ & Hd & _). unfold peer_state, is_over.
    assert (id ∉ over j ++ ends j) as Hn by (intros Hin; apply (Hd id Hin); by left).
    rewrite elem_of_app in Hn. rewrite !bool_decide_false by tauto. done.
Qed.

Lemma thePeer_ok CH FD j id : links user CH FD (as_served j) -> is_Some (peers j !! id) ->
  exists w, peers j !! id = Some w /\ thePeer id j = Ok (peer_view id j w) /\ 0 <= FD id /\
    status (peer_state j id) (user id) (CH id) (FD id) (chans (peer_view id j w)) (peer_view id j w).
Proof.
  intros Hl Hp. destruct (Hl id (peer_conn j id)) as (w & Hw & Hfd & Hst); [by apply as_served_lookup|].
  rewrite view_same in Hst. exists w. unfold thePeer. cbn in Hw. rewrite Hw. by split_and!.
Qed.

Lemma conns_step j j' id w' :
  peers j' = <[id := w']> (peers j) -> (forall c, c <> id -> peer_state j' c = peer_state j c) ->
  conns (server (as_served j')) = <[id := peer_conn j' id]> (conns (server (as_served j))).
Proof.
  intros Hp Hst. apply map_eq. intros c. cbn. rewrite Hp. destruct (decide (c = id)) as [->|Hne].
  - rewrite map_lookup_imap, !lookup_insert_eq. done.
  - rewrite map_lookup_imap, !lookup_insert_ne, map_lookup_imap by done. destruct (peers j !! c); [|done]. cbn.
    unfold peer_conn. by rewrite Hst.
Qed.

(** A connection did something in the loop. *)
Lemma links_step CH FD j j' id w' :
  links user CH FD (as_served j) -> distinct CH FD (as_served j) -> is_Some (peers j !! id) -> is_over id j = false ->
  peers j' = <[id := w']> (peers j) -> (forall c, c <> id -> peer_state j' c = peer_state j c) ->
  others (CH id) (FD id) (loop j) (loop j') -> pinv (fst (loop j')) (snd (loop j')) ->
  status (peer_state j' id) (user id) (CH id) (FD id) (chans (peer_view id j' w')) (peer_view id j' w') ->
  links user CH FD (as_served j') /\ distinct CH FD (as_served j').
Proof.
  intros Hl Hd Hp Ho Hps Hst Hot Hpi Hs.
  eapply (links_update user CH FD (as_served j) (as_served j') id (peer_conn j id) (peer_conn j' id) w' (loop j')); try done.
  - by apply as_served_lookup.
  - by rewrite gone_over.
  - by apply conns_step with w'.
  - intros l. cbn. by destruct (l =? 0).
  - by rewrite view_same.
Qed.

Lemma links_same CH FD j j' : peers j' = peers j -> loop j' = loop j -> ends j' = ends j -> over j' = over j ->
  links user CH FD (as_served j) /\ distinct CH FD (as_served j) -> links user CH FD (as_served j') /\ distinct CH FD (as_served j').
Proof.
  intros E1 E2 E3 E4. destruct j as [c p l e o], j' as [c' p' l' e' o']. cbn in *. subst. done.
Qed.

(** ** Steps *)

(** What is proved of a step: the client has done what it does alone. *)
Definition moved j j' (k : option cinput) : Prop :=
  match k with
  | None => client j' = client j
  | Some k => legal (client j) k = true /\ cexec socket connect_errno peer (client j) k = Ok (client j')
  end.

Definition stepped j j' : Prop := joined_inv j' /\ exists k, moved j j' k.

Lemma client_inv_set j c :
  joined_inv j -> client_inv c -> Clients.gone c = Clients.gone (client j) -> nextConnId_ c = nextConnId_ (client j) ->
  joined_inv (set_client c j).
Proof.
  intros [H1 H2 (CH & FD & Hl) H4 H5] Hc Hg Hn. split; cbn [set_client client loop over ends peers]; [done|done| |congruence|by rewrite Hn].
  exists CH, FD. by apply (links_same CH FD j).
Qed.

Lemma cexec_ids c i c' : cexec socket connect_errno peer c i = Ok c' ->
  match i with CEvent _ _ _ _ | CClose => True | _ => Clients.gone c' = Clients.gone c /\ nextConnId_ c' = nextConnId_ c end.
Proof.
  destruct i; cbn [cexec]; try done; intros E.
  - unfold client_connect in E. by apply res_bind_Ok in E as (x & _ & [= <-]).
  - injection E as <-. unfold client_disconnect. cbn. by destruct (connection_ c) as [[]|].
  - by injection E as <-.
  - unfold destroyClient in E. destruct (connection_ c) as [[id nm]|]; [|by injection E as <-].
    apply res_bind_Ok in E as (u & _ & [= <-]). by destruct inLoop, unique.
  - destruct (queue _) as [|t q]; [by injection E as <-|].
    destruct t; cbn [client_task released with_connector] in E;
      [destruct (released c); [done|]; by apply res_bind_Ok in E as (x & _ & [= <-])..|by injection E as <-].
  - destruct (timers _) as [|d ts]; [by injection E as <-|]. by apply res_bind_Ok in E as (x & _ & [= <-]).
Qed.

Lemma alone_inv j i :
  joined_inv j -> legal (client j) i = true -> match i with CEvent _ _ _ _ | CClose => False | _ => True end ->
  exists j', alone socket connect_errno peer i j = Ok j' /\ stepped j j'.
Proof.
  intros Hj Hl Hi. destruct (client_step socket connect_errno peer socket_ok (client j) i (ji_client _ Hj) Hl) as (c & E & Hc).
  unfold alone. rewrite E. cbn [res_bind]. eexists. split; [done|]. split; [|by exists (Some i)].
  pose proof (cexec_ids _ _ _ E) as Hids. apply client_inv_set; try done; destruct i; by destruct Hids.
Qed.

(** A connection is stored with what its step made of the loop. *)
Lemma put_inv CH FD j id w w' :
  joined_inv j -> links user CH FD (as_served j) -> distinct CH FD (as_served j) -> peers j !! id = Some w ->
  status (peer_state j id) (user id) (CH id) (FD id) (chans (peer_view id j w)) w' -> joined_inv (put id w' j).
Proof.
  intros Hj Hl Hd Hw Hst. pose proof (status_others _ _ _ _ _ _ Hst) as (Ho & _ & Hp).
  assert (forall id0, is_Some (<[id := w']> (peers j) !! id0) <-> 1 <= id0 < nextConnId_ (client j)) as Hdom.
  { intros id0. rewrite <- (ji_peers _ Hj). destruct (decide (id0 = id)) as [->|]; [|by rewrite lookup_insert_ne].
    rewrite lookup_insert_eq, Hw. by split. }
  destruct (is_over id j) eqn:Hov.
  - assert (peer_state j id = Servers.Destroyed) as Hst' by (unfold peer_state; by rewrite Hov). rewrite Hst' in *.
    unfold put. rewrite Hov. split; cbn [client loop over ends peers]; try apply Hj; [|exact Hdom]. exists CH, FD.
    destruct (links_gone user CH FD (as_served j) id (peer_conn j id) w' Hl Hd) as [Hl' Hd'].
    { apply as_served_lookup. by rewrite Hw. }
    { by rewrite gone_over. }
    { by eapply status_rebase. }
    replace (as_served _) with (set_world id w' (as_served j)); [done|]. unfold set_world, as_served. cbn. f_equal. f_equal.
    apply map_eq. intros c. rewrite !map_lookup_imap. cbn. destruct (decide (c = id)) as [->|Hne].
    + by rewrite Hw, lookup_insert_eq.
    + by rewrite lookup_insert_ne.
  - assert (pinv (fst (chans w')) (snd (chans w'))) as Hp'.
    { unfold peer_state in Hp. rewrite Hov in Hp. destruct (bool_decide (id ∈ ends j)); by destruct Hp. }
    assert (loop (put id w' j) = chans w') as Hlp by (unfold put; by rewrite Hov).
    assert (chans (peer_view id j w) = loop j) as Hv by (unfold peer_view; by rewrite Hov).
    rewrite Hv in *. split; [apply Hj|by rewrite Hlp| |apply (ji_gone _ Hj)|exact Hdom]. exists CH, FD.
    apply (links_step CH FD j _ id w'); try done; try (by rewrite Hlp).
    assert (peer_view id (put id w' j) w' = w') as ->.
    { unfold peer_view, is_over. cbn [over put]. fold (is_over id j). rewrite Hov, Hlp. apply on_chans_same. }
    by eapply status_rebase.
Qed.

Lemma peer_enabled_ok j id ch fd (s1 : store * P) w i :
  status (peer_state j id) (user id) ch fd s1 w -> peer_enabled id j w i -> TcpConn.enabled ch fd w i.
Proof.
  intros Hst He. apply (conn_enabled_ok user id (peer_conn j id) ch fd s1 w i Hst). destruct i; try done.
  unfold conn_enabled. by rewrite gone_over.
Qed.

(** The close callback of the connection that is up. *)
Lemma closeCallback_ok j id :
  joined_inv j -> fst <$> connection_ (client j) = Some id -> Clients.channel_ (connector_ (client j)) = None ->
  exists c, legal (client j) CClose = true /\ cexec socket connect_errno peer (client j) CClose = Ok c /\ client_inv c /\
    Clients.gone c = Clients.gone (client j) ++ [id] /\ nextConnId_ c = nextConnId_ (client j) /\
    (forall j', client j' = client j -> closeCallback socket connect_errno id j' = Ok (set_ends (ends j' ++ [id]) (over j') (set_client c j'))).
Proof.
  intros Hj Hid Hch. destruct (close_step socket connect_errno peer socket_ok (client j) (ji_client _ Hj) Hch) as (c & E & Hc).
  exists c. split; [by apply bool_decide_true|]. split; [done|]. split; [done|]. pose proof E as E'. cbn [cexec] in E'.
  destruct (connection_ (client j)) as [[id' nm]|] eqn:Ec; [|done]. cbn in Hid. injection Hid as ->.
  assert (Clients.gone c = Clients.gone (client j) ++ [id] /\ nextConnId_ c = nextConnId_ (client j)) as [Hg Hn].
  { destruct (detached (client j)); [by injection E' as <-|]. unfold client_removeConnection in E'.
    destruct (client_alive _); [|done]. apply res_bind_Ok in E' as (u & _ & E').
    destruct (_ && _); [by apply res_bind_Ok in E' as (x & _ & [= <-])|by injection E' as <-]. }
  split; [done|]. split; [done|]. intros j' Hj'. unfold closeCallback. by rewrite Hj', E'.
Qed.

Lemma peer_step_inv j id i :
  joined_inv j -> is_Some (peers j !! id) -> jenabled j (JConn id i) ->
  safe (peer_step socket connect_errno write user id i j) (stepped j).
Proof.
  intros Hj Hp (_ & He & Hch). destruct (ji_links _ Hj) as (CH & FD & Hl & Hd).
  destruct (thePeer_ok CH FD j id Hl Hp) as (w & Hw & Ew & Hfd & Hst). unfold peer_step. rewrite Ew. cbn [res_bind].
  pose proof (peer_enabled_ok _ _ _ _ _ _ _ Hst (He _ Ew)) as He'.
  eapply safe_bind'; [by eapply conn_exec_status|]. intros w' Hw'. cbn beta in Hw'. pose proof (status_state _ _ _ _ _ _ Hst) as Hdn.
  destruct Hw' as [Hw'|(Hup & Hmc & Hw')]; pose proof (status_state _ _ _ _ _ _ Hw') as Hdn'; rewrite Hdn, Hdn'.
  - rewrite andb_negb_l. cbn [safe]. split; [by eapply put_inv|by exists None].
  - rewrite Hup. cbn [negb is_down andb]. pose proof (up_id j id Hj Hp Hup) as Hid.
    destruct (closeCallback_ok j id Hj Hid (Hch Hmc)) as (c & Hlg & E & Hc & Hg & Hn & Hcb).
    rewrite Hcb by done. cbn [safe]. assert (is_over id j = false /\ id ∉ ends j) as [Hov Hne].
    { unfold peer_state in Hup. destruct (is_over id j); [done|]. by case_bool_decide. }
    pose proof (status_others _ _ _ _ _ _ Hw') as (Ho & _ & Hpi & _).
    assert (chans (peer_view id j w) = loop j) as Hv by (unfold peer_view; by rewrite Hov). rewrite Hv in *.
    assert (forall e o c, loop (set_ends e o (set_client c (put id w' j))) = chans w') as Hlp by (intros; cbn; by rewrite Hov).
    split; [|by exists (Some CClose)]. split.
    + done.
    + by rewrite Hlp.
    + exists CH, FD. apply (links_step CH FD j _ id w'); try done; rewrite ?Hlp; try done.
      * intros c2 Hc2. unfold peer_state, is_over. cbn [over ends put set_ends set_client]. destruct (bool_decide (c2 ∈ over j)); [done|].
        rewrite (bool_decide_ext (c2 ∈ ends j ++ [id]) (c2 ∈ ends j)); [done|]. rewrite elem_of_app, list_elem_of_singleton. tauto.
      * unfold peer_state, peer_view, is_over. cbn [over ends put set_ends set_client loop]. fold (is_over id j). rewrite Hov.
        rewrite bool_decide_true by (apply elem_of_app; right; by left). rewrite on_chans_same. by eapply status_rebase.
    + cbn [set_ends set_client client put ends over]. by rewrite Hg, (ji_gone _ Hj), app_assoc.
    + cbn [set_ends set_client client put peers]. intros id0. rewrite Hn, <- (ji_peers _ Hj). destruct (decide (id0 = id)) as [->|]; [|by rewrite lookup_insert_ne].
      rewrite lookup_insert_eq, Hw. by split.
Qed.

Lemma ask_inv j b a :
  joined_inv j -> api_ok a -> safe (ask write user b a j) (fun j' => joined_inv j' /\ client j' = client j).
Proof.
  intros Hj Ha. unfold ask. destruct (connection_ (client j)) as [[id nm]|] eqn:Ec; [|done].
  destruct (ji_links _ Hj) as (CH & FD & Hl & Hd). destruct (id_up j id nm Hj Ec) as [Hp Hup].
  destruct (thePeer_ok CH FD j id Hl Hp) as (w & Hw & -> & Hfd & Hst). cbn [res_bind]. pose proof Hst as Hlv. rewrite Hup in Hlv.
  eapply safe_bind'; [exact (call_api_live (write id) (user id) (CH id) (FD id) _ Hfd (Hwrite id) b a _ Ha Hlv)|].
  intros w' Hw'. cbn [safe]. split; [|done]. eapply put_inv; try done. by rewrite Hup.
Qed.

Lemma disconnect_inv j b : joined_inv j -> legal (client j) CDisconnect = true ->
  safe (disconnect write user b j) (stepped j).
Proof.
  intros Hj Hl. destruct (alone_inv j CDisconnect Hj Hl I) as (j1 & E & H1 & _). injection E as <-.
  unfold disconnect. eapply safe_mono; [by apply ask_inv|]. intros j' [Hj' Hc]. split; [done|]. exists (Some CDisconnect). cbn. by rewrite Hc.
Qed.

Lemma destroy_inv j b u : joined_inv j -> legal (client j) (CDestroy b u) = true ->
  safe (destroy write user b u j) (stepped j).
Proof.
  intros Hj Hl. destruct (client_step socket connect_errno peer socket_ok (client j) _ (ji_client _ Hj) Hl) as (c & E & Hc).
  pose proof (cexec_ids _ _ _ E) as [Hg Hn]. unfold destroy. cbn [cexec] in E. rewrite E. cbn [res_bind].
  assert (safe (if u then ask write user b ForceClose j else Ok j) (fun j' => joined_inv j' /\ client j' = client j)) as Hs.
  { destruct u; [by apply ask_inv|done]. }
  eapply safe_bind'; [exact Hs|]. intros j' [Hj' Hc']. cbn [safe]. split.
  - apply client_inv_set; try done; by rewrite Hc'.
  - by exists (Some (CDestroy b u)).
Qed.

Lemma new_id j : joined_inv j ->
  (nextConnId_ (client j) ∉ over j) /\ (nextConnId_ (client j) ∉ ends j) /\ peers j !! nextConnId_ (client j) = None.
Proof.
  intros Hj. assert (nextConnId_ (client j) ∉ Clients.gone (client j)) as Hn.
  { intros Hin. assert (nextConnId_ (client j) ∈ seqZ 1 (nextConnId_ (client j) - 1)) as Hs%elem_of_seqZ; [|lia].
    rewrite <- (ci_ids _ (ji_client _ Hj)). apply elem_of_app. by left. }
  rewrite (ji_gone _ Hj), elem_of_app in Hn. split_and!; [tauto..|].
  apply eq_None_not_Some. rewrite (ji_peers _ Hj). lia.
Qed.

Lemma newPeer_inv j c ch fd :
  joined_inv j -> client_newConnection peer (client j) = Ok c -> client_inv c -> 0 <= fd -> start_ok ch fd (loop j) ->
  (forall a k, fst (loop j) !! a = Some k -> fd_ k <> fd) ->
  safe (newPeer peer write user ch fd j) (fun j' => joined_inv j' /\ client j' = c).
Proof.
  intros Hj E Hc Hfd Hstart Hfds. destruct (new_id j Hj) as (Hno & Hne & Hnone). destruct (ji_links _ Hj) as (CH & FD & Hl & Hd).
  unfold newPeer. set (id := nextConnId_ (client j)) in *. rewrite E. cbn [res_bind].
  pose proof (newWorld_fresh (user id) ch fd (loop j) Hstart) as Hf.
  eapply safe_bind'; [exact (connectEstablished_live (write id) (user id) ch fd (loop j) Hfd (Hwrite id) (Huser id) _ Hf)|].
  intros w Hlv. cbn [safe]. split; [|done]. change (live (user id) ch fd (loop j) w) with (status Servers.Connected (user id) ch fd (loop j) w) in Hlv.
  assert (Clients.gone c = Clients.gone (client j) /\ nextConnId_ c = id + 1) as [Hg Hn].
  { unfold client_newConnection in E. destruct (client_alive _); [|done]. by injection E as <-. }
  assert (is_over id j = false) as Hov by (by apply bool_decide_false).
  set (j' := put id w (set_client c j)). assert (loop j' = chans w) as Hlp by (cbn [loop j' put]; change (is_over id (set_client c j)) with (is_over id j); by rewrite Hov).
  assert (peer_state j' id = Servers.Connected) as Hst.
  { unfold peer_state. change (is_over id j') with (is_over id j). rewrite Hov. cbn. by rewrite bool_decide_false. }
  pose proof (status_others _ _ _ _ _ _ Hlv) as (Ho & _ & Hp & _). split.
  - done.
  - by rewrite Hlp.
  - eapply (links_new user CH FD (as_served j) (as_served j') id (peer_conn j' id) w (chans w) ch fd Hl Hd).
    + cbn. by rewrite map_lookup_imap, Hnone.
    + by apply (conns_step j j' id w).
    + rewrite gone_over. exact Hov.
    + cbn. by rewrite lookup_insert_eq.
    + intros c' Hc'. cbn. by rewrite lookup_insert_ne.
    + intros l. cbn [as_served loops peer_conn c_loop]. rewrite Hlp. by destruct (l =? 0).
    + done.
    + done.
    + done.
    + cbn. by destruct Hstart as (_ & ? & _).
    + done.
    + rewrite view_same. cbn [peer_conn c_state]. rewrite Hst. unfold peer_view. change (is_over id j') with (is_over id j).
      rewrite Hov, Hlp, on_chans_same. by eapply status_rebase.
  - cbn. by rewrite Hg, (ji_gone _ Hj).
  - intros id0. cbn. rewrite Hn. destruct (decide (id0 = id)) as [->|Hi].
    + rewrite lookup_insert_eq. pose proof (ci_next _ (ji_client _ Hj)). split; [lia|by eexists].
    + rewrite lookup_insert_ne, (ji_peers _ Hj) by done. lia.
Qed.

Lemma connector_event_inv j ch e (wr : bool) err self :
  joined_inv j -> jenabled j (JEvent ch e wr err self) ->
  safe (connector_event peer write user ch e wr err self j) (stepped j).
Proof.
  intros Hj [Hlg He]. specialize (Hlg _ eq_refl).
  destruct (event_step socket connect_errno peer (client j) e wr err self (ji_client _ Hj)) as (c & E & Hc).
  pose proof E as E'. cbn [cexec] in E'. unfold connector_event.
  destruct (Clients.channel_ (connector_ (client j))) as [[fd0 []]|] eqn:Ech; [|by split; [|exists None]..].
  destruct (event_connector (client j) fd0 e wr err self (ji_client _ Hj) Ech) as (x & sock & Eh & Hx & _).
  rewrite Eh in E' |- *. cbn [res_bind] in E' |- *. destruct sock as [fd|].
  - destruct (He x fd Eh) as (Hfd & Hs & Hf).
    assert (joined_inv (set_client (with_connector x (client j)) j)) as Hj1 by (by apply client_inv_set).
    eapply safe_mono; [by eapply newPeer_inv|]. intros j' [Hj' <-]. split; [done|]. by exists (Some (CEvent e wr err self)).
  - injection E' as <-. cbn [safe]. split; [by apply client_inv_set|]. by exists (Some (CEvent e wr err self)).
Qed.

Lemma run_end_inv j : joined_inv j -> safe (run_end write user j) (stepped j).
Proof.
  intros Hj. destruct (ji_links _ Hj) as (CH & FD & Hl & Hd). unfold run_end.
  destruct (ends j) as [|id rest] eqn:He; [by split; [|exists None]|].
  pose proof (ids_NoDup _ (ji_client _ Hj)) as Hnd. rewrite (ji_gone _ Hj), He in Hnd. apply NoDup_app in Hnd as (Hnd & _ & _).
  apply NoDup_app in Hnd as (_ & Hoe & [Hnr _]%NoDup_cons).
  assert (id ∉ over j) as Hno by (intros Hin; apply (Hoe id Hin); by left).
  assert (is_over id j = false) as Hov by (by apply bool_decide_false).
  assert (is_Some (peers j !! id)) as Hp.
  { apply (ji_peers _ Hj). assert (id ∈ seqZ 1 (nextConnId_ (client j) - 1)) as Hin%elem_of_seqZ; [|lia].
    rewrite <- (ci_ids _ (ji_client _ Hj)), (ji_gone _ Hj), He. apply elem_of_app. left. apply elem_of_app. right. by left. }
  destruct (thePeer_ok CH FD j id Hl Hp) as (w & Hw & -> & Hfd & Hst). cbn [res_bind].
  assert (peer_state j id = Disconnected) as Hps by (unfold peer_state; rewrite Hov, He; by rewrite bool_decide_true by left).
  assert (chans (peer_view id j w) = loop j) as Hv by (unfold peer_view; by rewrite Hov). rewrite Hv, Hps in Hst.
  eapply safe_bind'; [by apply connectDestroyed_status|]. intros w' [Hch Hst']. cbn beta. rewrite Hch.
  destruct (gone_others _ _ _ _ (proj2 Hst')) as [Ho Hpi]. cbn [safe]. split; [|by exists None].
  split; cbn [client loop over ends peers]; [apply Hj|done| |by rewrite (ji_gone _ Hj), He, <- app_assoc|].
  - exists CH, FD. apply (links_step CH FD j _ id w'); try done.
    + intros c Hc. unfold peer_state, is_over. cbn [over ends]. rewrite He.
      rewrite (bool_decide_ext (c ∈ over j ++ [id]) (c ∈ over j)) by (rewrite elem_of_app, list_elem_of_singleton; tauto).
      by rewrite (bool_decide_ext (c ∈ rest) (c ∈ id :: rest)) by (rewrite elem_of_cons; tauto).
    + unfold peer_state, peer_view, is_over. cbn [over]. rewrite bool_decide_true by (apply elem_of_app; right; by left). by eapply status_rebase.
  - intros id0. rewrite <- (ji_peers _ Hj). destruct (decide (id0 = id)) as [->|]; [|by rewrite lookup_insert_ne].
    rewrite lookup_insert_eq, Hw. by split.
Qed.

Lemma jexec_inv j i :
  joined_inv j -> jenabled j i -> safe (jexec socket connect_errno peer write user j i) (stepped j).
Proof.
  intros Hj He. pose proof He as [Hlg _].
  assert (forall k, client_input i = Some k -> match k with CEvent _ _ _ _ | CClose => False | _ => True end ->
    safe (alone socket connect_errno peer k j) (stepped j)) as Ha.
  { intros k Hk Hc. destruct (alone_inv j k Hj (Hlg _ Hk) Hc) as (j' & -> & Hs). done. }
  destruct i; cbn [jexec].
  - by apply Ha.
  - apply disconnect_inv; [done|by apply Hlg].
  - by apply Ha.
  - apply destroy_inv; [done|by apply Hlg].
  - by apply Ha.
  - by apply Ha.
  - by apply connector_event_inv.
  - destruct (peers j !! id) eqn:Hp; [|by split; [|exists None]]. apply peer_step_inv; [done|by rewrite Hp|done].
  - by apply run_end_inv.
Qed.

(** *** A client that is gone *)

(** Functors are queued behind those that are queued. *)
Definition queues_more w w' : Prop := exists ts, pending w' = pending w ++ ts.

Lemma queues_refl w : queues_more w w.
Proof. exists []. by rewrite app_nil_r. Qed.

Lemma queues_trans w1 w2 w3 : queues_more w1 w2 -> queues_more w2 w3 -> queues_more w1 w3.
Proof. intros [t1 E1] [t2 E2]. exists (t1 ++ t2). by rewrite E2, E1, app_assoc. Qed.

Lemma queues_same w w' : pending w' = pending w -> queues_more w w'.
Proof. intros E. exists []. by rewrite E, app_nil_r. Qed.

Lemma withChannel_queues f w w' : withChannel f w = Ok w' -> pending w' = pending w.
Proof. intros E. by apply res_bind_Ok in E as (s & _ & [= <-]). Qed.

Lemma sendInLoop_queues wr u data w w' : sendInLoop wr u data w = Ok w' -> queues_more w w'.
Proof.
  unfold sendInLoop. destruct (disconnected _); [intros [= <-]; apply queues_refl|]. intros E. apply res_bind_Ok in E as (c & _ & E).
  destruct (if negb (isWriting c) && _ then _ else _) as [[[w1 n] rem] fe] eqn:Ew.
  assert (queues_more w w1) as H1.
  { clear E. destruct (negb (isWriting c) && _); [|injection Ew as <- _ _ _; by apply queues_same].
    unfold tryWrite in Ew. destruct (wr _ data) as [k|k]; [|injection Ew as <- _ _ _; by apply queues_same].
    injection Ew as <- _ _ _. destruct (_ && _); [by exists [TWriteComplete]|by apply queues_same]. }
  apply res_bind_Ok in E as (v & _ & E). eapply queues_trans; [exact H1|]. destruct (negb fe && _).
  - apply res_bind_Ok in E as (out & _ & E). set (w2 := if ((_ <=? _) && (_ <? _) && _ : bool) then queueTask (THighWater _) w1 else w1) in E.
    assert (queues_more w1 w2) as H2 by (clear; unfold w2; case_match; [by exists [THighWater (u64 (readableBytes (outputBuffer_ (conn w1)) + rem))]|apply queues_refl]).
    eapply queues_trans; [exact H2|]. destruct (negb (isWriting c)); [|injection E as <-; by apply queues_same].
    apply withChannel_queues in E. by apply queues_same.
  - injection E as <-. destruct fe; by apply queues_same.
Qed.

Lemma shutdownInLoop_queues w w' : shutdownInLoop w = Ok w' -> queues_more w w'.
Proof.
  unfold shutdownInLoop. intros E. apply res_bind_Ok in E as (c & _ & E). destruct (negb _); injection E as <-; by apply queues_same.
Qed.

Lemma call_api_queues wr u b a w w' : api_ok a -> call_api wr u b w a = Ok w' -> queues_more w w'.
Proof.
  intros Ha. destruct a; try done; cbn [call_api].
  - unfold send. destruct (connected _); [|intros [= <-]; apply queues_refl].
    destruct b; [apply sendInLoop_queues|intros [= <-]; eexists; reflexivity].
  - unfold send_input. destruct (connected _); [|intros [= <-]; apply queues_refl]. intros E.
    destruct b; apply res_bind_Ok in E as (d & _ & E).
    + apply res_bind_Ok in E as (w1 & E1 & [= <-]). eapply queues_trans; [by eapply sendInLoop_queues|by apply queues_same].
    + destruct d. injection E as <-. eexists; reflexivity.
  - unfold shutdown. destruct (connected _); [|intros [= <-]; apply queues_refl].
    destruct b; [intros E; by apply shutdownInLoop_queues in E|intros [= <-]; eexists; reflexivity].
  - intros [= <-]. unfold forceClose. destruct (state_ _); [apply queues_refl|apply queues_refl|(eexists; reflexivity)..].
  - intros [= <-]. unfold forceCloseWithDelay. destruct (state_ _); by apply queues_same.
Qed.

Lemma run_script_queues wr u ops w w' : Forall api_ok ops -> run_script wr u ops w = Ok w' -> queues_more w w'.
Proof.
  intros Ha. unfold run_script. revert w. induction Ha as [|a ops Ha _ IH]; intros w; cbn [res_fold]; [intros [= <-]; apply queues_refl|].
  intros E. apply res_bind_Ok in E as (w1 & E1 & E). eapply queues_trans; [by eapply call_api_queues|by apply IH].
Qed.

Lemma run_task_queues c t w w' :
  task_ok (user c) t -> is_life t = false -> t <> TForceCloseInLoop -> run_task (write c) (user c) t w = Ok w' -> queues_more w w'.
Proof.
  intros Ht Hl Hn. destruct (Huser c) as (_ & _ & Hwc & Hhw). destruct t; try done; cbn [run_task].
  - apply sendInLoop_queues.
  - apply shutdownInLoop_queues.
  - unfold optionalCallback. destruct (onWriteComplete (user c)) as [f|]; [|done]. intros E.
    eapply queues_trans; [|eapply run_script_queues; [|exact E]; by apply Hwc]. by apply queues_same.
  - unfold optionalCallback. destruct (onHighWaterMark (user c)) as [f|]; [|done]. intros E.
    eapply queues_trans; [|eapply run_script_queues; [|exact E]; by apply Hhw]. by apply queues_same.
Qed.

Lemma forceCloseInLoop_closes c w w' :
  forceCloseInLoop (write c) (user c) w = Ok w' -> isLive (state_ (conn w)) -> disconnected (conn w') = true.
Proof.
  intros E Hl. assert (handleClose (write c) (user c) w = Ok w') as E'.
  { unfold forceCloseInLoop in E. by destruct Hl as [Hl|Hl]; rewrite Hl in E. }
  apply res_bind_Ok in E' as (v & _ & E'). apply res_bind_Ok in E' as (w1 & E1 & E'). apply res_bind_Ok in E' as (w2 & E2 & [= <-]).
  apply res_bind_Ok in E1 as (s & _ & [= <-]). unfold connectionCallback in E2.
  rewrite run_script_closed in E2; [|apply (proj1 (Huser c))|done]. by injection E2 as <-.
Qed.

(** A connection told to close does so when the functors queued before have run. *)
Record leaving (id : Z) (n : nat) j : Prop := {
  lv_inv : joined_inv j;
  lv_channel : Clients.channel_ (connector_ (client j)) = None;
  lv_detached : detached (client j) = true;
  lv_dead : client_alive (client j) = false;
  lv_peer : is_Some (peers j !! id);
  lv_left : peer_state j id = Servers.Connected ->
    exists w pre post, peers j !! id = Some w /\ pending w = pre ++ TForceCloseInLoop :: post /\ (length pre < n)%nat;
}.

Lemma leaving_step id n j : leaving id (S n) j ->
  safe (jexec socket connect_errno peer write user j (JConn id ITask)) (leaving id n).
Proof.
  intros [Hj Hch Hdt Hdd Hp Hleft]. assert (jenabled j (JConn id ITask)) as He by (by split_and!).
  pose proof (jexec_inv j _ Hj He) as Hst. destruct (jexec _ _ _ _ _ j _) as [j'|] eqn:E; [|done].
  destruct Hst as [Hj' _]. cbn [safe jexec] in *. destruct (peers j !! id) as [w|] eqn:Hw; [|by apply is_Some_None in Hp].
  unfold peer_step, thePeer in E. rewrite Hw in E. cbn [res_bind] in E. apply res_bind_Ok in E as (w' & Ex & E).
  destruct (negb (disconnected (conn (peer_view id j w))) && disconnected (conn w')) eqn:Hdn.
  - unfold ClientConns.closeCallback in E. cbn [put client] in E. rewrite Hdt in E. injection E as <-.
    split; try done; [cbn; by rewrite lookup_insert_eq|]. intros Hup. exfalso. unfold peer_state in Hup. destruct (is_over _ _); [done|].
    cbn in Hup. by rewrite bool_decide_true in Hup by (apply elem_of_app; right; by left).
  - injection E as <-. split; try done; [cbn; by rewrite lookup_insert_eq|]. intros Hup. change (peer_state j id = Servers.Connected) in Hup.
    destruct (Hleft Hup) as (w0 & pre & post & [= <-] & Hpd & Hn). destruct (ji_links _ Hj) as (CH & FD & Hl & _).
    destruct (thePeer_ok CH FD j id Hl ltac:(by rewrite Hw)) as (w0 & Hw0 & _ & Hfd & Hs). rewrite Hw in Hw0. injection Hw0 as <-.
    rewrite Hup in Hs. pose proof Hs as ((_ & _ & _ & _ & Htok) & Hlive & Hlt & _).
    set (wv := peer_view id j w) in *. assert (pending wv = pre ++ TForceCloseInLoop :: post) as Hpv
      by (unfold wv, peer_view; by destruct (is_over id j)).
    rewrite (status_state Servers.Connected _ _ _ _ _ Hs) in Hdn. cbn [is_down negb andb] in Hdn.
    assert (forall ts, forceCloseInLoop (write id) (user id) (set_pending ts wv) = Ok w' -> False) as Hcl.
    { intros ts Ef. pose proof (forceCloseInLoop_closes id _ _ Ef Hlive). congruence. }
    rewrite Hpv in Htok, Hlt. cbn [conn_exec] in Ex. rewrite Hpv in Ex. destruct pre as [|t pre]; [by destruct (Hcl _ Ex)|].
    cbn [app] in *. apply Forall_cons in Htok as [Ht _]. assert (is_life t = false) as Hlf by (by destruct t).
    cbn [next_own] in Ex. rewrite Hlf in Ex. assert (t = TForceCloseInLoop \/ t <> TForceCloseInLoop) as [->|Hne]
      by (destruct t; (by left) || (by right)); [by destruct (Hcl _ Ex)|].
    destruct (run_task_queues id t _ w' Ht Hlf Hne Ex) as [ts Hq]. cbn in Hq, Hn. exists w', pre, (post ++ ts).
    cbn [put peers]. rewrite lookup_insert_eq, Hq, <- app_assoc. split_and!; [done..|lia].
Qed.

Lemma leaving_run id n j : leaving id n j ->
  safe (res_fold (jexec socket connect_errno peer write user) j (replicate n (JConn id ITask))) (leaving id 0).
Proof.
  revert j. induction n as [|n IH]; intros j Hj; [done|].
  cbn [replicate res_fold]. eapply safe_bind'; [by apply leaving_step|]. exact IH.
Qed.

Lemma leaving_end id n m j :
  leaving id n j -> length (ends j) = m ->
  safe (res_fold (jexec socket connect_errno peer write user) j (replicate m JEnd)) (fun j' => leaving id n j' /\ ends j' = []).
Proof.
  revert j. induction m as [|m IH]; intros j Hlv Hm; [split; [done|by apply nil_length_inv]|].
  cbn [replicate res_fold]. apply (safe_bind' _ _ (fun j' => leaving id n j' /\ length (ends j') = m)); [|intros j' [Hj' Hm']; by apply IH].
  pose proof Hlv as [Hj Hch Hdt Hdd Hp Hleft]. pose proof (run_end_inv j Hj) as Hs. cbn [jexec].
  destruct (run_end write user j) as [j'|] eqn:E; [|done]. cbn [safe] in *. destruct Hs as [Hj' _]. unfold run_end in E.
  destruct (ends j) as [|e es] eqn:He; [done|]. apply res_bind_Ok in E as (w & _ & E). apply res_bind_Ok in E as (w' & _ & [= <-]).
  cbn in Hm. split; [|cbn; lia]. split; try done; cbn [peers].
  - destruct (decide (id = e)) as [->|]; [by rewrite lookup_insert_eq|by rewrite lookup_insert_ne].
  - intros Hup. unfold peer_state, is_over in Hup. cbn [over ends] in Hup.
    case_bool_decide as Ho; [done|]. case_bool_decide as Hes; [done|]. rewrite elem_of_app, list_elem_of_singleton in Ho.
    rewrite lookup_insert_ne by (intros ->; tauto). apply Hleft. unfold peer_state, is_over. rewrite He.
    rewrite !bool_decide_false; [done|rewrite elem_of_cons; tauto|tauto].
Qed.

(** Runs. *)
Inductive joined_reach (j0 : joined) : joined -> Prop :=
| jr_start : joined_reach j0 j0
| jr_step j i j' : joined_reach j0 j -> jenabled j i -> jexec socket connect_errno peer write user j i = Ok j' -> joined_reach j0 j'.

Definition beginJoined (name : list byte) (r : bool) : joined := mkJoined (newClient name r) ∅ s0 [] [].

Lemma begin_joined name r : pinv (fst s0) (snd s0) -> joined_inv (beginJoined name r).
Proof.
  intros Hs. split; cbn; [apply newClient_inv|done| |done|].
  - exists (fun _ => 0), (fun _ => 0). split.
    + intros c x Hx. apply as_served_lookup in Hx as [_ Hx]. cbn in Hx. rewrite lookup_empty in Hx. by apply is_Some_None in Hx.
    + intros c1 c2 x1 x2 _ Hx. apply as_served_lookup in Hx as [_ Hx]. cbn in Hx. rewrite lookup_empty in Hx. by apply is_Some_None in Hx.
  - intros id. rewrite lookup_empty. split; [by intros ?%is_Some_None|lia].
Qed.

Lemma joined_reach_inv name r j :
  pinv (fst s0) (snd s0) -> joined_reach (beginJoined name r) j ->
  joined_inv j /\ exists evs, legal_run socket connect_errno peer (newClient name r) evs = true /\
    res_fold (cexec socket connect_errno peer) (newClient name r) evs = Ok (client j).
Proof.
  intros Hs Hr. induction Hr as [|j i j' _ [Hj (evs & Hl & E)] He Ex]; [by split; [apply begin_joined|exists []]|].
  pose proof (jexec_inv j i Hj He) as Hst. rewrite Ex in Hst. destruct Hst as [Hj' [k Hk]]. split; [done|].
  destruct k as [k|]; [|exists evs; cbn in Hk; by rewrite Hk]. destruct Hk as [Hlg Hc]. exists (evs ++ [k]). split.
  - clear Ex He Hj Hj'. revert E Hl. generalize (newClient name r). induction evs as [|e evs IH]; intros c E Hl; cbn [app legal_run res_fold] in *.
    + injection E as ->. by rewrite Hlg, Hc.
    + apply andb_prop in Hl as [-> Hl]. destruct (cexec _ _ _ c e) as [c1|]; [|done]. by apply IH.
  - by rewrite res_fold_app, E; cbn; rewrite Hc.
Qed.
End Properties.

(** ** Theorems *)

Section Theorems.
Context {P : Type} `{PollerSpec P}.
Context (socket : nat -> Z) (connect_errno : nat -> Z) (peer : list byte).
Context (write : Z -> nat -> list byte -> Z + Z) (user : Z -> Handlers) (s0 : store * P).
Context (name : list byte) (r : bool).
Hypothesis socket_ok : forall k, 0 <= socket k.
Hypothesis Hwrite : forall c, write_ok (write c).
Hypothesis Huser : forall c, user_ok (user c).
Hypothesis Hstart : pinv (fst s0) (snd s0).

Local Abbreviation run := (jexec socket connect_errno peer write user).
Local Abbreviation reaches := (joined_reach socket connect_errno peer write user (beginJoined s0 name r)).

(** C13: A client together with its connections, of which the next may be up before the
    last is destroyed: whatever the sockets, the peers, the users and other threads
    do, and in any order of events, functors, retries and calls of a client used as
    [legal] says, no assert of the client, the connector, a connection or its channel
    fails and nothing freed is used; only memory may run out.  [legal] allows [connect]
    only when nothing is under way and no retry is pending, and the destructor only in
    the loop and, with a connection, only once the connector has neither a channel nor
    anything queued; and what is done to a connection is what [TcpConn.enabled]
    allows: no startRead or stopRead, and no [shutdown] or [forceClose] of another
    thread that the close overtakes. *)
Theorem client_conns_never_fault j i :
  reaches j -> jenabled j i -> safe (run j i) (fun _ => True).
Proof.
  intros Hr He. destruct (joined_reach_inv _ _ _ _ _ s0 socket_ok Hwrite Huser name r j Hstart Hr) as [Hj _].
  eapply safe_mono; [by eapply jexec_inv|done].
Qed.

(** C8: The client sees of its connections what they are: every run with them is a run
    of the client alone; the connection it knows is the one that is up, and the only
    one; each has been established, closed and destroyed once, in this order, and unless
    a write has failed with EPIPE or ECONNRESET its output is, in order, what was handed
    to it.  The runs are those [jenabled] allows: the client is used as
    [legal] says, and no call of another thread is overtaken by a close. *)
Theorem client_conns_refine j :
  reaches j ->
  (exists evs, legal_run socket connect_errno peer (newClient name r) evs = true /\
     res_fold (cexec socket connect_errno peer) (newClient name r) evs = Ok (client j)) /\
  (forall id, is_Some (peers j !! id) <-> 1 <= id < nextConnId_ (client j)) /\
  (forall id w, peers j !! id = Some w ->
     life (trace w) = life_of (peer_state j id) /\
     (disconnected (conn w) = false <-> fst <$> connection_ (client j) = Some id) /\
     (WriteFault ∉ trace w -> submitted (trace w) = wrote (trace w) ++ content (outputBuffer_ (conn w)))).
Proof.
  intros Hr. destruct (joined_reach_inv _ _ _ _ _ s0 socket_ok Hwrite Huser name r j Hstart Hr) as [Hj Hevs].
  split; [done|]. split; [apply (ji_peers _ _ _ Hj)|]. intros id w Hw. destruct (ji_links _ _ _ Hj) as (CH & FD & Hl & _).
  destruct (thePeer_ok user s0 CH FD j id Hl ltac:(by rewrite Hw)) as (w0 & Hw0 & _ & _ & Hst). rewrite Hw in Hw0. injection Hw0 as <-.
  assert (trace (peer_view id j w) = trace w /\ conn (peer_view id j w) = conn w) as [Et Ec] by (unfold peer_view; by destruct (is_over id j)).
  pose proof (status_state _ _ _ _ _ _ Hst) as Hdn. rewrite Ec in Hdn. split_and!.
  - rewrite <- Et. by eapply status_life.
  - rewrite Hdn. split.
    + intros Hd. apply (up_id user s0 j id Hj); [by rewrite Hw|]. unfold peer_state in *. destruct (is_over id j); [done|].
      by destruct (bool_decide (id ∈ ends j)).
    + intros Hid. destruct (connection_ (client j)) as [[id' nm]|] eqn:Hc; [|done]. cbn in Hid. injection Hid as ->.
      by destruct (id_up user s0 j id nm Hj Hc) as [_ ->].
  - intros Hf. rewrite <- Et, <- Ec in *. destruct (status_stream _ _ _ _ _ _ Hst) as [_ Hs]. by rewrite (Hs Hf), app_nil_r.
Qed.

(** C18: The destructor of a client, in its loop, with nobody else holding the
    connection, and run when the connector has neither a channel nor anything queued
    (so not right after a [stop()], whose functor would find the connector freed): when the functors of the connection that were queued have run, it has
    closed, and when those the loop has queued then have run, it has been reported
    down once and destroyed. *)
Theorem client_destructor_closes j id nm :
  reaches j -> connection_ (client j) = Some (id, nm) -> legal (client j) (CDestroy true true) = true ->
  exists n, safe (res_fold run j (JDestroy true true :: replicate n (JConn id ITask))) (fun j1 =>
    safe (res_fold run j1 (replicate (length (ends j1)) JEnd)) (fun j' =>
      client_alive (client j') = false /\ ends j' = [] /\ (id ∈ over j') /\
      exists w, peers j' !! id = Some w /\ disconnected (conn w) = true /\
        life (trace w) = [Connection true; Connection false; TcpConn.Closed; TcpConn.Destroyed])).
Proof.
  intros Hr Hc Hlg. destruct (joined_reach_inv _ _ _ _ _ s0 socket_ok Hwrite Huser name r j Hstart Hr) as [Hj _].
  destruct (id_up user s0 j id nm Hj Hc) as [Hp Hup]. destruct (ji_links _ _ _ Hj) as (CH & FD & Hl & _).
  destruct (thePeer_ok user s0 CH FD j id Hl Hp) as (w & Hw & Ew & _ & Hst).
  exists (S (length (pending w))). cbn [res_fold].
  assert (safe (run j (JDestroy true true)) (leaving user s0 id (S (length (pending w))))) as Hd.
  { pose proof (destroy_inv socket connect_errno peer write user s0 socket_ok Hwrite j true true Hj Hlg) as Hs. cbn [jexec].
    destruct (destroy write user true true j) as [j1|] eqn:E; [|done]. cbn [safe] in *. destruct Hs as [Hj1 _].
    unfold destroy, destroyClient, ask in E. rewrite Hc in E. apply res_bind_Ok in E as (c & Ec & E).
    apply res_bind_Ok in Ec as (v & Hch & [= <-]). apply res_bind_Ok in E as (j2 & E2 & [= <-]).
    rewrite Ew in E2. cbn [res_bind call_api] in E2. injection E2 as <-. split; try done.
    - destruct (bool_decide _) eqn:Eb in Hch; [|done]. by apply bool_decide_eq_true in Eb.
    - cbn. by rewrite lookup_insert_eq.
    - intros _. rewrite Hup in Hst. pose proof Hst as (_ & Hlive & _). cbn [set_client put peers]. rewrite lookup_insert_eq.
      eexists _, (pending w), []. split; [reflexivity|]. split; [|lia]. unfold forceClose.
      assert (pending (peer_view id j w) = pending w) as Ep by (unfold peer_view; by destruct (is_over id j)).
      destruct Hlive as [-> | ->]; cbn; by rewrite Ep. }
  eapply safe_bind'; [exact Hd|]. intros j0 H0'. eapply safe_mono; [by apply leaving_run|]. intros j1 H1'.
  eapply safe_mono; [by eapply leaving_end|]. intros j' [[Hj' _ _ Hdd Hp' Hleft] He'].
  assert (id ∈ over j') as Ho.
  { unfold peer_state, is_over in Hleft. rewrite He' in Hleft. case_bool_decide as Ho; [done|].
    rewrite bool_decide_false in Hleft by apply not_elem_of_nil. destruct (Hleft eq_refl) as (? & ? & ? & _ & _ & ?). lia. }
  split_and!; try done. destruct (ji_links _ _ _ Hj') as (CH' & FD' & Hl' & _).
  destruct (thePeer_ok user s0 CH' FD' j' id Hl' Hp') as (w' & Hw' & _ & _ & Hst'). exists w'.
  unfold peer_state, peer_view, is_over in Hst'. rewrite bool_decide_true in Hst' by done.
  split; [done|]. split; [apply (status_state _ _ _ _ _ _ Hst')|apply (status_life _ _ _ _ _ _ Hst')].
Qed.
End Theorems.

(** *** Witnesses *)

(** An echoing client: it connects, gets a message, is closed by the peer, starts to
    connect again, and destroys its first connection. *)
Definition cc_socket (k : nat) : Z := 7 + Z.of_nat k.
Definition cc_errno (k : nat) : Z := EINPROGRESS.
Definition cc_peer : list byte := bytes_of_string "1.2.3.4:80".

Definition cc_steps : list jinput :=
  [JConnect true; JEvent 100 false true 0 false; JTask; JConn 1 (IEvent POLLIN (deliver [x68; x69; x21]));
   JConn 1 (IEvent POLLIN (deliver [])); JEnd].

Definition cc_begin : joined (P := PollPoller) := beginJoined TcpConn.demo_start (bytes_of_string "c") true.
Definition cc_exec : joined -> jinput -> res joined := jexec cc_socket cc_errno cc_peer (fun _ => demo_write) (fun _ => echo).
Definition cc_run (k : nat) : joined := from_res cc_begin (res_fold cc_exec cc_begin (take k cc_steps)).

Lemma cc_event k mask ev data :
  match thePeer 1 (cc_run k) with
  | Ok w => is_over 1 (cc_run k) = false /\ (exists c, theChannel w = Ok c /\ fd_ c = 7) /\ channel_ (conn w) = 100 /\
            watched (snd (chans w)) 7 = Some (100, mask)
  | Fail _ => False
  end -> event_ok mask ev -> Clients.channel_ (connector_ (client (cc_run k))) = None ->
  jenabled (cc_run k) (JConn 1 (IEvent ev (deliver data))).
Proof.
  intros Hk Hev Hc. split; [done|]. split; [|done]. intros w E. rewrite E in Hk. destruct Hk as (Ho & (c & Hc' & Hfd) & Hch & Hw).
  split; [done|]. exists c. split; [done|]. rewrite Hfd, Hch. exists mask. split_and!; [done..|apply deliver_ok].
Qed.

Lemma cc_reach k : (k <= 6)%nat ->
  joined_reach cc_socket cc_errno cc_peer (fun _ => demo_write) (fun _ => echo) cc_begin (cc_run k).
Proof.
  assert (forall j i, (j < 6)%nat -> cc_steps !! j = Some i -> cc_exec (cc_run j) i = Ok (cc_run (S j)) /\ jenabled (cc_run j) i) as Hstep.
  { intros j i Hj Hi. destruct j as [|[|[|[|[|[|j]]]]]]; [..|lia]; injection Hi as <-; (split; [vm_compute; reflexivity|]).
    - split; [|done]. by intros c [= <-].
    - split; [by intros c [= <-]|]. intros x fd E. vm_compute in E. injection E as _ <-. split; [lia|]. split; [apply demo_start_ok|].
      intros a c Hc. change (fst (loop (cc_run 1))) with (∅ : store) in Hc. by rewrite lookup_empty in Hc.
    - split; [|done]. by intros c [= <-].
    - apply (cc_event _ 3); [vm_compute; eauto 10|by split|vm_compute; reflexivity].
    - apply (cc_event _ 7); [vm_compute; eauto 10|by split|vm_compute; reflexivity].
    - done. }
  induction k as [|k IH]; intros Hk; [apply jr_start|].
  destruct (lookup_lt_is_Some_2 cc_steps k) as [i Hi]; [cbn; lia|]. destruct (Hstep k i) as [E He]; [lia|done|].
  eapply jr_step; [apply IH; lia|exact He|exact E].
Qed.

Lemma cc_socket_ok k : 0 <= cc_socket k.
Proof. unfold cc_socket. lia. Qed.

Lemma client_conns_never_fault_witness : safe (cc_exec (cc_run 5) JEnd) (fun _ => True).
Proof.
  apply (client_conns_never_fault cc_socket cc_errno cc_peer (fun _ => demo_write) (fun _ => echo) TcpConn.demo_start (bytes_of_string "c") true
    cc_socket_ok (fun _ => demo_write_ok) (fun _ => echo_ok) (demo_pinv 0) (cc_run 5) JEnd (cc_reach 5 ltac:(lia))). by split.
Defined.

Lemma client_conns_refine_witness :
  exists w, peers (cc_run 6) !! 1 = Some w /\
    life (trace w) = [Connection true; Connection false; TcpConn.Closed; TcpConn.Destroyed] /\ disconnected (conn w) = true.
Proof.
  destruct (client_conns_refine cc_socket cc_errno cc_peer (fun _ => demo_write) (fun _ => echo) TcpConn.demo_start (bytes_of_string "c") true
    cc_socket_ok (fun _ => demo_write_ok) (fun _ => echo_ok) (demo_pinv 0) (cc_run 6) (cc_reach 6 ltac:(lia))) as (_ & _ & Hall).
  destruct (peers (cc_run 6) !! 1) as [w|] eqn:Hw; [|vm_compute in Hw; discriminate Hw].
  destruct (Hall 1 w Hw) as (Hl & Hd & _). exists w. split; [done|]. split; [rewrite Hl; vm_compute; reflexivity|].
  destruct (disconnected (conn w)) eqn:E; [done|]. pose proof (proj1 Hd eq_refl) as Hc. vm_compute in Hc. discriminate Hc.
Defined.

Lemma client_destructor_closes_witness :
  exists n, safe (res_fold cc_exec (cc_run 4) (JDestroy true true :: replicate n (JConn 1 ITask))) (fun j1 =>
    safe (res_fold cc_exec j1 (replicate (length (ends j1)) JEnd)) (fun j' => 1 ∈ over j')).
Proof.
  assert (exists nm, connection_ (client (cc_run 4)) = Some (1, nm)) as [nm Hc] by (vm_compute; eauto).
  destruct (client_destructor_closes cc_socket cc_errno cc_peer (fun _ => demo_write) (fun _ => echo) TcpConn.demo_start (bytes_of_string "c") true
    cc_socket_ok (fun _ => demo_write_ok) (fun _ => echo_ok) (demo_pinv 0) (cc_run 4) 1 nm (cc_reach 4 ltac:(lia)) Hc ltac:(vm_compute; reflexivity))
    as [n Hn].
  exists n. eapply safe_mono; [exact Hn|]. intros j1 H1. eapply safe_mono; [exact H1|]. by intros j' (_ & _ & Ho & _).
Defined.
