(* ===== verification/Addresses.v ===== *)
(** * Socket addresses (src/src/muduo/net/InetAddress.cc, SocketsOps.cc)

    An address is the 28 bytes of the union of [sockaddr_in] and [sockaddr_in6],
    with the family at offset 0 and the port at offset 2 in both, as the static
    asserts of the source say.  inet_ntop, inet_pton and gethostbyname_r are
    parameters. *)

From S2P Require Import Prelude Endian Formats.

Definition AF_INET : Z := 2.
Definition AF_INET6 : Z := 10.
Definition INET_ADDRSTRLEN : Z := 16.
Definition INET6_ADDRSTRLEN : Z := 46.

(** The bytes of the union. *)
Abbreviation InetAddress := (list byte).

Definition sizeof_in : nat := 16.
Definition sizeof_in6 : nat := 28.

(** [memZero(&a, n)] and a store of bytes at an offset. *)
Definition memZero (n : nat) (a : InetAddress) : InetAddress := replicate n x00 ++ drop n a.
Definition set_at (i : nat) (d : list byte) (a : InetAddress) : InetAddress :=
  take i a ++ d ++ drop (i + length d) a.
Definition get_at (i n : nat) (a : InetAddress) : list byte := take n (drop i a).

Definition family (a : InetAddress) : Z := le_value (get_at 0 2 a).
Definition portNetEndian (a : InetAddress) : Z := le_value (get_at 2 2 a).
Definition toPort (a : InetAddress) : Z := networkToHost16 (portNetEndian a).

(** [sin_addr] and [sin6_addr]. *)
Definition sin_addr (a : InetAddress) : list byte := get_at 4 4 a.
Definition sin6_addr (a : InetAddress) : list byte := get_at 8 16 a.

Definition set_family (f : Z) (a : InetAddress) : InetAddress := set_at 0 (le_bytes 2 f) a.
Definition set_port (port : Z) (a : InetAddress) : InetAddress := set_at 2 (le_bytes 2 (hostToNetwork16 port)) a.

Definition ipNetEndian (a : InetAddress) : res Z :=
  assert! family a =? AF_INET ;; Ok (le_value (sin_addr a)).

Definition kInaddrAny : Z := 0.
Definition kInaddrLoopback : Z := 2130706433.        (** 127.0.0.1 *)
Definition in6addr_any : list byte := replicate 16 x00.
Definition in6addr_loopback : list byte := replicate 15 x00 ++ [x01].

(** [InetAddress(port, loopbackOnly, ipv6)], made in memory that holds [garbage]. *)
Definition InetAddress_of_port (port : Z) (loopbackOnly ipv6 : bool) (garbage : InetAddress) : InetAddress :=
  if ipv6 then
    let a := set_family AF_INET6 (memZero sizeof_in6 garbage) in
    let a := set_at 8 (if loopbackOnly then in6addr_loopback else in6addr_any) a in
    set_port port a
  else
    let a := set_family AF_INET (memZero sizeof_in garbage) in
    let ip := if loopbackOnly then kInaddrLoopback else kInaddrAny in
    let a := set_at 4 (le_bytes 4 (hostToNetwork32 ip)) a in
    set_port port a.

Section Addresses.
(** inet_pton(family, text): the address bytes, if the text is an address; and
    inet_ntop(family, bytes). *)
Variable inet_pton : Z -> list byte -> option (list byte).
Variable inet_ntop : Z -> list byte -> list byte.

Definition fromIpPort4 (ip : list byte) (port : Z) (a : InetAddress) : InetAddress :=
  let a := set_port port (set_family AF_INET a) in
  match inet_pton AF_INET ip with Some bytes => set_at 4 bytes a | None => a end.

Definition fromIpPort6 (ip : list byte) (port : Z) (a : InetAddress) : InetAddress :=
  let a := set_port port (set_family AF_INET6 a) in
  match inet_pton AF_INET6 ip with Some bytes => set_at 8 bytes a | None => a end.

Definition InetAddress_of_ip (ip : list byte) (port : Z) (ipv6 : bool) (garbage : InetAddress) : InetAddress :=
  if ipv6 then fromIpPort6 ip port (memZero sizeof_in6 garbage)
  else fromIpPort4 ip port (memZero sizeof_in garbage).

(** The string in the buffer of [size] bytes, empty before. *)
Definition sockets_toIp (size : Z) (a : InetAddress) : res (list byte) :=
  if family a =? AF_INET then
    assert! INET_ADDRSTRLEN <=? size ;; Ok (inet_ntop AF_INET (sin_addr a))
  else if family a =? AF_INET6 then
    assert! INET6_ADDRSTRLEN <=? size ;; Ok (inet_ntop AF_INET6 (sin6_addr a))
  else Ok [].

Definition sockets_toIpPort (size : Z) (a : InetAddress) : res (list byte) :=
  let! buf := sockets_toIp size a in
  let pos := len buf in
  let port := networkToHost16 (portNetEndian a) in
  assert! pos <? size ;;
  Ok (buf ++ fst (snprintf (size - pos) ([x3a] ++ format_d false 0 port))).

Definition toIpPort (a : InetAddress) : res (list byte) := sockets_toIpPort 64 a.
Definition toIp (a : InetAddress) : res (list byte) := sockets_toIp 64 a.

(** gethostbyname_r(hostname): the return value, and the entry found: type, length
    and bytes of its first address. *)
Variable gethostbyname : list byte -> Z * option (Z * Z * list byte).

Definition resolve (hostname : list byte) (out : InetAddress) : res (bool * InetAddress) :=
  let '(ret, he) := gethostbyname hostname in
  match he with
  | Some (h_addrtype, h_length, h_addr) =>
      if ret =? 0 then
        assert! (h_addrtype =? AF_INET) && (h_length =? 4) ;;
        Ok (true, set_at 4 (take 4 h_addr) out)
      else Ok (false, out)
  | None => Ok (false, out)
  end.

Definition setScopeId (scope_id : Z) (a : InetAddress) : InetAddress :=
  if family a =? AF_INET6 then set_at 24 (le_bytes 4 scope_id) a else a.
End Addresses.

(** [isSelfConnect], given what getsockname and getpeername stored. *)
Definition isSelfConnect (localaddr peeraddr : InetAddress) : bool :=
  if family localaddr =? AF_INET then
    (portNetEndian localaddr =? portNetEndian peeraddr)
    && (le_value (sin_addr localaddr) =? le_value (sin_addr peeraddr))
  else if family localaddr =? AF_INET6 then
    (portNetEndian localaddr =? portNetEndian peeraddr)
    && bool_decide (sin6_addr localaddr = sin6_addr peeraddr)
  else false.

(** [getSocketError], from what getsockopt returned, the option's value and errno. *)
Definition getSocketError (ret optval errno : Z) : Z := if ret <? 0 then errno else optval.

(** * Properties *)

Lemma length_set_at i d (a : InetAddress) : (i + length d <= length a)%nat -> length (set_at i d a) = length a.
Proof. intros H. unfold set_at. rewrite !length_app, length_take, length_drop. lia. Qed.

Lemma lookup_set_at i d (a : InetAddress) k :
  (i + length d <= length a)%nat ->
  set_at i d a !! k = if decide (i <= k < i + length d)%nat then d !! (k - i)%nat else a !! k.
Proof.
  intros H. unfold set_at. assert (length (take i a) = i) as Ht by (rewrite length_take; lia).
  destruct (decide (k < i)%nat) as [Hk|Hk].
  { rewrite lookup_app_l by lia. rewrite lookup_take_lt by done. by rewrite decide_False by lia. }
  rewrite lookup_app_r by lia. rewrite Ht. destruct (decide (k < i + length d)%nat) as [Hk'|Hk'].
  - rewrite lookup_app_l by lia. by rewrite decide_True by lia.
  - rewrite lookup_app_r by lia. rewrite lookup_drop. rewrite decide_False by lia. f_equal. lia.
Qed.

Lemma lookup_get_at i n (a : InetAddress) k : get_at i n a !! k = if decide (k < n)%nat then a !! (i + k)%nat else None.
Proof.
  unfold get_at. destruct (decide (k < n)%nat).
  - by rewrite lookup_take_lt, lookup_drop.
  - rewrite lookup_take_ge by lia. done.
Qed.

Lemma get_set_same i n d (a : InetAddress) :
  n = length d -> (i + length d <= length a)%nat -> get_at i n (set_at i d a) = d.
Proof.
  intros -> H. apply list_eq. intros k. rewrite lookup_get_at. destruct (decide (k < length d)%nat).
  - rewrite lookup_set_at, decide_True by lia. f_equal. lia.
  - symmetry. apply lookup_ge_None. lia.
Qed.

Lemma get_set_other i n j d (a : InetAddress) :
  (j + length d <= length a)%nat -> (i + n <= j \/ j + length d <= i)%nat ->
  get_at i n (set_at j d a) = get_at i n a.
Proof.
  intros H Hd. apply list_eq. intros k. rewrite !lookup_get_at. destruct (decide (k < n)%nat); [|done].
  by rewrite lookup_set_at, decide_False by lia.
Qed.

Lemma length_memZero n (a : InetAddress) : (n <= length a)%nat -> length (memZero n a) = length a.
Proof. intros H. unfold memZero. rewrite length_app, length_replicate, length_drop. lia. Qed.

(** The standard's promises on the conversions: the text of an address converts
    back, and fits the buffers of the standard sizes. *)
Record inet_laws (inet_pton : Z -> list byte -> option (list byte)) (inet_ntop : Z -> list byte -> list byte) : Prop := {
  ntop_pton4 b : length b = 4%nat -> inet_pton AF_INET (inet_ntop AF_INET b) = Some b;
  ntop_pton6 b : length b = 16%nat -> inet_pton AF_INET6 (inet_ntop AF_INET6 b) = Some b;
  ntop_len4 b : length b = 4%nat -> len (inet_ntop AF_INET b) < INET_ADDRSTRLEN;
  ntop_len6 b : length b = 16%nat -> len (inet_ntop AF_INET6 b) < INET6_ADDRSTRLEN;
}.

Definition af (ipv6 : bool) : Z := if ipv6 then AF_INET6 else AF_INET.
Definition addr_len (ipv6 : bool) : nat := if ipv6 then 16 else 4.
Definition addr_off (ipv6 : bool) : nat := if ipv6 then 8 else 4.

(** The fields of an address after family, port and address bytes were stored. *)
Lemma stored_fields (a : InetAddress) ipv6 port bytes :
  length a = 28%nat -> 0 <= port < 65536 -> length bytes = addr_len ipv6 ->
  let a' := set_at (addr_off ipv6) bytes (set_port port (set_family (af ipv6) a)) in
  family a' = af ipv6 /\ toPort a' = port /\ portNetEndian a' = hostToNetwork16 port /\
  get_at (addr_off ipv6) (addr_len ipv6) a' = bytes.
Proof.
  intros Ha Hp Hb a'. assert (forall f, length (le_bytes 2 f) = 2%nat) as H2 by apply length_le_bytes.
  assert (length (set_family (af ipv6) a) = 28%nat) as L1 by (unfold set_family; rewrite length_set_at; rewrite ?H2; lia).
  assert (length (set_port port (set_family (af ipv6) a)) = 28%nat) as L2
    by (unfold set_port; rewrite length_set_at; rewrite ?H2; lia).
  assert (addr_off ipv6 + length bytes <= 28)%nat as Hoff by (rewrite Hb; destruct ipv6; cbn; lia).
  assert (4 <= addr_off ipv6)%nat as Hge by (destruct ipv6; cbn; lia).
  assert (portNetEndian a' = hostToNetwork16 port) as Ep.
  { unfold portNetEndian, a'. rewrite get_set_other by lia. unfold set_port.
    rewrite get_set_same by (rewrite ?H2; lia).
    rewrite le_value_bytes. apply Z.mod_small.
    pose proof (le_value_range (rev (le_bytes 2 (u16 port)))) as Hr. unfold hostToNetwork16, bswap.
    unfold len in Hr. rewrite length_rev, length_le_bytes in Hr. exact Hr. }
  split_and!; [| |done|].
  - unfold family, a'. rewrite get_set_other by lia. unfold set_port. rewrite get_set_other by (rewrite H2; lia).
    unfold set_family. rewrite get_set_same by (rewrite ?H2; lia).
    rewrite le_value_bytes. by destruct ipv6.
  - unfold toPort. rewrite Ep. by apply network_host16_roundtrip.
  - apply get_set_same; [done|lia].
Qed.

Lemma port_text port : 0 <= port < 65536 -> 1 <= len (format_d false 0 port) <= 5 /\ format_d false 0 port = decimal port.
Proof.
  intros Hp. assert (format_d false 0 port = digits_of 10 port) as ->.
  { unfold format_d. destruct (Z.ltb_spec port 0); [lia|]. by rewrite Z.abs_eq by lia. }
  assert (decimal port = digits_of 10 port) as ->.
  { unfold decimal. destruct (Z.ltb_spec port 0); [lia|]. by rewrite Z.abs_eq by lia. }
  split; [|done].
  assert (len (digits_of 10 port) <= 5) as H5.
  { pose proof (digits_of_length_le 10 ltac:(lia) port 5) as Hd. change (10 ^ Z.of_nat 5) with 100000 in Hd.
    specialize (Hd ltac:(lia) ltac:(lia)). unfold len. lia. }
  pose proof (digits_of_nonempty 10 ltac:(lia) port ltac:(lia)) as Hne.
  split; [|done]. destruct (digits_of 10 port) as [|d l]; [done|]. rewrite len_cons. pose proof (len_nonneg l). lia.
Qed.

(** C40: an address made from a text that inet_ntop writes, with a port, has the
    family asked for and gives the same text and port back, whatever the memory held
    before; its text with the port fits the buffer, is never cut, and has at most 51
    bytes, which is what the name of a connection has room for. *)
Theorem address_roundtrip inet_pton inet_ntop ipv6 bytes port garbage :
  inet_laws inet_pton inet_ntop -> length garbage = 28%nat -> length bytes = addr_len ipv6 -> 0 <= port < 65536 ->
  let text := inet_ntop (af ipv6) bytes in
  let a := InetAddress_of_ip inet_pton text port ipv6 garbage in
  family a = af ipv6 /\ toPort a = port /\ toIp inet_ntop a = Ok text /\
  toIpPort inet_ntop a = Ok (text ++ [x3a] ++ decimal port) /\ len (text ++ [x3a] ++ decimal port) <= 51.
Proof.
  intros [Hp4 Hp6 Hl4 Hl6] Hg Hb Hp text a. destruct (port_text port Hp) as [Hpl Hpt].
  assert (len text <= 45) as Hlt.
  { unfold text. destruct ipv6; cbn [af addr_len] in *; [specialize (Hl6 bytes Hb)|specialize (Hl4 bytes Hb)];
      unfold INET_ADDRSTRLEN, INET6_ADDRSTRLEN in *; lia. }
  assert (family a = af ipv6 /\ toPort a = port /\ portNetEndian a = hostToNetwork16 port /\
    get_at (addr_off ipv6) (addr_len ipv6) a = bytes) as (H1 & H2 & H3 & H4).
  { unfold a, InetAddress_of_ip, fromIpPort6, fromIpPort4, text. destruct ipv6; cbn [af].
    - rewrite Hp6 by done. apply (stored_fields (memZero sizeof_in6 garbage) true); [|done|done].
      rewrite length_memZero; [done|unfold sizeof_in6; lia].
    - rewrite Hp4 by done. apply (stored_fields (memZero sizeof_in garbage) false); [|done|done].
      rewrite length_memZero; [done|unfold sizeof_in; lia]. }
  assert (sockets_toIp inet_ntop 64 a = Ok text) as Hip.
  { unfold sockets_toIp. rewrite H1. destruct ipv6; cbn in *; unfold sin6_addr, sin_addr; by rewrite H4. }
  split_and!; [done|done|done| |].
  - unfold toIpPort, sockets_toIpPort. rewrite Hip. cbn [res_bind]. rewrite (proj2 (Z.ltb_lt _ _)) by lia.
    cbn [cassert res_bind]. rewrite H3. rewrite network_host16_roundtrip by done.
    unfold snprintf. cbn [fst]. rewrite take_ge.
    + by rewrite Hpt.
    + rewrite length_app. unfold len in *. cbn [length]. lia.
  - rewrite !len_app, <- Hpt. change (len [x3a]) with 1. lia.
Qed.

(** a socket is connected to itself exactly when both ends have the same
    address and port. *)
Theorem self_connect_exact inet_pton inet_ntop ipv6 b1 b2 p1 p2 g1 g2 :
  inet_laws inet_pton inet_ntop -> length g1 = 28%nat -> length g2 = 28%nat ->
  length b1 = addr_len ipv6 -> length b2 = addr_len ipv6 -> 0 <= p1 < 65536 -> 0 <= p2 < 65536 ->
  isSelfConnect (InetAddress_of_ip inet_pton (inet_ntop (af ipv6) b1) p1 ipv6 g1)
                (InetAddress_of_ip inet_pton (inet_ntop (af ipv6) b2) p2 ipv6 g2) = true
  <-> b1 = b2 /\ p1 = p2.
Proof.
  intros [Hp4 Hp6 Hl4 Hl6] Hg1 Hg2 Hb1 Hb2 Hp1 Hp2.
  set (mk := fun b p g => set_at (addr_off ipv6) b (set_port p (set_family (af ipv6) (memZero (if ipv6 then sizeof_in6 else sizeof_in) g)))).
  assert (forall b p g, length b = addr_len ipv6 ->
    InetAddress_of_ip inet_pton (inet_ntop (af ipv6) b) p ipv6 g = mk b p g) as Emk.
  { intros b p g Hb. unfold InetAddress_of_ip, fromIpPort6, fromIpPort4, mk.
    destruct ipv6; cbn [af] in *; [by rewrite Hp6|by rewrite Hp4]. }
  assert (forall b p g, length g = 28%nat -> length b = addr_len ipv6 -> 0 <= p < 65536 ->
    family (mk b p g) = af ipv6 /\ toPort (mk b p g) = p /\ portNetEndian (mk b p g) = hostToNetwork16 p /\
    get_at (addr_off ipv6) (addr_len ipv6) (mk b p g) = b) as Hmk.
  { intros b p g Hg Hb Hp. apply stored_fields; [|done|done].
    rewrite length_memZero; [done|]. destruct ipv6; unfold sizeof_in6, sizeof_in; lia. }
  rewrite !Emk by done.
  destruct (Hmk b1 p1 g1 Hg1 Hb1 Hp1) as (F1 & P1 & N1 & G1), (Hmk b2 p2 g2 Hg2 Hb2 Hp2) as (F2 & P2 & N2 & G2).
  assert (portNetEndian (mk b1 p1 g1) = portNetEndian (mk b2 p2 g2) <-> p1 = p2) as Hport.
  { split; [|intros ->; congruence]. intros E. rewrite <- P1, <- P2. unfold toPort. by rewrite E. }
  unfold isSelfConnect. rewrite F1. clearbody mk. destruct ipv6; cbn [af addr_off addr_len] in *.
  - change (AF_INET6 =? AF_INET) with false. change (AF_INET6 =? AF_INET6) with true. cbn iota.
    unfold sin6_addr. rewrite G1, G2, andb_true_iff, Z.eqb_eq, bool_decide_eq_true, Hport. tauto.
  - change (AF_INET =? AF_INET) with true. cbn iota.
    unfold sin_addr. rewrite G1, G2, andb_true_iff, !Z.eqb_eq, Hport.
    split; [|intros [-> ->]; done]. intros [-> Hv]. split; [|done].
    rewrite <- (le_bytes_value b1), <- (le_bytes_value b2), Hb1, Hb2, Hv. done.
Qed.

(** A text that is no address leaves the address that binds to every interface. *)
Lemma unparsable_ip_is_any inet_pton ip port garbage :
  inet_pton AF_INET ip = None ->
  InetAddress_of_ip inet_pton ip port false garbage =
    set_port port (set_family AF_INET (memZero sizeof_in garbage)).
Proof. intros H. unfold InetAddress_of_ip, fromIpPort4. by rewrite H. Qed.

(** *** Witnesses *)

(** A text of an address: a letter and its bytes. *)
Definition demo_ntop (f : Z) (b : list byte) : list byte := x41 :: b.
Definition demo_pton (f : Z) (t : list byte) : option (list byte) := match t with x41 :: b => Some b | _ => None end.

Lemma demo_inet : inet_laws demo_pton demo_ntop.
Proof.
  split; try done; intros b Hb; unfold demo_ntop; rewrite len_cons; unfold len, INET_ADDRSTRLEN, INET6_ADDRSTRLEN;
    rewrite Hb; lia.
Qed.

Definition demo_garbage : list byte := replicate 28 xff.

Lemma address_roundtrip_witness :
  toIpPort demo_ntop (InetAddress_of_ip demo_pton [x41; x01; x02; x03; x04] 80 false demo_garbage)
    = Ok ([x41; x01; x02; x03; x04] ++ [x3a] ++ decimal 80).
Proof.
  exact (proj1 (proj2 (proj2 (proj2 (address_roundtrip demo_pton demo_ntop false [x01; x02; x03; x04] 80 demo_garbage
    demo_inet eq_refl eq_refl ltac:(lia)))))).
Defined.

Lemma self_connect_exact_witness :
  isSelfConnect (InetAddress_of_ip demo_pton [x41; x01; x02; x03; x04] 80 false demo_garbage)
                (InetAddress_of_ip demo_pton [x41; x01; x02; x03; x04] 81 false demo_garbage) = true
  <-> [x01; x02; x03; x04] = [x01; x02; x03; x04] /\ 80 = 81.
Proof.
  exact (self_connect_exact demo_pton demo_ntop false [x01; x02; x03; x04] [x01; x02; x03; x04] 80 81 demo_garbage demo_garbage
    demo_inet eq_refl eq_refl eq_refl eq_refl ltac:(lia) ltac:(lia)).
Defined.
