(* ===== verification/Sockets.v ===== *)
(** * Sockets (src/src/muduo/net/Socket.cc, Socket.h, SocketsOps.cc)

    The wrappers of the socket system calls over an interface of the kernel, [Kernel],
    with what POSIX says of descriptors as its laws: which are open, and which block. *)

From S2P Require Import Prelude Formats Addresses Servers.

Definition SOCK_STREAM : Z := 1.
Definition SOCK_NONBLOCK : Z := 2048.
Definition SOCK_CLOEXEC : Z := 524288.
Definition IPPROTO_TCP : Z := 6.
Definition TCP_NODELAY : Z := 1.
Definition SOL_SOCKET : Z := 1.
Definition SO_REUSEADDR : Z := 2.
Definition SO_KEEPALIVE : Z := 9.
Definition SO_REUSEPORT : Z := 15.
Definition SOMAXCONN : Z := 4096.
Definition SHUT_WR : Z := 1.
Definition sizeof_sockaddr_in6 : Z := 28.

(** The system calls; a failing one returns its errno. *)
Class Kernel := {
  K : Type;
  open_fds : K -> gset Z;
  nonblocking : K -> Z -> bool;
  sys_socket : Z -> Z -> Z -> K -> (Z + Z) * K;
  sys_bind : Z -> list byte -> Z -> K -> Z * K;
  sys_listen : Z -> Z -> K -> Z * K;
  sys_accept4 : Z -> Z -> Z -> K -> (Z * list byte + Z) * K;
  sys_close : Z -> K -> Z * K;
  sys_shutdown : Z -> Z -> K -> Z * K;
  sys_setsockopt : Z -> Z -> Z -> Z -> K -> Z * K;
  sys_getsockname : Z -> Z -> K -> list byte + Z;
  sys_getpeername : Z -> Z -> K -> list byte + Z;
}.

(** New descriptors are not negative and were not open, and have the mode that was
    asked for; close(2) frees its descriptor also when it reports an error; the rest
    leaves descriptors alone.  Addresses fill at most the space given. *)
Definition opens `{Kernel} (k k' : K) (fd type : Z) : Prop :=
  0 <= fd /\ (fd ∉ open_fds k) /\ open_fds k' = {[fd]} ∪ open_fds k /\
  nonblocking k' fd = negb (Z.land type SOCK_NONBLOCK =? 0) /\
  forall f, f <> fd -> nonblocking k' f = nonblocking k f.

Definition same_fds `{Kernel} (k k' : K) : Prop :=
  open_fds k' = open_fds k /\ forall f, nonblocking k' f = nonblocking k f.

Class KernelLaws `{Kernel} := {
  socket_law f t p k : match sys_socket f t p k with
    | (inl fd, k') => opens k k' fd t | (inr _, k') => same_fds k k' end;
  accept4_law s n t k : match sys_accept4 s n t k with
    | (inl (fd, addr), k') => opens k k' fd t /\ (0 <= n -> len addr <= n) | (inr _, k') => same_fds k k' end;
  close_law fd k : let k' := snd (sys_close fd k) in
    open_fds k' = open_fds k ∖ {[fd]} /\ forall f, f <> fd -> nonblocking k' f = nonblocking k f;
  bind_law fd a n k : same_fds k (snd (sys_bind fd a n k));
  listen_law fd n k : same_fds k (snd (sys_listen fd n k));
  shutdown_law fd n k : same_fds k (snd (sys_shutdown fd n k));
  setsockopt_law fd l o v k : same_fds k (snd (sys_setsockopt fd l o v k));
}.

(** ** SocketsOps *)

Section Ops.
Context `{Kernel}.

Definition createNonblockingOrDie (family : Z) (k : K) : res (Z * K) :=
  match sys_socket family (Z.lor (Z.lor SOCK_STREAM SOCK_NONBLOCK) SOCK_CLOEXEC) IPPROTO_TCP k with
  | (inl sockfd, k) => Ok (sockfd, k)
  | (inr _, _) => Fail Aborted
  end.

Definition bindOrDie (sockfd : Z) (addr : list byte) (k : K) : res K :=
  let '(ret, k) := sys_bind sockfd addr sizeof_sockaddr_in6 k in
  if ret <? 0 then Fail Aborted else Ok k.

Definition listenOrDie (sockfd : Z) (k : K) : res K :=
  let '(ret, k) := sys_listen sockfd SOMAXCONN k in
  if ret <? 0 then Fail Aborted else Ok k.

(** The descriptor and the address the kernel stored, over zeros. *)
Definition accept4_op (sockfd : Z) (k : K) : res ((Z * list byte + Z) * K) :=
  let '(r, k) := sys_accept4 sockfd sizeof_sockaddr_in6 (Z.lor SOCK_NONBLOCK SOCK_CLOEXEC) k in
  let! r' := sockets_accept (match r with inl (connfd, _) => inl connfd | inr errno => inr errno end) in
  Ok (r, k).

Definition close (sockfd : Z) (k : K) : K := snd (sys_close sockfd k).
Definition shutdownWrite_op (sockfd : Z) (k : K) : K := snd (sys_shutdown sockfd SHUT_WR k).

(** The 28 bytes of a zeroed [sockaddr_in6] with what the kernel stored over them. *)
Definition stored_address (addr : list byte) : list byte := addr ++ drop (length addr) (replicate sizeof_in6 x00).

Definition getLocalAddr (sockfd : Z) (k : K) : list byte :=
  match sys_getsockname sockfd sizeof_sockaddr_in6 k with
  | inl addr => stored_address addr
  | inr _ => replicate sizeof_in6 x00
  end.

Definition getPeerAddr (sockfd : Z) (k : K) : list byte :=
  match sys_getpeername sockfd sizeof_sockaddr_in6 k with
  | inl addr => stored_address addr
  | inr _ => replicate sizeof_in6 x00
  end.

Definition isSelfConnect_fd (sockfd : Z) (k : K) : bool :=
  isSelfConnect (getLocalAddr sockfd k) (getPeerAddr sockfd k).

(** ** Socket *)

(** The object is its descriptor. *)
Definition bindAddress (sockfd_ : Z) (addr : list byte) (k : K) : res K := bindOrDie sockfd_ addr k.
Definition socket_listen (sockfd_ : Z) (k : K) : res K := listenOrDie sockfd_ k.

(** What [accept] returns and the peer address, which it sets only on success. *)
Definition accept (sockfd_ : Z) (peeraddr : list byte) (k : K) : res (Z * list byte * K) :=
  let! '(r, k) := accept4_op sockfd_ k in
  match r with
  | inl (connfd, addr) => Ok (connfd, stored_address addr, k)
  | inr _ => Ok (-1, peeraddr, k)
  end.

Definition shutdownWrite (sockfd_ : Z) (k : K) : K := shutdownWrite_op sockfd_ k.

Definition optval (on : bool) : Z := if on then 1 else 0.
Definition setTcpNoDelay (sockfd_ : Z) (on : bool) (k : K) : K :=
  snd (sys_setsockopt sockfd_ IPPROTO_TCP TCP_NODELAY (optval on) k).
Definition setReuseAddr (sockfd_ : Z) (on : bool) (k : K) : K :=
  snd (sys_setsockopt sockfd_ SOL_SOCKET SO_REUSEADDR (optval on) k).
(** A failure is only logged. *)
Definition setReusePort (sockfd_ : Z) (on : bool) (k : K) : bool * K :=
  let '(ret, k) := sys_setsockopt sockfd_ SOL_SOCKET SO_REUSEPORT (optval on) k in
  ((ret <? 0) && on, k).
Definition setKeepAlive (sockfd_ : Z) (on : bool) (k : K) : K :=
  snd (sys_setsockopt sockfd_ SOL_SOCKET SO_KEEPALIVE (optval on) k).

Definition destroySocket (sockfd_ : Z) (k : K) : K := close sockfd_ k.

(** What a program may call on a socket, and the descriptors it was handed. *)
Inductive socket_call :=
| CBind (addr : list byte) | CListen | CAccept | CShutdownWrite
| CNoDelay (on : bool) | CReuseAddr (on : bool) | CReusePort (on : bool) | CKeepAlive (on : bool).

Definition socket_step (sockfd_ : Z) (y : list Z * K) (c : socket_call) : res (list Z * K) :=
  let '(accepted, k) := y in
  match c with
  | CBind addr => let! k := bindAddress sockfd_ addr k in Ok (accepted, k)
  | CListen => let! k := socket_listen sockfd_ k in Ok (accepted, k)
  | CAccept =>
      let! '(connfd, _, k) := accept sockfd_ [] k in
      Ok (if 0 <=? connfd then accepted ++ [connfd] else accepted, k)
  | CShutdownWrite => Ok (accepted, shutdownWrite sockfd_ k)
  | CNoDelay on => Ok (accepted, setTcpNoDelay sockfd_ on k)
  | CReuseAddr on => Ok (accepted, setReuseAddr sockfd_ on k)
  | CReusePort on => Ok (accepted, snd (setReusePort sockfd_ on k))
  | CKeepAlive on => Ok (accepted, setKeepAlive sockfd_ on k)
  end.

(** From [createNonblockingOrDie] to [~Socket]. *)
Definition socket_life (family : Z) (calls : list socket_call) (k : K) : res (Z * list Z * K) :=
  let! '(sockfd, k) := createNonblockingOrDie family k in
  let! '(accepted, k) := res_fold (socket_step sockfd) ([], k) calls in
  Ok (sockfd, accepted, destroySocket sockfd k).
End Ops.

(** ** getTcpInfoString *)

Record tcp_info := mkTcpInfo {
  tcpi_retransmits : Z; tcpi_rto : Z; tcpi_ato : Z; tcpi_snd_mss : Z; tcpi_rcv_mss : Z; tcpi_lost : Z;
  tcpi_retrans : Z; tcpi_rtt : Z; tcpi_rttvar : Z; tcpi_snd_ssthresh : Z; tcpi_snd_cwnd : Z; tcpi_total_retrans : Z;
}.

(** The text, whole. *)
Definition tcp_info_text (t : tcp_info) : list byte :=
  concat (zip_with (fun label v => bytes_of_string label ++ decimal v)
    ["unrecovered="; " rto="; " ato="; " snd_mss="; " rcv_mss="; " lost="; " retrans="; " rtt="; " rttvar=";
     " sshthresh="; " cwnd="; " total_retrans="]
    [tcpi_retransmits t; tcpi_rto t; tcpi_ato t; tcpi_snd_mss t; tcpi_rcv_mss t; tcpi_lost t; tcpi_retrans t;
     tcpi_rtt t; tcpi_rttvar t; tcpi_snd_ssthresh t; tcpi_snd_cwnd t; tcpi_total_retrans t]).

(** [info] is what getsockopt stored, if it succeeded; the buffer has [len] bytes. *)
Definition getTcpInfoString (len : Z) (buf : list byte) (info : option tcp_info) : bool * list byte :=
  match info with
  | Some t => (true, fst (snprintf len (tcp_info_text t)))
  | None => (false, buf)
  end.

(** * Properties *)

(** ** Descriptors *)

Section Laws.
Context `{KernelLaws}.

(** While the socket lives: it is open, what it accepted is open and does not block,
    and so is everything that was open before. *)
Record socket_inv (fds0 : gset Z) (fd : Z) (accepted : list Z) (k : K) : Prop := {
  si_fds : open_fds k = {[fd]} ∪ fds0 ∪ list_to_set accepted;
  si_new : Forall (fun f => 0 <= f /\ f <> fd /\ (f ∉ fds0)) accepted;
  si_nodup : NoDup accepted;
  si_mode : Forall (fun f => nonblocking k f = true) (fd :: accepted);
}.

Lemma socket_inv_same fds0 fd acc k k' : same_fds k k' -> socket_inv fds0 fd acc k -> socket_inv fds0 fd acc k'.
Proof.
  intros [H1 H2] [Ha Hb Hc Hd]. split; [congruence|done|done|].
  eapply Forall_impl; [exact Hd|]. intros f. by rewrite H2.
Qed.

Lemma socket_accept_inv fds0 fd acc k :
  socket_inv fds0 fd acc k ->
  match accept fd [] k with
  | Ok (connfd, _, k') => socket_inv fds0 fd (if 0 <=? connfd then acc ++ [connfd] else acc) k'
  | Fail f => f = Aborted
  end.
Proof.
  intros Hi. unfold accept, accept4_op.
  pose proof (accept4_law fd sizeof_sockaddr_in6 (Z.lor SOCK_NONBLOCK SOCK_CLOEXEC) k) as Hl.
  destruct (sys_accept4 _ _ _ k) as [[[connfd addr]|errno] k'].
  - cbn [sockets_accept res_bind]. destruct Hl as [(H1 & H2 & H3 & H4 & H5) _].
    rewrite (proj2 (Z.leb_le 0 connfd)) by done. destruct Hi as [Ha Hb Hc Hd]. split.
    + rewrite H3, Ha, list_to_set_app_L. cbn. set_solver.
    + apply Forall_app. split; [done|]. apply Forall_singleton. split; [done|]. set_solver.
    + apply NoDup_app. split; [done|]. split; [|apply NoDup_singleton].
      intros f Hf Hf'. apply list_elem_of_singleton in Hf' as ->. apply H2. rewrite Ha. set_solver.
    + rewrite app_comm_cons. apply Forall_app. split; [|by apply Forall_singleton].
      apply Forall_forall. intros f Hf. rewrite H5; [by eapply Forall_forall in Hd|].
      intros ->. apply H2. rewrite Ha. apply elem_of_cons in Hf as [->|Hf]; set_solver.
  - unfold sockets_accept. case_bool_decide; cbn [res_bind]; [|done]. cbn. by eapply socket_inv_same.
Qed.

Lemma socket_step_inv fds0 fd acc k c :
  socket_inv fds0 fd acc k ->
  match socket_step fd (acc, k) c with
  | Ok (acc', k') => socket_inv fds0 fd acc' k'
  | Fail f => f = Aborted
  end.
Proof.
  intros Hi. destruct c; cbn [socket_step].
  - unfold bindAddress, bindOrDie. pose proof (bind_law fd addr sizeof_sockaddr_in6 k) as Hl.
    destruct (sys_bind _ _ _ k) as [ret k']. destruct (ret <? 0); cbn; [done|]. by eapply socket_inv_same.
  - unfold socket_listen, listenOrDie. pose proof (listen_law fd SOMAXCONN k) as Hl.
    destruct (sys_listen _ _ k) as [ret k']. destruct (ret <? 0); cbn; [done|]. by eapply socket_inv_same.
  - pose proof (socket_accept_inv fds0 fd acc k Hi) as Ha. by destruct (accept fd [] k) as [[[connfd ?] k']|f].
  - eapply socket_inv_same; [apply shutdown_law|done].
  - eapply socket_inv_same; [apply setsockopt_law|done].
  - eapply socket_inv_same; [apply setsockopt_law|done].
  - unfold setReusePort. pose proof (setsockopt_law fd SOL_SOCKET SO_REUSEPORT (optval on) k) as Hl.
    destruct (sys_setsockopt _ _ _ _ k) as [ret k']. by eapply socket_inv_same.
  - eapply socket_inv_same; [apply setsockopt_law|done].
Qed.

Lemma socket_run_inv fds0 fd acc k calls :
  socket_inv fds0 fd acc k ->
  match res_fold (socket_step fd) (acc, k) calls with
  | Ok (acc', k') => socket_inv fds0 fd acc' k'
  | Fail f => f = Aborted
  end.
Proof.
  revert acc k. induction calls as [|c calls IH]; intros acc k Hi; cbn [res_fold]; [done|].
  pose proof (socket_step_inv fds0 fd acc k c Hi) as Hs.
  destruct (socket_step fd (acc, k) c) as [[acc' k']|f]; cbn [res_bind]; [by apply IH|done].
Qed.
End Laws.

(** C33: a socket's descriptor is open from its creation to the end of the object, and
    nothing else is opened or closed but the connections it accepts, each a new
    descriptor that does not block; the only other way out is the abort of a failed
    socket, bind or listen, or of an accept that failed for no expected reason. *)
Theorem socket_owns_fd `{KernelLaws} family calls k :
  match socket_life family calls k with
  | Ok (fd, accepted, k') =>
      (fd ∉ open_fds k) /\ open_fds k' = open_fds k ∪ list_to_set accepted /\ NoDup accepted /\
      Forall (fun f => 0 <= f /\ (f ∉ open_fds k) /\ nonblocking k' f = true) accepted
  | Fail f => f = Aborted
  end.
Proof.
  unfold socket_life, createNonblockingOrDie.
  set (type := Z.lor (Z.lor SOCK_STREAM SOCK_NONBLOCK) SOCK_CLOEXEC).
  pose proof (socket_law family type IPPROTO_TCP k) as Hl.
  destruct (sys_socket _ _ _ k) as [[fd|e] k1]; cbn [res_bind]; [|done]. destruct Hl as (H1 & H2 & H3 & H4 & _).
  assert (socket_inv (open_fds k) fd [] k1) as Hi.
  { split; [rewrite H3; set_solver|done|apply NoDup_nil_2|]. apply Forall_singleton. by rewrite H4. }
  pose proof (socket_run_inv _ _ _ _ calls Hi) as Hr.
  destruct (res_fold _ _ calls) as [[acc k2]|f]; cbn [res_bind]; [|done]. destruct Hr as [Ha Hb Hc Hd].
  unfold destroySocket, close. pose proof (close_law fd k2) as [H5 H6]. split_and!; [done| |done|].
  - rewrite H5, Ha. rewrite Forall_forall in Hb. apply set_eq. intros f. split; [set_solver|].
    intros Hf. apply elem_of_difference. split; [set_solver|]. apply not_elem_of_singleton. intros ->.
    apply elem_of_union in Hf as [Hf|Hf]; [done|]. apply elem_of_list_to_set in Hf. by destruct (Hb fd Hf) as (_ & ? & _).
  - apply Forall_cons in Hd as [_ Hd]. rewrite Forall_forall in Hb, Hd |- *. intros f Hf.
    destruct (Hb f Hf) as (? & Hne & ?). split_and!; [done|done|]. rewrite H6 by done. by apply Hd.
Qed.

(** ** A kernel *)

(** Open descriptors, those that do not block, and the errno or address of accepts to
    come. *)
Record demo_kernel := mkK { k_open : gset Z; k_nonblock : gset Z; k_accepts : list (list byte + Z) }.

Definition new_fd (x : gset Z) : Z := 1 + foldr Z.max 0 (elements x).

Lemma new_fd_bound x f : f ∈ x -> f < new_fd x.
Proof.
  intros Hf. unfold new_fd. apply elem_of_elements in Hf. induction (elements x) as [|g l IH]; [by apply not_elem_of_nil in Hf|].
  apply elem_of_cons in Hf as [->|Hf]; cbn; [lia|]. specialize (IH Hf). lia.
Qed.

Lemma new_fd_pos x : 0 <= new_fd x.
Proof. unfold new_fd. assert (0 <= foldr Z.max 0 (elements x)); [|lia]. induction (elements x); cbn; lia. Qed.

Definition open_new (type : Z) (k : demo_kernel) : Z * demo_kernel :=
  let fd := new_fd (k_open k) in
  (fd, mkK ({[fd]} ∪ k_open k)
         (if Z.land type SOCK_NONBLOCK =? 0 then k_nonblock k ∖ {[fd]} else {[fd]} ∪ k_nonblock k) (k_accepts k)).

#[export] Instance demo_Kernel : Kernel := {|
  K := demo_kernel;
  open_fds := k_open;
  nonblocking := fun k f => bool_decide (f ∈ k_nonblock k);
  sys_socket := fun _ t _ k => prod_map inl id (open_new t k);
  sys_bind := fun _ _ _ k => (0, k);
  sys_listen := fun _ _ k => (0, k);
  sys_accept4 := fun _ n t k =>
    match k_accepts k with
    | inl addr :: l => let '(fd, k') := open_new t (mkK (k_open k) (k_nonblock k) l) in (inl (fd, take (Z.to_nat n) addr), k')
    | inr e :: l => (inr e, mkK (k_open k) (k_nonblock k) l)
    | [] => (inr EAGAIN, k)
    end;
  sys_close := fun fd k => (0, mkK (k_open k ∖ {[fd]}) (k_nonblock k) (k_accepts k));
  sys_shutdown := fun _ _ k => (0, k);
  sys_setsockopt := fun _ _ _ _ k => (0, k);
  sys_getsockname := fun _ _ _ => inr 9;
  sys_getpeername := fun _ _ _ => inr 9;
|}.

Lemma open_new_opens type (k : demo_kernel) :
  let '(fd, k') := open_new type k in opens k k' fd type.
Proof.
  unfold open_new. set (fd := new_fd _). split_and!.
  - apply new_fd_pos.
  - intros Hf. apply new_fd_bound in Hf. exact (Z.lt_irrefl fd Hf).
  - done.
  - cbn. destruct (_ =? 0); cbn; [apply bool_decide_false|apply bool_decide_true]; set_solver.
  - intros f Hf. cbn. apply bool_decide_ext. destruct (_ =? 0); set_solver.
Qed.

#[export] Instance demo_laws : KernelLaws.
Proof.
  split; try done.
  - intros f t p k. pose proof (open_new_opens t k) as Ho. cbn [sys_socket demo_Kernel].
    destruct (open_new t k) as [fd k']. exact Ho.
  - intros s n t k. cbn [sys_accept4 demo_Kernel]. destruct (k_accepts k) as [|[addr|e] l]; [done| |done].
    pose proof (open_new_opens t (mkK (k_open k) (k_nonblock k) l)) as Ho.
    destruct (open_new t _) as [fd k']. split; [exact Ho|]. intros Hn. unfold len. rewrite length_take. lia.
Qed.

Lemma socket_owns_fd_witness :
  match socket_life AF_INET [CReuseAddr true; CBind []; CListen; CAccept; CAccept; CAccept]
          (mkK {[0; 1; 2]} ∅ [inl (bytes_of_string "ab"); inr EINTR; inl []]) with
  | Ok (fd, accepted, k') => open_fds k' = {[0; 1; 2]} ∪ list_to_set accepted /\ accepted = [4; 5]
  | Fail _ => False
  end.
Proof.
  pose proof (socket_owns_fd AF_INET [CReuseAddr true; CBind []; CListen; CAccept; CAccept; CAccept]
    (mkK {[0; 1; 2]} ∅ [inl (bytes_of_string "ab"); inr EINTR; inl []])) as Hs.
  destruct (socket_life _ _ _) as [[[fd accepted] k']|f] eqn:E; [|by vm_compute in E].
  split; [apply Hs|]. vm_compute in E. by inversion E.
Defined.

(** A socket whose name cannot be read is not taken for a connection to itself. *)
Lemma isSelfConnect_failed `{Kernel} sockfd k e :
  sys_getsockname sockfd sizeof_sockaddr_in6 k = inr e -> isSelfConnect_fd sockfd k = false.
Proof. intros E. unfold isSelfConnect_fd, getLocalAddr. by rewrite E. Qed.

(** ** The text of TCP_INFO *)

Definition fields (t : tcp_info) : list Z :=
  [tcpi_retransmits t; tcpi_rto t; tcpi_ato t; tcpi_snd_mss t; tcpi_rcv_mss t; tcpi_lost t; tcpi_retrans t;
   tcpi_rtt t; tcpi_rttvar t; tcpi_snd_ssthresh t; tcpi_snd_cwnd t; tcpi_total_retrans t].

Lemma decimal_u32 z : 0 <= z < 2 ^ 32 -> len (decimal z) <= 10.
Proof.
  intros Hz. unfold decimal. rewrite (proj2 (Z.ltb_ge z 0)), Z.abs_eq by lia. cbn [app].
  pose proof (digits_of_length_le 10 ltac:(lia) z 10) as Hd. unfold len.
  change (10 ^ Z.of_nat 10) with 10000000000 in Hd. specialize (Hd ltac:(lia) ltac:(lia)). lia.
Qed.

(** the text never exceeds 250 bytes, so the buffer of 1024 that connections use holds
    all of it. *)
Theorem tcp_info_fits t len buf :
  Forall (fun v => 0 <= v < 2 ^ 32) (fields t) -> 251 <= len ->
  getTcpInfoString len buf (Some t) = (true, tcp_info_text t).
Proof.
  intros Hf Hl. unfold getTcpInfoString, snprintf. cbn [fst]. f_equal. apply take_ge.
  assert (Prelude.len (tcp_info_text t) <= 250) as Hb; [|unfold Prelude.len in Hb; lia].
  unfold fields in Hf. repeat (apply Forall_cons in Hf as [?%decimal_u32 Hf]).
  unfold tcp_info_text. cbn [zip_with concat]. rewrite !len_app. change (Prelude.len (@nil byte)) with 0.
  repeat match goal with |- context [Prelude.len (bytes_of_string ?s)] =>
    let n := eval vm_compute in (Prelude.len (bytes_of_string s)) in change (Prelude.len (bytes_of_string s)) with n end.
  lia.
Qed.
