(* ===== verification/Codec.v ===== *)
(** * The framing of messages (src/src/muduo/net/protobuf/ProtobufCodecLite.h, .cc)

    Messages travel as a length, a tag, the serialised message and a checksum.
    The codec writes such frames and cuts them out of the bytes a connection
    delivers, in whatever pieces they arrive.  Protobuf messages are an interface
    with laws; adler32 of zlib is a parameter. *)

From S2P Require Import Prelude Endian NetBuffer.

(** What the codec uses of a protobuf message type, and what protobuf documents of
    it: [ByteSize()] is the length [SerializeWithCachedSizesToArray] writes, and
    [ParseFromArray] inverts it.  [M] is the type of the values a message of the type
    can have, as protobuf's field types bound them. *)
Class MessageOps (M : Type) := {
  ByteSize : M -> Z;
  SerializeToArray : M -> list byte;
  ParseFromArray : list byte -> option M;
}.

Class MessageLaws (M : Type) `{MessageOps M} : Prop := {
  serialize_size (m : M) : len (SerializeToArray m) = ByteSize m;
  parse_serialize (m : M) : ParseFromArray (SerializeToArray m) = Some m;
}.

Definition kHeaderLen : Z := 4.
Definition kChecksumLen : Z := 4.
Definition kMaxMessageLen : Z := 64 * 1024 * 1024.

Inductive ErrorCode := kNoError | kInvalidLength | kCheckSumError | kInvalidNameLen | kUnknownMessageType | kParseError.

Definition errorCodeToString (e : ErrorCode) : string :=
  match e with
  | kNoError => "NoError"
  | kInvalidLength => "InvalidLength"
  | kCheckSumError => "CheckSumError"
  | kInvalidNameLen => "InvalidNameLen"
  | kUnknownMessageType => "UnknownMessageType"
  | kParseError => "ParseError"
  end.

(** What [defaultErrorCallback] does to the connection. *)
Inductive conn_op := Shutdown.

Definition defaultErrorCallback (connected : bool) (e : ErrorCode) : list conn_op :=
  if connected then [Shutdown] else [].

(** The callbacks [onMessage] makes. *)
Inductive event (M : Type) :=
| RawMessage (frame : list byte)
| GotMessage (m : M)
| GotError (e : ErrorCode).
Arguments RawMessage {M} frame.
Arguments GotMessage {M} m.
Arguments GotError {M} e.

Section Codec.
Context {M : Type} `{MessageOps M}.
(** adler32(1, buf, len) of the bytes, an unsigned long. *)
Variable adler32 : list byte -> Z.

(** The codec: its tag and the raw callback, if there is one. *)
Variable tag_ : list byte.
Variable rawCb_ : option (list byte -> bool).

Definition kMinMessageLen : Z := i32 (len tag_ + kChecksumLen).

(** Bytes [i .. i + n) of those at a pointer. *)
Definition at_ptr (p : list byte) (i n : Z) : res (list byte) :=
  if (0 <=? i) && (0 <=? n) && (i + n <=? len p) then Ok (slice i (i + n) p) else Fail OutOfRange.

Definition asInt32 (p : list byte) (i : Z) : res Z :=
  let! be32 := at_ptr p i 4 in Ok (i32 (networkToHost32 (le_value be32))).

Definition checksum (bytes : list byte) : Z := i32 (adler32 bytes).

Definition validateChecksum (buf : list byte) (n : Z) : res bool :=
  let! expectedCheckSum := asInt32 buf (n - kChecksumLen) in
  let! bytes := at_ptr buf 0 (n - kChecksumLen) in
  Ok (checksum bytes =? expectedCheckSum).

Definition parseFromBuffer (bytes : list byte) : option M := ParseFromArray bytes.

(** A message, or the error. *)
Definition parse (buf : list byte) (n : Z) : res (M + ErrorCode) :=
  let! valid := validateChecksum buf n in
  if valid then
    let! head := at_ptr buf 0 (len tag_) in
    if bool_decide (head = tag_) then
      let dataLen := n - kChecksumLen - i32 (len tag_) in
      let! data := at_ptr buf (len tag_) dataLen in
      match parseFromBuffer data with
      | Some m => Ok (inl m)
      | None => Ok (inr kParseError)
      end
    else Ok (inr kUnknownMessageType)
  else Ok (inr kCheckSumError).

(** [ByteSizeConsistencyError] aborts the process. *)
Definition serializeToBuffer (m : M) (buf : Buffer) : res (Z * Buffer) :=
  let byte_size := ByteSize m in
  let! buf := ensureWritableBytes buf (u64 (byte_size + kChecksumLen)) in
  let! buf := store buf (beginWrite buf) (SerializeToArray m) in
  if negb (len (SerializeToArray m) =? byte_size) then Fail Aborted
  else
    let! buf := hasWritten buf byte_size in
    Ok (byte_size, buf).

Definition fillEmptyBuffer (buf : Buffer) (m : M) : res Buffer :=
  assert! readableBytes buf =? 0 ;;
  let! buf := append buf tag_ in
  let! '(byte_size, buf) := serializeToBuffer m buf in
  let! bytes := load buf (peek buf) (i32 (readableBytes buf)) in
  let! buf := appendInt32 buf (checksum bytes) in
  assert! readableBytes buf =? u64 (len tag_ + byte_size + kChecksumLen) ;;
  let len := hostToNetwork32 (i32 (readableBytes buf)) in
  prepend buf (le_bytes 4 len).

(** [send]: the bytes that go to [conn->send(&buf)]. *)
Definition send (m : M) : res (list byte) :=
  let! buf := fillEmptyBuffer (newBuffer kInitialSize) m in
  load buf (peek buf) (readableBytes buf).

(** The raw callback, and whether it lets the message through. *)
Definition callRaw (frame : list byte) : list (event M) * bool :=
  match rawCb_ with
  | None => ([], true)
  | Some f => ([RawMessage frame], f frame)
  end.

Fixpoint onMessage_loop (fuel : nat) (buf : Buffer) : res (Buffer * list (event M)) :=
  match fuel with
  | O => Fail Aborted
  | S fuel =>
      if u32 (kMinMessageLen + kHeaderLen) <=? readableBytes buf then
        let! n := peekInt32 buf in
        if (kMaxMessageLen <? n) || (n <? kMinMessageLen) then Ok (buf, [GotError kInvalidLength])
        else if kHeaderLen + n <=? readableBytes buf then
          let! frame := load buf (peek buf) (kHeaderLen + n) in
          let '(raw, through) := callRaw frame in
          if through then
            let! body := load buf (peek buf + kHeaderLen) n in
            let! r := parse body n in
            match r with
            | inl m =>
                let! buf := retrieve buf (kHeaderLen + n) in
                let! '(buf, evs) := onMessage_loop fuel buf in
                Ok (buf, raw ++ GotMessage m :: evs)
            | inr e => Ok (buf, raw ++ [GotError e])
            end
          else
            let! buf := retrieve buf (kHeaderLen + n) in
            let! '(buf, evs) := onMessage_loop fuel buf in
            Ok (buf, raw ++ evs)
        else Ok (buf, [])
      else Ok (buf, [])
  end.

(** Every turn of the loop but the last takes bytes out of the buffer. *)
Definition onMessage (buf : Buffer) : res (Buffer * list (event M)) :=
  onMessage_loop (S (Z.to_nat (readableBytes buf))) buf.

(** A connection that receives the pieces [chunks], one [onMessage] each. *)
Definition receive (st : Buffer * list (event M)) (chunk : list byte) : res (Buffer * list (event M)) :=
  let! buf := append (fst st) chunk in
  let! '(buf, evs) := onMessage buf in
  Ok (buf, snd st ++ evs).
End Codec.

(** * Properties *)

Lemma be_bytes_value l : be_bytes (length l) (be_value l) = l.
Proof. unfold be_bytes, be_value. rewrite <- length_rev, le_bytes_value. apply rev_involutive. Qed.

Lemma i32_mod x : i32 x mod 2 ^ 32 = x mod 2 ^ 32.
Proof.
  unfold i32, swrap. rewrite Zminus_mod_idemp_l. change (32 - 1) with 31. f_equal. lia.
Qed.

(** Two checksums agree when their bytes do. *)
Lemma same_checksum x sum :
  length sum = 4%nat -> (i32 x =? i32 (be_value sum)) = true <-> sum = be_bytes 4 x.
Proof.
  intros Hl. rewrite Z.eqb_eq. split.
  - intros E. apply (f_equal (fun z => z mod 2 ^ 32)) in E. rewrite !i32_mod in E.
    rewrite <- (be_bytes_value sum), Hl. unfold be_bytes. f_equal.
    rewrite <- (le_bytes_mod 4 x), <- (le_bytes_mod 4 (be_value sum)). f_equal. symmetry. exact E.
  - intros ->. symmetry. apply (swrap_be 4 x).
Qed.

Lemma at_ptr_app (a b c : list byte) i n :
  i = len a -> n = len b -> at_ptr (a ++ b ++ c) i n = Ok b.
Proof.
  intros -> ->. unfold at_ptr. pose proof (len_nonneg a). pose proof (len_nonneg b). pose proof (len_nonneg c).
  rewrite !len_app. rewrite !(proj2 (Z.leb_le _ _)) by lia. cbn. f_equal. by apply slice_middle.
Qed.

Section Framing.
Context {M : Type} `{MessageOps M} (adler32 : list byte -> Z) (tag_ : list byte)
  (rawCb_ : option (list byte -> bool)).
Hypothesis tag_small : len tag_ + 8 < 2 ^ 31.

Local Abbreviation parse := (parse (M := M) adler32 tag_).
Local Abbreviation onMessage := (onMessage (M := M) adler32 tag_ rawCb_).
Local Abbreviation onMessage_loop := (onMessage_loop (M := M) adler32 tag_ rawCb_).
Local Abbreviation callRaw := (callRaw (M := M) rawCb_).

Lemma kMinMessageLen_eq : kMinMessageLen tag_ = len tag_ + 4.
Proof.
  unfold kMinMessageLen, kChecksumLen. apply swrap_small; [lia|]. unfold in_signed.
  pose proof (len_nonneg tag_). change (32 - 1) with 31. lia.
Qed.

(** The bytes [payload] with their checksum. *)
Definition summed (payload : list byte) : list byte := payload ++ be_bytes 4 (adler32 payload).

(** What the bytes between length field and next frame are. *)
Inductive parses (body : list byte) : M + ErrorCode -> Prop :=
| parses_message data m :
    body = summed (tag_ ++ data) -> ParseFromArray data = Some m -> parses body (inl m)
| parses_error data :
    body = summed (tag_ ++ data) -> ParseFromArray data = None -> parses body (inr kParseError)
| parses_unknown payload :
    body = summed payload -> (forall data, payload <> tag_ ++ data) -> parses body (inr kUnknownMessageType)
| parses_checksum payload sum :
    body = payload ++ sum -> length sum = 4%nat -> sum <> be_bytes 4 (adler32 payload) ->
    parses body (inr kCheckSumError).

Lemma validateChecksum_app payload sum :
  length sum = 4%nat ->
  validateChecksum adler32 (payload ++ sum) (len (payload ++ sum)) =
    Ok (checksum adler32 payload =? i32 (be_value sum)).
Proof.
  intros Hl. unfold validateChecksum, asInt32. rewrite len_app. replace (len sum) with 4 by (unfold len; lia).
  unfold kChecksumLen. replace (len payload + 4 - 4) with (len payload) by lia.
  rewrite <- (app_nil_r sum) at 1. rewrite at_ptr_app; [|done|unfold len; lia].
  cbn [res_bind]. rewrite networkToHost32_value by done.
  rewrite (at_ptr_app [] payload sum 0); [|done|done]. done.
Qed.

Lemma parse_app payload sum :
  length sum = 4%nat -> len tag_ <= len payload ->
  exists r, parse (payload ++ sum) (len (payload ++ sum)) = Ok r /\ parses (payload ++ sum) r.
Proof.
  intros Hl Hp. unfold Codec.parse. rewrite validateChecksum_app by done. cbn [res_bind].
  destruct (checksum adler32 payload =? i32 (be_value sum)) eqn:E.
  2:{ eexists. split; [done|]. eapply parses_checksum; [done|done|]. intros Hs.
      apply (same_checksum (adler32 payload) sum Hl) in Hs. unfold checksum in E. congruence. }
  apply (same_checksum (adler32 payload) sum Hl) in E.
  set (hd := take (length tag_) payload). set (data := drop (length tag_) payload).
  assert (len hd = len tag_) as Hhd by (unfold hd, len in *; rewrite length_take; lia).
  assert (payload = hd ++ data) as Epd by (symmetry; apply take_drop).
  assert (at_ptr (payload ++ sum) 0 (len tag_) = Ok hd) as ->.
  { rewrite Epd, <- app_assoc. by apply (at_ptr_app []). }
  cbn [res_bind]. case_bool_decide as Ht.
  - pose proof (len_nonneg tag_).
    assert (i32 (len tag_) = len tag_) as ->.
    { apply swrap_small; [lia|]. unfold in_signed. change (32 - 1) with 31. lia. }
    assert (at_ptr (payload ++ sum) (len tag_) (len (payload ++ sum) - kChecksumLen - len tag_) = Ok data) as ->.
    { rewrite Epd, <- app_assoc. apply at_ptr_app; [done|]. rewrite !len_app. unfold kChecksumLen.
      replace (len sum) with 4 by (unfold len; lia). lia. }
    cbn [res_bind]. unfold parseFromBuffer. rewrite Ht in Epd.
    destruct (ParseFromArray data) as [m|] eqn:Ep; eexists; (split; [done|]).
    + eapply parses_message; [|done]. unfold summed. by rewrite E, <- Epd.
    + eapply parses_error; [|done]. unfold summed. by rewrite E, <- Epd.
  - eexists. split; [done|]. eapply (parses_unknown _ payload); [by unfold summed; rewrite E|].
    intros d ->. apply Ht. unfold hd. by rewrite take_app_length.
Qed.

Lemma parse_correct body :
  len tag_ + 4 <= len body -> exists r, parse body (len body) = Ok r /\ parses body r.
Proof.
  intros Hb. pose proof (len_nonneg tag_).
  rewrite <- (take_drop (Z.to_nat (len body - 4)) body).
  apply parse_app; [rewrite length_drop; unfold len in *; lia|].
  rewrite len_take by lia. lia.
Qed.

(** ** What [onMessage] promises *)

(** A complete frame: a length field and as many bytes. *)
Definition is_frame (hdr body : list byte) : Prop :=
  length hdr = 4%nat /\ i32 (be_value hdr) = len body /\ len tag_ + 4 <= len body <= kMaxMessageLen.

(** [decodes c evs r]: of the bytes [c], the callbacks [evs] are made and [r] stay
    in the buffer. *)
Inductive decodes : list byte -> list (event M) -> list byte -> Prop :=
| decodes_short c : len c < len tag_ + 8 -> decodes c [] c
| decodes_length hdr c :
    length hdr = 4%nat -> len tag_ + 4 <= len c ->
    (i32 (be_value hdr) < len tag_ + 4 \/ kMaxMessageLen < i32 (be_value hdr)) ->
    decodes (hdr ++ c) [GotError kInvalidLength] (hdr ++ c)
| decodes_partial hdr c :
    length hdr = 4%nat -> len tag_ + 4 <= len c ->
    len tag_ + 4 <= i32 (be_value hdr) <= kMaxMessageLen -> len c < i32 (be_value hdr) ->
    decodes (hdr ++ c) [] (hdr ++ c)
| decodes_skip hdr body c raw evs r :
    is_frame hdr body -> callRaw (hdr ++ body) = (raw, false) -> decodes c evs r ->
    decodes (hdr ++ body ++ c) (raw ++ evs) r
| decodes_message hdr body c raw m evs r :
    is_frame hdr body -> callRaw (hdr ++ body) = (raw, true) -> parses body (inl m) -> decodes c evs r ->
    decodes (hdr ++ body ++ c) (raw ++ GotMessage m :: evs) r
| decodes_error hdr body c raw e :
    is_frame hdr body -> callRaw (hdr ++ body) = (raw, true) -> parses body (inr e) ->
    decodes (hdr ++ body ++ c) (raw ++ [GotError e]) (hdr ++ body ++ c).

Lemma peekInt32_app b hdr c :
  inv b -> content b = hdr ++ c -> length hdr = 4%nat -> peekInt32 b = Ok (i32 (be_value hdr)).
Proof.
  intros Hi Hc Hl. rewrite <- (be_bytes_value hdr), Hl in Hc.
  exact (peekInt_spec W32 b _ c Hi Hc).
Qed.

Lemma header_bound : u32 (kMinMessageLen tag_ + kHeaderLen) = len tag_ + 8.
Proof.
  rewrite kMinMessageLen_eq. unfold kHeaderLen. pose proof (len_nonneg tag_).
  unfold u32. rewrite uwrap_small; [lia|]. unfold in_unsigned. lia.
Qed.

Lemma split_header (c : list byte) : 4 <= len c -> exists hdr c', c = hdr ++ c' /\ length hdr = 4%nat.
Proof.
  intros Hc. exists (take 4 c), (drop 4 c). rewrite take_drop. split; [done|].
  rewrite length_take. unfold len in Hc. lia.
Qed.

(** Loads of a frame at the front of the buffer. *)
Lemma load_frame b hdr body c :
  inv b -> content b = hdr ++ body ++ c -> length hdr = 4%nat ->
  load b (peek b) (kHeaderLen + len body) = Ok (hdr ++ body) /\
  load b (peek b + kHeaderLen) (len body) = Ok body /\
  exists b', retrieve b (kHeaderLen + len body) = Ok b' /\ inv b' /\ content b' = c.
Proof.
  intros Hi Hc Hl. assert (len hdr = 4) as Hl' by (unfold len; lia).
  pose proof (len_nonneg body). pose proof (len_nonneg c).
  assert (len (content b) = 4 + len body + len c) as Hlc by (rewrite Hc, !len_app; lia).
  assert (Z.to_nat (kHeaderLen + len body) = length (hdr ++ body)) as En.
  { rewrite length_app, Hl. unfold kHeaderLen, len. lia. }
  split_and!.
  - rewrite load_peek by (done || unfold kHeaderLen; lia). f_equal.
    rewrite En, Hc, app_assoc. by rewrite take_app_length.
  - rewrite (rep_load _ _ _ _ _ _ (inv_rep _ Hi)) by (unfold kHeaderLen; lia). f_equal.
    rewrite Hc. apply slice_middle; unfold kHeaderLen; lia.
  - destruct (retrieve_spec b (kHeaderLen + len body)) as (b' & E & Hi' & Hc' & _); [done|unfold kHeaderLen; lia|].
    exists b'. split_and!; [done|done|]. by rewrite Hc', En, Hc, app_assoc, drop_app_length.
Qed.

Lemma onMessage_loop_decodes fuel b :
  inv b -> len (content b) < Z.of_nat fuel ->
  exists b' evs, onMessage_loop fuel b = Ok (b', evs) /\ inv b' /\ decodes (content b) evs (content b').
Proof.
  revert b. induction fuel as [|fuel IH]; intros b Hi Hf; [pose proof (len_nonneg (content b)); lia|].
  cbn [Codec.onMessage_loop]. rewrite header_bound, readableBytes_content by done.
  pose proof (len_nonneg tag_).
  destruct (Z.leb_spec (len tag_ + 8) (len (content b))) as [Hb|Hb].
  2:{ exists b, []. split_and!; [done|done|by constructor]. }
  destruct (split_header (content b)) as (hdr & c & Hc & Hl); [lia|].
  assert (len (content b) = 4 + len c) as Hlc by (rewrite Hc, len_app; unfold len at 1; lia).
  rewrite (peekInt32_app b hdr c) by done. cbn [res_bind]. rewrite kMinMessageLen_eq.
  set (n := i32 (be_value hdr)).
  destruct ((kMaxMessageLen <? n) || (n <? len tag_ + 4)) eqn:En.
  { apply orb_true_iff in En. rewrite !Z.ltb_lt in En. exists b, [GotError kInvalidLength].
    split_and!; [done|done|]. rewrite Hc. apply decodes_length; [done|lia|]. fold n. lia. }
  apply orb_false_iff in En as [H1 H2]. apply Z.ltb_ge in H1, H2.
  unfold kHeaderLen at 1. destruct (Z.leb_spec (4 + n) (len (content b))) as [Hn|Hn].
  2:{ exists b, []. split_and!; [done|done|]. rewrite Hc. apply decodes_partial; fold n; [done|lia..]. }
  assert (exists body c', c = body ++ c' /\ len body = n) as (body & c' & -> & Hbody).
  { exists (take (Z.to_nat n) c), (drop (Z.to_nat n) c). by rewrite take_drop, len_take by lia. }
  assert (is_frame hdr body) as Hframe by (unfold is_frame; fold n; split_and!; [done|done|lia..]).
  rewrite len_app in Hlc. pose proof (len_nonneg c').
  destruct (load_frame b hdr body c') as (L1 & L2 & b1 & R1 & Hi1 & Hc1); [done|done|done|].
  rewrite Hbody in L1, L2, R1. rewrite L1. cbn [res_bind].
  destruct (IH b1) as (b2 & evs & E2 & Hi2 & Hd2); [done|rewrite Hc1; lia|]. rewrite Hc1 in Hd2.
  destruct (callRaw (hdr ++ body)) as [raw []] eqn:Eraw.
  - rewrite L2. cbn [res_bind]. destruct (parse_correct body) as (r & Er & Hr); [lia|].
    rewrite <- Hbody, Er, Hbody. cbn [res_bind]. destruct r as [m|e].
    + rewrite R1. cbn [res_bind]. rewrite E2. eexists _, _. split_and!; [done|done|].
      rewrite Hc. by eapply decodes_message.
    + eexists _, _. split_and!; [done|done|]. rewrite Hc. by eapply decodes_error.
  - rewrite R1. cbn [res_bind]. rewrite E2. eexists _, _. split_and!; [done|done|].
    rewrite Hc. by eapply decodes_skip.
Qed.

Lemma onMessage_decodes b :
  inv b -> exists b' evs, onMessage b = Ok (b', evs) /\ inv b' /\ decodes (content b) evs (content b').
Proof.
  intros Hi. apply onMessage_loop_decodes; [done|].
  rewrite readableBytes_content by done. pose proof (len_nonneg (content b)). lia.
Qed.

(** ** Frames *)

Context `{!MessageLaws M}.

Definition body (m : M) : list byte := summed (tag_ ++ SerializeToArray m).
Definition frame (m : M) : list byte := be_bytes 4 (len (body m)) ++ body m.
Definition fits (m : M) : Prop := len (body m) <= kMaxMessageLen.

Lemma len_summed payload : len (summed payload) = len payload + 4.
Proof. unfold summed. rewrite len_app, len_be_bytes. lia. Qed.

Lemma len_body m : len (body m) = len tag_ + len (SerializeToArray m) + 4.
Proof. unfold body. rewrite len_summed, len_app. lia. Qed.

Lemma fillEmptyBuffer_spec b m :
  fits m -> inv b -> content b = [] -> kCheapPrepend <= prependableBytes b -> size b <= 2 ^ 32 ->
  exists b', fillEmptyBuffer adler32 tag_ b m = Ok b' /\ inv b' /\ content b' = frame m.
Proof.
  unfold fits, kMaxMessageLen, kCheapPrepend. intros Hm Hi Hc Hp Hs. rewrite len_body in Hm.
  pose proof (len_nonneg tag_). pose proof (len_nonneg (SerializeToArray m)). unfold fillEmptyBuffer.
  rewrite readableBytes_content, Hc, len_nil, Z.eqb_refl by done. cbn [cassert res_bind].
  destruct (append_spec b tag_) as (b1 & -> & Hi1 & Hc1 & Hs1 & Hr1); [done|unfold max_size; lia|].
  rewrite Hc, app_nil_l in Hc1. cbn [res_bind]. unfold serializeToBuffer. rewrite <- (serialize_size m).
  set (n := len (SerializeToArray m)) in *. unfold kChecksumLen.
  unfold keptRoom, kCheapPrepend in Hr1.
  rewrite u64_small by lia.
  destruct (ensureWritableBytes_rep b1 (n + 4)) as (b2 & p & q & -> & Hrep & Hq & Hs2 & Hp2);
    [done|lia|unfold max_size; lia|].
  unfold keptRoom, kCheapPrepend in Hp2. cbn [res_bind].
  destruct (write_rep b2 p (content b1) q (SerializeToArray m) Hrep) as (b3 & -> & _ & b4 & E4 & Hrep4 & Hs4);
    [fold n; lia|].
  cbn [res_bind]. fold n in E4 |- *. rewrite Z.eqb_refl. cbn [negb]. rewrite E4. cbn [res_bind].
  assert (inv b4) as Hi4 by (by eapply rep_inv).
  assert (content b4 = tag_ ++ SerializeToArray m) as Hc4.
  { apply rep_content in Hrep4. by rewrite Hrep4, Hc1. }
  assert (len (content b4) = len tag_ + n) as Hl4 by (rewrite Hc4, len_app; done).
  rewrite readableBytes_content, Hl4 by done.
  assert (i32 (len tag_ + n) = len tag_ + n) as ->.
  { apply swrap_small; [lia|]. unfold in_signed. change (32 - 1) with 31. lia. }
  rewrite load_peek by (done || lia). rewrite take_ge by (unfold len in *; lia). cbn [res_bind].
  change (appendInt32 b4) with (appendInt W32 b4). rewrite appendInt_eq, Hc4.
  set (sum := be_bytes (wbytes W32) _).
  assert (sum = be_bytes 4 (adler32 (tag_ ++ SerializeToArray m))) as Hsum.
  { unfold sum, checksum. cbn [wbytes]. unfold be_bytes. f_equal.
    rewrite <- (le_bytes_mod 4 (i32 _)), <- (le_bytes_mod 4 (adler32 _)). f_equal. apply i32_mod. }
  assert (len sum = 4) as Hls by (unfold sum; by rewrite len_be_bytes).
  destruct (append_spec b4 sum) as (b5 & -> & Hi5 & Hc5 & Hs5 & Hr5); [done|unfold max_size; lia|].
  assert (content b5 = body m) as Hc5'.
  { unfold body, summed. by rewrite Hc5, Hc4, Hsum. }
  cbn [res_bind]. rewrite readableBytes_content, Hc5', len_body by done. fold n.
  rewrite u64_small, Z.eqb_refl by lia. cbn [cassert res_bind].
  assert (i32 (len tag_ + n + 4) = len tag_ + n + 4) as ->.
  { apply swrap_small; [lia|]. unfold in_signed. change (32 - 1) with 31. lia. }
  rewrite hostToNetwork32_bytes.
  assert (8 <= prependableBytes b4) as Hr4.
  { pose proof (rep_bytes _ _ _ _ Hrep4) as (_ & _ & -> & _). lia. }
  unfold keptRoom, kCheapPrepend in Hr5.
  destruct (prepend_spec b5 (be_bytes 4 (len tag_ + n + 4))) as (b6 & E6 & Hi6 & Hc6 & _); [done| |].
  { rewrite len_be_bytes. lia. }
  exists b6. split_and!; [done|done|]. rewrite Hc6, Hc5'. unfold frame. by rewrite len_body.
Qed.

(** ** Streams of frames *)

(** A message that fits is sent as its frame. *)
Lemma send_frame m : fits m -> send adler32 tag_ m = Ok (frame m).
Proof.
  intros Hm. destruct defaultBuffer_spec as (Hi & Hc & Hs & Hk). unfold keptRoom in Hk. unfold send.
  destruct (fillEmptyBuffer_spec (newBuffer kInitialSize) m)
    as (b & -> & Hb & Hcb); [done|done|done|unfold kCheapPrepend in *; lia|lia|].
  cbn [res_bind]. pose proof (len_nonneg (content b)).
  rewrite readableBytes_content by done. rewrite load_peek by (done || lia).
  f_equal. rewrite <- Hcb. apply take_ge. unfold len. lia.
Qed.

Lemma frame_header m hdr c t :
  fits m -> length hdr = 4%nat -> hdr ++ c = frame m ++ t ->
  i32 (be_value hdr) = len (body m) /\ c = body m ++ t.
Proof.
  intros Hf Hl E. unfold frame in E. rewrite <- app_assoc in E.
  apply app_inj_1 in E as [-> ->]; [|by rewrite length_be_bytes]. split; [|done].
  rewrite (swrap_be 4 (len (body m)) : i32 _ = _). apply swrap_small; [lia|].
  unfold fits, kMaxMessageLen in Hf. pose proof (len_nonneg (body m)). unfold in_signed.
  change (8 * Z.of_nat 4 - 1) with 31. lia.
Qed.

Lemma summed_inj p1 p2 sum :
  length sum = 4%nat -> p1 ++ sum = summed p2 -> p1 = p2 /\ sum = be_bytes 4 (adler32 p2).
Proof. intros Hl E. unfold summed in E. apply app_inj_2 in E; [done|]. by rewrite length_be_bytes. Qed.

Lemma parses_body m r : parses (body m) r -> r = inl m.
Proof.
  intros H1. inversion H1 as [data m' E Ep|data E Ep|payload E Hn|payload sum E Hl Hn]; subst.
  - symmetry in E. apply summed_inj in E as [E _]; [|by rewrite length_be_bytes].
    apply app_inv_head in E as ->. rewrite parse_serialize in Ep. congruence.
  - symmetry in E. apply summed_inj in E as [E _]; [|by rewrite length_be_bytes].
    apply app_inv_head in E as ->. rewrite parse_serialize in Ep. congruence.
  - symmetry in E. apply summed_inj in E as [E _]; [|by rewrite length_be_bytes]. by destruct (Hn _ E).
  - symmetry in E. apply summed_inj in E as [-> ->]; done.
Qed.

Lemma decodes_frames c evs r :
  rawCb_ = None -> decodes c evs r ->
  forall ms s, Forall fits ms -> c ++ s = concat (frame <$> ms) ->
  exists ms1 ms2, ms = ms1 ++ ms2 /\ evs = GotMessage <$> ms1 /\ r ++ s = concat (frame <$> ms2) /\
    (s = [] -> ms2 = []).
Proof.
  intros Hraw Hd. pose proof (len_nonneg tag_) as Ht.
  induction Hd as [c Hc|hdr c Hl Hc Hn|hdr c Hl Hc Hn Hn'|hdr bd c raw evs r Hf Hr Hd IH|
    hdr bd c raw m evs r Hf Hr Hp Hd IH|hdr bd c raw e Hf Hr Hp]; intros ms s Hms E.
  - exists [], ms. split_and!; [done|done|done|]. intros ->. rewrite app_nil_r in E. destruct ms as [|m ms]; [done|].
    exfalso. change (concat (frame <$> m :: ms)) with (frame m ++ concat (frame <$> ms)) in E.
    rewrite E in Hc. unfold frame at 1 in Hc. rewrite !len_app, len_be_bytes, len_body in Hc.
    pose proof (len_nonneg (SerializeToArray m)). pose proof (len_nonneg (concat (frame <$> ms))). lia.
  - exfalso. rewrite <- app_assoc in E. destruct ms as [|m ms]; [by destruct hdr|].
    apply Forall_cons in Hms as [Hm _]. destruct (frame_header m hdr _ _ Hm Hl E) as [Hh _].
    rewrite Hh, len_body in Hn. unfold fits in Hm. rewrite len_body in Hm.
    pose proof (len_nonneg (SerializeToArray m)). lia.
  - exists [], ms. split_and!; [done|done|done|]. intros ->. rewrite <- app_assoc, app_nil_r in E.
    exfalso. destruct ms as [|m ms]; [by destruct hdr|]. apply Forall_cons in Hms as [Hm _].
    destruct (frame_header m hdr _ _ Hm Hl E) as [Hh ->]. rewrite Hh, len_app in Hn'.
    match type of Hn' with _ + len ?l < _ => pose proof (len_nonneg l) end. lia.
  - unfold Codec.callRaw in Hr. rewrite Hraw in Hr. congruence.
  - unfold Codec.callRaw in Hr. rewrite Hraw in Hr. injection Hr as <-.
    destruct Hf as (Hl & Hh & Hb). rewrite <- !app_assoc in E.
    destruct ms as [|m' ms]; [by destruct hdr|]. apply Forall_cons in Hms as [Hm Hms].
    destruct (frame_header m' hdr _ _ Hm Hl E) as [Hh' E']. rewrite Hh in Hh'.
    apply app_inj_1 in E' as [-> E']; [|unfold len in Hh'; lia].
    apply parses_body in Hp. injection Hp as <-.
    destruct (IH ms s Hms E') as (ms1 & ms2 & -> & -> & E2 & Hs). exists (m :: ms1), ms2. by split_and!.
  - exfalso. destruct Hf as (Hl & Hh & Hb). rewrite <- !app_assoc in E.
    destruct ms as [|m' ms]; [by destruct hdr|]. apply Forall_cons in Hms as [Hm Hms].
    destruct (frame_header m' hdr _ _ Hm Hl E) as [Hh' E']. rewrite Hh in Hh'.
    apply app_inj_1 in E' as [-> E']; [|unfold len in Hh'; lia]. by apply parses_body in Hp.
Qed.

Lemma receive_stream chunks ms0 ms1 b :
  rawCb_ = None -> inv b -> Forall fits ms1 -> Forall (fun c => len c <= max_size) chunks ->
  content b ++ concat chunks = concat (frame <$> ms1) -> (concat chunks = [] -> ms1 = []) ->
  safe (res_fold (receive adler32 tag_ rawCb_) (b, GotMessage <$> ms0) chunks)
    (fun st => content (fst st) = [] /\ snd st = GotMessage <$> (ms0 ++ ms1)).
Proof.
  intros Hraw. revert ms0 ms1 b. induction chunks as [|c chunks IH]; intros ms0 ms1 b Hi Hms Hch E H0.
  - cbn. rewrite (H0 eq_refl) in *. rewrite !app_nil_r in *. done.
  - apply Forall_cons in Hch as [Hc Hch]. cbn [res_fold]. unfold receive at 1. cbn [fst snd].
    apply safe_bind. eapply safe_bind'; [by apply append_safe|]. intros b1 [Hi1 Hc1].
    destruct (onMessage_decodes b1 Hi1) as (b2 & evs & -> & Hi2 & Hd). cbn [res_bind safe].
    rewrite Hc1 in Hd. cbn [concat] in E. rewrite app_assoc in E.
    destruct (decodes_frames _ _ _ Hraw Hd ms1 _ Hms E) as (m1 & m2 & -> & -> & E2 & Hs).
    apply Forall_app in Hms as [_ Hms]. rewrite <- fmap_app, (app_assoc ms0). by apply IH.
Qed.
End Framing.

(** C29: whatever bytes a connection delivers, [onMessage] returns, reads nothing
    outside the readable bytes, and does what the wire format says: complete
    frames become messages in order until a frame is incomplete, or until one has a
    bad length, checksum, tag or payload, which is reported once and stays in the
    buffer. *)
Theorem codec_decodes {M} `{MessageOps M} adler32 tag_ rawCb_ b :
  len tag_ + 8 < 2 ^ 31 -> inv b ->
  exists b' evs, onMessage (M := M) adler32 tag_ rawCb_ b = Ok (b', evs) /\ inv b' /\
    decodes adler32 tag_ rawCb_ (content b) evs (content b').
Proof. intros Ht Hi. by apply onMessage_decodes. Qed.

(** C28: messages that fit are framed by [send], and however the stream of their
    frames is cut into pieces on its way, the receiver gets exactly these messages,
    in order, and is left with an empty buffer. *)
Theorem codec_stream {M} `{MessageLaws M} adler32 tag_ ms :
  len tag_ + 8 < 2 ^ 31 -> Forall (fits adler32 tag_) ms ->
  exists fs, Forall2 (fun m f => send adler32 tag_ m = Ok f) ms fs /\
    forall chunks, concat chunks = concat fs -> Forall (fun c => len c <= max_size) chunks ->
    safe (res_fold (receive adler32 tag_ None) (newBuffer kInitialSize, []) chunks)
      (fun st => content (fst st) = [] /\ snd st = GotMessage <$> ms).
Proof.
  intros Ht Hms. exists (frame adler32 tag_ <$> ms). destruct defaultBuffer_spec as (Hi & Hc & _). split.
  - apply Forall2_fmap_r, Forall_Forall2_diag. eapply Forall_impl; [exact Hms|]. intros m Hm. by apply send_frame.
  - intros chunks Hch Hl. apply (receive_stream adler32 tag_ None Ht chunks [] ms); try done.
    intros E. rewrite E in Hch. destruct ms as [|m ms]; [done|]. exfalso.
    change (concat (frame adler32 tag_ <$> m :: ms))
      with (frame adler32 tag_ m ++ concat (frame adler32 tag_ <$> ms)) in Hch.
    apply (f_equal len) in Hch. unfold frame at 1 in Hch. rewrite !len_app, len_be_bytes, len_nil in Hch.
    pose proof (len_nonneg (body adler32 tag_ m)).
    pose proof (len_nonneg (concat (frame adler32 tag_ <$> ms))). lia.
Qed.

(** *** Witnesses *)

(** Messages that are their own serialisation, and the checksum of RFC 1950. *)
Definition demo_message : Type := list byte.

#[export] Instance demo_ops : MessageOps demo_message :=
  { ByteSize := len; SerializeToArray m := m; ParseFromArray bytes := Some bytes }.

#[export] Instance demo_laws : MessageLaws demo_message.
Proof. by split. Qed.

Definition demo_adler (bytes : list byte) : Z :=
  let '(a, b) := fold_left (fun '(a, b) x => let a := (a + b2z x) mod 65521 in (a, (b + a) mod 65521)) bytes (1, 0) in
  b * 65536 + a.

Definition demo_tag : list byte := bytes_of_string "RPC0".

Lemma codec_decodes_witness :
  exists b' evs, onMessage (M := demo_message) demo_adler demo_tag None (newBuffer 16) = Ok (b', evs) /\ inv b' /\
    decodes demo_adler demo_tag None (content (newBuffer 16)) evs (content b').
Proof.
  apply codec_decodes; [reflexivity|]. eapply rep_inv, newBuffer_rep; [lia|reflexivity || (vm_compute; discriminate)].
Defined.

Lemma codec_stream_witness :
  exists fs, Forall2 (fun m f => send (M := demo_message) demo_adler demo_tag m = Ok f)
               [bytes_of_string "hello"; []; bytes_of_string "world"] fs /\
    forall chunks, concat chunks = concat fs -> Forall (fun c => len c <= max_size) chunks ->
    safe (res_fold (receive (M := demo_message) demo_adler demo_tag None) (newBuffer kInitialSize, []) chunks)
      (fun st => content (fst st) = [] /\ snd st = GotMessage <$> [bytes_of_string "hello"; []; bytes_of_string "world"]).
Proof.
  apply (codec_stream (M := demo_message)); [reflexivity|].
  repeat (apply Forall_cons; split; [vm_compute; discriminate|]). by apply Forall_nil.
Defined.
