(* ===== verification/Rpc.v ===== *)
(** * Remote calls (src/src/muduo/net/protorpc/RpcChannel.h, RpcChannel.cc, RpcServer.cc)

    A channel numbers the calls made through it, keeps their response objects and
    closures until the answers come, and serves the requests of its peer.  The
    codec that carries the messages is in Codec; message bodies are bytes, and the
    services are an interface.  Objects handed over by raw pointer are named by
    integers, and what happens to them is a log of effects. *)

From S2P Require Import Prelude.

Inductive MessageType := REQUEST | RESPONSE | ERROR.

Inductive RpcErrorCode :=
| NO_ERROR | WRONG_PROTO | NO_SERVICE | NO_METHOD | INVALID_REQUEST | INVALID_RESPONSE | TIMEOUT.

#[export] Instance RpcErrorCode_eq_dec : EqDecision RpcErrorCode.
Proof. solve_decision. Defined.

(** rpc.proto; [id] is a fixed64: every message the program makes has its id reduced
    to 64 bits by the two constructors below. *)
Record RpcMessage := mkMessage {
  type : MessageType;
  id : Z;
  service : list byte;
  method : list byte;
  request : list byte;
  response : option (list byte);
  error : option RpcErrorCode;
}.

Definition request_message (i : Z) (svc mth req : list byte) : RpcMessage :=
  mkMessage REQUEST (u64 i) svc mth req None None.
Definition response_message (i : Z) (resp : list byte) : RpcMessage :=
  mkMessage RESPONSE (u64 i) [] [] [] (Some resp) None.
Definition error_message (i : Z) (e : RpcErrorCode) : RpcMessage :=
  mkMessage RESPONSE i [] [] [] None (Some e).

(** A service: its methods by name, each with the parser of its request type. *)
Record Service (R : Type) := mkService { FindMethodByName : list byte -> option (list byte -> option R) }.
Arguments mkService {R} _.
Arguments FindMethodByName {R} _ _.

(** The objects of a call the caller gave: NULL is [None]. *)
Record OutstandingCall := mkOutstanding { out_response : option Z; out_done : option Z }.

(** What a channel does outside itself. *)
Inductive effect (R : Type) :=
| Send (m : RpcMessage)                                       (** [codec_.send(conn_, m)] *)
| ParseResponse (p : Z) (bytes : list byte)                   (** [response->ParseFromString] *)
| RunDone (p : Z)                                             (** [done->Run()], which deletes it *)
| DeleteResponse (p : Z)
| DeleteDone (p : Z)
| Invoke (svc mth : list byte) (r : R) (i : Z).               (** [service->CallMethod] for request [i] *)
Arguments Send {R} m.
Arguments ParseResponse {R} p bytes.
Arguments RunDone {R} p.
Arguments DeleteResponse {R} p.
Arguments DeleteDone {R} p.
Arguments Invoke {R} svc mth r i.

#[export] Instance MessageType_eq_dec : EqDecision MessageType.
Proof. solve_decision. Defined.
#[export] Instance RpcMessage_eq_dec : EqDecision RpcMessage.
Proof. solve_decision. Defined.
#[export] Instance effect_eq_dec {R} `{EqDecision R} : EqDecision (effect R).
Proof. solve_decision. Defined.

Section Channel.
Context {R : Type}.

Record RpcChannel := mkChannel {
  id_ : Z;
  outstandings_ : gmap Z OutstandingCall;
  services_ : option (gmap (list byte) (Service R));
}.

Definition newChannel : RpcChannel := mkChannel 0 ∅ None.

Definition setServices (s : gmap (list byte) (Service R)) (c : RpcChannel) : RpcChannel :=
  mkChannel (id_ c) (outstandings_ c) (Some s).

(** [CallMethod]: number the call, remember it, send the request. *)
Definition CallMethod (svc mth req : list byte) (resp done : option Z) (c : RpcChannel)
    : RpcChannel * list (effect R) :=
  let i := i64 (id_ c + 1) in
  (mkChannel i (<[i := mkOutstanding resp done]> (outstandings_ c)) (services_ c),
   [Send (request_message i svc mth req)]).

Definition is_some {A} (o : option A) : bool := match o with Some _ => true | None => false end.

(** The answer to a call: parse it, run the closure, delete the response. *)
Definition onResponse (m : RpcMessage) (c : RpcChannel) : res (RpcChannel * list (effect R)) :=
  let i := i64 (id m) in
  assert! is_some (response m) || is_some (error m) ;;
  let out := default (mkOutstanding None None) (outstandings_ c !! i) in
  let c := mkChannel (id_ c) (delete i (outstandings_ c)) (services_ c) in
  Ok (c, match out_response out with
         | Some p =>
             match response m with Some bytes => [ParseResponse p bytes] | None => [] end ++
             match out_done out with Some d => [RunDone d] | None => [] end ++
             [DeleteResponse p]
         | None => []
         end).

(** A request of the peer: the error it is refused with, or the call of the
    service. *)
Definition onRequest (m : RpcMessage) (c : RpcChannel) : list (effect R) :=
  let '(err, effs) :=
    match services_ c with
    | Some services =>
        match services !! service m with
        | Some svc =>
            match FindMethodByName svc (method m) with
            | Some parse =>
                match parse (request m) with
                | Some r => (NO_ERROR, [Invoke (service m) (method m) r (i64 (id m))])
                | None => (INVALID_REQUEST, [])
                end
            | None => (NO_METHOD, [])
            end
        | None => (NO_SERVICE, [])
        end
    | None => (NO_SERVICE, [])
    end in
  if bool_decide (err <> NO_ERROR) then effs ++ [Send (error_message (id m) err)] else effs.

Definition onRpcMessage (m : RpcMessage) (c : RpcChannel) : res (RpcChannel * list (effect R)) :=
  match type m with
  | RESPONSE => onResponse m c
  | REQUEST => Ok (c, onRequest m c)
  | ERROR => Ok (c, [])
  end.

(** [doneCallback], run by the service when the response [resp] of request [i] is
    there. *)
Definition doneCallback (resp : list byte) (i : Z) : list (effect R) := [Send (response_message i resp)].

(** [~RpcChannel] deletes what is still outstanding. *)
Definition destroyChannel (c : RpcChannel) : list (effect R) :=
  flat_map (fun e : Z * OutstandingCall =>
      match out_response (snd e) with Some p => [DeleteResponse p] | None => [] end ++
      match out_done (snd e) with Some d => [DeleteDone d] | None => [] end)
    (map_to_list (outstandings_ c)).

(** The life of a channel: calls, the k-th with response object and closure [k],
    and messages of the peer. *)
Inductive rpc_input :=
| Call (svc mth req : list byte)
| Receive (m : RpcMessage).

Definition rexec (st : RpcChannel * list (effect R)) (i : rpc_input) : res (RpcChannel * list (effect R)) :=
  let '(c, log) := st in
  match i with
  | Call svc mth req =>
      let k := id_ c + 1 in
      let '(c, effs) := CallMethod svc mth req (Some k) (Some k) c in Ok (c, log ++ effs)
  | Receive m => let! '(c, effs) := onRpcMessage m c in Ok (c, log ++ effs)
  end.
End Channel.
Arguments RpcChannel : clear implicits.

(** ** RpcServer *)

(** [registerService] and the channel of a new connection. *)
Definition registerService {R} (full_name : list byte) (s : Service R) (services : gmap (list byte) (Service R))
  : gmap (list byte) (Service R) := <[full_name := s]> services.

Definition onConnection {R} (connected : bool) (services : gmap (list byte) (Service R)) : option (RpcChannel R) :=
  if connected then Some (setServices services newChannel) else None.

(** * Properties *)

Section Objects.
Context {R : Type}.
Implicit Types (c : RpcChannel R) (l log : list (effect R)).

(** How often effects of a kind occur. *)
Definition times (f : effect R -> bool) l : Z := len (filter (fun e => Is_true (f e)) l).

Definition deletes_response (k : Z) (e : effect R) : bool := match e with DeleteResponse p => p =? k | _ => false end.
Definition deletes_done (k : Z) (e : effect R) : bool := match e with DeleteDone p => p =? k | _ => false end.
Definition runs_done (k : Z) (e : effect R) : bool := match e with RunDone p => p =? k | _ => false end.

Definition one (P : Prop) `{Decision P} : Z := if decide P then 1 else 0.

Lemma rpc_times_app f l1 l2 : times f (l1 ++ l2) = times f l1 + times f l2.
Proof. unfold times. by rewrite filter_app, len_app. Qed.

Lemma rpc_times_cons f e l : times f (e :: l) = (if f e then 1 else 0) + times f l.
Proof.
  unfold times. rewrite filter_cons. destruct (f e) eqn:E.
  - rewrite decide_True by done. by rewrite len_cons.
  - rewrite decide_False by (by intros []). lia.
Qed.

Lemma rpc_times_nil f : times f [] = 0.
Proof. done. Qed.

Lemma times_perm f l1 l2 : l1 ≡ₚ l2 -> times f l1 = times f l2.
Proof. intros H. unfold times, len. by rewrite H. Qed.

(** Every call numbered so far is outstanding, or its closure has run and its
    response was deleted, once. *)
Record rpc_inv c log : Prop := {
  ri_id : 0 <= id_ c;
  ri_out : forall k o, outstandings_ c !! k = Some o -> 1 <= k <= id_ c /\ o = mkOutstanding (Some k) (Some k);
  ri_delete : forall k, times (deletes_response k) log + one (is_Some (outstandings_ c !! k)) = one (1 <= k <= id_ c);
  ri_run : forall k, times (runs_done k) log = times (deletes_response k) log;
  ri_done : forall k, times (deletes_done k) log = 0;
}.

Lemma new_inv : rpc_inv newChannel [].
Proof.
  split; cbn; try done; try lia.
  intros k. rewrite rpc_times_nil. unfold one. rewrite lookup_empty.
  rewrite decide_False by (by intros [? ?]). rewrite decide_False by lia. done.
Qed.

Lemma call_inv c log svc mth req :
  rpc_inv c log -> id_ c + 1 < 2 ^ 63 ->
  exists c', rexec (c, log) (Call svc mth req) = Ok (c', log ++ [Send (request_message (id_ c + 1) svc mth req)])
    /\ rpc_inv c' (log ++ [Send (request_message (id_ c + 1) svc mth req)])
    /\ id_ c' = id_ c + 1 /\ services_ c' = services_ c
    /\ outstandings_ c' = <[id_ c + 1 := mkOutstanding (Some (id_ c + 1)) (Some (id_ c + 1))]> (outstandings_ c).
Proof.
  intros [Hi Ho Hd Hr Hn] Hb. cbn [rexec CallMethod].
  assert (i64 (id_ c + 1) = id_ c + 1) as ->.
  { apply swrap_small; [lia|]. unfold in_signed. change (64 - 1) with 63. lia. }
  eexists. split; [reflexivity|]. split_and!; [|done|done|done].
  split; cbn [id_ outstandings_ services_].
  - lia.
  - intros k o. destruct (decide (k = id_ c + 1)) as [->|Hk].
    + rewrite lookup_insert_eq. intros [= <-]. split; [lia|done].
    + rewrite lookup_insert_ne by done. intros Hko. destruct (Ho k o Hko). split; [lia|done].
  - intros k. rewrite rpc_times_app, rpc_times_cons, rpc_times_nil. cbn. specialize (Hd k). unfold one in *.
    destruct (decide (k = id_ c + 1)) as [->|Hk].
    + rewrite lookup_insert_eq. rewrite decide_True by done.
      rewrite (decide_False (P := 1 <= id_ c + 1 <= id_ c)) in Hd by lia.
      rewrite (decide_True (P := 1 <= id_ c + 1 <= id_ c + 1)) by lia.
      destruct (decide (is_Some (outstandings_ c !! (id_ c + 1)))) as [[o Hs]|].
      * destruct (Ho _ _ Hs). lia.
      * lia.
    + rewrite lookup_insert_ne by done. rewrite Z.add_0_r, Hd.
      destruct (decide (1 <= k <= id_ c)), (decide (1 <= k <= id_ c + 1)); try done; lia.
  - intros k. rewrite !rpc_times_app, !rpc_times_cons, !rpc_times_nil. cbn. by rewrite Hr.
  - intros k. rewrite !rpc_times_app, !rpc_times_cons, !rpc_times_nil. cbn. by rewrite Hn.
Qed.

Lemma response_inv c log m :
  rpc_inv c log -> is_some (response m) || is_some (error m) = true ->
  exists c' effs, onResponse m c = Ok (c', effs) /\ rpc_inv c' (log ++ effs) /\ id_ c' = id_ c.
Proof.
  intros [Hi Ho Hd Hr Hn] Hm. unfold onResponse. rewrite Hm. cbn [cassert res_bind].
  eexists _, _. split; [reflexivity|]. split; [|done].
  set (i := i64 (id m)). destruct (outstandings_ c !! i) as [o|] eqn:Eo; cbn [default].
  - destruct (Ho _ _ Eo) as [Hb ->]. cbn [Datatypes.id out_response out_done].
    assert (forall k, times (deletes_response k)
       (match response m with Some bytes => [ParseResponse i bytes] | None => [] end ++ [RunDone i] ++ [DeleteResponse i])
       = if i =? k then 1 else 0) as E1.
    { intros k. destruct (response m); cbn [app]; rewrite !rpc_times_cons, rpc_times_nil; cbn; lia. }
    assert (forall k, times (runs_done k)
       (match response m with Some bytes => [ParseResponse i bytes] | None => [] end ++ [RunDone i] ++ [DeleteResponse i])
       = if i =? k then 1 else 0) as E2.
    { intros k. destruct (response m); cbn [app]; rewrite !rpc_times_cons, rpc_times_nil; cbn; lia. }
    split; cbn [id_ outstandings_ services_]; [done| | | |].
    + intros k o. rewrite lookup_delete_Some. intros [_ Hk]. by apply Ho.
    + intros k. rewrite rpc_times_app, E1, <- (Hd k). unfold one. destruct (Z.eqb_spec i k) as [<-|Hk].
      * rewrite lookup_delete_eq. rewrite decide_False by (by intros [? ?]).
        rewrite Eo, decide_True by done. lia.
      * rewrite lookup_delete_ne by done. lia.
    + intros k. by rewrite !(rpc_times_app _ log), E1, E2, Hr.
    + intros k. rewrite rpc_times_app, Hn. destruct (response m); cbn [app]; rewrite !rpc_times_cons, rpc_times_nil; done.
  - cbn [out_response]. rewrite app_nil_r. rewrite delete_id by done. by split.
Qed.

Lemma request_inv c log m : rpc_inv c log -> rpc_inv c (log ++ onRequest m c).
Proof.
  intros [Hi Ho Hd Hr Hn].
  assert (forall f : effect R -> bool, (forall m', f (Send m') = false) ->
    (forall s m' r i, f (Invoke s m' r i) = false) -> times f (onRequest m c) = 0) as H0.
  { intros f H1 H2. unfold onRequest.
    destruct (services_ c) as [services|]; [destruct (services !! service m) as [svc|];
      [destruct (FindMethodByName svc (method m)) as [parse|]; [destruct (parse (request m))|]|]|];
      case_bool_decide; rewrite ?app_nil_l, ?rpc_times_app, ?rpc_times_cons, ?rpc_times_nil, ?H1, ?H2; done. }
  split; [done|done|intros k; rewrite rpc_times_app, H0 by done; rewrite <- Hd; lia| |];
    intros k; rewrite !rpc_times_app, !H0 by done; [by rewrite Hr|by rewrite Hn].
Qed.

(** A response says something; every other message may be anything. *)
Definition well_formed (i : rpc_input) : bool :=
  match i with
  | Receive m => match type m with RESPONSE => is_some (response m) || is_some (error m) | _ => true end
  | Call _ _ _ => true
  end.

Lemma rexec_inv c log i :
  rpc_inv c log -> id_ c + 1 < 2 ^ 63 -> well_formed i = true ->
  exists c' log', rexec (c, log) i = Ok (c', log') /\ rpc_inv c' log' /\ id_ c' <= id_ c + 1.
Proof.
  intros Hi Hb Hw. destruct i as [svc mth req|m].
  - destruct (call_inv c log svc mth req Hi Hb) as (c' & E & H' & Hid & _). eexists _, _.
    split; [exact E|]. split; [done|lia].
  - cbn [rexec]. cbn in Hw. unfold onRpcMessage. destruct (type m).
    + eexists _, _. split; [reflexivity|]. split; [by apply request_inv|lia].
    + destruct (response_inv c log m Hi Hw) as (c' & effs & E & H' & Hid). rewrite E.
      eexists _, _. split; [reflexivity|]. split; [done|lia].
    + eexists _, _. split; [reflexivity|]. rewrite app_nil_r. split; [done|lia].
Qed.

Lemma rpc_run evs c log :
  rpc_inv c log -> id_ c + len evs < 2 ^ 63 -> forallb well_formed evs = true ->
  exists c' log', res_fold rexec (c, log) evs = Ok (c', log') /\ rpc_inv c' log'.
Proof.
  revert c log. induction evs as [|i evs IH]; intros c log Hi Hb Hw; [by exists c, log|].
  cbn in Hw. apply andb_prop in Hw as [Hw Hws]. rewrite len_cons in Hb. pose proof (len_nonneg evs).
  destruct (rexec_inv c log i Hi ltac:(lia) Hw) as (c1 & log1 & E & H1 & Hid).
  cbn [res_fold]. rewrite E. cbn [res_bind]. apply IH; [done|lia|done].
Qed.

(** The destructor deletes each outstanding response and closure. *)
Lemma destroy_times (f : effect R -> bool) (k : Z) (m : gmap Z OutstandingCall) :
  (forall j o, m !! j = Some o -> o = mkOutstanding (Some j) (Some j)) ->
  (forall j, (if f (DeleteResponse j) then 1 else 0) + (if f (DeleteDone j) then 1 else 0) = one (j = k)) ->
  times f (flat_map (fun e : Z * OutstandingCall =>
      match out_response (snd e) with Some p => [DeleteResponse p] | None => [] end ++
      match out_done (snd e) with Some d => [DeleteDone d] | None => [] end) (map_to_list m))
    = one (is_Some (m !! k)).
Proof.
  intros Hm Hf. induction m as [|j o m Hj IH] using map_ind.
  - rewrite map_to_list_empty. cbn. unfold one. rewrite lookup_empty. by rewrite decide_False by (by intros [? ?]).
  - assert (o = mkOutstanding (Some j) (Some j)) as -> by (apply Hm; by rewrite lookup_insert_eq).
    erewrite times_perm by (by apply Permutation_flat_map, map_to_list_insert).
    cbn [flat_map out_response out_done snd].
    rewrite rpc_times_app. cbn [app]. rewrite !rpc_times_cons, rpc_times_nil, Z.add_0_r, Hf, IH.
    2:{ intros j' o' Hj'. apply Hm. rewrite lookup_insert_ne; [done|]. intros ->. congruence. }
    unfold one. destruct (decide (j = k)) as [->|Hne].
    + rewrite lookup_insert_eq, Hj. rewrite decide_False by (by intros [? ?]). by rewrite decide_True by done.
    + by rewrite lookup_insert_ne.
Qed.
End Objects.

(** ** Calls and their answers *)

Section Answers.
Context {R : Type} (services : gmap (list byte) (Service R)).

(** A call of [mth] of [svc] with request bytes [req]. *)
Definition call : Type := list byte * list byte * list byte.

Definition to_input (x : call) : rpc_input := let '(svc, mth, req) := x in Call svc mth req.

(** The service exists, has the method, and the request parses as [r]. *)
Definition accepted (x : call) (r : R) : Prop :=
  let '(svc, mth, req) := x in
  exists s parse, services !! svc = Some s /\ FindMethodByName s mth = Some parse /\ parse req = Some r.

(** The messages sent. *)
Definition sent (l : list (effect R)) : list RpcMessage :=
  omap (fun e => match e with Send m => Some m | _ => None end) l.

Fixpoint requests (n : Z) (calls : list call) : list RpcMessage :=
  match calls with
  | [] => []
  | (svc, mth, req) :: calls => request_message (n + 1) svc mth req :: requests (n + 1) calls
  end.

Fixpoint invocations (n : Z) (calls : list call) (rs : list R) : list (effect R) :=
  match calls, rs with
  | (svc, mth, _) :: calls, r :: rs => Invoke svc mth r (n + 1) :: invocations (n + 1) calls rs
  | _, _ => []
  end.

Definition number (e : effect R) : Z := match e with Invoke _ _ _ i => i | _ => 0 end.
Definition is_invoke (e : effect R) : Prop := match e with Invoke _ _ _ _ => True | _ => False end.

Lemma i64_u64 i : 0 <= i < 2 ^ 63 -> i64 (u64 i) = i.
Proof.
  intros Hi. unfold i64, u64. rewrite swrap_uwrap by lia. apply swrap_small; [lia|].
  unfold in_signed. change (64 - 1) with 63. lia.
Qed.

Lemma client_calls calls (c : RpcChannel R) log :
  0 <= id_ c -> id_ c + len calls < 2 ^ 63 ->
  exists c', res_fold rexec (c, log) (to_input <$> calls) = Ok (c', log ++ (Send <$> requests (id_ c) calls)) /\
    forall k, outstandings_ c' !! k =
      if decide (id_ c < k <= id_ c + len calls) then Some (mkOutstanding (Some k) (Some k)) else outstandings_ c !! k.
Proof.
  revert c log. induction calls as [|[[svc mth] req] calls IH]; intros c log Hi Hb.
  - exists c. rewrite app_nil_r. split; [done|]. intros k. rewrite decide_False; [done|]. rewrite len_nil. lia.
  - rewrite len_cons in Hb. pose proof (len_nonneg calls). cbn [fmap list_fmap to_input res_fold rexec CallMethod].
    assert (i64 (id_ c + 1) = id_ c + 1) as ->.
    { apply swrap_small; [lia|]. unfold in_signed. change (64 - 1) with 63. lia. }
    cbn [res_bind]. edestruct IH as (c' & E & Ho); [| |exists c'; split].
    3:{ etransitivity; [exact E|]. cbn [requests id_ fmap list_fmap]. by rewrite <- app_assoc. }
    + cbn. lia.
    + cbn. lia.
    + intros k. rewrite Ho. cbn [id_ outstandings_]. rewrite len_cons.
      destruct (decide (k = id_ c + 1)) as [->|Hk].
      * rewrite lookup_insert_eq, !decide_False by lia. by rewrite decide_True by lia.
      * rewrite lookup_insert_ne by done.
        destruct (decide (id_ c + 1 < k <= id_ c + 1 + len calls)), (decide (id_ c < k <= id_ c + (1 + len calls)));
          (done || lia).
Qed.

Definition serving : RpcChannel R := setServices services newChannel.

Lemma server_serves calls rs n log :
  0 <= n -> n + len calls < 2 ^ 63 -> Forall2 accepted calls rs ->
  res_fold rexec (serving, log) (Receive <$> requests n calls) = Ok (serving, log ++ invocations n calls rs).
Proof.
  intros Hn Hb Ha. revert n log Hn Hb. induction Ha as [|[[svc mth] req] r calls rs Hx Ha IH]; intros n log Hn Hb.
  - cbn. by rewrite app_nil_r.
  - rewrite len_cons in Hb. pose proof (len_nonneg calls). destruct Hx as (s & parse & H1 & H2 & H3).
    cbn [requests invocations fmap list_fmap res_fold rexec onRpcMessage type request_message res_bind].
    unfold onRequest. cbn [services_ serving setServices service method request id request_message].
    rewrite H1, H2, H3, bool_decide_false by tauto. rewrite i64_u64 by lia.
    cbn [res_bind]. etransitivity; [apply IH; lia|]. by rewrite <- app_assoc.
Qed.

Lemma sent_Send l : sent (Send <$> l) = l.
Proof. induction l as [|m l IH]; [done|]. cbn. f_equal. exact IH. Qed.

Lemma invocations_numbers calls rs n :
  length calls = length rs -> number <$> invocations n calls rs = seqZ (n + 1) (len calls) /\
  Forall is_invoke (invocations n calls rs).
Proof.
  revert n rs. induction calls as [|[[svc mth] req] calls IH]; intros n [|r rs] Hl; try done.
  cbn in Hl. injection Hl as Hl. destruct (IH (n + 1) rs Hl) as [H1 H2]. split; [|by constructor].
  cbn [invocations fmap list_fmap number]. rewrite len_cons. pose proof (len_nonneg calls).
  rewrite (seqZ_cons (n + 1) (1 + len calls)) by lia. f_equal. etransitivity; [exact H1|]. f_equal; lia.
Qed.

Context (handler : list byte -> list byte -> R -> list byte).

(** The service finishes a call with the handler's result. *)
Definition finish (e : effect R) : list (effect R) :=
  match e with Invoke svc mth r i => doneCallback (handler svc mth r) i | _ => [] end.

(** What the caller then sees. *)
Definition outcome (e : effect R) : list (effect R) :=
  match e with
  | Invoke svc mth r i => [ParseResponse i (handler svc mth r); RunDone i; DeleteResponse i]
  | _ => []
  end.

Lemma client_answered order (c : RpcChannel R) log :
  NoDup (number <$> order) -> Forall is_invoke order -> Forall (fun e => 0 <= number e < 2 ^ 63) order ->
  (forall k, outstandings_ c !! k =
     if decide (k ∈ number <$> order) then Some (mkOutstanding (Some k) (Some k)) else None) ->
  exists c', res_fold rexec (c, log) (Receive <$> sent (flat_map finish order)) = Ok (c', log ++ flat_map outcome order)
    /\ outstandings_ c' = ∅.
Proof.
  revert c log. induction order as [|e order IH]; intros c log Hn Hv Hr Ho.
  - exists c. cbn. rewrite app_nil_r. split; [done|]. apply map_empty. intros k. rewrite Ho. by rewrite decide_False by apply not_elem_of_nil.
  - apply Forall_cons in Hv as [He Hv]. apply Forall_cons in Hr as [Hi Hr]. destruct e as [| | | | |svc mth r i]; try done.
    cbn [number] in *. apply NoDup_cons in Hn as [Hni Hn].
    cbn [flat_map finish doneCallback app sent omap list_omap fmap list_fmap res_fold rexec onRpcMessage type response_message].
    unfold onResponse. cbn [response is_some orb cassert res_bind id response_message]. rewrite i64_u64 by done.
    rewrite Ho, decide_True by (apply list_elem_of_here). cbn [default Datatypes.id out_response out_done app].
    edestruct (IH (mkChannel (id_ c) (delete i (outstandings_ c)) (services_ c))) as (c' & E & H'); [done|done|done| |].
    + intros k. cbn [outstandings_]. destruct (decide (k = i)) as [->|Hk].
      * rewrite lookup_delete_eq. by rewrite decide_False.
      * rewrite lookup_delete_ne by done. rewrite Ho. cbn [fmap list_fmap number].
        assert (k ∈ i :: (number <$> order) <-> k ∈ number <$> order) as Hiff.
        { rewrite elem_of_cons. tauto. }
        destruct (decide (k ∈ number <$> order)), (decide (k ∈ i :: (number <$> order))); tauto.
    + exists c'. split; [|done]. etransitivity; [exact E|]. by rewrite <- app_assoc.
Qed.
End Answers.

(** whatever the peer sends, as long as its responses carry a response or an
    error, the channel's asserts hold, and every response object and every closure
    given to [CallMethod] is disposed of exactly once by the end of the channel:
    the response deleted, the closure run when the answer came or deleted with the
    channel; a closure never runs twice. *)
Theorem rpc_objects_once {R} (evs : list rpc_input) :
  len evs < 2 ^ 63 -> forallb well_formed evs = true ->
  exists c log, res_fold (rexec (R := R)) (newChannel, []) evs = Ok (c, log) /\
    forall k, let all := log ++ destroyChannel c in
      times (deletes_response k) all = one (1 <= k <= id_ c) /\
      times (runs_done k) all + times (deletes_done k) all = one (1 <= k <= id_ c).
Proof.
  intros Hl Hw. destruct (rpc_run (R := R) evs newChannel [] new_inv) as (c & log & E & [Hi Ho Hd Hr Hn]); [cbn; lia|done|].
  exists c, log. split; [done|]. intros k all. unfold all. rewrite !rpc_times_app, Hr, Hn. unfold destroyChannel.
  assert (forall j o, outstandings_ c !! j = Some o -> o = mkOutstanding (Some j) (Some j)) as Ho'.
  { intros j o Hj. by destruct (Ho j o Hj). }
  assert (forall j, (if j =? k then 1 else 0) = one (j = k)) as Hone.
  { intros j. unfold one. destruct (Z.eqb_spec j k); [by rewrite decide_True|by rewrite decide_False]. }
  rewrite (destroy_times (deletes_response k) k), (destroy_times (deletes_done k) k);
    [|done|intros j; cbn; apply Hone|done|intros j; cbn; rewrite Z.add_0_r; apply Hone].
  assert (times (runs_done k) (flat_map (fun e : Z * OutstandingCall =>
      match out_response (snd e) with Some p => [DeleteResponse p] | None => [] end ++
      match out_done (snd e) with Some d => [DeleteDone d] | None => [] end) (map_to_list (outstandings_ c))) = 0) as ->.
  { induction (map_to_list (outstandings_ c)) as [|[j [[p|] [d|]]] l IH]; [done|..]; cbn [flat_map snd out_response out_done app];
      rewrite ?rpc_times_cons; cbn [runs_done]; rewrite ?IH; done. }
  specialize (Hd k). lia.
Qed.

(** calls that the server's services accept are all answered: the server
    invokes its methods in the order of the calls, and in whatever order they finish,
    the caller sees each call's own result parsed into its response, its closure run
    and its response deleted, in that order, and nothing stays outstanding. *)
Theorem rpc_calls_answered {R} (services : gmap (list byte) (Service R)) handler calls rs :
  len calls < 2 ^ 63 - 1 -> Forall2 (accepted services) calls rs ->
  exists c log, res_fold rexec (newChannel, []) (to_input <$> calls) = Ok (c, log) /\
    res_fold rexec (serving services, []) (Receive <$> sent log) = Ok (serving services, invocations 0 calls rs) /\
    forall order, order ≡ₚ invocations 0 calls rs ->
      exists c', res_fold rexec (c, []) (Receive <$> sent (flat_map (finish handler) order))
                   = Ok (c', flat_map (outcome handler) order) /\ outstandings_ c' = ∅.
Proof.
  intros Hl Ha. pose proof (Forall2_length _ _ _ Ha) as Hlen.
  destruct (client_calls (R := R) calls newChannel []) as (c & E & Ho); [cbn; lia|cbn; lia|].
  exists c, (Send <$> requests 0 calls). split; [exact E|]. split.
  { rewrite sent_Send. apply (server_serves services calls rs 0 []); [lia|lia|done]. }
  intros order Hp. destruct (invocations_numbers calls rs 0 Hlen) as [Hnum Hinv]. change (0 + 1) with 1 in Hnum.
  assert (number <$> order ≡ₚ seqZ 1 (len calls)) as Hpn by (rewrite <- Hnum; by apply fmap_Permutation).
  apply client_answered with (log := []).
  - rewrite Hpn. apply NoDup_seqZ.
  - by rewrite Hp.
  - apply Forall_forall. intros e He. assert (number e ∈ seqZ 1 (len calls)) as Hs.
    { rewrite <- Hpn. by apply list_elem_of_fmap_2. }
    apply elem_of_seqZ in Hs. lia.
  - intros k. rewrite Ho. cbn [id_ newChannel outstandings_].
    destruct (decide (k ∈ number <$> order)) as [Hk|Hk]; rewrite Hpn in Hk; rewrite elem_of_seqZ in Hk.
    + by rewrite decide_True by lia.
    + by rewrite decide_False by lia.
Qed.

(** A response with neither a result nor an error, which any peer can send, trips
    the assert of [onRpcMessage]. *)
Lemma empty_response_asserts {R} (c : RpcChannel R) i svc mth req :
  onRpcMessage (mkMessage RESPONSE i svc mth req None None) c = Fail AssertFailed.
Proof. reflexivity. Qed.

(** *** Witnesses *)

Definition demo_name : list byte := bytes_of_string "echo.Echo".
Definition demo_method : list byte := bytes_of_string "Echo".

(** A service with one method, whose request is the bytes themselves. *)
Definition demo_service : Service (list byte) :=
  mkService (fun mth => if bool_decide (mth = demo_method) then Some (fun b => Some b) else None).

Definition demo_services : gmap (list byte) (Service (list byte)) := registerService demo_name demo_service ∅.

Lemma rpc_objects_once_witness :
  exists (c : RpcChannel (list byte)) log,
    res_fold rexec (newChannel, [])
      [Call demo_name demo_method [x01]; Call demo_name demo_method [x02];
       Receive (response_message 2 [x03]); Receive (response_message 2 [x03]); Receive (error_message 1 NO_METHOD)] = Ok (c, log) /\
    forall k, let all := log ++ destroyChannel c in
      times (deletes_response k) all = one (1 <= k <= id_ c) /\
      times (runs_done k) all + times (deletes_done k) all = one (1 <= k <= id_ c).
Proof. apply rpc_objects_once; [vm_compute; reflexivity|reflexivity]. Defined.

Lemma rpc_calls_answered_witness :
  exists (c : RpcChannel (list byte)) log,
    res_fold rexec (newChannel, []) (to_input <$> [(demo_name, demo_method, [x01]); (demo_name, demo_method, [x02])])
      = Ok (c, log) /\
    exists c' : RpcChannel (list byte), res_fold rexec (c, []) (Receive <$> sent (flat_map (finish (fun _ _ r => r ++ r))
        [Invoke demo_name demo_method [x02] 2; Invoke demo_name demo_method [x01] 1])) =
      Ok (c', [ParseResponse 2 [x02; x02]; RunDone 2; DeleteResponse 2;
               ParseResponse 1 [x01; x01]; RunDone 1; DeleteResponse 1]) /\ outstandings_ c' = ∅.
Proof.
  destruct (rpc_calls_answered demo_services (fun _ _ r => r ++ r)
    [(demo_name, demo_method, [x01]); (demo_name, demo_method, [x02])] [[x01]; [x02]]) as (c & log & H1 & _ & H2).
  - vm_compute. reflexivity.
  - assert (forall b, accepted demo_services (demo_name, demo_method, b) b) as Hb.
    { intros b. exists demo_service, (fun b => Some b). split_and!; [|reflexivity|reflexivity].
      unfold demo_services, registerService. apply lookup_insert_eq. }
    by repeat constructor.
  - exists c, log. split; [exact H1|]. apply H2. apply perm_swap.
Defined.
