(* ===== verification/RpcWires.v ===== *)
(** * Remote calls over a byte stream (src/src/muduo/net/protorpc: RpcCodec, RpcChannel, RpcServer)

    The channels of Rpc with the codec of Codec below them and a connection between:
    a client and a server, each with the input buffer of its connection, and the
    bytes that travel in the two directions.  Calls, arrivals of bytes in pieces of
    any size and the ends of the server's methods interleave freely. *)

From S2P Require Import Prelude Endian NetBuffer Codec Rpc.

(** [rpctag], the tag of an [RpcCodec]. *)
Definition rpctag : list byte := bytes_of_string "RPC0".

Section Wire.
Context {R : Type} `{MessageOps RpcMessage} (adler32 : list byte -> Z).

(** [codec_], the connection's input buffer, and what the codec's error callback did
    to the connection. *)
Record Endpoint := mkEndpoint {
  channel : RpcChannel R;
  inputBuffer : Buffer;
  conn_ops : list conn_op;
}.

(** [RpcCodec::send]: the frame of the message goes to the connection. *)
Definition codec_send (m : RpcMessage) : res (list byte) := send adler32 rpctag m.

(** The bytes that effects of a channel put on the connection. *)
Fixpoint transmit (l : list (effect R)) : res (list byte) :=
  match l with
  | [] => Ok []
  | Send m :: l => let! f := codec_send m in let! fs := transmit l in Ok (f ++ fs)
  | _ :: l => transmit l
  end.

(** What the codec calls: the channel with a message, the default error callback of a
    live connection with an error; there is no raw callback. *)
Definition codec_event (st : RpcChannel R * list conn_op * list (effect R)) (ev : event RpcMessage)
    : res (RpcChannel R * list conn_op * list (effect R)) :=
  let '(c, ops, effs) := st in
  match ev with
  | GotMessage m => let! '(c, effs') := onRpcMessage m c in Ok (c, ops, effs ++ effs')
  | GotError e => Ok (c, ops ++ defaultErrorCallback true e, effs)
  | RawMessage _ => Ok (c, ops, effs)
  end.

(** [RpcChannel::onMessage], after the connection has appended [chunk] to its input
    buffer. *)
Definition channel_onMessage (chunk : list byte) (e : Endpoint) : res (Endpoint * list (effect R)) :=
  let! buf := append (inputBuffer e) chunk in
  let! '(buf, evs) := onMessage adler32 rpctag None buf in
  let! '(c, ops, effs) := res_fold codec_event (channel e, conn_ops e, []) evs in
  Ok (mkEndpoint c buf ops, effs).

(** A client and a server, the bytes on their way, the methods that run, and what the
    client has done to the objects of its calls. *)
Record world := mkWorld {
  client : Endpoint;
  server : Endpoint;
  up : list byte;
  down : list byte;
  running : list (effect R);
  seen : list (effect R);
}.

Definition is_call (e : effect R) : bool := match e with Invoke _ _ _ _ => true | _ => false end.
Definition is_send (e : effect R) : bool := match e with Send _ => true | _ => false end.

Inductive wire_op :=
| MakeCall (svc mth req : list byte)
| ToServer (n : Z)
| MethodEnds (j : nat)
| ToClient (n : Z).

(** What a method returns for a request. *)
Context (handler : list byte -> list byte -> R -> list byte).

Definition wire_step (w : world) (o : wire_op) : res world :=
  match o with
  | MakeCall svc mth req =>
      let e := client w in
      let k := id_ (channel e) + 1 in
      let '(c, effs) := CallMethod svc mth req (Some k) (Some k) (channel e) in
      let! bytes := transmit effs in
      Ok (mkWorld (mkEndpoint c (inputBuffer e) (conn_ops e)) (server w) (up w ++ bytes) (down w) (running w) (seen w))
  | ToServer n =>
      let! '(e, effs) := channel_onMessage (take (Z.to_nat n) (up w)) (server w) in
      let! bytes := transmit effs in
      Ok (mkWorld (client w) e (drop (Z.to_nat n) (up w)) (down w ++ bytes)
            (running w ++ filter (fun x => Is_true (is_call x)) effs) (seen w))
  | MethodEnds j =>
      match running w !! j with
      | Some (Invoke svc mth r i) =>
          let! bytes := transmit (doneCallback (handler svc mth r) i) in
          Ok (mkWorld (client w) (server w) (up w) (down w ++ bytes) (delete j (running w)) (seen w))
      | _ => Ok w
      end
  | ToClient n =>
      let! '(e, effs) := channel_onMessage (take (Z.to_nat n) (down w)) (client w) in
      let! bytes := transmit effs in
      Ok (mkWorld e (server w) (up w ++ bytes) (drop (Z.to_nat n) (down w)) (running w)
            (seen w ++ filter (fun x => Is_true (negb (is_send x))) effs))
  end.

(** Both ends of a new connection: [RpcServer::onConnection] gives the server's
    channel its services. *)
Definition connected_world (services : gmap (list byte) (Service R)) : world :=
  mkWorld (mkEndpoint newChannel (newBuffer kInitialSize) [])
    (mkEndpoint (default newChannel (onConnection true services)) (newBuffer kInitialSize) []) [] [] [] [].
End Wire.
Arguments Endpoint : clear implicits.
Arguments world : clear implicits.

(** * Properties *)

Section Correct.
Context {R : Type} `{MessageLaws RpcMessage} (adler32 : list byte -> Z).
Context (services : gmap (list byte) (Service R)) (handler : list byte -> list byte -> R -> list byte).

Local Abbreviation frame := (frame adler32 rpctag).
Local Abbreviation fits := (fits adler32 rpctag).
Implicit Types (w : world R) (calls : list call) (x : call).

(** What the server makes of a call: a request for one of its methods, or an error. *)
Definition verdict (x : call) : R + RpcErrorCode :=
  let '(svc, mth, req) := x in
  match services !! svc with
  | None => inr NO_SERVICE
  | Some s =>
      match FindMethodByName s mth with
      | None => inr NO_METHOD
      | Some parse => match parse req with Some r => inl r | None => inr INVALID_REQUEST end
      end
  end.

Definition served (k : Z) (x : call) : list (effect R) :=
  match verdict x with
  | inl r => [Invoke (fst (fst x)) (snd (fst x)) r k]
  | inr e => [Send (error_message (u64 k) e)]
  end.

Definition answer (k : Z) (x : call) : RpcMessage :=
  match verdict x with
  | inl r => response_message k (handler (fst (fst x)) (snd (fst x)) r)
  | inr e => error_message (u64 k) e
  end.

(** What the caller of call [k] sees in the end. *)
Definition result (k : Z) (x : call) : list (effect R) :=
  match verdict x with
  | inl r => [ParseResponse k (handler (fst (fst x)) (snd (fst x)) r)]
  | inr _ => []
  end ++ [RunDone k; DeleteResponse k].

Definition call_at calls (k : Z) : call := default (([], [], []) : call) (calls !! Z.to_nat (k - 1)).
Definition results calls (ks : list Z) : list (effect R) := flat_map (fun k => result k (call_at calls k)) ks.

Definition request_at calls (k : Z) : RpcMessage :=
  let '(svc, mth, req) := call_at calls k in request_message k svc mth req.
Definition answer_at calls (k : Z) : RpcMessage := answer k (call_at calls k).
Definition serve_at calls (k : Z) : list (effect R) := served k (call_at calls k).
Definition refused calls (k : Z) : Prop := match verdict (call_at calls k) with inl _ => False | inr _ => True end.

#[local] Instance refused_dec calls k : Decision (refused calls k).
Proof. unfold refused. destruct (verdict _); apply _. Defined.

Definition in_calls calls (k : Z) : Prop := 1 <= k <= len calls.

(** Requests and answers that the codec takes. *)
Definition calls_fit calls : Prop :=
  forall k, in_calls calls k -> fits (request_at calls k) /\ fits (answer_at calls k).

Lemma rpctag_small : len rpctag + 8 < 2 ^ 31.
Proof. reflexivity. Qed.

Lemma call_at_app calls l k : in_calls calls k -> call_at (calls ++ l) k = call_at calls k.
Proof. unfold in_calls. intros Hk. unfold call_at. rewrite lookup_app_l; [done|]. unfold len, call in *. lia. Qed.

(** What is said of the calls made so far stays true when another is made. *)
Lemma at_app {A} (f : list call -> Z -> A) calls x ks :
  (forall cs cs' k, call_at cs k = call_at cs' k -> f cs k = f cs' k) ->
  Forall (in_calls calls) ks -> f (calls ++ [x]) <$> ks = f calls <$> ks.
Proof.
  intros Hf Hks. apply list_fmap_ext. intros i k Hk. apply Hf, call_at_app.
  by eapply Forall_lookup_1 in Hk.
Qed.

Lemma results_app calls x ks : Forall (in_calls calls) ks -> results (calls ++ [x]) ks = results calls ks.
Proof.
  unfold results. induction 1 as [|k ks Hk _ IH]; [done|]. cbn [flat_map]. by rewrite IH, call_at_app.
Qed.

Lemma calls_fit_app calls l : calls_fit (calls ++ l) -> calls_fit calls.
Proof.
  intros Hf k Hk. destruct (Hf k) as [H1 H2].
  { unfold in_calls in *. rewrite len_app. pose proof (len_nonneg l). lia. }
  unfold request_at, answer_at in *. rewrite call_at_app in H1, H2 by exact Hk. exact (conj H1 H2).
Qed.

Lemma requests_fit calls ks : calls_fit calls -> Forall (in_calls calls) ks -> Forall fits (request_at calls <$> ks).
Proof. intros Hc Hk. apply Forall_fmap, (Forall_impl _ _ _ Hk). intros k Hin. exact (proj1 (Hc k Hin)). Qed.

Lemma answers_fit calls ks : calls_fit calls -> Forall (in_calls calls) ks -> Forall fits (answer_at calls <$> ks).
Proof. intros Hc Hk. apply Forall_fmap, (Forall_impl _ _ _ Hk). intros k Hin. exact (proj2 (Hc k Hin)). Qed.

(** ** The codec under a channel *)

Lemma codec_send_frame m : fits m -> codec_send adler32 m = Ok (frame m).
Proof. exact (send_frame adler32 rpctag m). Qed.

Lemma transmit_app l1 l2 a b :
  transmit adler32 (R := R) l1 = Ok a -> transmit adler32 l2 = Ok b -> transmit adler32 (l1 ++ l2) = Ok (a ++ b).
Proof.
  intros H1 H2. revert a H1. induction l1 as [|e l1 IH]; intros a H1.
  - cbn in H1. simplify_eq. done.
  - cbn [app transmit] in *. destruct e; try (by apply IH).
    destruct (codec_send adler32 m) as [f|]; [|done]. cbn [res_bind] in *.
    destruct (transmit adler32 l1) as [fs|]; [|done]. cbn [res_bind] in *. simplify_eq.
    rewrite (IH fs eq_refl). cbn. by rewrite app_assoc.
Qed.

(** A piece of a stream of frames gives the messages that are complete by then. *)
Lemma channel_receives (e : Endpoint R) chunk rest ms Q :
  inv (inputBuffer e) -> len chunk <= max_size -> Forall fits ms ->
  content (inputBuffer e) ++ chunk ++ rest = concat (frame <$> ms) ->
  (forall ms1 ms2 buf, ms = ms1 ++ ms2 -> inv buf -> content buf ++ rest = concat (frame <$> ms2) ->
     (rest = [] -> ms2 = []) ->
     safe (let! '(c, ops, effs) := res_fold codec_event (channel e, conn_ops e, []) (GotMessage <$> ms1) in
           Ok (mkEndpoint c buf ops, effs)) Q) ->
  safe (channel_onMessage adler32 chunk e) Q.
Proof.
  intros Hi Hl Hf Hc HQ. unfold channel_onMessage. eapply safe_bind'; [by apply append_safe|].
  intros b1 [Hi1 Hc1]. destruct (onMessage_decodes adler32 rpctag None rpctag_small b1 Hi1) as (b2 & evs & E & Hi2 & Hd).
  rewrite E. cbn [res_bind]. rewrite Hc1 in Hd. rewrite app_assoc in Hc.
  destruct (decodes_frames adler32 rpctag None _ _ _ eq_refl Hd ms rest Hf Hc) as (ms1 & ms2 & -> & -> & E2 & Hs).
  by apply (HQ ms1 ms2).
Qed.

(** ** Both ends *)

Lemma server_serves_at calls ks ops effs :
  Forall (fun k => 0 <= k < 2 ^ 63) ks ->
  res_fold codec_event (serving services, ops, effs) (GotMessage <$> (request_at calls <$> ks)) =
    Ok (serving services, ops, effs ++ flat_map (serve_at calls) ks).
Proof.
  intros Hk. revert effs. induction Hk as [|k ks Hk _ IH]; intros effs; [by rewrite app_nil_r|].
  cbn [fmap list_fmap flat_map res_fold codec_event]. unfold request_at at 1, serve_at at 1, served.
  destruct (call_at calls k) as [[svc mth] req]. cbn [onRpcMessage type request_message fst snd].
  unfold onRequest. cbn [services_ serving setServices service method request id request_message verdict].
  assert (forall l, res_fold codec_event (serving services, ops, effs ++ l) (GotMessage <$> (request_at calls <$> ks))
    = Ok (serving services, ops, effs ++ l ++ flat_map (serve_at calls) ks)) as Hl.
  { intros l. etransitivity; [apply IH|]. by rewrite <- app_assoc. }
  destruct (services !! svc) as [s|]; [destruct (FindMethodByName s mth) as [parse|]; [destruct (parse req) as [r|]|]|].
  1: rewrite bool_decide_false by tauto; rewrite i64_u64 by done; apply Hl.
  all: rewrite bool_decide_true by done; apply Hl.
Qed.

(** The server answers what it refuses at once, and runs the rest. *)
Lemma serve_effects calls ks :
  Forall (fun k => fits (answer_at calls k)) ks ->
  transmit adler32 (flat_map (serve_at calls) ks) = Ok (concat (frame <$> (answer_at calls <$> filter (refused calls) ks))) /\
  Forall2 (fun k e => serve_at calls k = [e] /\ is_call e = true) (filter (fun k => ~ refused calls k) ks)
    (filter (fun e => Is_true (is_call e)) (flat_map (serve_at calls) ks)).
Proof.
  induction 1 as [|k ks Hf _ [IH1 IH2]]; [by split|]. cbn [flat_map]. rewrite !filter_cons, filter_app.
  destruct (verdict (call_at calls k)) as [r|e] eqn:Ev.
  - assert (~ refused calls k) as Hr by (unfold refused; rewrite Ev; tauto).
    assert (serve_at calls k = [Invoke (fst (fst (call_at calls k))) (snd (fst (call_at calls k))) r k]) as Es.
    { unfold serve_at, served. by rewrite Ev. }
    rewrite decide_False, (decide_True (P := ~ refused calls k)), Es by done.
    split; [by apply (transmit_app [_] _ [])|]. rewrite filter_cons_True by done.
    constructor; [|exact IH2]. by rewrite Es.
  - assert (refused calls k) as Hr by (unfold refused; rewrite Ev; tauto).
    assert (serve_at calls k = [Send (answer_at calls k)]) as Es.
    { unfold serve_at, served, answer_at, answer. by rewrite Ev. }
    rewrite decide_True, (decide_False (P := ~ refused calls k)), Es by tauto. split.
    + cbn [fmap list_fmap concat]. apply (transmit_app [_]); [|done]. cbn [transmit].
      rewrite codec_send_frame by done. cbn. by rewrite app_nil_r.
    + rewrite filter_cons_False by (by intros []). exact IH2.
Qed.

(** The client takes each answer for the call it belongs to. *)
Lemma client_takes calls ks ops c effs :
  Forall (fun k => 0 <= k < 2 ^ 63) ks -> NoDup ks ->
  (forall k, k ∈ ks -> outstandings_ c !! k = Some (mkOutstanding (Some k) (Some k))) ->
  exists c', res_fold codec_event (c, ops, effs) (GotMessage <$> (answer_at calls <$> ks)) = Ok (c', ops, effs ++ results calls ks) /\
    id_ c' = id_ c /\
    forall k, outstandings_ c' !! k = if decide (k ∈ ks) then None else outstandings_ c !! k.
Proof.
  intros Hk Hn. revert c effs. induction Hk as [|k ks Hk _ IH]; intros c effs Ho.
  { exists c. split_and!; [by rewrite app_nil_r|done|]. intros k. by rewrite decide_False by apply not_elem_of_nil. }
  apply NoDup_cons in Hn as [Hnk Hn].
  set (c1 := mkChannel (id_ c) (delete k (outstandings_ c)) (services_ c)).
  assert (onRpcMessage (answer_at calls k) c = Ok (c1, result k (call_at calls k))) as E1.
  { unfold answer_at, answer, result. pose proof (Ho k (list_elem_of_here k ks)) as Hok.
    destruct (verdict (call_at calls k)); unfold onRpcMessage, onResponse;
      cbn [type response error id response_message error_message is_some orb cassert res_bind];
      rewrite i64_u64, Hok by done; done. }
  destruct (IH Hn c1 (effs ++ result k (call_at calls k))) as (c' & E & Hid & Hout).
  { intros k' Hk'. cbn [c1 outstandings_]. rewrite lookup_delete_ne by (intros ->; done). apply Ho. by right. }
  exists c'. split_and!; [|done|].
  - cbn [fmap list_fmap res_fold codec_event]. rewrite E1. cbn [res_bind]. etransitivity; [exact E|].
    by rewrite <- app_assoc.
  - intros k'. rewrite Hout. cbn [c1 outstandings_]. destruct (decide (k' ∈ ks)) as [Hin|Hni].
    + by rewrite decide_True by (by right).
    + destruct (decide (k' = k)) as [->|Hne].
      * rewrite decide_True by (by left). apply lookup_delete_eq.
      * rewrite lookup_delete_ne by done. rewrite decide_False; [done|]. intros [?|?]%elem_of_cons; done.
Qed.

Lemma results_effects calls ks :
  transmit adler32 (results calls ks) = Ok [] /\
  filter (fun e => Is_true (negb (is_send e))) (results calls ks) = results calls ks.
Proof.
  unfold results. induction ks as [|k ks [IH1 IH2]]; [done|]. cbn [flat_map]. split.
  - rewrite <- (app_nil_l (@nil byte)). apply transmit_app; [|done]. unfold result. by destruct (verdict _).
  - rewrite filter_app, IH2. f_equal. unfold result. by destruct (verdict _).
Qed.

(** ** The whole *)

(** Every call is in one of five places: on its way to the server, with a method of
    the server, its answer on the way back, or finished at the client. *)
Record wire_inv calls w (asked waiting answers finished : list Z) : Prop := {
  wv_id : id_ (channel (client w)) = len calls;
  wv_ops : conn_ops (client w) = [] /\ conn_ops (server w) = [];
  wv_server : channel (server w) = serving services;
  wv_up : inv (inputBuffer (server w)) /\
    content (inputBuffer (server w)) ++ up w = concat (frame <$> (request_at calls <$> asked)) /\ (up w = [] -> asked = []);
  wv_running : Forall2 (fun k e => serve_at calls k = [e] /\ is_call e = true) waiting (running w);
  wv_down : inv (inputBuffer (client w)) /\
    content (inputBuffer (client w)) ++ down w = concat (frame <$> (answer_at calls <$> answers)) /\ (down w = [] -> answers = []);
  wv_all : finished ++ answers ++ waiting ++ asked ≡ₚ seqZ 1 (len calls);
  wv_out : forall k, outstandings_ (channel (client w)) !! k =
    if decide (in_calls calls k /\ k ∉ finished) then Some (mkOutstanding (Some k) (Some k)) else None;
  wv_seen : seen w = results calls finished;
}.

Lemma wire_inv_range calls w asked waiting answers finished :
  wire_inv calls w asked waiting answers finished ->
  Forall (in_calls calls) finished /\ Forall (in_calls calls) answers /\ Forall (in_calls calls) waiting /\
  Forall (in_calls calls) asked /\ NoDup (finished ++ answers ++ waiting ++ asked).
Proof.
  intros Hw. pose proof (wv_all _ _ _ _ _ _ Hw) as Hp.
  assert (Forall (in_calls calls) (finished ++ answers ++ waiting ++ asked)) as Hf.
  { rewrite Hp. apply Forall_forall. intros k Hk. apply elem_of_seqZ in Hk. unfold in_calls. lia. }
  rewrite !Forall_app in Hf. destruct Hf as (? & ? & ? & ?). split_and!; [done..|]. rewrite Hp. apply NoDup_seqZ.
Qed.

Lemma wire_inv_begin : wire_inv [] (connected_world services) [] [] [] [].
Proof.
  destruct defaultBuffer_spec as (Hi & Hc & _). split; try done.
  intros k. cbn. rewrite decide_False; [done|]. unfold in_calls. change (len (@nil call)) with 0. lia.
Qed.

(** The calls of a schedule. *)
Definition made (o : wire_op) : list call :=
  match o with MakeCall svc mth req => [(svc, mth, req)] | _ => [] end.

(** Pieces that fit a buffer. *)
Definition small_op (o : wire_op) : bool :=
  match o with ToServer n | ToClient n => n <=? max_size | _ => true end.

Local Abbreviation step := (wire_step adler32 handler).
Definition wire_ok calls w : Prop := exists asked waiting answers finished, wire_inv calls w asked waiting answers finished.

Lemma frame_not_nil m : frame m <> [].
Proof.
  intros E. apply (f_equal len) in E. unfold Codec.frame in E. rewrite len_app, len_be_bytes, len_nil in E.
  match type of E with _ + len ?l = _ => pose proof (len_nonneg l) end. lia.
Qed.

Lemma running_app calls x ks es :
  Forall (in_calls calls) ks ->
  Forall2 (fun k e => serve_at calls k = [e] /\ is_call e = true) ks es ->
  Forall2 (fun k e => serve_at (calls ++ [x]) k = [e] /\ is_call e = true) ks es.
Proof.
  intros Hk H2. induction H2 as [|k e ks es Hke _ IH]; [constructor|]. apply Forall_cons in Hk as [Hk Hks].
  constructor; [|by apply IH]. unfold serve_at in *. by rewrite call_at_app.
Qed.

Lemma make_call_ok calls w x :
  wire_ok calls w -> len calls + 1 < 2 ^ 63 -> calls_fit (calls ++ [x]) ->
  safe (step w (MakeCall (fst (fst x)) (snd (fst x)) (snd x))) (wire_ok (calls ++ [x])).
Proof.
  intros (asked & waiting & answers & finished & Hw) Hb Hf. destruct x as [[svc mth] req]. cbn [fst snd wire_step CallMethod].
  pose proof (wire_inv_range _ _ _ _ _ _ Hw) as (Hr1 & Hr2 & Hr3 & Hr4 & Hnd).
  destruct Hw as [Hid Hops Hsrv (Hi & Hc & Hup) Hrun (Hi' & Hc' & Hdn) Hall Hout Hseen]. rewrite Hid.
  pose proof (len_nonneg calls) as Hpos. set (k := len calls + 1) in *. set (x := (svc, mth, req) : call).
  assert (i64 k = k) as ->. { apply swrap_small; [lia|]. unfold in_signed. change (64 - 1) with 63. lia. }
  assert (call_at (calls ++ [x]) k = x) as Ek.
  { unfold call_at. rewrite lookup_app_r by (unfold k, len, call; lia).
    replace (Z.to_nat (k - 1) - length calls)%nat with 0%nat by (unfold k, len, call; lia). done. }
  assert (len (calls ++ [x]) = k) as El by (rewrite len_app; done).
  assert (request_at (calls ++ [x]) k = request_message k svc mth req) as Er by (unfold request_at; by rewrite Ek).
  cbn [transmit]. rewrite codec_send_frame.
  2:{ assert (in_calls (calls ++ [x]) k) as Hik by (unfold in_calls; rewrite El; unfold k; lia).
      rewrite <- Er. exact (proj1 (Hf k Hik)). }
  cbn [res_bind safe]. rewrite app_nil_r.
  exists (asked ++ [k]), waiting, answers, finished. split; cbn [client server up down running seen channel inputBuffer conn_ops id_ outstandings_].
  - by rewrite El.
  - done.
  - done.
  - split_and!; [done| |].
    + rewrite !fmap_app, concat_app, app_assoc, Hc. f_equal.
      * by rewrite (at_app request_at) by (done || (intros ??? E; unfold request_at; by rewrite E)).
      * cbn [fmap list_fmap concat]. by rewrite Er, app_nil_r.
    + intros [_ E]%app_eq_nil. by apply frame_not_nil in E.
  - by apply running_app.
  - split_and!; [done| |done]. by rewrite (at_app answer_at) by (done || (intros ??? E; unfold answer_at; by rewrite E)).
  - rewrite El. transitivity ((finished ++ answers ++ waiting ++ asked) ++ [k]); [by rewrite <- !app_assoc|].
    rewrite Hall. unfold k. rewrite seqZ_app by lia. by rewrite Z.add_comm.
  - intros j. assert (k ∉ finished) as Hk.
    { intros Hk. rewrite Forall_forall in Hr1. specialize (Hr1 k Hk). unfold in_calls in Hr1. lia. }
    unfold in_calls in *. rewrite El. destruct (decide (j = k)) as [->|Hne].
    + rewrite lookup_insert_eq. by rewrite decide_True by (split; [lia|done]).
    + rewrite lookup_insert_ne by done. rewrite Hout.
      destruct (decide (1 <= j <= len calls /\ j ∉ finished)) as [[H1 H2]|Hn].
      * by rewrite decide_True by (split; [lia|done]).
      * rewrite decide_False; [done|]. intros [H1 H2]. apply Hn. split; [lia|done].
  - by rewrite results_app.
Qed.

Lemma len_take_small {A} n (l : list A) : n <= max_size -> len (take (Z.to_nat n) l) <= max_size.
Proof. unfold len, max_size. rewrite length_take. lia. Qed.

Lemma in_calls_number calls ks :
  len calls < 2 ^ 63 -> Forall (in_calls calls) ks -> Forall (fun k => 0 <= k < 2 ^ 63) ks.
Proof. intros Hb Hk. eapply Forall_impl; [exact Hk|]. unfold in_calls. lia. Qed.

Lemma to_server_ok calls w n :
  wire_ok calls w -> len calls < 2 ^ 63 -> calls_fit calls -> n <= max_size ->
  safe (step w (ToServer n)) (wire_ok calls).
Proof.
  intros (asked & waiting & answers & finished & Hw) Hb Hf Hn. cbn [wire_step].
  pose proof (wire_inv_range _ _ _ _ _ _ Hw) as (Hr1 & Hr2 & Hr3 & Hr4 & Hnd).
  destruct Hw as [Hid Hops Hsrv (Hi & Hc & Hup) Hrun (Hi' & Hc' & Hdn) Hall Hout Hseen].
  eapply safe_bind, (channel_receives (server w) (take (Z.to_nat n) (up w)) (drop (Z.to_nat n) (up w))
    (request_at calls <$> asked)); [done|by apply len_take_small|by apply requests_fit|by rewrite take_drop|].
  intros ms1 ms2 buf E Hib Hcb Hrest. apply fmap_app_inv in E as (ks1 & ks2 & -> & -> & ->).
  apply Forall_app in Hr4 as [Hk1 Hk2]. rewrite Hsrv, (server_serves_at calls ks1 _ []) by (by eapply in_calls_number).
  cbn [res_bind safe app]. destruct (serve_effects calls ks1) as [E1 E2].
  { pose proof (answers_fit calls ks1 Hf Hk1) as Ha. rewrite Forall_fmap in Ha. exact Ha. }
  rewrite E1. cbn [res_bind safe].
  exists ks2, (waiting ++ filter (fun k => ~ refused calls k) ks1), (answers ++ filter (refused calls) ks1), finished.
  split; cbn [client server up down running seen channel inputBuffer conn_ops].
  - done.
  - by destruct Hops.
  - done.
  - split_and!; [done|done|]. intros E. specialize (Hrest E). by destruct ks2.
  - by apply Forall2_app.
  - split_and!; [done| |].
    + by rewrite !fmap_app, concat_app, app_assoc, Hc'.
    + intros [E3 E4]%app_eq_nil. rewrite (Hdn E3). cbn [app]. destruct (filter (refused calls) ks1) as [|k l]; [done|].
      cbn [fmap list_fmap concat] in E4. apply app_eq_nil in E4 as [E4 _]. by apply frame_not_nil in E4.
  - rewrite <- Hall. pose proof (filter_app_complement (refused calls) ks1) as Hp.
    set (l1 := filter (refused calls) ks1) in *. set (l2 := filter (fun k => ~ refused calls k) ks1) in *.
    rewrite <- Hp. solve_Permutation.
  - done.
  - done.
Qed.

Lemma method_ends_ok calls w j :
  wire_ok calls w -> calls_fit calls -> safe (step w (MethodEnds j)) (wire_ok calls).
Proof.
  intros (asked & waiting & answers & finished & Hw) Hf. cbn [wire_step].
  pose proof (wire_inv_range _ _ _ _ _ _ Hw) as (Hr1 & Hr2 & Hr3 & Hr4 & Hnd).
  assert (wire_ok calls w) as Hok by (by exists asked, waiting, answers, finished).
  destruct Hw as [Hid Hops Hsrv (Hi & Hc & Hup) Hrun (Hi' & Hc' & Hdn) Hall Hout Hseen].
  destruct (running w !! j) as [e|] eqn:Ej; [|done].
  destruct (Forall2_lookup_r _ _ _ _ _ Hrun Ej) as (k & Hk & Es & Ec).
  destruct e as [| | | | |svc mth r i]; try discriminate Ec.
  assert (i = k /\ answer_at calls k = response_message k (handler svc mth r)) as [-> Ea].
  { unfold serve_at, served in Es. unfold answer_at, answer. destruct (verdict (call_at calls k)); [|done]. by simplify_eq. }
  assert (fits (answer_at calls k)) as Hfk.
  { assert (Forall (in_calls calls) [k]) as H1 by (constructor; [by eapply Forall_lookup_1 in Hr3|done]).
    pose proof (answers_fit calls [k] Hf H1) as Ha. by apply Forall_cons in Ha as [? _]. }
  cbn [doneCallback transmit]. rewrite <- Ea, codec_send_frame by done. cbn [res_bind safe]. rewrite app_nil_r.
  exists asked, (delete j waiting), (answers ++ [k]), finished.
  split; cbn [client server up down running seen]; try done.
  - by apply Forall2_delete.
  - split_and!; [done| |].
    + rewrite !fmap_app, concat_app, app_assoc, Hc'. cbn. by rewrite app_nil_r.
    + intros [_ E]%app_eq_nil. by apply frame_not_nil in E.
  - rewrite <- Hall. pose proof (delete_Permutation waiting j k Hk) as Hp.
    set (rest := delete j waiting) in *. rewrite Hp. solve_Permutation.
Qed.

Lemma to_client_ok calls w n :
  wire_ok calls w -> len calls < 2 ^ 63 -> calls_fit calls -> n <= max_size ->
  safe (step w (ToClient n)) (wire_ok calls).
Proof.
  intros (asked & waiting & answers & finished & Hw) Hb Hf Hn. cbn [wire_step].
  pose proof (wire_inv_range _ _ _ _ _ _ Hw) as (Hr1 & Hr2 & Hr3 & Hr4 & Hnd).
  destruct Hw as [Hid [Ho1 Ho2] Hsrv (Hi & Hc & Hup) Hrun (Hi' & Hc' & Hdn) Hall Hout Hseen].
  eapply safe_bind, (channel_receives (client w) (take (Z.to_nat n) (down w)) (drop (Z.to_nat n) (down w))
    (answer_at calls <$> answers)); [done|by apply len_take_small|by apply answers_fit|by rewrite take_drop|].
  intros ms1 ms2 buf E Hib Hcb Hrest. apply fmap_app_inv in E as (ks1 & ks2 & -> & -> & ->).
  apply Forall_app in Hr2 as [Hk1 Hk2]. apply NoDup_app in Hnd as (_ & Hnf & Hnd).
  rewrite <- app_assoc in Hnd. apply NoDup_app in Hnd as (Hnd1 & _ & _).
  assert (forall k, k ∈ ks1 -> k ∉ finished) as Hdis.
  { intros k H1 H2. apply (Hnf k H2). set_solver. }
  destruct (client_takes calls ks1 (conn_ops (client w)) (channel (client w)) []) as (c' & E & Hid' & Hout').
  { by eapply in_calls_number. }
  { done. }
  { intros k Hk. rewrite Hout, decide_True; [done|]. split; [|by apply Hdis]. rewrite Forall_forall in Hk1. by apply Hk1. }
  rewrite E. cbn [res_bind safe app]. destruct (results_effects calls ks1) as [E1 E2]. rewrite E1. cbn [res_bind safe].
  rewrite app_nil_r, E2. exists asked, waiting, ks2, (finished ++ ks1).
  split; cbn [client server up down running seen channel inputBuffer conn_ops]; try done.
  - congruence.
  - split_and!; [done|done|]. intros E3. specialize (Hrest E3). by destruct ks2.
  - by rewrite <- Hall, <- !app_assoc.
  - intros k. rewrite Hout', Hout. destruct (decide (k ∈ ks1)) as [Hin|Hni].
    + rewrite decide_False; [done|]. intros [_ Hn']. apply Hn'. apply elem_of_app. by right.
    + apply decide_ext. rewrite not_elem_of_app. tauto.
  - rewrite Hseen. unfold results. by rewrite flat_map_app.
Qed.

Definition calls_of (sch : list wire_op) : list call := flat_map made sch.

Lemma wire_run_ok sch calls w :
  wire_ok calls w -> len (calls ++ calls_of sch) < 2 ^ 63 -> calls_fit (calls ++ calls_of sch) ->
  forallb small_op sch = true -> safe (res_fold step w sch) (wire_ok (calls ++ calls_of sch)).
Proof.
  revert calls w. induction sch as [|o sch IH]; intros calls w Hw Hb Hf Hs; [by rewrite app_nil_r|].
  cbn [forallb] in Hs. apply andb_prop in Hs as [Ho Hs]. cbn [res_fold].
  change (calls_of (o :: sch)) with (made o ++ calls_of sch) in *. rewrite app_assoc in *.
  assert (len (calls ++ made o) < 2 ^ 63) as Hb' by (rewrite len_app in Hb; pose proof (len_nonneg (calls_of sch)); lia).
  assert (calls_fit (calls ++ made o)) as Hf' by (by eapply calls_fit_app).
  apply safe_bind' with (wire_ok (calls ++ made o)); [|intros w' Hw'; by apply IH].
  destruct o as [svc mth req|n|j|n]; cbn [made] in *; rewrite ?app_nil_r in *; cbn [small_op] in Ho; bool_hyps.
  - apply (make_call_ok calls w (svc, mth, req)); [done| |done].
    rewrite len_app in Hb'. exact Hb'.
  - by apply to_server_ok.
  - by apply method_ends_ok.
  - by apply to_client_ok.
Qed.
End Correct.

(** C6: remote calls over a connection: in whatever pieces the bytes of the two directions
    arrive, and however calls, arrivals and the server's methods interleave, no assert
    fails and no codec reports an error.  A call that is finished at the caller was
    finished once, with the server's own result for it or, if the server has no such
    method or cannot parse the request, without one; the other calls are exactly the
    outstanding ones; and when nothing is on its way or running, all are finished. *)
Theorem rpc_over_wire {R} `{MessageLaws RpcMessage} (adler32 : list byte -> Z)
    (services : gmap (list byte) (Service R)) (handler : list byte -> list byte -> R -> list byte) (sch : list wire_op) :
  let calls := calls_of sch in
  len calls < 2 ^ 63 -> calls_fit adler32 services handler calls -> forallb small_op sch = true ->
  safe (res_fold (wire_step adler32 handler) (connected_world services) sch) (fun w =>
    conn_ops (client w) = [] /\ conn_ops (server w) = [] /\
    exists finished, NoDup finished /\ Forall (in_calls calls) finished /\
      seen w = results services handler calls finished /\
      (forall k, is_Some (outstandings_ (channel (client w)) !! k) <-> in_calls calls k /\ k ∉ finished) /\
      (up w = [] -> down w = [] -> running w = [] -> finished ≡ₚ seqZ 1 (len calls))).
Proof.
  intros calls Hb Hf Hs. eapply safe_mono.
  { apply (wire_run_ok adler32 services handler sch []); [|done..]. exists [], [], [], []. apply wire_inv_begin. }
  cbn [app]. fold calls. intros w (asked & waiting & answers & finished & Hw).
  pose proof (wire_inv_range _ _ _ _ _ _ _ _ _ Hw) as (Hr & _ & _ & _ & Hnd).
  destruct Hw as [_ [Ho1 Ho2] _ (_ & _ & Hup) Hrun (_ & _ & Hdn) Hall Hout Hseen].
  split_and!; [done|done|]. exists finished. split_and!; [|done|done| |].
  - by apply NoDup_app in Hnd as [? _].
  - intros k. rewrite Hout. case_decide; split; intros Hk; done.
  - intros E1 E2 E3. rewrite E3 in Hrun. apply Forall2_nil_inv_r in Hrun as ->.
    rewrite (Hup E1), (Hdn E2), !app_nil_r in Hall. done.
Qed.

(** ** A serialisation of the messages *)

#[export] Instance MessageType_countable : Countable MessageType.
Proof.
  refine (inj_countable' (fun t => match t with REQUEST => 0 | RESPONSE => 1 | ERROR => 2 end)
    (fun n => match n with 0 => REQUEST | 1 => RESPONSE | _ => ERROR end) _). by intros [].
Defined.
#[export] Instance RpcErrorCode_countable : Countable RpcErrorCode.
Proof.
  refine (inj_countable' (fun e => match e with NO_ERROR => 0 | WRONG_PROTO => 1 | NO_SERVICE => 2 | NO_METHOD => 3
      | INVALID_REQUEST => 4 | INVALID_RESPONSE => 5 | TIMEOUT => 6 end)
    (fun n => match n with 0 => NO_ERROR | 1 => WRONG_PROTO | 2 => NO_SERVICE | 3 => NO_METHOD
      | 4 => INVALID_REQUEST | 5 => INVALID_RESPONSE | _ => TIMEOUT end) _). by intros [].
Defined.
#[export] Instance RpcMessage_countable : Countable RpcMessage.
Proof.
  refine (inj_countable' (fun m => (type m, id m, service m, method m, request m, response m, error m))
    (fun '(t, i, s, m, q, r, e) => mkMessage t i s m q r e) _). by intros [].
Defined.

(** One byte per bit of the number that stands for the message. *)
Fixpoint bits (p : positive) : list byte :=
  match p with xH => [] | xO p => x00 :: bits p | xI p => x01 :: bits p end.
Fixpoint unbits (l : list byte) : positive :=
  match l with [] => xH | b :: l => if bool_decide (b = x00) then xO (unbits l) else xI (unbits l) end.

Lemma unbits_bits p : unbits (bits p) = p.
Proof. induction p as [p IH|p IH|]; cbn; [| |done]; by rewrite IH. Qed.

#[export] Instance rpc_message_ops : MessageOps RpcMessage := {|
  ByteSize m := len (bits (encode m));
  SerializeToArray m := bits (encode m);
  ParseFromArray l := decode (unbits l);
|}.

#[export] Instance rpc_message_laws : MessageLaws RpcMessage.
Proof. split; [done|]. intros m. cbn. by rewrite unbits_bits, decode_encode. Qed.

(** A service with one method, and three calls, one for a method it does not have. *)
Definition wire_services : gmap (list byte) (Service (list byte)) :=
  registerService [x53] (mkService (fun mth => if bool_decide (mth = [x4d]) then Some (fun b => Some b) else None)) ∅.

Definition demo_calls : list wire_op :=
  [MakeCall [x53] [x4d] [x01]; ToServer 100; MakeCall [x53] [] [x02]; MakeCall [x53] [x4d] [x03];
   ToServer 200; ToServer 1; ToServer 5000; MethodEnds 1; ToClient 150; MethodEnds 0; ToClient 5000].

Lemma rpc_over_wire_witness :
  let run := res_fold (wire_step demo_adler (fun _ _ r => r ++ r)) (connected_world wire_services) demo_calls in
  safe run (fun w => conn_ops (client w) = [] /\ (up w = [] -> down w = [] -> running w = [] ->
    exists finished, finished ≡ₚ seqZ 1 3 /\ seen w = results wire_services (fun _ _ r => r ++ r) (calls_of demo_calls) finished)) /\
  (let! w := run in Ok (up w, down w, running w, seen w)) =
    Ok ([], [], [], [RunDone 2; DeleteResponse 2; ParseResponse 3 [x03; x03]; RunDone 3; DeleteResponse 3;
                     ParseResponse 1 [x01; x01]; RunDone 1; DeleteResponse 1]).
Proof.
  assert (calls_fit demo_adler wire_services (fun _ _ r => r ++ r) (calls_of demo_calls)) as Hf.
  { intros k Hk. assert (k = 1 \/ k = 2 \/ k = 3) as [->|[->| ->]] by (change (1 <= k <= 3) in Hk; lia);
      split; vm_compute; discriminate. }
  split; [|vm_compute; reflexivity]. eapply safe_mono.
  - exact (rpc_over_wire demo_adler wire_services (fun _ _ r => r ++ r) demo_calls eq_refl Hf eq_refl).
  - intros w (H1 & _ & finished & _ & _ & H2 & _ & H3). split; [exact H1|]. intros E1 E2 E3.
    exists finished. exact (conj (H3 E1 E2 E3) H2).
Defined.
