(* ===== verification/Monitors.v ===== *)
(** * Monitors (src/src/muduo/base/Condition.h, CountDownLatch.cc, BlockingQueue.h,
    BoundedBlockingQueue.h)

    Threads that share data under one mutex and wait on condition variables.  A
    method body runs without interruption from where it takes the mutex, or returns
    from a wait, to where it waits or returns; threads interleave in any order, a
    notify wakes any one waiter, and waits also end for no reason.  The classes are
    the bodies of their methods. *)

From S2P Require Import Prelude.

(** ** Threads and condition variables *)

Section Monitor.
Context {St Cond Op Res : Type} `{EqDecision Cond}.

(** What a body comes to: it waits, or it returns with the shared data changed,
    and has notified one or all ([true]) waiters of a condition. *)
Inductive outcome :=
| Wait (c : Cond)
| Leave (s : St) (r : Res) (sig : option (Cond * bool)).

Inductive thread :=
| Ready (o : Op)
| Waiting (o : Op) (c : Cond)
| Done.

Record sys := mkSys { shared : St; threads : list thread; trace : list (Op * Res) }.

Definition waits_on (c : Cond) (t : thread) : bool :=
  match t with Waiting _ c' => bool_decide (c' = c) | _ => false end.

Definition wake (t : thread) : thread := match t with Waiting o _ => Ready o | _ => t end.

(** The waiter that [notify] wakes: [k] if it waits, otherwise the first one. *)
Definition chosen (c : Cond) (k : nat) (ts : list thread) : option nat :=
  if from_option (waits_on c) false (ts !! k) then Some k
  else fst <$> list_find (fun t => Is_true (waits_on c t)) ts.

Definition notify (c : Cond) (k : nat) (ts : list thread) : list thread :=
  match chosen c k ts with Some j => alter wake j ts | None => ts end.

Definition notifyAll (c : Cond) (ts : list thread) : list thread :=
  (fun t => if waits_on c t then wake t else t) <$> ts.

Definition signal (sig : option (Cond * bool)) (k : nat) (ts : list thread) : list thread :=
  match sig with
  | None => ts
  | Some (c, false) => notify c k ts
  | Some (c, true) => notifyAll c ts
  end.

(** The scheduler runs a ready thread, with [k] the waiter a notify prefers, or
    ends a wait for no reason. *)
Inductive choice := Run (i k : nat) | Spurious (i : nat).

(** The bodies, and what a thread does after a method returned. *)
Variable body : Op -> St -> res outcome.
Variable cont : Op -> Res -> option Op.

Definition next (o : Op) (r : Res) : thread := from_option Ready Done (cont o r).

Definition step (y : sys) (ch : choice) : res sys :=
  match ch with
  | Spurious i => Ok (mkSys (shared y) (alter wake i (threads y)) (trace y))
  | Run i k =>
      match threads y !! i with
      | Some (Ready o) =>
          let! out := body o (shared y) in
          match out with
          | Wait c => Ok (mkSys (shared y) (<[i := Waiting o c]> (threads y)) (trace y))
          | Leave s r sig =>
              Ok (mkSys s (signal sig k (<[i := next o r]> (threads y))) (trace y ++ [(o, r)]))
          end
      | _ => Ok y
      end
  end.
End Monitor.
Arguments outcome : clear implicits.
Arguments thread : clear implicits.
Arguments sys : clear implicits.
Arguments Wait {St Cond Res} c.
Arguments Leave {St Cond Res} s r sig.

(** ** CountDownLatch *)

(** A thread runs a list of operations: the current one and the rest. *)
Definition program (O : Type) : Type := O * list O.

Definition cont_program {O R : Type} (p : program O) (_ : R) : option (program O) :=
  match snd p with o :: l => Some (o, l) | [] => None end.

Inductive latch_op := LatchWait | CountDown | GetCount.
Inductive latch_res := Waited | Counted | Count (n : Z).
Inductive latch_cond := condition_.

#[export] Instance latch_op_eq_dec : EqDecision latch_op.
Proof. solve_decision. Defined.
#[export] Instance latch_cond_eq_dec : EqDecision latch_cond.
Proof. solve_decision. Defined.

Definition latch_wait (count_ : Z) : outcome Z latch_cond latch_res :=
  if 0 <? count_ then Wait condition_ else Leave count_ Waited None.

Definition countDown (count_ : Z) : outcome Z latch_cond latch_res :=
  let count_ := count_ - 1 in
  Leave count_ Counted (if count_ =? 0 then Some (condition_, true) else None).

Definition getCount (count_ : Z) : outcome Z latch_cond latch_res := Leave count_ (Count count_) None.

Definition latch_body (p : program latch_op) (count_ : Z) : res (outcome Z latch_cond latch_res) :=
  Ok match fst p with
     | LatchWait => latch_wait count_
     | CountDown => countDown count_
     | GetCount => getCount count_
     end.

(** ** BlockingQueue and BoundedBlockingQueue *)

Inductive queue_op := Put (x : Z) | Take.
Inductive queue_res := PutDone | Took (x : Z).
Inductive queue_cond := notEmpty_ | notFull_.

#[export] Instance queue_cond_eq_dec : EqDecision queue_cond.
Proof. solve_decision. Defined.

Definition queue_outcome : Type := outcome (list Z) queue_cond queue_res.

Definition BlockingQueue_put (x : Z) (queue_ : list Z) : queue_outcome :=
  Leave (queue_ ++ [x]) PutDone (Some (notEmpty_, false)).

Definition BlockingQueue_take (queue_ : list Z) : res queue_outcome :=
  if bool_decide (queue_ = []) then Ok (Wait notEmpty_)
  else
    assert! negb (bool_decide (queue_ = [])) ;;
    match queue_ with
    | front :: queue_ => Ok (Leave queue_ (Took front) None)
    | [] => Fail OutOfRange
    end.

Definition blocking_body (p : program queue_op) (queue_ : list Z) : res queue_outcome :=
  match fst p with
  | Put x => Ok (BlockingQueue_put x queue_)
  | Take => BlockingQueue_take queue_
  end.

(** [boost::circular_buffer] of capacity [cap]. *)
Definition full (cap : Z) (queue_ : list Z) : bool := cap =? len queue_.

Definition BoundedBlockingQueue_put (cap x : Z) (queue_ : list Z) : res queue_outcome :=
  if full cap queue_ then Ok (Wait notFull_)
  else
    assert! negb (full cap queue_) ;;
    Ok (Leave (queue_ ++ [x]) PutDone (Some (notEmpty_, false))).

Definition BoundedBlockingQueue_take (queue_ : list Z) : res queue_outcome :=
  if bool_decide (queue_ = []) then Ok (Wait notEmpty_)
  else
    assert! negb (bool_decide (queue_ = [])) ;;
    match queue_ with
    | front :: queue_ => Ok (Leave queue_ (Took front) (Some (notFull_, false)))
    | [] => Fail OutOfRange
    end.

Definition bounded_body (cap : Z) (p : program queue_op) (queue_ : list Z) : res queue_outcome :=
  match fst p with
  | Put x => BoundedBlockingQueue_put cap x queue_
  | Take => BoundedBlockingQueue_take queue_
  end.

(** * Properties *)

(** ** Counting threads *)

Section Counting.
Context {Cond Op : Type} `{EqDecision Cond}.
Implicit Types (p : thread Cond Op -> bool).

Definition cnt p (ts : list (thread Cond Op)) : Z := len (filter (fun t => Is_true (p t)) ts).

Definition ind (b : bool) : Z := if b then 1 else 0.

Lemma cnt_app p l1 l2 : cnt p (l1 ++ l2) = cnt p l1 + cnt p l2.
Proof. unfold cnt. by rewrite filter_app, len_app. Qed.

Lemma cnt_cons p t l : cnt p (t :: l) = ind (p t) + cnt p l.
Proof.
  unfold cnt. rewrite filter_cons. destruct (p t) eqn:E.
  - rewrite decide_True by done. by rewrite len_cons.
  - rewrite decide_False by (by intros []). cbn. lia.
Qed.

Lemma cnt_nonneg p ts : 0 <= cnt p ts.
Proof. apply len_nonneg. Qed.

Lemma cnt_insert p ts i t t' :
  ts !! i = Some t -> cnt p (<[i := t']> ts) = cnt p ts - ind (p t) + ind (p t').
Proof.
  intros Hi. apply take_drop_middle in Hi as E. pose proof (lookup_lt_Some _ _ _ Hi).
  rewrite <- E at 2. rewrite insert_take_drop by done. rewrite !cnt_app, !cnt_cons. lia.
Qed.

Lemma cnt_pos p ts i t : ts !! i = Some t -> p t = true -> 1 <= cnt p ts.
Proof.
  intros Hi Hp. apply take_drop_middle in Hi as <-. rewrite cnt_app, cnt_cons, Hp. cbn [ind].
  pose proof (cnt_nonneg p (take i ts)). pose proof (cnt_nonneg p (drop (S i) ts)). lia.
Qed.

Lemma cnt_zero p ts : cnt p ts = 0 <-> forall i t, ts !! i = Some t -> p t = false.
Proof.
  split.
  - intros H i t Hi. destruct (p t) eqn:E; [|done]. pose proof (cnt_pos p ts i t Hi E). lia.
  - intros H. unfold cnt. rewrite filter_none; [done|]. apply Forall_lookup_2. intros i t Hi.
    rewrite (H i t Hi). by intros [].
Qed.

Lemma alter_some {A} (f : A -> A) (l : list A) i x : l !! i = Some x -> alter f i l = <[i := f x]> l.
Proof.
  intros Hi. apply list_eq. intros j. pose proof (lookup_lt_Some _ _ _ Hi).
  destruct (decide (i = j)) as [<-|Hne].
  - by rewrite list_lookup_alter_eq, Hi, list_lookup_insert_eq.
  - by rewrite list_lookup_alter_ne, list_lookup_insert_ne.
Qed.

Lemma alter_none {A} (f : A -> A) (l : list A) i : l !! i = None -> alter f i l = l.
Proof.
  intros Hi. apply list_eq. intros j. destruct (decide (i = j)) as [<-|Hne].
  - by rewrite list_lookup_alter_eq, Hi.
  - by rewrite list_lookup_alter_ne.
Qed.

(** [notify] wakes one waiter, if there is one. *)
Lemma notify_cases (c : Cond) k (ts : list (thread Cond Op)) :
  (notify c k ts = ts /\ cnt (waits_on c) ts = 0) \/
  (exists j o, ts !! j = Some (Waiting o c) /\ notify c k ts = <[j := Ready o]> ts).
Proof.
  assert (forall j t, ts !! j = Some t -> waits_on c t = true ->
    exists o, ts !! j = Some (Waiting o c) /\ alter wake j ts = <[j := Ready o]> ts) as Hw.
  { intros j t Hj Ht. destruct t as [|o c'|]; try done. cbn in Ht. apply bool_decide_eq_true in Ht as ->.
    exists o. split; [done|]. by rewrite (alter_some _ _ _ _ Hj). }
  unfold notify, chosen. destruct (from_option (waits_on c) false (ts !! k)) eqn:E.
  - right. destruct (ts !! k) as [t|] eqn:Ek; [|done]. destruct (Hw k t Ek E) as (o & H1 & H2). by exists k, o.
  - destruct (list_find _ ts) as [[j t]|] eqn:Ef; cbn.
    + right. apply list_find_Some in Ef as (Hj & Ht & _). apply Is_true_eq_true in Ht.
      destruct (Hw j t Hj Ht) as (o & H1 & H2). by exists j, o.
    + left. split; [done|]. apply list_find_None in Ef. apply cnt_zero. intros i t Hi.
      rewrite Forall_lookup in Ef. specialize (Ef i t Hi). by destruct (waits_on c t); [destruct Ef|].
Qed.

(** A wait that ends for no reason: a waiting thread becomes ready, or nothing. *)
Lemma wake_cases i (ts : list (thread Cond Op)) :
  alter wake i ts = ts \/ exists o c, ts !! i = Some (Waiting o c) /\ alter wake i ts = <[i := Ready o]> ts.
Proof.
  destruct (ts !! i) as [t|] eqn:Ei; [|left; by apply alter_none].
  rewrite (alter_some _ _ _ _ Ei). destruct t as [o|o c|]; cbn [wake].
  - left. by apply list_insert_id.
  - right. by exists o, c.
  - left. by apply list_insert_id.
Qed.
End Counting.

(** ** Queues *)

Section Queues.
Abbreviation qthread := (thread queue_cond (program queue_op)).
Implicit Types (q : list Z) (ts : list qthread).

(** What both queues promise of a method, with a capacity or without. *)
Definition queue_body (cap : option Z) (p : program queue_op) q : queue_outcome :=
  match fst p with
  | Put x =>
      if bool_decide (cap = Some (len q)) then Wait notFull_
      else Leave (q ++ [x]) PutDone (Some (notEmpty_, false))
  | Take =>
      match q with
      | [] => Wait notEmpty_
      | x :: q' => Leave q' (Took x) (if cap is Some _ then Some (notFull_, false) else None)
      end
  end.

Lemma blocking_body_eq p q : blocking_body p q = Ok (queue_body None p q).
Proof. unfold blocking_body, queue_body, BlockingQueue_take. destruct (fst p); [done|by destruct q]. Qed.

Lemma bounded_body_eq cap p q : bounded_body cap p q = Ok (queue_body (Some cap) p q).
Proof.
  unfold bounded_body, queue_body, BoundedBlockingQueue_take, BoundedBlockingQueue_put, full.
  destruct (fst p); [|by destruct q]. destruct (Z.eqb_spec cap (len q)) as [->|Hne].
  - by rewrite bool_decide_true.
  - rewrite bool_decide_false by congruence. done.
Qed.

Definition will_take (t : qthread) : bool := match t with Ready (Take, _) => true | _ => false end.
Definition will_put (t : qthread) : bool := match t with Ready (Put _, _) => true | _ => false end.

Definition wait_ok (cap : option Z) (t : qthread) : Prop :=
  match t with
  | Waiting (Take, _) c => c = notEmpty_
  | Waiting (Put _, _) c => c = notFull_ /\ cap <> None
  | _ => True
  end.

(** No wakeup is lost: while a taker sleeps there are takers awake for all but [a]
    of the elements, and while a putter sleeps there are putters awake for all but
    [b] of the free places. *)
Record balance (cap : option Z) q ts (a b : Z) : Prop := {
  ba_take : 0 < cnt (waits_on notEmpty_) ts -> len q <= cnt will_take ts + a;
  ba_put : 0 < cnt (waits_on notFull_) ts -> forall n, cap = Some n -> n - len q <= cnt will_put ts + b;
  ba_wait : Forall (wait_ok cap) ts;
}.

(** Counting over an updated list of threads. *)
Ltac count := repeat match goal with
  | H : ?ts !! ?i = Some ?t |- context [cnt ?p (<[?i := ?t']> ?ts)] => rewrite (cnt_insert p ts i t t' H)
  | H : ?ts !! ?i = Some ?t, H' : context [cnt ?p (<[?i := ?t']> ?ts)] |- _ => rewrite (cnt_insert p ts i t t' H) in H'
  end.

(** Equalities between the two conditions. *)
Ltac conds :=
  change (bool_decide (notFull_ = notEmpty_)) with false in *;
  change (bool_decide (notEmpty_ = notFull_)) with false in *;
  change (bool_decide (notFull_ = notFull_)) with true in *;
  change (bool_decide (notEmpty_ = notEmpty_)) with true in *;
  cbn [ind] in *.

Lemma wake_balance cap q ts a b j o c :
  balance cap q ts a b -> ts !! j = Some (Waiting o c) -> balance cap q (<[j := Ready o]> ts) a b.
Proof.
  intros [H1 H2 H3] Hj. assert (wait_ok cap (Waiting o c)) as Hw by (by eapply Forall_lookup_1).
  destruct o as [[x|] l]; cbn in Hw; [destruct Hw as [-> _]|subst c].
  all: split; [intros Hp; count; cbn in Hp |- *; conds; specialize (H1 ltac:(lia)); lia
              |intros Hp n Hn; count; cbn in Hp |- *; conds; specialize (H2 ltac:(lia) n Hn); lia
              |by apply Forall_insert].
Qed.

Lemma notify_balance cap q ts a b c k :
  balance cap q ts (match c with notEmpty_ => a + 1 | notFull_ => a end)
    (match c with notEmpty_ => b | notFull_ => b + 1 end) ->
  balance cap q (notify c k ts) a b.
Proof.
  intros [H1 H2 H3]. destruct (notify_cases c k ts) as [[-> H0]|(j & o & Hj & ->)].
  - split; [intros Hp|intros Hp n Hn|done]; destruct c; cbn in *; try lia. by apply H2.
  - assert (wait_ok cap (Waiting o c)) as Hw by (by eapply Forall_lookup_1).
    destruct o as [[x|] l]; cbn in Hw; [destruct Hw as [-> _]|subst c].
    all: split; [intros Hp; count; cbn in Hp |- *; conds; specialize (H1 ltac:(lia)); lia
                |intros Hp n Hn; count; cbn in Hp |- *; conds; specialize (H2 ltac:(lia) n Hn); lia
                |by apply Forall_insert].
Qed.

Definition puts (tr : list (program queue_op * queue_res)) : list Z :=
  omap (fun e => match fst (fst e), snd e with Put x, PutDone => Some x | _, _ => None end) tr.
Definition takes (tr : list (program queue_op * queue_res)) : list Z :=
  omap (fun e => match snd e with Took x => Some x | _ => None end) tr.

Record queue_inv (cap : option Z) (y : sys (list Z) queue_cond (program queue_op) queue_res) : Prop := {
  qi_fifo : puts (trace y) = takes (trace y) ++ shared y;
  qi_cap : forall n, cap = Some n -> len (shared y) <= n;
  qi_balance : balance cap (shared y) (threads y) 0 0;
}.

Context (cap : option Z) (body : program queue_op -> list Z -> res queue_outcome).
Hypothesis body_eq : forall p q, body p q = Ok (queue_body cap p q).

Lemma next_ok (o : program queue_op) (r : queue_res) : wait_ok cap (next cont_program o r).
Proof. unfold next, cont_program. by destruct (snd o). Qed.

Lemma next_idle (o : program queue_op) (r : queue_res) (c : queue_cond) : waits_on c (next cont_program o r) = false.
Proof. unfold next, cont_program. by destruct (snd o). Qed.

Lemma ind_nonneg bo : 0 <= ind bo <= 1.
Proof. destruct bo; cbn; lia. Qed.

Lemma queue_step y ch : queue_inv cap y -> exists y', step body cont_program y ch = Ok y' /\ queue_inv cap y'.
Proof.
  intros [Hf Hc Hb]. destruct y as [q ts tr]. cbn [shared threads trace] in *. destruct ch as [i k|i].
  2:{ eexists. split; [reflexivity|]. split; cbn [shared threads trace]; [done|done|].
      destruct (wake_cases i ts) as [->|(o & c & Hi & ->)]; [done|by eapply wake_balance]. }
  cbn [step shared threads trace]. destruct (ts !! i) as [[[o l]| |]|] eqn:Hi; [|by eexists..].
  rewrite body_eq. unfold queue_body. cbn [fst res_bind]. destruct Hb as [H1 H2 H3]. destruct o as [x|].
  - case_bool_decide as Hfull.
    + eexists. split; [reflexivity|]. split; cbn [shared threads trace]; [done|done|].
      split; [intros Hp|intros Hp n Hn|apply Forall_insert; [done|by split; [|congruence]]]; count; cbn in Hp |- *; conds.
      * specialize (H1 ltac:(lia)). lia.
      * assert (n = len q) as -> by congruence. pose proof (cnt_nonneg will_put ts).
        pose proof (cnt_pos will_put ts i _ Hi eq_refl). lia.
    + eexists. split; [reflexivity|]. split; cbn [shared threads trace].
      * unfold puts, takes in *. rewrite !omap_app, Hf. cbn. by rewrite app_nil_r, app_assoc.
      * intros n Hn. specialize (Hc n Hn). rewrite len_app, len_cons, len_nil. enough (n <> len q) by lia. congruence.
      * apply (notify_balance cap (q ++ [x]) _ 0 0 notEmpty_).
        pose proof (ind_nonneg (will_take (next cont_program (Put x, l) PutDone))).
        pose proof (ind_nonneg (will_put (next cont_program (Put x, l) PutDone))).
        split; [intros Hp|intros Hp n Hn|apply Forall_insert; [done|apply next_ok]];
          count; rewrite ?next_idle in Hp; rewrite len_app, len_cons, len_nil; cbn in Hp |- *; conds.
        -- specialize (H1 ltac:(lia)). lia.
        -- specialize (H2 ltac:(lia) n Hn). lia.
  - destruct q as [|x q].
    + eexists. split; [reflexivity|]. split; cbn [shared threads trace]; [done|done|].
      split; [intros Hp|intros Hp n Hn|apply Forall_insert; done]; count; cbn in Hp |- *; conds.
      * pose proof (cnt_pos will_take ts i _ Hi eq_refl). rewrite len_nil. lia.
      * specialize (H2 ltac:(lia) n Hn). lia.
    + eexists. split; [reflexivity|].
      pose proof (ind_nonneg (will_take (next cont_program (Take, l) (Took x)))).
      pose proof (ind_nonneg (will_put (next cont_program (Take, l) (Took x)))).
      assert (balance cap q (<[i := next cont_program (Take, l) (Took x)]> ts) 0 1) as Hbal.
      { rewrite len_cons in *. split; [intros Hp|intros Hp n Hn|apply Forall_insert; [done|apply next_ok]];
          count; rewrite ?next_idle in Hp; cbn in Hp |- *; conds.
        - specialize (H1 ltac:(lia)). lia.
        - specialize (H2 ltac:(lia) n Hn). lia. }
      split; cbn [shared threads trace].
      * unfold puts, takes in *. rewrite !omap_app, Hf. cbn. by rewrite app_nil_r, <- app_assoc.
      * intros n Hn. specialize (Hc n Hn). rewrite len_cons in Hc. lia.
      * destruct cap as [n|] eqn:Ecap; cbn [signal].
        -- by apply (notify_balance _ q _ 0 0 notFull_).
        -- destruct Hbal as [B1 B2 B3]. split; [done|done|done].
Qed.

Definition queue_init (ps : list (program queue_op)) : sys (list Z) queue_cond (program queue_op) queue_res :=
  mkSys [] (Ready <$> ps) [].

Lemma cnt_ready {Cond Op} `{EqDecision Cond} (c : Cond) (ps : list Op) : cnt (waits_on c) (Ready <$> ps) = 0.
Proof. apply cnt_zero. intros i t Hi. apply list_lookup_fmap_Some in Hi as (o & -> & _). done. Qed.

Lemma queue_init_inv ps : (forall n, cap = Some n -> 0 <= n) -> queue_inv cap (queue_init ps).
Proof.
  intros Hn. split; cbn [queue_init shared threads trace]; [done|done|].
  split; [rewrite cnt_ready; lia..|]. apply Forall_fmap, Forall_true. done.
Qed.

Lemma queue_run sch y : queue_inv cap y -> exists y', res_fold (step body cont_program) y sch = Ok y' /\ queue_inv cap y'.
Proof.
  revert y. induction sch as [|ch sch IH]; intros y Hy; [by exists y|].
  destruct (queue_step y ch Hy) as (y1 & E & H1). cbn [res_fold]. rewrite E. by apply IH.
Qed.

(** No thread can run. *)
Definition quiescent {St Cond Op Res} (y : sys St Cond Op Res) : Prop :=
  forall i o, threads y !! i <> Some (Ready o).

Lemma quiescent_cnt {St Res} (y : sys St queue_cond (program queue_op) Res) (p : qthread -> bool) :
  quiescent y -> (forall t, p t = true -> exists o, t = Ready o) -> cnt p (threads y) = 0.
Proof.
  intros Hq Hp. apply cnt_zero. intros i t Hi. destruct (p t) eqn:E; [|done].
  destruct (Hp t E) as [o ->]. by destruct (Hq i o).
Qed.

(** When nothing can run, takers sleep only on an empty queue, putters only on a
    full one. *)
Lemma queue_quiescent y :
  queue_inv cap y -> quiescent y ->
  (forall i o, threads y !! i = Some (Waiting o notEmpty_) -> shared y = []) /\
  (forall i o, threads y !! i = Some (Waiting o notFull_) -> cap = Some (len (shared y))).
Proof.
  clear body_eq body. intros [Hf Hc [H1 H2 H3]] Hq.
  assert (cnt will_take (threads y) = 0) as E1.
  { apply quiescent_cnt; [done|]. intros [[[] l]| |]; try done. eauto. }
  assert (cnt will_put (threads y) = 0) as E2.
  { apply quiescent_cnt; [done|]. intros [[[] l]| |]; try done. eauto. }
  split; intros i o Hi.
  - pose proof (cnt_pos (waits_on notEmpty_) _ _ _ Hi eq_refl).
    specialize (H1 ltac:(lia)). apply len_0_nil. pose proof (len_nonneg (shared y)). lia.
  - pose proof (cnt_pos (waits_on notFull_) _ _ _ Hi eq_refl) as Hp.
    assert (wait_ok cap (Waiting o notFull_)) as Hw by (by eapply Forall_lookup_1).
    destruct o as [[x|] l]; [|done]. destruct Hw as [_ Hn]. destruct cap as [n|]; [|done].
    specialize (H2 ltac:(lia) n eq_refl). specialize (Hc n eq_refl). f_equal. lia.
Qed.
End Queues.

(** C32: whatever threads put and take and however they interleave, the bounded
    queue keeps its asserts and its capacity, hands out the elements in the order
    they came in, each once, and loses no wakeup: if no thread can run, a taker
    still asleep means the queue is empty and a putter still asleep means it is
    full. *)
Theorem bounded_queue_correct cap ps sch :
  0 <= cap ->
  exists y, res_fold (step (bounded_body cap) cont_program) (queue_init ps) sch = Ok y /\
    puts (trace y) = takes (trace y) ++ shared y /\ len (shared y) <= cap /\
    (quiescent y ->
     (forall i o, threads y !! i = Some (Waiting o notEmpty_) -> shared y = []) /\
     (forall i o, threads y !! i = Some (Waiting o notFull_) -> len (shared y) = cap)).
Proof.
  intros Hc. assert (queue_inv (Some cap) (queue_init ps)) as Hi by (apply queue_init_inv; congruence).
  destruct (queue_run (Some cap) _ (bounded_body_eq cap) sch _ Hi) as (y & E & Hy).
  exists y. split_and!; [done|apply Hy|by apply Hy|]. intros Hq.
  destruct (queue_quiescent (Some cap) y Hy Hq) as [H1 H2]. split; [done|].
  intros i o Hw. specialize (H2 i o Hw). congruence.
Qed.

(** the same for the unbounded queue, where only takers sleep. *)
Theorem blocking_queue_correct ps sch :
  exists y, res_fold (step blocking_body cont_program) (queue_init ps) sch = Ok y /\
    puts (trace y) = takes (trace y) ++ shared y /\
    (quiescent y ->
     (forall i o, threads y !! i = Some (Waiting o notEmpty_) -> shared y = []) /\
     (forall i o, threads y !! i <> Some (Waiting o notFull_))).
Proof.
  assert (queue_inv None (queue_init ps)) as Hi by (apply queue_init_inv; congruence).
  destruct (queue_run None _ blocking_body_eq sch _ Hi) as (y & E & Hy).
  exists y. split_and!; [done|apply Hy|]. intros Hq.
  destruct (queue_quiescent None y Hy Hq) as [H1 H2]. split; [done|].
  intros i o Hw. by specialize (H2 i o Hw).
Qed.

Lemma bounded_queue_correct_witness :
  exists y, res_fold (step (bounded_body 1) cont_program)
      (queue_init [(Put 5, [Put 6]); (Take, [Take])]) [Run 1 0; Run 0 0; Run 0 0; Run 1 0; Run 0 0; Run 1 0] = Ok y /\
    puts (trace y) = takes (trace y) ++ shared y /\ len (shared y) <= 1.
Proof.
  destruct (bounded_queue_correct 1 [(Put 5, [Put 6]); (Take, [Take])]
    [Run 1 0; Run 0 0; Run 0 0; Run 1 0; Run 0 0; Run 1 0] Z.le_0_1) as (y & H1 & H2 & H3 & _).
  exists y. by split_and!.
Defined.

(** ** The latch *)

Section Latch.
Abbreviation lsys := (sys Z latch_cond (program latch_op) latch_res).

Definition downs (tr : list (program latch_op * latch_res)) : Z :=
  len (filter (fun e => fst (fst e) = CountDown) tr).

Definition latch_init (count : Z) (ps : list (program latch_op)) : lsys := mkSys count (Ready <$> ps) [].

Record latch_inv (n : Z) (y : lsys) : Prop := {
  li_count : shared y = n - downs (trace y);
  li_wait : forall i o c, threads y !! i = Some (Waiting o c) -> fst o = LatchWait /\ 0 < shared y;
  li_open : forall p, (p, Waited) ∈ trace y -> shared y <= 0;
}.

(** A thread after the change of one entry. *)
Lemma insert_waiting {Cond Op} (ts : list (thread Cond Op)) i t j o c :
  <[i := t]> ts !! j = Some (Waiting o c) -> t = Waiting o c \/ ts !! j = Some (Waiting o c).
Proof.
  intros H. apply list_lookup_insert_Some in H as [(_ & H & _)|[_ H]]; auto.
Qed.

Lemma next_not_waiting {Res} (p : program latch_op) (r : Res) o (c : latch_cond) :
  next cont_program p r <> Waiting o c.
Proof. unfold next, cont_program. by destruct (snd p). Qed.

Lemma notifyAll_not_waiting {Op} (ts : list (thread latch_cond Op)) i o c :
  notifyAll condition_ ts !! i <> Some (Waiting o c).
Proof.
  unfold notifyAll. intros H. apply list_lookup_fmap_Some in H as (t & E & _).
  destruct t as [|o' []|]; cbn [waits_on] in E; [done| |done].
  rewrite bool_decide_true in E by done. done.
Qed.

Lemma latch_step n y ch :
  latch_inv n y -> exists y', step latch_body cont_program y ch = Ok y' /\ latch_inv n y'.
Proof.
  intros [Hc Hw Ho]. destruct y as [count ts tr]. cbn [shared threads trace] in *. destruct ch as [i k|i].
  2:{ eexists. split; [reflexivity|]. split; cbn [shared threads trace]; [done| |done].
      intros j o c Hj. destruct (wake_cases i ts) as [E|(o' & c' & _ & E)]; rewrite E in Hj; [eauto|].
      apply insert_waiting in Hj as [?|?]; [done|eauto]. }
  cbn [step shared threads trace]. destruct (ts !! i) as [[[o l]| |]|] eqn:Hi; [|by eexists..].
  cbn [latch_body fst res_bind].
  assert (forall o (r : latch_res) j o' c, <[i := next cont_program (o, l) r]> ts !! j = Some (Waiting o' c) ->
    fst o' = LatchWait /\ 0 < count) as Hnext.
  { intros o0 r j o' c H. apply insert_waiting in H as [H|H]; [by apply next_not_waiting in H|eauto]. }
  assert (forall o r, o <> CountDown -> downs (tr ++ [((o, l), r)]) = downs tr) as Hd0.
  { intros o0 r Hne. unfold downs. rewrite filter_app, len_app. rewrite (filter_none _ [_]); [by rewrite len_nil, Z.add_0_r|].
    by apply Forall_singleton. }
  destruct o.
  - unfold latch_wait. destruct (Z.ltb_spec 0 count) as [Hp|Hp]; cbn [res_bind signal];
      eexists; (split; [reflexivity|]); split; cbn [shared threads trace].
    + done.
    + intros j o c Hj. apply insert_waiting in Hj as [H|Hj]; [by simplify_eq|eauto].
    + done.
    + by rewrite Hd0.
    + intros j o c Hj. by apply Hnext in Hj.
    + done.
  - unfold countDown. eexists. split; [reflexivity|].
    assert (downs (tr ++ [((CountDown, l), Counted)]) = downs tr + 1) as Hd1.
    { unfold downs. rewrite filter_app, len_app. rewrite (filter_all _ [_]); [done|]. by apply Forall_singleton. }
    split; cbn [shared threads trace].
    + etransitivity; [|exact (f_equal (Z.sub n) (eq_sym Hd1))]. lia.
    + intros j o c Hj. destruct (Z.eqb_spec (count - 1) 0); cbn [signal] in Hj.
      * by apply notifyAll_not_waiting in Hj.
      * apply Hnext in Hj as [? ?]. split; [done|lia].
    + intros p Hp. apply elem_of_app in Hp as [Hp|Hp]; [specialize (Ho p Hp); lia|].
      apply list_elem_of_singleton in Hp. congruence.
  - unfold getCount. eexists. split; [reflexivity|]. split; cbn [shared threads trace signal].
    + by rewrite Hd0.
    + intros j o c Hj. by apply Hnext in Hj.
    + intros p Hp. apply elem_of_app in Hp as [Hp|Hp]; [eauto|].
      apply list_elem_of_singleton in Hp. congruence.
Qed.

Lemma latch_run n sch y :
  latch_inv n y -> exists y', res_fold (step latch_body cont_program) y sch = Ok y' /\ latch_inv n y'.
Proof.
  revert y. induction sch as [|ch sch IH]; intros y Hy; [by exists y|].
  destruct (latch_step n y ch Hy) as (y1 & E & H1). cbn [res_fold]. rewrite E. by apply IH.
Qed.
End Latch.

(** a latch of count [n] holds its waiters exactly until [n] counts down: none
    returns from [wait] before, and afterwards none is left asleep. *)
Theorem latch_correct n ps sch :
  exists y, res_fold (step latch_body cont_program) (latch_init n ps) sch = Ok y /\
    shared y = n - downs (trace y) /\
    (forall p, (p, Waited) ∈ trace y -> n <= downs (trace y)) /\
    (n <= downs (trace y) -> forall i o c, threads y !! i <> Some (Waiting o c)).
Proof.
  destruct (latch_run n sch (latch_init n ps)) as (y & E & [Hc Hw Ho]).
  { split; cbn [latch_init shared threads trace].
    - change (downs []) with 0. lia.
    - intros i o c H. apply list_lookup_fmap_Some in H as (t & H & _). done.
    - intros p Hp. by apply not_elem_of_nil in Hp. }
  exists y. split_and!; [done|done| |].
  - intros p Hp. specialize (Ho p Hp). lia.
  - intros Hd i o c Hi. destruct (Hw i o c Hi). lia.
Qed.
