(* ===== verification/Mutexes.v ===== *)
(** * Mutexes and conditions, instruction by instruction
    (src/src/muduo/base/Mutex.h, Condition.h, Condition.cc)

    [MutexLock] with its holder, [MutexLockGuard], [UnassignGuard] and
    [Condition::wait] as the sequences of pthread calls and assignments they are.
    A thread stops between any two of them, and between reading the protected data,
    changing it and notifying.  The coarse steps of Monitors, where a body runs
    under the mutex in one go, are shown to be what these instructions amount to. *)

From S2P Require Import Prelude Monitors.

(** ** MutexLock *)

(** [mutex_] is the thread that owns the pthread mutex, by its position. *)
Record MutexLock := mkMutex { mutex_ : option nat; holder_ : Z }.

Definition newMutexLock : MutexLock := mkMutex None 0.

Definition unassignHolder (m : MutexLock) : MutexLock := mkMutex (mutex_ m) 0.

(** Both pthread calls return an error that [MCHECK] asserts away if the mutex is
    still locked. *)
Definition destroyMutexLock (m : MutexLock) : res unit :=
  assert! holder_ m =? 0 ;;
  assert! bool_decide (mutex_ m = None) ;;
  Ok tt.

Section Holder.
(** [CurrentThread::tid()] of a thread. *)
Variable tid : nat -> Z.

Definition assignHolder (i : nat) (m : MutexLock) : MutexLock := mkMutex (mutex_ m) (tid i).

Definition isLockedByThisThread (i : nat) (m : MutexLock) : bool := holder_ m =? tid i.

Definition assertLocked (i : nat) (m : MutexLock) : res unit := cassert (isLockedByThisThread i m).
End Holder.

(** ** Timed waits *)

Definition kNanoSecondsPerSecond : Z := 1000000000.
Definition ETIMEDOUT : Z := 110.

(** A [timespec] is the pair of its seconds and nanoseconds; C divides towards 0. *)
Definition abstime_after (now : Z * Z) (nanoseconds : Z) : Z * Z :=
  let '(tv_sec, tv_nsec) := now in
  (tv_sec + Z.quot (tv_nsec + nanoseconds) kNanoSecondsPerSecond,
   Z.rem (tv_nsec + nanoseconds) kNanoSecondsPerSecond).

(** [Condition::waitForSeconds], with the result of [pthread_cond_timedwait]. *)
Definition waitForSeconds (timedwait : Z * Z -> Z) (now : Z * Z) (nanoseconds : Z) : bool :=
  ETIMEDOUT =? timedwait (abstime_after now nanoseconds).

Definition nanos (t : Z * Z) : Z := fst t * kNanoSecondsPerSecond + snd t.

(** What [pthread_cond_timedwait] accepts. *)
Definition valid_timespec (t : Z * Z) : bool := (0 <=? snd t) && (snd t <? kNanoSecondsPerSecond).

(** ** Instructions *)

Section Machine.
Context {St Cond Op Res : Type} `{EqDecision Cond}.

Inductive instr :=
| PthreadLock
| PthreadUnlock
| Assign
| Unassign
| CondWait (c : Cond)
| Asleep (c : Cond)
| Assert
| Read (o : Op)
| Body (o : Op) (s0 : St)
| Store (o : Op) (s0 s : St) (r : Res) (sig : option (Cond * bool))
| Signal (o : Op) (s0 : St) (r : Res) (sig : option (Cond * bool))
| Return (o : Op) (r : Res).

Definition lock : list instr := [PthreadLock; Assign].
Definition unlock : list instr := [Unassign; PthreadUnlock].

(** [UnassignGuard] around the statement [l]. *)
Definition UnassignGuard (l : list instr) : list instr := [Unassign] ++ l ++ [Assign].

Definition wait (c : Cond) : list instr := UnassignGuard [CondWait c].

Variable tid : nat -> Z.
Variable body : Op -> St -> res (outcome St Cond Res).
Variable cont : Op -> Res -> option Op.
(** Whether the body calls [assertLocked()]. *)
Variable asserts : Op -> bool.

(** [MutexLockGuard] around the statements [l]. *)
Definition MutexLockGuard (l : list instr) : list instr := lock ++ l ++ unlock.

(** The test at the head of the loop, where the data is read. *)
Definition loop_head (o : Op) : list instr := (if asserts o then [Assert] else []) ++ [Read o].

(** A method of a class that guards its data. *)
Definition method (o : Op) : list instr := MutexLockGuard (loop_head o).

(** What is left of it once the mutex is held. *)
Definition guarded (o : Op) : list instr := loop_head o ++ unlock.

Record machine := mkMachine {
  data : St; mtx : MutexLock; pcs : list (list instr); log : list (Op * Res);
}.

Definition asleep_on (c : Cond) (pc : list instr) : bool :=
  match pc with Asleep c' :: _ => bool_decide (c' = c) | _ => false end.

(** A thread that is woken competes for the mutex before its wait returns. *)
Definition rouse (pc : list instr) : list instr :=
  match pc with Asleep _ :: pc => PthreadLock :: pc | _ => pc end.

Definition cond_signal (c : Cond) (k : nat) (l : list (list instr)) : list (list instr) :=
  match (if from_option (asleep_on c) false (l !! k) then Some k
         else fst <$> list_find (fun pc => Is_true (asleep_on c pc)) l) with
  | Some j => alter rouse j l
  | None => l
  end.

Definition cond_broadcast (c : Cond) (l : list (list instr)) : list (list instr) :=
  (fun pc => if asleep_on c pc then rouse pc else pc) <$> l.

Definition do_signal (sig : option (Cond * bool)) (k : nat) (l : list (list instr)) :=
  match sig with
  | None => l
  | Some (c, false) => cond_signal c k l
  | Some (c, true) => cond_broadcast c l
  end.

(** One instruction of thread [i]; [k] is the waiter a signal prefers.  A thread
    whose mutex is taken, or that sleeps, stays where it is.  Unlocking or waiting
    without owning the mutex is undefined. *)
Definition exec (i k : nat) (y : machine) (ins : instr) (rest : list instr) : res machine :=
  let goto m pc := mkMachine (data y) m (<[i := pc]> (pcs y)) (log y) in
  match ins with
  | PthreadLock =>
      Ok match mutex_ (mtx y) with
         | None => goto (mkMutex (Some i) (holder_ (mtx y))) rest
         | Some _ => y
         end
  | PthreadUnlock =>
      if bool_decide (mutex_ (mtx y) = Some i) then Ok (goto (mkMutex None (holder_ (mtx y))) rest)
      else Fail OutOfRange
  | Assign => Ok (goto (assignHolder tid i (mtx y)) rest)
  | Unassign => Ok (goto (unassignHolder (mtx y)) rest)
  | CondWait c =>
      if bool_decide (mutex_ (mtx y) = Some i)
      then Ok (goto (mkMutex None (holder_ (mtx y))) (Asleep c :: rest))
      else Fail OutOfRange
  | Asleep _ => Ok y
  | Assert => let! _ := assertLocked tid i (mtx y) in Ok (goto (mtx y) rest)
  | Read o => Ok (goto (mtx y) (Body o (data y) :: rest))
  | Body o s0 =>
      let! out := body o s0 in
      Ok (goto (mtx y) match out with
          | Wait c => wait c ++ loop_head o ++ rest
          | Leave s r sig => Store o s0 s r sig :: rest ++ [Return o r]
          end)
  | Store o s0 s r sig => Ok (mkMachine s (mtx y) (<[i := Signal o s0 r sig :: rest]> (pcs y)) (log y))
  | Signal o _ r sig =>
      Ok (mkMachine (data y) (mtx y) (do_signal sig k (<[i := rest]> (pcs y)))
            (log y ++ [(o, r)]))
  | Return o r =>
      Ok (goto (mtx y) match cont o r with Some o' => method o' | None => rest end)
  end.

Definition mstep (y : machine) (ch : choice) : res machine :=
  match ch with
  | Spurious i => Ok (mkMachine (data y) (mtx y) (alter rouse i (pcs y)) (log y))
  | Run i k =>
      match pcs y !! i with
      | Some (ins :: rest) => exec i k y ins rest
      | _ => Ok y
      end
  end.

Definition boot (s : St) (os : list Op) : machine := mkMachine s newMutexLock (method <$> os) [].

(** ** The coarse view *)

(** What a thread has still to do, as Monitors sees it. *)
Fixpoint abs_pc (pc : list instr) : thread Cond Op :=
  match pc with
  | [] => Done
  | Read o :: _ | Body o _ :: _ | Store o _ _ _ _ :: _ | Signal o _ _ _ :: _ => Ready o
  | Return o r :: _ => next cont o r
  | Asleep c :: pc => match abs_pc pc with Ready o => Waiting o c | t => t end
  | _ :: pc => abs_pc pc
  end.

(** Data a thread has changed but not yet announced does not count yet. *)
Definition abs_data (y : machine) : St :=
  match mutex_ (mtx y) ≫= fun i => pcs y !! i with
  | Some (Signal _ s0 _ _ :: _) => s0
  | _ => data y
  end.

Definition abs (y : machine) : sys St Cond Op Res := mkSys (abs_data y) (abs_pc <$> pcs y) (log y).

(** * Properties *)

(** ** The invariant *)

(** Where a thread can be with the data [s]: whether it owns the mutex, and whether
    it is the holder. *)
Inductive shape (s : St) : list instr -> bool -> bool -> Prop :=
| sh_done : shape s [] false false
| sh_lock o : shape s (PthreadLock :: Assign :: guarded o) false false
| sh_assign o : shape s (Assign :: guarded o) true false
| sh_assert o : shape s (Assert :: Read o :: unlock) true true
| sh_read o : shape s (Read o :: unlock) true true
| sh_body o : shape s (Body o s :: unlock) true true
| sh_unassign o c : body o s = Ok (Wait c) -> shape s (wait c ++ guarded o) true true
| sh_wait o c : body o s = Ok (Wait c) -> shape s (CondWait c :: Assign :: guarded o) true false
| sh_asleep o c : shape s (Asleep c :: Assign :: guarded o) false false
| sh_store o s' r sig : body o s = Ok (Leave s' r sig) ->
    shape s (Store o s s' r sig :: unlock ++ [Return o r]) true true
| sh_signal o s0 r sig : body o s0 = Ok (Leave s r sig) ->
    shape s (Signal o s0 r sig :: unlock ++ [Return o r]) true true
| sh_leave o r : shape s (unlock ++ [Return o r]) true true
| sh_unlock o r : shape s [PthreadUnlock; Return o r] true false
| sh_return o r : shape s [Return o r] false false.
Hint Constructors shape : core.

(** A thread outside the mutex depends on no data. *)
Lemma shape_outside s s' pc a : shape s pc false a -> shape s' pc false a /\ a = false.
Proof. intros H. inversion H; subst; auto. Qed.

Lemma shape_guarded s o : shape s (guarded o) true true.
Proof. unfold guarded, loop_head. destruct (asserts o); cbn; auto. Qed.
Hint Resolve shape_guarded : core.

Record minv (y : machine) : Prop := {
  mi_owner : forall i, mutex_ (mtx y) = Some i ->
    exists pc a, pcs y !! i = Some pc /\ shape (data y) pc true a /\
      holder_ (mtx y) = if a then tid i else 0;
  mi_free : mutex_ (mtx y) = None -> holder_ (mtx y) = 0;
  mi_others : forall j pc, pcs y !! j = Some pc -> mutex_ (mtx y) <> Some j -> shape (data y) pc false false;
}.

Lemma minv_put y i old pc d m l :
  minv y -> pcs y !! i = Some old -> mutex_ (mtx y) = Some i \/ mutex_ (mtx y) = None ->
  (exists a, mutex_ m = Some i /\ shape d pc true a /\ holder_ m = if a then tid i else 0) \/
  (mutex_ m = None /\ holder_ m = 0 /\ shape d pc false false) ->
  minv (mkMachine d m (<[i := pc]> (pcs y)) l).
Proof.
  intros [Ho Hf Ht] Hi Hy Hm. pose proof (lookup_lt_Some _ _ _ Hi) as Hlt.
  split; cbn [data mtx pcs].
  - intros j Hj. destruct Hm as [(a & E & Hs & Hh)|(E & _)]; rewrite E in Hj; simplify_eq.
    exists pc, a. by rewrite list_lookup_insert_eq.
  - intros E. destruct Hm as [(a & E' & _)|(_ & Hh & _)]; congruence.
  - intros j pc' Hj Hne. apply list_lookup_insert_Some in Hj as [(<- & <- & _)|[Hij Hj]].
    + destruct Hm as [(a & E & _)|(_ & _ & Hs)]; [congruence|done].
    + destruct (shape_outside _ d _ _ (Ht j pc' Hj ltac:(destruct Hy as [-> | ->]; congruence))) as [? _]. done.
Qed.

Lemma minv_out y i old pc l :
  minv y -> pcs y !! i = Some old -> mutex_ (mtx y) <> Some i -> shape (data y) pc false false ->
  minv (mkMachine (data y) (mtx y) (<[i := pc]> (pcs y)) l).
Proof.
  intros [Ho Hf Ht] Hi Hne Hs. split; cbn [data mtx pcs]; [|done|].
  - intros j Hj. destruct (Ho j Hj) as (pc' & a & H1 & H2 & H3). exists pc', a.
    rewrite list_lookup_insert_ne by congruence. done.
  - intros j pc' Hj Hj'. apply list_lookup_insert_Some in Hj as [(<- & <- & _)|[_ Hj]]; [done|eauto].
Qed.

(** ** Waking *)

Lemma shape_rouse s pc o a : shape s pc o a -> shape s (rouse pc) o a.
Proof.
  intros H. inversion H; subst; cbn; auto.
Qed.

Lemma abs_guarded o : abs_pc (guarded o) = Ready o.
Proof. unfold guarded, loop_head. by destruct (asserts o). Qed.

Lemma next_waits (c : Cond) o r : waits_on c (next cont o r) = false.
Proof. unfold next. by destruct (cont o r). Qed.

Lemma abs_waits s pc own a c : shape s pc own a -> waits_on c (abs_pc pc) = asleep_on c pc.
Proof.
  intros H. inversion H; subst; cbn [abs_pc waits_on asleep_on unlock wait UnassignGuard app];
    rewrite ?abs_guarded, ?next_waits; cbn; try done.
Qed.

Lemma abs_rouse s pc own a : shape s pc own a -> abs_pc (rouse pc) = wake (abs_pc pc).
Proof.
  intros H. inversion H; subst; cbn [abs_pc rouse unlock wait UnassignGuard app];
    rewrite ?abs_guarded; cbn; rewrite ?abs_guarded; try done; unfold next; try by destruct (cont o r).
Qed.

(** All threads are somewhere. *)
Definition shaped (s : St) (l : list (list instr)) : Prop := Forall (fun pc => exists o a, shape s pc o a) l.

Lemma minv_shaped y : minv y -> shaped (data y) (pcs y).
Proof.
  intros [Ho Hf Ht]. apply Forall_lookup_2. intros j pc Hj.
  destruct (decide (mutex_ (mtx y) = Some j)) as [E|E]; [|eauto].
  destruct (Ho j E) as (pc' & a & H1 & H2 & _). simplify_eq. eauto.
Qed.

Lemma abs_alter s l j : shaped s l -> abs_pc <$> alter rouse j l = alter wake j (abs_pc <$> l).
Proof.
  intros Hs. apply list_eq. intros i. rewrite list_lookup_fmap. destruct (decide (i = j)) as [->|Hne].
  - rewrite !list_lookup_alter_eq, list_lookup_fmap. destruct (l !! j) as [pc|] eqn:Ej; [|done]. cbn.
    destruct (Forall_lookup_1 _ _ _ _ Hs Ej) as (o & a & H). by rewrite (abs_rouse _ _ _ _ H).
  - by rewrite !list_lookup_alter_ne, list_lookup_fmap.
Qed.

Lemma fst_shift {A} (x : option (nat * A)) : fst <$> (prod_map S id <$> x) = S <$> (fst <$> x).
Proof. by destruct x as [[]|]. Qed.

Lemma find_abs s c l : shaped s l ->
  fst <$> list_find (fun t => Is_true (waits_on c t)) (abs_pc <$> l) =
  fst <$> list_find (fun pc => Is_true (asleep_on c pc)) l.
Proof.
  induction 1 as [|pc l (o & a & Hpc) _ IH]; [done|]. cbn [fmap list_fmap list_find].
  assert (waits_on c (abs_pc pc) = asleep_on c pc) as E by (by eapply abs_waits).
  unfold decide. destruct (asleep_on c pc) eqn:E'.
  - rewrite E. done.
  - rewrite E. cbn. rewrite !fst_shift. f_equal. exact IH.
Qed.

Lemma abs_signal s sig k l : shaped s l -> abs_pc <$> do_signal sig k l = signal sig k (abs_pc <$> l).
Proof.
  intros Hs. destruct sig as [[c []]|]; cbn [do_signal signal]; [| |done].
  - unfold cond_broadcast, notifyAll. rewrite <- !list_fmap_compose. apply list_fmap_ext.
    intros i pc Hi. destruct (Forall_lookup_1 _ _ _ _ Hs Hi) as (o & a & H). cbn.
    rewrite (abs_waits _ _ _ _ c H). destruct (asleep_on c pc); [by eapply abs_rouse|done].
  - unfold cond_signal, notify, chosen. rewrite (find_abs s c l Hs), list_lookup_fmap.
    assert (from_option (waits_on c) false (abs_pc <$> l !! k) = from_option (asleep_on c) false (l !! k)) as ->.
    { destruct (l !! k) as [pc|] eqn:Ek; [|done]. cbn.
      destruct (Forall_lookup_1 _ _ _ _ Hs Ek) as (o & a & H). by eapply abs_waits. }
    destruct (from_option _ _ _); [by eapply abs_alter|].
    destruct (fst <$> _) as [j|]; [by eapply abs_alter|done].
Qed.

Lemma alter_rouse j l : Forall2 (fun pc pc' => pc' = pc \/ pc' = rouse pc) l (alter rouse j l).
Proof.
  apply Forall2_same_length_lookup. split; [by rewrite length_alter|].
  intros i pc pc' H1 H2. destruct (decide (i = j)) as [->|Hne].
  - rewrite list_lookup_alter_eq, H1 in H2. cbn in H2. simplify_eq. by right.
  - rewrite list_lookup_alter_ne in H2 by done. simplify_eq. by left.
Qed.

Lemma signal_forall2 sig k l : Forall2 (fun pc pc' => pc' = pc \/ pc' = rouse pc) l (do_signal sig k l).
Proof.
  pose proof (fun j => alter_rouse j l) as Ha.
  assert (Forall2 (fun pc pc' => pc' = pc \/ pc' = rouse pc) l l) as Hr.
  { apply Forall_Forall2_diag, Forall_true. auto. }
  destruct sig as [[c []]|]; cbn [do_signal]; [| |done].
  - unfold cond_broadcast. apply Forall2_fmap_r, Forall_Forall2_diag, Forall_true.
    intros pc. cbn. destruct (asleep_on c pc); auto.
  - unfold cond_signal. destruct (from_option _ _ _); [done|]. by destruct (fst <$> _).
Qed.

Lemma minv_rouse y l lg :
  minv y -> Forall2 (fun pc pc' => pc' = pc \/ pc' = rouse pc) (pcs y) l ->
  minv (mkMachine (data y) (mtx y) l lg).
Proof.
  intros [Ho Hf Ht] Hl. split; cbn [data mtx pcs]; [|done|].
  - intros i Hi. destruct (Ho i Hi) as (pc & a & H1 & H2 & H3).
    destruct (Forall2_lookup_l _ _ _ _ _ Hl H1) as (pc' & H4 & Hpc).
    exists pc', a. split_and!; [done| |done]. destruct Hpc as [-> | ->]; auto using shape_rouse.
  - intros j pc' Hj Hne. destruct (Forall2_lookup_r _ _ _ _ _ Hl Hj) as (pc & H4 & [-> | ->]);
      eauto using shape_rouse.
Qed.

(** ** Simulation *)

Lemma abs_data_own i pc d m l lg :
  mutex_ m = Some i -> (i < length l)%nat ->
  abs_data (mkMachine d m (<[i := pc]> l) lg) = match pc with Signal _ s0 _ _ :: _ => s0 | _ => d end.
Proof. intros E Hl. unfold abs_data. cbn. rewrite E. cbn. by rewrite list_lookup_insert_eq. Qed.

Lemma abs_data_free d m l lg : mutex_ m = None -> abs_data (mkMachine d m l lg) = d.
Proof. intros E. unfold abs_data. cbn. by rewrite E. Qed.

Lemma abs_data_head y i pc :
  mutex_ (mtx y) = Some i -> pcs y !! i = Some pc ->
  abs_data y = match pc with Signal _ s0 _ _ :: _ => s0 | _ => data y end.
Proof. intros E Hi. unfold abs_data. rewrite E. cbn. by rewrite Hi. Qed.

Lemma abs_data_other y i pc l :
  mutex_ (mtx y) <> Some i ->
  abs_data (mkMachine (data y) (mtx y) (<[i := pc]> (pcs y)) l) = abs_data y.
Proof.
  intros E. unfold abs_data. cbn. destruct (mutex_ (mtx y)) as [j|]; [|done]. cbn.
  by rewrite list_lookup_insert_ne by congruence.
Qed.

Lemma abs_data_rouse y l lg :
  Forall2 (fun pc pc' => pc' = pc \/ pc' = rouse pc) (pcs y) l ->
  abs_data (mkMachine (data y) (mtx y) l lg) = abs_data y.
Proof.
  intros Hl. unfold abs_data. cbn. destruct (mutex_ (mtx y)) as [j|]; [|done]. cbn.
  destruct (pcs y !! j) as [pc|] eqn:E.
  - destruct (Forall2_lookup_l _ _ _ _ _ Hl E) as (pc' & -> & [-> | ->]); [done|].
    by destruct pc as [|[] ?].
  - apply lookup_ge_None_1 in E. rewrite lookup_ge_None_2; [done|]. by rewrite <- (Forall2_length _ _ _ Hl).
Qed.

(** A step the coarse view does not notice. *)
Lemma abs_stutter y i old pc d m :
  pcs y !! i = Some old -> abs_pc pc = abs_pc old ->
  abs_data (mkMachine d m (<[i := pc]> (pcs y)) (log y)) = abs_data y ->
  abs (mkMachine d m (<[i := pc]> (pcs y)) (log y)) = abs y.
Proof.
  intros Hi Hpc Hd. unfold abs. rewrite Hd. cbn [pcs log]. f_equal.
  rewrite list_fmap_insert, Hpc. apply list_insert_id. by rewrite list_lookup_fmap, Hi.
Qed.

(** The thread that the coarse view runs. *)
Lemma step_run y i k pc o :
  pcs y !! i = Some pc -> abs_pc pc = Ready o ->
  step body cont (abs y) (Run i k) =
    let! out := body o (abs_data y) in
    match out with
    | Wait c => Ok (mkSys (abs_data y) (<[i := Waiting o c]> (abs_pc <$> pcs y)) (log y))
    | Leave s r sig =>
        Ok (mkSys s (signal sig k (<[i := next cont o r]> (abs_pc <$> pcs y))) (log y ++ [(o, r)]))
    end.
Proof. intros Hi Ho. cbn [step abs threads shared trace]. rewrite list_lookup_fmap, Hi. cbn. by rewrite Ho. Qed.

(** The fine step is invisible, or a coarse one. *)
Definition simulates (y : machine) (r : res machine) : Prop :=
  match r with
  | Ok y' => minv y' /\ (abs y' = abs y \/ exists ch, step body cont (abs y) ch = Ok (abs y'))
  | Fail f => exists ch, step body cont (abs y) ch = Fail f
  end.

Definition announces (pc : list instr) : bool := match pc with Signal _ _ _ _ :: _ => true | _ => false end.

Lemma announces_guarded o : announces (guarded o) = false.
Proof. unfold guarded, loop_head. by destruct (asserts o). Qed.

(** A step inside the mutex that only moves the thread. *)
Lemma sim_quiet i y old pc m a :
  minv y -> mutex_ (mtx y) = Some i -> pcs y !! i = Some old -> mutex_ m = Some i ->
  shape (data y) pc true a -> holder_ m = (if a then tid i else 0) ->
  abs_pc pc = abs_pc old -> announces pc = false -> announces old = false ->
  simulates y (Ok (mkMachine (data y) m (<[i := pc]> (pcs y)) (log y))).
Proof.
  intros Hy Hm Hi Hm' Hs Hh Habs Hpc Hold. pose proof (lookup_lt_Some _ _ _ Hi) as Hlt. split.
  - eapply minv_put; eauto.
  - left. eapply abs_stutter; [done|done|]. rewrite abs_data_own, (abs_data_head y i old) by done.
    by destruct pc as [|[] ?], old as [|[] ?].
Qed.

(** Leaving the mutex. *)
Lemma sim_release i y old pc :
  minv y -> mutex_ (mtx y) = Some i -> pcs y !! i = Some old -> holder_ (mtx y) = 0 ->
  shape (data y) pc false false -> announces old = false ->
  minv (mkMachine (data y) (mkMutex None (holder_ (mtx y))) (<[i := pc]> (pcs y)) (log y)) /\
  abs_data (mkMachine (data y) (mkMutex None (holder_ (mtx y))) (<[i := pc]> (pcs y)) (log y)) = abs_data y.
Proof.
  intros Hy Hm Hi Hh Hs Hold. split.
  - eapply minv_put; eauto.
  - rewrite abs_data_free, (abs_data_head y i old) by done. by destruct old as [|[] ?].
Qed.

Lemma sim_body i y o :
  minv y -> mutex_ (mtx y) = Some i -> pcs y !! i = Some (Body o (data y) :: unlock) -> holder_ (mtx y) = tid i ->
  simulates y (exec i 0 y (Body o (data y)) unlock).
Proof.
  intros Hy Hm Hi Hh. pose proof (abs_data_head y i _ Hm Hi) as Hd. cbn [exec].
  destruct (body o (data y)) as [[c|s r sig]|f] eqn:Eb; cbn [res_bind].
  - change (loop_head o ++ unlock) with (guarded o). eapply (sim_quiet i y _ _ _ true); eauto. cbn. apply abs_guarded.
  - eapply (sim_quiet i y _ _ _ true); eauto.
  - exists (Run i 0). rewrite (step_run y i 0 _ o Hi), Hd by done. by rewrite Eb.
Qed.

Lemma sim_signal i k y o s0 r sig :
  minv y -> mutex_ (mtx y) = Some i -> pcs y !! i = Some (Signal o s0 r sig :: unlock ++ [Return o r]) ->
  holder_ (mtx y) = tid i -> body o s0 = Ok (Leave (data y) r sig) ->
  simulates y (exec i k y (Signal o s0 r sig) (unlock ++ [Return o r])).
Proof.
  intros Hy Hm Hi Hh Hb. pose proof (lookup_lt_Some _ _ _ Hi) as Hlt. cbn [exec].
  set (l := <[i := unlock ++ [Return o r]]> (pcs y)).
  set (y1 := mkMachine (data y) (mtx y) l (log y)).
  assert (minv y1) as H1.
  { eapply minv_put; [done|done|auto|]. left. exists true. auto. }
  pose proof (signal_forall2 sig k l) as Hl. split.
  - by apply (minv_rouse y1).
  - right. exists (Run i k). rewrite (step_run y i k _ o Hi), (abs_data_head y i _ Hm Hi), Hb by done.
    cbn [res_bind]. f_equal. unfold abs. cbn [pcs log]. f_equal.
    + etransitivity; [|symmetry; exact (abs_data_rouse y1 _ _ Hl)]. unfold y1, l. by rewrite abs_data_own.
    + rewrite (abs_signal (data y) sig k l (minv_shaped y1 H1)). unfold l. by rewrite list_fmap_insert.
Qed.

Lemma sim_owner i k y ins rest a :
  minv y -> mutex_ (mtx y) = Some i -> pcs y !! i = Some (ins :: rest) ->
  shape (data y) (ins :: rest) true a -> holder_ (mtx y) = (if a then tid i else 0) ->
  simulates y (exec i k y ins rest).
Proof.
  intros Hy Hm Hi Hs Hh. pose proof (lookup_lt_Some _ _ _ Hi) as Hlt.
  inversion Hs; subst.
  all: try (cbn [exec]; eapply sim_quiet; eauto using announces_guarded; fail).
  - cbn [exec]. unfold assertLocked, isLockedByThisThread. rewrite Hh, Z.eqb_refl. cbn [cassert res_bind].
    eapply (sim_quiet i y _ _ _ true); eauto.
  - by apply sim_body.
  - cbn [exec]. rewrite bool_decide_true by done.
    destruct (sim_release i y _ (Asleep c :: Assign :: guarded o) Hy Hm Hi Hh) as [H1 H2]; [auto..|].
    split; [done|]. right. exists (Run i k).
    rewrite (step_run y i k _ o Hi) by apply abs_guarded.
    rewrite (abs_data_head y i _ Hm Hi). cbv iota beta. rewrite H0. cbn [res_bind]. f_equal. unfold abs.
    rewrite H2, (abs_data_head y i _ Hm Hi). cbn [pcs log]. rewrite list_fmap_insert. cbn. by rewrite abs_guarded.
  - cbn [exec]. split.
    + eapply minv_put; [done|done|auto|]. left. exists true. auto.
    + left. eapply abs_stutter; [done|done|]. by rewrite abs_data_own, (abs_data_head y i _ Hm Hi).
  - by apply sim_signal.
  - cbn [exec]. rewrite bool_decide_true by done.
    destruct (sim_release i y _ [Return o r] Hy Hm Hi Hh) as [H1 H2]; [auto..|].
    split; [done|]. left. by eapply abs_stutter.
Qed.

Lemma sim_outside i k y ins rest :
  minv y -> mutex_ (mtx y) <> Some i -> pcs y !! i = Some (ins :: rest) ->
  shape (data y) (ins :: rest) false false -> simulates y (exec i k y ins rest).
Proof.
  intros Hy Hm Hi Hs. inversion Hs; subst; cbn [exec].
  - destruct (mutex_ (mtx y)) as [j|] eqn:Em; [by split; auto|]. split.
    + eapply minv_put; [done|done|auto|]. left. exists false. split_and!; auto. by apply Hy.
    + left. eapply abs_stutter; [done|done|]. pose proof (lookup_lt_Some _ _ _ Hi).
      rewrite abs_data_own by done. unfold abs_data. by rewrite Em.
  - by split; auto.
  - split.
    + eapply minv_out; eauto. unfold method, MutexLockGuard, lock. destruct (cont o r); cbn; [fold (guarded o0)|]; auto.
    + left. eapply abs_stutter; [done| |by apply abs_data_other]. cbn. unfold next, method, MutexLockGuard, lock.
      destruct (cont o r); [apply abs_guarded|done].
Qed.

Lemma sim_step y ch : minv y -> simulates y (mstep y ch).
Proof.
  intros Hy. destruct ch as [i k|i]; cbn [mstep].
  - destruct (pcs y !! i) as [[|ins rest]|] eqn:Hi; [by split; auto| |by split; auto].
    destruct (decide (mutex_ (mtx y) = Some i)) as [Hm|Hm].
    + destruct (mi_owner y Hy i Hm) as (pc & a & E & Hs & Hh). simplify_eq. by eapply sim_owner.
    + apply sim_outside; [done|done|done|]. by eapply mi_others.
  - assert (Forall2 (fun pc pc' => pc' = pc \/ pc' = rouse pc) (pcs y) (alter rouse i (pcs y))) as Hl.
    { apply alter_rouse. }
    split; [by apply minv_rouse|]. right. exists (Spurious i). cbn [step abs shared threads trace]. f_equal.
    unfold abs. rewrite (abs_data_rouse y _ _ Hl). cbn [pcs log]. f_equal.
    symmetry. by apply (abs_alter (data y)), minv_shaped.
Qed.

Lemma sim_run y sch : minv y ->
  exists csch, res_fold (step body cont) (abs y) csch =
    match res_fold mstep y sch with Ok y' => Ok (abs y') | Fail f => Fail f end.
Proof.
  revert y. induction sch as [|ch sch IH]; intros y Hy; [by exists []|].
  pose proof (sim_step y ch Hy) as H. cbn [res_fold]. destruct (mstep y ch) as [y'|f]; cbn [res_bind].
  - destruct H as [Hy' H]. destruct (IH y' Hy') as [csch E]. destruct H as [H|[ch' H]].
    + exists csch. by rewrite <- H.
    + exists (ch' :: csch). cbn [res_fold]. by rewrite H.
  - destruct H as [ch' H]. exists [ch']. cbn [res_fold]. by rewrite H.
Qed.

Lemma minv_boot s os : minv (boot s os).
Proof.
  split; cbn [boot data mtx pcs newMutexLock mutex_ holder_]; [done|done|].
  intros j pc Hj _. apply list_lookup_fmap_Some in Hj as (o & -> & _). unfold method, MutexLockGuard, lock. cbn. fold (guarded o). auto.
Qed.

Lemma minv_run s os sch y : res_fold mstep (boot s os) sch = Ok y -> minv y.
Proof.
  apply res_fold_inv; [|apply minv_boot]. intros y1 ch y2 H1 H2.
  pose proof (sim_step y1 ch H1) as H. rewrite H2 in H. apply H.
Qed.

Lemma abs_boot s os : abs (boot s os) = mkSys s (Ready <$> os) [].
Proof.
  unfold abs, boot. rewrite abs_data_free by done. cbn [pcs log]. f_equal.
  rewrite <- list_fmap_compose. apply list_fmap_ext. intros i o _. cbn. apply abs_guarded.
Qed.

(** ** Progress *)

(** No thread can take a step. *)
Definition stuck (y : machine) : Prop := forall i, mstep y (Run i 0) = Ok y.

Lemma insert_moved i pc old (l : list (list instr)) : l !! i = Some old -> pc <> old -> <[i := pc]> l <> l.
Proof.
  intros Hi Hne E. apply Hne. pose proof (lookup_lt_Some _ _ _ Hi) as Hlt.
  assert (<[i := pc]> l !! i = Some old) as H by (by rewrite E).
  rewrite list_lookup_insert_eq in H by done. congruence.
Qed.
(** The owner of the mutex can always go on. *)
Lemma owner_moves y i : minv y -> mutex_ (mtx y) = Some i -> mstep y (Run i 0) <> Ok y.
Proof.
  intros Hy Hm. destruct (mi_owner y Hy i Hm) as (pc & a & Hi & Hs & _). cbn [mstep]. rewrite Hi.
  assert (forall d m l lg, l <> pcs y -> Ok (mkMachine d m l lg) <> Ok y) as Hpcs.
  { intros d m l lg Hl E. apply Hl. by inversion E. }
  assert (forall d m pc' lg, pc' <> pc -> Ok (mkMachine d m (<[i := pc']> (pcs y)) lg) <> Ok y) as Hmv.
  { intros d m pc' lg Hne. apply Hpcs. by eapply insert_moved. }
  inversion Hs; subst; cbn [exec wait UnassignGuard unlock app]; try (by apply Hmv);
    try (rewrite bool_decide_true by done; by apply Hmv).
  - apply Hmv. unfold guarded, loop_head. by destruct (asserts o).
  - destruct (assertLocked _ _ _); [by apply Hmv|done].
  - destruct (body o (data y)) as [[c|s r sig]|f]; [by apply Hmv..|done].
  - intros E. inversion E as [E']. apply (f_equal (length ∘ log)) in E'. cbn in E'. rewrite length_app in E'. cbn in E'. lia.
Qed.

(** When no thread can take a step the mutex is free, and no thread has anything to
    do but sleep. *)
Lemma stuck_quiescent y : minv y -> stuck y -> mutex_ (mtx y) = None /\ quiescent (abs y).
Proof.
  intros Hy Hst. assert (mutex_ (mtx y) = None) as Hm.
  { destruct (mutex_ (mtx y)) as [i|] eqn:Hm; [|done]. by destruct (owner_moves y i Hy Hm). }
  split; [done|]. intros i o Hi. cbn [abs threads] in Hi.
  apply list_lookup_fmap_Some in Hi as (pc & Ho & Hi).
  assert (shape (data y) pc false false) as Hs by (eapply mi_others; [done|done|congruence]).
  specialize (Hst i). cbn [mstep] in Hst. rewrite Hi in Hst. inversion Hs; subst; cbn [exec] in Hst.
  - done.
  - rewrite Hm in Hst. inversion Hst as [E]. by rewrite <- E in Hm.
  - cbn in Ho. by rewrite abs_guarded in Ho.
  - inversion Hst as [E]. apply (f_equal pcs) in E. cbn in E. revert E. eapply insert_moved; [done|].
    by destruct (cont o0 r).
Qed.

(** ** Every coarse step can be taken *)

(** Between two critical sections. *)
Definition idle_pc (pc : list instr) : Prop :=
  pc = [] \/ (exists o, pc = method o) \/ (exists o c, pc = Asleep c :: Assign :: guarded o).

Definition idle (y : machine) : Prop := mutex_ (mtx y) = None /\ Forall idle_pc (pcs y).

Lemma run_one i k d m pc l lg n y :
  (i < length l)%nat -> pc <> [] ->
  (forall ins rest, pc = ins :: rest ->
    res_bind (exec i k (mkMachine d m (<[i := pc]> l) lg) ins rest) (fun y1 => res_fold mstep y1 (replicate n (Run i k))) = y) ->
  res_fold mstep (mkMachine d m (<[i := pc]> l) lg) (replicate (S n) (Run i k)) = y.
Proof.
  intros Hi Hpc H. destruct pc as [|ins rest]; [done|]. cbn [replicate res_fold mstep pcs].
  rewrite list_lookup_insert_eq by done. by apply H.
Qed.

(** Run the instructions of thread [i] one after the other. *)
Ltac run_thread :=
  repeat (apply run_one; [done|done|]; intros ? ? [= <- <-];
    cbn [exec mtx mutex_ holder_ data pcs log]; unfold assignHolder, unassignHolder, assertLocked, isLockedByThisThread;
    cbn [mutex_ holder_]; rewrite ?Z.eqb_refl, ?bool_decide_true by done;
    cbn [cassert res_bind]; rewrite ?list_insert_insert_eq).

Lemma run_to_body i k s l lg o :
  (i < length l)%nat ->
  exists n0, forall n, res_fold mstep (mkMachine s (mkMutex None 0) (<[i := method o]> l) lg) (replicate (n0 + n) (Run i k)) =
    res_fold mstep (mkMachine s (mkMutex (Some i) (tid i)) (<[i := (Body o s :: unlock)]> l) lg) (replicate n (Run i k)).
Proof.
  intros Hi. exists (if asserts o then 4 else 3)%nat. intros m. unfold method, MutexLockGuard, lock, loop_head.
  destruct (asserts o); cbn [Nat.add app]; run_thread; done.
Qed.

Lemma run_wait i k s l lg o c :
  (i < length l)%nat -> body o s = Ok (Wait c) ->
  res_fold mstep (mkMachine s (mkMutex (Some i) (tid i)) (<[i := (Body o s :: unlock)]> l) lg) (replicate 3 (Run i k)) =
  Ok (mkMachine s (mkMutex None 0) (<[i := Asleep c :: Assign :: guarded o]> l) lg).
Proof.
  intros Hi Hb. apply run_one; [done|done|]. intros ? ? [= <- <-]. cbn [exec]. rewrite Hb.
  cbn [res_bind mtx data pcs log]. rewrite list_insert_insert_eq. change (loop_head o ++ unlock) with (guarded o). cbn [wait UnassignGuard app].
  run_thread. done.
Qed.

Lemma signal_self i k l sig o r :
  (i < length l)%nat ->
  do_signal sig k (<[i := unlock ++ [Return o r]]> l) !! i = Some (unlock ++ [Return o r]).
Proof.
  intros Hi. pose proof (signal_forall2 sig k (<[i := unlock ++ [Return o r]]> l)) as Hl.
  destruct (Forall2_lookup_l _ _ _ i (unlock ++ [Return o r]) Hl) as (pc & E & H).
  - by rewrite list_lookup_insert_eq.
  - rewrite E. f_equal. by destruct H.
Qed.

Lemma run_leave i k s l lg o s' r sig :
  (i < length l)%nat -> body o s = Ok (Leave s' r sig) ->
  let l' := do_signal sig k (<[i := unlock ++ [Return o r]]> l) in
  res_fold mstep (mkMachine s (mkMutex (Some i) (tid i)) (<[i := (Body o s :: unlock)]> l) lg) (replicate 6 (Run i k)) =
  Ok (mkMachine s' (mkMutex None 0) (<[i := match cont o r with Some o' => method o' | None => [] end]> l') (lg ++ [(o, r)])).
Proof.
  intros Hi Hb l'. apply run_one; [done|done|]. intros ? ? [= <- <-]. cbn [exec]. rewrite Hb.
  cbn [res_bind mtx data pcs log]. rewrite list_insert_insert_eq.
  do 2 (apply run_one; [done|done|]; intros ? ? [= <- <-]; cbn [exec res_bind mtx data pcs log];
    rewrite list_insert_insert_eq).
  match goal with |- res_fold mstep (mkMachine _ _ ?x _) _ = _ => change x with l' end.
  pose proof (signal_self i k l sig o r Hi) as Hli. fold l' in Hli. pose proof (lookup_lt_Some _ _ _ Hli) as Hi'.
  rewrite <- (list_insert_id l' i _ Hli) at 1. cbn [unlock app]. run_thread. done.
Qed.

Lemma idle_method o : idle_pc (method o).
Proof. right. left. by exists o. Qed.

Lemma idle_abs_data y : idle y -> abs_data y = data y.
Proof. intros [Hm _]. unfold abs_data. by rewrite Hm. Qed.

Lemma idle_rouse l l' :
  Forall idle_pc l -> Forall2 (fun pc pc' => pc' = pc \/ pc' = rouse pc) l l' -> Forall idle_pc l'.
Proof.
  intros H. induction 1 as [|pc pc' l l' Hpc _ IH]; [done|]. apply Forall_cons in H as [H0 H].
  constructor; [|by apply IH]. destruct Hpc as [-> | ->]; [done|].
  destruct H0 as [-> |[[o ->]|(o & c & ->)]]; [by left|apply idle_method|apply idle_method].
Qed.

Lemma idle_leave i k l sig o r :
  (i < length l)%nat -> Forall idle_pc l ->
  Forall idle_pc (<[i := match cont o r with Some o' => method o' | None => [] end]>
    (do_signal sig k (<[i := unlock ++ [Return o r]]> l))).
Proof.
  intros Hi Hl. apply Forall_lookup_2. intros j pc Hj.
  apply list_lookup_insert_Some in Hj as [(_ & <- & _)|[Hne Hj]].
  - destruct (cont o r); [apply idle_method|by left].
  - pose proof (signal_forall2 sig k (<[i := unlock ++ [Return o r]]> l)) as H2.
    destruct (Forall2_lookup_r _ _ _ _ _ H2 Hj) as (pc0 & E & Hpc).
    rewrite list_lookup_insert_ne in E by done.
    apply (proj1 (Forall_singleton _ _)).
    apply (idle_rouse [pc0]); [|by apply Forall2_cons; split; [|constructor]]. apply Forall_singleton. by eapply Forall_lookup_1.
Qed.

Lemma realise_run y i k o :
  minv y -> idle y -> pcs y !! i = Some (method o) ->
  exists sch, match step body cont (abs y) (Run i k) with
    | Ok z => exists y', res_fold mstep y sch = Ok y' /\ idle y' /\ abs y' = z
    | Fail f => res_fold mstep y sch = Fail f
    end.
Proof.
  intros Hy Hid Hi. pose proof (lookup_lt_Some _ _ _ Hi) as Hlt. pose proof (idle_abs_data y Hid) as Hd.
  rewrite (step_run y i k _ o Hi), Hd by apply abs_guarded. destruct Hid as [Hm Hl].
  destruct (run_to_body i k (data y) (pcs y) (log y) o Hlt) as [n0 Hn].
  rewrite (list_insert_id _ _ _ Hi) in Hn.
  assert (mkMachine (data y) (mkMutex None 0) (pcs y) (log y) = y) as Ey.
  { pose proof (mi_free y Hy Hm). destruct y as [? [] ? ?]. cbn in *. by subst. }
  rewrite Ey in Hn. destruct (body o (data y)) as [[c|s r sig]|f] eqn:Hb; cbn [res_bind].
  - exists (replicate (n0 + 3) (Run i k)). eexists. split_and!; [rewrite Hn; by apply run_wait| |].
    + split; [done|]. apply Forall_insert; [done|]. right. right. eauto.
    + unfold abs. rewrite abs_data_free by done. cbn [pcs log]. rewrite list_fmap_insert. cbn. by rewrite abs_guarded.
  - exists (replicate (n0 + 6) (Run i k)). eexists. split_and!; [rewrite Hn; by apply run_leave| |].
    + split; [done|]. by apply idle_leave.
    + unfold abs. rewrite abs_data_free by done. cbn [pcs log]. f_equal. rewrite list_fmap_insert.
      rewrite (abs_signal (data y)), list_fmap_insert; cycle 1.
      { apply Forall_insert; [by apply minv_shaped|]. eauto. }
      assert (abs_pc (match cont o r with Some o' => method o' | None => [] end) = next cont o r) as ->.
      { unfold next. destruct (cont o r); [apply abs_guarded|done]. }
      apply list_insert_id. cbn [unlock app abs_pc].
      pose proof (signal_self i k (pcs y) sig o r Hlt) as Hs.
      apply (f_equal (fmap abs_pc)) in Hs. rewrite <- list_lookup_fmap in Hs.
      rewrite (abs_signal (data y)), list_fmap_insert in Hs; [done|].
      apply Forall_insert; [by apply minv_shaped|]. eauto.
  - exists (replicate (n0 + 1) (Run i k)). rewrite Hn. apply run_one; [done|done|].
    intros ? ? [= <- <-]. cbn [exec]. by rewrite Hb.
Qed.

Lemma realise y ch :
  minv y -> idle y ->
  exists sch, match step body cont (abs y) ch with
    | Ok z => exists y', res_fold mstep y sch = Ok y' /\ idle y' /\ abs y' = z
    | Fail f => res_fold mstep y sch = Fail f
    end.
Proof.
  intros Hy Hid. destruct ch as [i k|i].
  - destruct (pcs y !! i) as [pc|] eqn:Hi.
    2:{ exists []. cbn [step abs threads]. rewrite list_lookup_fmap, Hi. by exists y. }
    destruct (Forall_lookup_1 _ _ _ _ (proj2 Hid) Hi) as [-> |[[o ->]|(o & c & ->)]].
    + exists []. cbn [step abs threads]. rewrite list_lookup_fmap, Hi. by exists y.
    + by eapply realise_run.
    + exists []. cbn [step abs threads]. rewrite list_lookup_fmap, Hi. cbn. rewrite abs_guarded. by exists y.
  - exists [Spurious i]. cbn [step abs threads shared trace]. eexists. split_and!; [reflexivity| |].
    + split; [apply Hid|]. eapply idle_rouse; [apply Hid|apply alter_rouse].
    + unfold abs. rewrite (abs_data_rouse y) by apply alter_rouse. cbn [pcs log]. f_equal.
      by apply (abs_alter (data y)), minv_shaped.
Qed.

Lemma realise_all y csch : minv y -> idle y ->
  exists sch, match res_fold (step body cont) (abs y) csch with
    | Ok z => exists y', res_fold mstep y sch = Ok y' /\ abs y' = z
    | Fail f => res_fold mstep y sch = Fail f
    end.
Proof.
  revert y. induction csch as [|ch csch IH]; intros y Hy Hid.
  { exists []. by exists y. }
  destruct (realise y ch Hy Hid) as [sch H]. cbn [res_fold].
  destruct (step body cont (abs y) ch) as [z|f]; cbn [res_bind]; [|by exists sch].
  destruct H as (y1 & E & Hid1 & <-).
  assert (minv y1) as Hy1.
  { revert E. apply res_fold_inv; [|done]. intros a ch' b Ha Hb.
    pose proof (sim_step a ch' Ha) as H. rewrite Hb in H. apply H. }
  destruct (IH y1 Hy1 Hid1) as [sch' H']. exists (sch ++ sch'). rewrite res_fold_app, E. exact H'.
Qed.
End Machine.

(** ** What the instructions amount to *)

Section Theorems.
Context {St Cond Op Res : Type} `{EqDecision Cond}.
Context (tid : nat -> Z) (body : Op -> St -> res (outcome St Cond Res)) (cont : Op -> Res -> option Op)
  (asserts : Op -> bool).
Implicit Types (y : @machine St Cond Op Res).

(** C26: the instructions of [MutexLock], [MutexLockGuard] and [Condition], interleaved
    in any order, do exactly what the bodies do when each runs under the mutex
    without interruption: every run has a coarse run that ends in the same state or
    with the same fault, and every coarse run has one of instructions; and when no
    thread can take a step, none is held up by the mutex. *)
Theorem mutex_refines s os :
  let init := mkSys s (Ready <$> os) [] in
  let run := res_fold (mstep tid body cont asserts) (boot asserts s os) in
  (forall sch, exists csch, res_fold (step body cont) init csch = let! y := run sch in Ok (abs cont y)) /\
  (forall csch, exists sch, (let! y := run sch in Ok (abs cont y)) = res_fold (step body cont) init csch) /\
  (forall sch y, run sch = Ok y -> stuck tid body cont asserts y ->
     mutex_ (mtx y) = None /\ quiescent (abs cont y)).
Proof.
  intros init run. pose proof (abs_boot (Cond := Cond) cont asserts s os) as Ha. fold init in Ha. split_and!.
  - intros sch. rewrite <- Ha. apply (sim_run tid body cont asserts). apply minv_boot.
  - intros csch. destruct (realise_all tid body cont asserts (boot asserts s os) csch) as [sch Hs].
    + apply minv_boot.
    + split; [done|]. apply Forall_fmap, Forall_true. intros o. apply idle_method.
    + exists sch. rewrite Ha in Hs. unfold run. destruct (res_fold (step body cont) init csch) as [z|f].
      * destruct Hs as (y' & E & <-). by rewrite E.
      * by rewrite Hs.
  - intros sch y E Hst. eapply stuck_quiescent; [|done]. eapply minv_run. exact E.
Qed.

(** Between [lock] and [unlock], outside a wait. *)
Definition in_section (pc : list (@instr St Cond Op Res)) : bool :=
  match pc with
  | (Assert | Read _ | Body _ _ | Store _ _ _ _ _ | Signal _ _ _ _) :: _ => true
  | _ => false
  end.

(** [holder_] is reliable.  In every state a run reaches, a thread for which
    [isLockedByThisThread] answers yes owns the mutex; a thread that works on the
    data passes [assertLocked] and is the only one that does; and a mutex nobody
    owns passes the asserts of the destructor. *)
Theorem mutex_holder s os sch y :
  (forall i, 0 < tid i) -> (forall i j, tid i = tid j -> i = j) ->
  res_fold (mstep tid body cont asserts) (boot asserts s os) sch = Ok y ->
  (forall i, isLockedByThisThread tid i (mtx y) = true -> mutex_ (mtx y) = Some i) /\
  (forall i pc, pcs y !! i = Some pc -> in_section pc = true ->
     assertLocked tid i (mtx y) = Ok tt /\
     forall j, j <> i -> isLockedByThisThread tid j (mtx y) = false /\
       forall pc', pcs y !! j = Some pc' -> in_section pc' = false) /\
  (mutex_ (mtx y) = None -> destroyMutexLock (mtx y) = Ok tt).
Proof.
  intros Hpos Hinj E. pose proof (minv_run _ _ _ _ _ _ _ _ E) as [Ho Hf Ht].
  assert (forall i, isLockedByThisThread tid i (mtx y) = true -> mutex_ (mtx y) = Some i) as H1.
  { intros i Hi. unfold isLockedByThisThread in Hi. bool_hyps. specialize (Hpos i).
    destruct (mutex_ (mtx y)) as [j|] eqn:Em; [|specialize (Hf eq_refl); lia].
    destruct (Ho j eq_refl) as (pc & [] & _ & _ & Hh); [|lia]. f_equal. apply Hinj. congruence. }
  assert (forall i pc, pcs y !! i = Some pc -> in_section pc = true ->
    mutex_ (mtx y) = Some i /\ holder_ (mtx y) = tid i) as H2.
  { intros i pc Hi Hs. destruct (decide (mutex_ (mtx y) = Some i)) as [Em|Em].
    - destruct (Ho i Em) as (pc' & a & Hi' & Hsh & Hh). simplify_eq.
      split; [done|]. by inversion Hsh; subst.
    - specialize (Ht i pc Hi Em). by inversion Ht; subst. }
  split_and!; [done| |].
  - intros i pc Hi Hs. destruct (H2 i pc Hi Hs) as [Em Eh]. split.
    { unfold assertLocked, isLockedByThisThread. by rewrite Eh, Z.eqb_refl. }
    intros j Hj. split.
    + destruct (isLockedByThisThread tid j (mtx y)) eqn:El; [|done]. specialize (H1 j El). congruence.
    + intros pc' Hj'. destruct (in_section pc') eqn:Es; [|done]. destruct (H2 j pc' Hj' Es). congruence.
  - intros Em. unfold destroyMutexLock. rewrite (Hf Em), Em. done.
Qed.
End Theorems.

(** the bounded queue, instruction by instruction: its asserts hold, elements come
    out in order, the capacity is kept, and when no thread can take a step takers
    sleep only on an empty queue and putters only on a full one. *)
Theorem bounded_queue_fine tid cap ps sch :
  0 <= cap ->
  let asserts := fun _ => false in
  exists y, res_fold (mstep tid (bounded_body cap) cont_program asserts) (boot asserts [] ps) sch = Ok y /\
    puts (log y) = takes (log y) ++ abs_data y /\ len (abs_data y) <= cap /\
    (stuck tid (bounded_body cap) cont_program asserts y ->
     (forall i c pc, pcs y !! i = Some (Asleep c :: pc) -> c = notEmpty_ -> data y = []) /\
     (forall i c pc, pcs y !! i = Some (Asleep c :: pc) -> c = notFull_ -> len (data y) = cap)).
Proof.
  intros Hc asserts. set (run := res_fold _ _ _).
  destruct (sim_run tid (bounded_body cap) cont_program asserts (boot asserts [] ps) sch) as [csch Hs];
    [apply minv_boot|]. rewrite abs_boot in Hs. change (mkSys [] (Ready <$> ps) []) with (queue_init ps) in Hs.
  fold run in Hs. assert (queue_inv (Some cap) (queue_init ps)) as Hi by (apply queue_init_inv; congruence).
  destruct (queue_run (Some cap) _ (bounded_body_eq cap) csch _ Hi) as (z & E & Hz).
  rewrite E in Hs. destruct run as [y|] eqn:Er; [|done]. apply (f_equal (fun r => if r is Ok z then z else z)) in Hs.
  assert (z = abs cont_program y) as -> by congruence. exists y.
  split_and!; [done|apply Hz|by apply Hz|]. intros Hst.
  assert (minv tid (bounded_body cap) asserts y) as Hy by (eapply minv_run; exact Er).
  destruct (stuck_quiescent _ _ _ _ y Hy Hst) as [Hm Hq].
  assert (forall i c pc, pcs y !! i = Some (Asleep c :: pc) -> exists o, threads (abs cont_program y) !! i = Some (Waiting o c)) as Hw.
  { intros i c pc Hpc. assert (shape (bounded_body cap) asserts (data y) (Asleep c :: pc) false false) as Hsh.
    { eapply (mi_others _ _ _ y Hy); [done|congruence]. }
    inversion Hsh; subst. exists o. cbn [abs threads]. by rewrite list_lookup_fmap, Hpc. }
  assert (abs_data y = data y) as Hd by (unfold abs_data; by rewrite Hm).
  destruct (queue_quiescent (Some cap) _ Hz Hq) as [H1 H2]. cbn [abs shared] in H1, H2. rewrite Hd in H1, H2.
  split; intros i c pc Hpc ->; destruct (Hw i _ pc Hpc) as [o Ho]; [by eapply H1|].
  specialize (H2 i o Ho). congruence.
Qed.

Lemma mutex_holder_witness :
  let tid := fun i => Z.of_nat i + 100 in
  let run := res_fold (mstep tid latch_body cont_program (fun _ => true))
    (boot (fun _ => true) 1 [(LatchWait, []); (CountDown, [])])
    [Run 0 0; Run 1 0; Run 0 0; Run 0 0; Run 0 0; Run 0 0; Run 0 0; Run 0 0; Run 1 0; Run 1 0; Run 1 0; Run 1 0; Run 1 0; Run 1 0] in
  exists y, run = Ok y /\ assertLocked tid 1 (mtx y) = Ok tt /\ isLockedByThisThread tid 0 (mtx y) = false.
Proof.
  intros tid run. destruct run as [y|f] eqn:E; [|exfalso; by vm_compute in E].
  exists y. split; [done|].
  destruct (mutex_holder tid latch_body cont_program (fun _ => true) 1 _ _ y
    ltac:(intros i; unfold tid; lia) ltac:(intros i j; unfold tid; lia) E) as (_ & H & _).
  assert (exists pc, pcs y !! 1%nat = Some pc /\ in_section pc = true) as (pc & H1 & H2).
  { vm_compute in E. inversion E. eexists. split; reflexivity. }
  destruct (H 1%nat pc H1 H2) as [H3 H4]. split; [done|]. by apply H4.
Defined.

(** ** Timed waits *)

(** the deadline of a timed wait is the time asked for, and a valid one, for every
    nonnegative number of seconds. *)
Theorem waitForSeconds_deadline now nanoseconds :
  valid_timespec now = true -> 0 <= nanoseconds ->
  nanos (abstime_after now nanoseconds) = nanos now + nanoseconds /\
  valid_timespec (abstime_after now nanoseconds) = true.
Proof.
  destruct now as [sec nsec]. unfold valid_timespec, nanos, abstime_after. cbn [fst snd]. intros Hv Hn.
  bool_hyps. unfold kNanoSecondsPerSecond in *.
  rewrite Z.quot_div_nonneg, Z.rem_mod_nonneg by lia.
  pose proof (Z.div_mod (nsec + nanoseconds) 1000000000 ltac:(lia)).
  pose proof (Z.mod_pos_bound (nsec + nanoseconds) 1000000000 ltac:(lia)).
  split; [lia|]. apply andb_true_iff. split; [apply Z.leb_le|apply Z.ltb_lt]; lia.
Qed.

(** A negative wait is not one that is over: the nanoseconds of its deadline can be
    negative, which pthread refuses with an error that is not a timeout. *)
Example waitForSeconds_negative : valid_timespec (abstime_after (100, 0) (-500000000)) = false.
Proof. reflexivity. Qed.
