(* ===== verification/Threads.v ===== *)
(** * Threads (src/src/muduo/base/Thread.cc, Thread.h, CurrentThread.cc,
    CurrentThread.h, Atomic.h)

    The variables of the current thread, the object of a started thread with the
    handshake by which [start] learns the new thread's id, the counter behind default
    names, and the text of a stack trace.  The creating thread and the new one
    interleave in any order; the object may be destroyed as soon as [start] has
    returned, and whoever touches it after that is a fault. *)

From S2P Require Import Prelude Formats.

(** ** AtomicIntegerT *)

Section Atomic.
(** The width of [T]. *)
Variable w : Z.

(** Signed addition; an overflow is undefined. *)
Definition signed_add (a b : Z) : res Z :=
  if (- 2 ^ (w - 1) <=? a + b) && (a + b <? 2 ^ (w - 1)) then Ok (a + b) else Fail OutOfRange.

(** The built-ins change [value_] in one step and return what it was. *)
Definition newAtomic : Z := 0.
Definition get (value_ : Z) : Z * Z := (value_, if value_ =? 0 then 0 else value_).
Definition getAndAdd (x value_ : Z) : Z * Z := (value_, swrap w (value_ + x)).
Definition getAndSet (newValue value_ : Z) : Z * Z := (value_, newValue).

Definition addAndGet (x value_ : Z) : res (Z * Z) :=
  let '(old, value_) := getAndAdd x value_ in
  let! r := signed_add old x in
  Ok (r, value_).

Definition incrementAndGet (value_ : Z) : res (Z * Z) := addAndGet 1 value_.
Definition decrementAndGet (value_ : Z) : res (Z * Z) := addAndGet (-1) value_.
Definition add (x value_ : Z) : Z := snd (getAndAdd x value_).
Definition increment (value_ : Z) : res Z := let! '(_, value_) := incrementAndGet value_ in Ok value_.
Definition decrement (value_ : Z) : res Z := let! '(_, value_) := decrementAndGet value_ in Ok value_.
End Atomic.

(** ** CurrentThread *)

Record Current := mkCurrent {
  t_cachedTid : Z; t_tidString : list byte; t_tidStringLength : Z; t_threadName : list byte;
}.

Definition newCurrent : Current := mkCurrent 0 [] 6 (bytes_of_string "unknown").

Definition set_threadName (n : list byte) (c : Current) : Current :=
  mkCurrent (t_cachedTid c) (t_tidString c) (t_tidStringLength c) n.

Definition cacheTid (gettid : Z) (c : Current) : Current :=
  if t_cachedTid c =? 0 then
    let '(text, n) := snprintf 32 (format_d false 5 gettid ++ [x20]) in
    mkCurrent gettid text n (t_threadName c)
  else c.

Definition tid (gettid : Z) (c : Current) : Z * Current :=
  let c := if t_cachedTid c =? 0 then cacheTid gettid c else c in
  (t_cachedTid c, c).

Definition isMainThread (gettid getpid : Z) (c : Current) : bool * Current :=
  let '(t, c) := tid gettid c in (t =? getpid, c).

Definition ThreadNameInitializer (gettid : Z) (c : Current) : Current :=
  snd (tid gettid (set_threadName (bytes_of_string "main") c)).

(** Runs in the child of a fork, in the thread that called it. *)
Definition afterFork (gettid : Z) (c : Current) : Current :=
  let c := mkCurrent 0 (t_tidString c) (t_tidStringLength c) (t_threadName c) in
  snd (tid gettid (set_threadName (bytes_of_string "main") c)).

Definition kMicroSecondsPerSecond : Z := 1000000.

(** The [timespec] that [sleepUsec] sleeps for. *)
Definition sleepUsec (usec : Z) : Z * Z :=
  (Z.quot usec kMicroSecondsPerSecond, Z.rem usec kMicroSecondsPerSecond * 1000).

(** ** Stack traces *)

(** The last place of [c] in a C string. *)
Fixpoint last_index (c : byte) (i : Z) (found : option Z) (s : list byte) : option Z :=
  match s with
  | [] => found
  | b :: s => last_index c (i + 1) (if bool_decide (b = c) then Some i else found) s
  end.

Section StackTrace.
(** [abi::__cxa_demangle]: the readable name, or a status that is not 0. *)
Variable cxa_demangle : list byte -> option (list byte).

(** One frame.  Writing a zero over [plus] cuts the name only if it is behind
    [left_par]. *)
Definition frame_text (demangle : bool) (s : list byte) : list byte :=
  let fallback := s ++ [x0a] in
  if demangle then
    match last_index x28 0 None s, last_index x2b 0 None s with
    | Some left_par, Some plus =>
        let name := if left_par <? plus then slice (left_par + 1) plus s else slice (left_par + 1) (len s) s in
        match cxa_demangle name with
        | Some demangled => slice 0 (left_par + 1) s ++ demangled ++ slice plus (len s) s ++ [x0a]
        | None => fallback
        end
    | _, _ => fallback
    end
  else fallback.

(** [strings] are the descriptions of the frames, [None] if there was no memory; the
    first is this function's own. *)
Definition stackTrace (demangle : bool) (strings : option (list (list byte))) : list byte :=
  match strings with
  | Some l => concat (frame_text demangle <$> drop 1 l)
  | None => []
  end.
End StackTrace.

(** ** Thread *)

Record Thread := mkThread {
  started_ : bool; joined_ : bool; tid_ : Z; name_ : list byte; latch_ : Z;
}.

Definition setDefaultName (num : Z) (name : list byte) : list byte :=
  match name with
  | [] => fst (snprintf 32 (bytes_of_string "Thread" ++ decimal num))
  | _ => name
  end.

(** The constructor, with the counter [numCreated_]. *)
Definition newThread (n : list byte) (numCreated_ : Z) : res (Thread * Z) :=
  let! '(num, numCreated_) := incrementAndGet 32 numCreated_ in
  Ok (mkThread false false 0 (setDefaultName num n) 1, numCreated_).

(** How the thread's function ends. *)
Inductive func_end := Returns | ThrowsException (what trace : list byte) | ThrowsStd (what : list byte) | ThrowsOther.

(** Where the new thread is in [runInThread]. *)
Inductive child_pc := SetTid | CountDown | SetName | CallFunc | Ended.

#[export] Instance child_pc_eq_dec : EqDecision child_pc.
Proof. solve_decision. Defined.

Record Child := mkChild { pc : child_pc; current : Current; data_name : list byte }.

(** What the creating thread still has to do; [start] and [join] wait in the middle. *)
Inductive call := Start | LatchWait | Join | JoinWait | Destroy.

(** The object (until it is destroyed), the creating thread, the new thread, what was
    written to stderr, and whether the process is gone. *)
Record world := mkWorld {
  object : option Thread; caller : list call; child : option Child; detached : bool;
  stderr : list (list byte); aborted : bool;
}.

Section Run.
(** The id the kernel gives the new thread, the result of [pthread_create], and how
    the function ends. *)
Variables (gettid create : Z) (func : func_end).

Definition on_object (y : world) (f : Thread -> res Thread) (k : option Thread -> world) : res world :=
  match object y with
  | Some t => let! t := f t in Ok (k (Some t))
  | None => Fail OutOfRange
  end.

Definition crash (name : list byte) : list (list byte) :=
  let line s := bytes_of_string s ++ name ++ [x0a] in
  match func with
  | Returns => []
  | ThrowsException what trace =>
      [line "exception caught in Thread "; bytes_of_string "reason: " ++ what ++ [x0a];
       bytes_of_string "stack trace: " ++ trace ++ [x0a]]
  | ThrowsStd what => [line "exception caught in Thread "; bytes_of_string "reason: " ++ what ++ [x0a]]
  | ThrowsOther => [line "unknown exception caught in Thread "]
  end.

(** A step of [ThreadData::runInThread]; [tid_] and [latch_] point into the object. *)
Definition runInThread (y : world) (c : Child) : res world :=
  let at_pc p cur := Some (mkChild p cur (data_name c)) in
  match pc c with
  | SetTid =>
      let '(t, cur) := tid gettid (current c) in
      on_object y (fun o => Ok (mkThread (started_ o) (joined_ o) t (name_ o) (latch_ o)))
        (fun o => mkWorld o (caller y) (at_pc CountDown cur) (detached y) (stderr y) (aborted y))
  | CountDown =>
      on_object y (fun o => Ok (mkThread (started_ o) (joined_ o) (tid_ o) (name_ o) (latch_ o - 1)))
        (fun o => mkWorld o (caller y) (at_pc SetName (current c)) (detached y) (stderr y) (aborted y))
  | SetName =>
      let n := match data_name c with [] => bytes_of_string "muduoThread" | n => n end in
      Ok (mkWorld (object y) (caller y) (at_pc CallFunc (set_threadName n (current c))) (detached y) (stderr y) (aborted y))
  | CallFunc =>
      match func with
      | Returns =>
          Ok (mkWorld (object y) (caller y) (at_pc Ended (set_threadName (bytes_of_string "finished") (current c)))
                (detached y) (stderr y) (aborted y))
      | _ =>
          Ok (mkWorld (object y) (caller y) (at_pc Ended (set_threadName (bytes_of_string "crashed") (current c)))
                (detached y) (stderr y ++ crash (data_name c)) true)
      end
  | Ended => Ok y
  end.

(** [Thread::start] up to where it waits. *)
Definition start (y : world) (rest : list call) : res world :=
  match object y with
  | None => Fail OutOfRange
  | Some t =>
      assert! negb (started_ t) ;;
      if create =? 0 then
        Ok (mkWorld (Some (mkThread true (joined_ t) (tid_ t) (name_ t) (latch_ t))) (LatchWait :: rest)
              (Some (mkChild SetTid newCurrent (name_ t))) (detached y) (stderr y) (aborted y))
      else Fail Aborted
  end.

(** The rest of it: the latch, and the assert on the id. *)
Definition start_wait (y : world) (rest : list call) : res world :=
  match object y with
  | None => Fail OutOfRange
  | Some t =>
      if 0 <? latch_ t then Ok y
      else
        assert! 0 <? tid_ t ;;
        Ok (mkWorld (object y) rest (child y) (detached y) (stderr y) (aborted y))
  end.

Definition join (y : world) (rest : list call) : res world :=
  on_object y (fun t =>
      assert! started_ t ;;
      assert! negb (joined_ t) ;;
      Ok (mkThread (started_ t) true (tid_ t) (name_ t) (latch_ t)))
    (fun o => mkWorld o (JoinWait :: rest) (child y) (detached y) (stderr y) (aborted y)).

(** [pthread_join] returns when the thread has ended. *)
Definition join_wait (y : world) (rest : list call) : world :=
  match child y with
  | Some (mkChild Ended _ _) => mkWorld (object y) rest (child y) (detached y) (stderr y) (aborted y)
  | _ => y
  end.

Definition destroyThread (y : world) (rest : list call) : res world :=
  match object y with
  | None => Fail OutOfRange
  | Some t => Ok (mkWorld None rest (child y) (started_ t && negb (joined_ t)) (stderr y) (aborted y))
  end.

Inductive mover := Caller | NewThread.

Definition world_step (y : world) (m : mover) : res world :=
  if aborted y then Ok y
  else match m with
  | Caller =>
      match caller y with
      | [] => Ok y
      | Start :: rest => start y rest
      | LatchWait :: rest => start_wait y rest
      | Join :: rest => join y rest
      | JoinWait :: rest => Ok (join_wait y rest)
      | Destroy :: rest => destroyThread y rest
      end
  | NewThread => match child y with Some c => runInThread y c | None => Ok y end
  end.
End Run.

Definition begin_world (t : Thread) (calls : list call) : world := mkWorld (Some t) calls None false [] false.

(** * Properties *)

(** ** The counter *)

Lemma incrementAndGet_ok v : 0 <= v < 2 ^ 31 - 1 -> incrementAndGet 32 v = Ok (v + 1, v + 1).
Proof.
  intros Hv. unfold incrementAndGet, addAndGet, getAndAdd, signed_add.
  rewrite (proj2 (andb_true_iff _ _)); cbn [res_bind].
  - rewrite swrap_small by (unfold in_signed; lia). done.
  - split; [apply Z.leb_le|apply Z.ltb_lt]; lia.
Qed.

(** The names of threads made one after the other. *)
Fixpoint make_threads (names : list (list byte)) (numCreated_ : Z) : res (list Thread) :=
  match names with
  | [] => Ok []
  | n :: names =>
      let! '(t, numCreated_) := newThread n numCreated_ in
      let! l := make_threads names numCreated_ in
      Ok (t :: l)
  end.

Lemma decimal_inj a b : decimal a = decimal b -> a = b.
Proof. intros E. rewrite <- (parse_decimal_decimal a), E. apply parse_decimal_decimal. Qed.

Lemma decimal_short z : 0 <= z < 2 ^ 31 -> (length (decimal z) <= 10)%nat.
Proof.
  intros Hz. unfold decimal. rewrite (proj2 (Z.ltb_ge z 0)), Z.abs_eq by lia. cbn [app].
  apply digits_of_length_le; [lia|split; [lia|]|lia]. change (10 ^ Z.of_nat 10) with 10000000000. lia.
Qed.

Lemma default_name num : 0 <= num < 2 ^ 31 -> setDefaultName num [] = bytes_of_string "Thread" ++ decimal num.
Proof.
  intros Hn. unfold setDefaultName, snprintf. cbn [fst]. apply take_ge.
  rewrite length_app. pose proof (decimal_short num Hn). cbn. lia.
Qed.

Lemma make_threads_names names v :
  0 <= v -> v + len names < 2 ^ 31 ->
  exists l, make_threads names v = Ok l /\ length l = length names /\
    forall i n t, names !! i = Some n -> l !! i = Some t ->
      t = mkThread false false 0 (setDefaultName (v + 1 + Z.of_nat i) n) 1.
Proof.
  revert v. induction names as [|n names IH]; intros v Hv Hl; [by exists []|].
  rewrite len_cons in Hl. pose proof (len_nonneg names).
  cbn [make_threads]. unfold newThread. rewrite incrementAndGet_ok by lia. cbn [res_bind].
  destruct (IH (v + 1)) as (l & -> & Hlen & H'); [lia..|]. cbn [res_bind].
  eexists. split; [reflexivity|]. split; [cbn; by rewrite Hlen|].
  intros [|i] n' t H1 H2; cbn in H1, H2; simplify_eq.
  - do 2 f_equal. lia.
  - rewrite (H' i n' t H1 H2). do 2 f_equal. lia.
Qed.

(** threads made without a name get names of their own: no two default names are the
    same. *)
Theorem default_names_distinct names :
  len names < 2 ^ 31 ->
  exists l, make_threads names newAtomic = Ok l /\
    forall i j t t', names !! i = Some [] -> names !! j = Some [] -> i <> j ->
      l !! i = Some t -> l !! j = Some t' -> name_ t <> name_ t'.
Proof.
  intros Hl. destruct (make_threads_names names newAtomic) as (l & E & Hlen & H); [done|done|].
  exists l. split; [done|]. intros i j t t' Hi Hj Hij Ht Ht'.
  rewrite (H i [] t Hi Ht), (H j [] t' Hj Ht'). cbn [name_].
  pose proof (lookup_lt_Some _ _ _ Hi). pose proof (lookup_lt_Some _ _ _ Hj). unfold newAtomic, len in *.
  rewrite !default_name by lia. intros E'. apply app_inv_head, decimal_inj in E'. lia.
Qed.

(** ** The current thread *)

(** after a fork the child's thread knows its own id, whatever it had cached before,
    and counts as the main thread. *)
Theorem afterFork_tid gettid c :
  0 < gettid -> let c' := afterFork gettid c in
  tid gettid c' = (gettid, c') /\ fst (isMainThread gettid gettid c') = true /\
  t_threadName c' = bytes_of_string "main".
Proof.
  intros Hg. cbn. unfold isMainThread, tid. cbn [t_cachedTid].
  rewrite (proj2 (Z.eqb_neq gettid 0)) by lia. cbn. by rewrite Z.eqb_refl.
Qed.

(** ** Start, run, join, destroy *)

Section Life.
Variables (gettid : Z) (func : func_end) (name : list byte) (joins : bool).
Hypothesis gettid_pos : 0 < gettid.

Abbreviation step := (world_step gettid 0 func).

Definition calls_after_start : list call := if joins then [Join; Destroy] else [Destroy].

Definition counted (p : child_pc) : bool := match p with SetTid | CountDown => false | _ => true end.

(** The object while the new thread is at [p]. *)
Definition object_at (p : child_pc) (joined : bool) : Thread :=
  mkThread true joined (match p with SetTid => 0 | _ => gettid end) name (if counted p then 0 else 1).

Record child_ok (c : Child) (ab : bool) : Prop := {
  co_name : data_name c = name;
  co_fresh : pc c = SetTid -> t_cachedTid (current c) = 0;
  co_ended : pc c = Ended ->
    if ab then func <> Returns else func = Returns /\ t_threadName (current c) = bytes_of_string "finished";
  co_abort : ab = true -> pc c = Ended;
}.

Inductive winv : world -> Prop :=
| wi_begin : winv (begin_world (mkThread false false 0 name 1) (Start :: calls_after_start))
| wi_latch c d e ab : child_ok c ab ->
    winv (mkWorld (Some (object_at (pc c) false)) (LatchWait :: calls_after_start) (Some c) d e ab)
| wi_started c d e ab : child_ok c ab -> counted (pc c) = true ->
    winv (mkWorld (Some (object_at (pc c) false)) calls_after_start (Some c) d e ab)
| wi_joining c d e ab : joins = true -> child_ok c ab -> counted (pc c) = true ->
    winv (mkWorld (Some (object_at (pc c) true)) [JoinWait; Destroy] (Some c) d e ab)
| wi_joined c d e ab : joins = true -> child_ok c ab -> pc c = Ended ->
    winv (mkWorld (Some (object_at (pc c) true)) [Destroy] (Some c) d e ab)
| wi_over c d e ab : child_ok c ab -> counted (pc c) = true -> (joins = true -> pc c = Ended) ->
    d = negb joins -> winv (mkWorld None [] (Some c) d e ab).

(** The object, unless it is gone. *)
Definition maybe (alive joined : bool) (p : child_pc) : option Thread :=
  if alive then Some (object_at p joined) else None.

Lemma child_step alive jd cl c d e :
  child_ok c false -> alive = true \/ counted (pc c) = true ->
  exists c' e' ab', runInThread gettid func (mkWorld (maybe alive jd (pc c)) cl (Some c) d e false) c =
      Ok (mkWorld (maybe alive jd (pc c')) cl (Some c') d e' ab') /\
    child_ok c' ab' /\ (counted (pc c) = true -> counted (pc c') = true) /\ (pc c = Ended -> pc c' = Ended).
Proof.
  intros [Hn Hf He Ha] Hal. destruct c as [p cur dn]. cbn [pc current data_name] in *. subst dn.
  destruct p; cbn [counted] in *.
  - destruct alive; [|by destruct Hal]. unfold runInThread, tid. cbn [pc current].
    rewrite (Hf eq_refl). cbn. unfold cacheTid. rewrite (Hf eq_refl). cbn.
    eexists (mkChild CountDown _ name), e, false. split_and!; [reflexivity| |done|done]. by split.
  - destruct alive; [|by destruct Hal].
    exists (mkChild SetName cur name), e, false. split_and!; [done| |done|done]. by split.
  - eexists (mkChild CallFunc _ name), e, false. split_and!; [by destruct alive| |done|done]. by split.
  - unfold runInThread. cbn [pc]. destruct func eqn:Ef.
    + eexists (mkChild Ended _ name), e, false. split_and!; [by destruct alive| |done|done]. by split.
    + eexists (mkChild Ended _ name), _, true. split_and!; [by destruct alive| |done|done]. split; try done. by rewrite Ef.
    + eexists (mkChild Ended _ name), _, true. split_and!; [by destruct alive| |done|done]. split; try done. by rewrite Ef.
    + eexists (mkChild Ended _ name), _, true. split_and!; [by destruct alive| |done|done]. split; try done. by rewrite Ef.
  - exists (mkChild Ended cur name), e, false. split_and!; [done| |done|done]. by split.
Qed.

Lemma winv_step y m : winv y -> exists y', step y m = Ok y' /\ winv y'.
Proof.
  intros Hy. destruct (aborted y) eqn:Eab.
  { exists y. split; [|done]. unfold world_step. by rewrite Eab. }
  destruct m.
  - inversion Hy as [|c d e ab Hc|c d e ab Hc Hp|c d e ab Hj Hc Hp|c d e ab Hj Hc Hp|c d e ab Hc Hp Hj Hd]; subst;
      cbn in Eab; subst ab || clear Eab.
    + eexists. split; [reflexivity|]. apply (wi_latch (mkChild SetTid newCurrent name)). by split.
    + unfold world_step. cbn [aborted caller]. unfold start_wait. cbn [object object_at latch_].
      destruct (counted (pc c)) eqn:Ep.
      * cbn [Z.ltb Z.compare]. rewrite (proj2 (Z.ltb_lt 0 _)); [|by destruct (pc c)].
        eexists. split; [reflexivity|]. by apply wi_started.
      * eexists. split; [reflexivity|]. done.
    + unfold calls_after_start. destruct joins eqn:Ej; cbn.
      * eexists. split; [reflexivity|]. by apply (wi_joining c).
      * eexists. split; [reflexivity|]. apply wi_over; auto. congruence. by rewrite Ej.
    + unfold world_step. cbn. unfold join_wait. cbn [child]. destruct c as [[] cur dn];
        (eexists; split; [reflexivity|]); try done. by apply (wi_joined (mkChild Ended cur dn)).
    + eexists. split; [reflexivity|]. apply wi_over; auto. by rewrite Hp. cbn. by rewrite Hj.
    + by eexists.
  - unfold world_step. rewrite Eab.
    inversion Hy as [|c d e ab Hc|c d e ab Hc Hp|c d e ab Hj Hc Hp|c d e ab Hj Hc Hp|c d e ab Hc Hp Hj Hd]; subst;
      cbn in Eab; subst ab || clear Eab; cbn [child].
    + by eexists.
    + destruct (child_step true false (LatchWait :: calls_after_start) c d e Hc) as (c' & e' & ab' & E & Hc' & H1 & H2); [auto|].
      unfold maybe in E. rewrite E. eexists. split; [done|]. by apply wi_latch.
    + destruct (child_step true false calls_after_start c d e Hc) as (c' & e' & ab' & E & Hc' & H1 & H2); [auto|].
      unfold maybe in E. rewrite E. eexists. split; [done|]. apply wi_started; auto.
    + destruct (child_step true true [JoinWait; Destroy] c d e Hc) as (c' & e' & ab' & E & Hc' & H1 & H2); [auto|].
      unfold maybe in E. rewrite E. eexists. split; [done|]. apply wi_joining; auto.
    + destruct (child_step true true [Destroy] c d e Hc) as (c' & e' & ab' & E & Hc' & H1 & H2); [auto|].
      unfold maybe in E. rewrite E. eexists. split; [done|]. apply wi_joined; auto.
    + destruct (child_step false true [] c (negb joins) e Hc) as (c' & e' & ab' & E & Hc' & H1 & H2); [auto|].
      unfold maybe in E. rewrite E. eexists. split; [done|]. apply wi_over; auto.
Qed.

Lemma winv_run sch y : winv y -> exists y', res_fold step y sch = Ok y' /\ winv y'.
Proof.
  revert y. induction sch as [|m sch IH]; intros y Hy; [by exists y|].
  destruct (winv_step y m Hy) as (y1 & E & H1). cbn [res_fold]. rewrite E. by apply IH.
Qed.
End Life.

(** The new thread goes on until it has ended. *)
Lemma child_moves gettid func alive name jd cl c d e :
  pc c <> Ended ->
  runInThread gettid func (mkWorld (maybe gettid name alive jd (pc c)) cl (Some c) d e false) c <>
  Ok (mkWorld (maybe gettid name alive jd (pc c)) cl (Some c) d e false).
Proof.
  destruct c as [p cur dn]. unfold runInThread. cbn [pc current]. intros Hp E.
  destruct p, alive; cbn in E; try done; try (destruct func); cbn in E; congruence.
Qed.

Lemma stuck_over gettid func name joins y :
  0 < gettid -> winv gettid func name joins y ->
  world_step gettid 0 func y Caller = Ok y -> world_step gettid 0 func y NewThread = Ok y ->
  aborted y = false -> caller y = [] /\ exists c, child y = Some c /\ pc c = Ended.
Proof.
  intros Hg Hy H1 H2 Hab.
  inversion Hy as [|c d e ab Hc|c d e ab Hc Hp|c d e ab Hj Hc Hp|c d e ab Hj Hc Hp|c d e ab Hc Hp Hj Hd]; subst;
    cbn in Hab; subst ab || clear Hab; cbn [caller child].
  { done. }
  all: assert (pc c = Ended) as Ep by (destruct (decide (pc c = Ended)) as [?|Hne]; [done|];
    exfalso; cbn [world_step aborted child] in H2;
    first [by apply (child_moves gettid func true name false _ c _ _ Hne) in H2
          |by apply (child_moves gettid func true name true _ c _ _ Hne) in H2
          |by apply (child_moves gettid func false name true _ c _ _ Hne) in H2]).
  all: destruct c as [p cur dn]; cbn [pc] in Ep; subst p; cbn in H1.
  - rewrite (proj2 (Z.ltb_lt 0 gettid) Hg) in H1. cbn in H1. apply (f_equal (fun r => if r is Ok y then length (caller y) else 0%nat)) in H1.
    cbn in H1. lia.
  - unfold calls_after_start in H1. by destruct joins.
  - done.
  - done.
  - eauto.
Qed.

(** C27: a thread object that is started, joined or not, and then destroyed: however its
    creator and the new thread interleave, no assert fails and the object is not
    touched once it is gone.  When [start] has returned, [tid()] is the kernel's id of
    the new thread; when [join] has returned, the function has; and when neither can
    go on, both are through, or the function threw and the process is gone. *)
Theorem thread_lifecycle gettid func name joins sch :
  0 < gettid ->
  let start_calls := Start :: calls_after_start joins in
  exists y, res_fold (world_step gettid 0 func) (begin_world (mkThread false false 0 name 1) start_calls) sch = Ok y /\
    (forall t, object y = Some t -> (exists l, caller y = Start :: l \/ caller y = LatchWait :: l) \/ tid_ t = gettid) /\
    (joins = true -> (length (caller y) <= 1)%nat -> aborted y = false ->
       func = Returns /\ exists c, child y = Some c /\ pc c = Ended /\
         t_threadName (current c) = bytes_of_string "finished") /\
    (func = Returns -> aborted y = false) /\
    (world_step gettid 0 func y Caller = Ok y -> world_step gettid 0 func y NewThread = Ok y ->
       aborted y = false -> caller y = [] /\ exists c, child y = Some c /\ pc c = Ended).
Proof.
  intros Hg start_calls.
  destruct (winv_run gettid func name joins Hg sch _ (wi_begin gettid func name joins)) as (y & E & Hy).
  exists y. split; [exact E|]. clear E. split_and!.
  - intros t Ht. inversion Hy; subst; cbn [object caller] in *; simplify_eq; eauto; right; by destruct (pc c).
  - intros -> Hl Hab. inversion Hy as [|c d e ab Hc|c d e ab Hc Hp|c d e ab _ Hc Hp|c d e ab _ Hc Hp|c d e ab Hc Hp Hj Hd];
      subst y; cbn in Hl, Hab; subst; try lia.
    + destruct (co_ended _ _ _ _ Hc Hp) as [-> ?]. eauto.
    + destruct (co_ended _ _ _ _ Hc (Hj eq_refl)) as [-> ?]. eauto 6.
  - intros ->. destruct (aborted y) eqn:Eab; [|done]. inversion Hy; subst; cbn in Eab; subst; try done.
    all: match goal with H : child_ok _ _ _ _ |- _ => by destruct (co_ended _ _ _ _ H (co_abort _ _ _ _ H eq_refl)) end.
  - intros H1 H2 Hab. by eapply stuck_over.
Qed.

Lemma thread_lifecycle_witness :
  exists y, res_fold (world_step 4711 0 Returns)
      (begin_world (mkThread false false 0 (bytes_of_string "worker") 1) (Start :: calls_after_start true))
      [Caller; Caller; NewThread; NewThread; Caller; Caller; Caller; NewThread; NewThread; Caller; Caller] = Ok y /\
    object y = None /\ caller y = [] /\ aborted y = false.
Proof.
  destruct (thread_lifecycle 4711 Returns (bytes_of_string "worker") true
    [Caller; Caller; NewThread; NewThread; Caller; Caller; Caller; NewThread; NewThread; Caller; Caller] eq_refl)
    as (y & E & _ & _ & H & _).
  exists y. split; [done|]. vm_compute in E. inversion E; subst y. by vm_compute.
Defined.

(** Starting twice, and joining what was not started or was joined, fail the asserts. *)
Example thread_misuse :
  let run calls sch := res_fold (world_step 4711 0 Returns) (begin_world (mkThread false false 0 [] 1) calls) sch in
  run [Start; Start] [Caller; NewThread; NewThread; Caller; Caller] = Fail AssertFailed /\
  run [Join] [Caller] = Fail AssertFailed /\
  run [Start; Join; Join] [Caller; NewThread; NewThread; Caller; NewThread; NewThread; Caller; Caller; Caller] = Fail AssertFailed.
Proof. by vm_compute. Qed.

(** ** Stack traces *)

Lemma last_index_app c i f s1 s2 :
  last_index c i f (s1 ++ s2) = last_index c (i + len s1) (last_index c i f s1) s2.
Proof.
  revert i f. induction s1 as [|b s1 IH]; intros i f; cbn [app last_index].
  - by rewrite len_nil, Z.add_0_r.
  - rewrite IH, len_cons. f_equal. lia.
Qed.

Lemma last_index_none c i f s : c ∉ s -> last_index c i f s = f.
Proof.
  revert i f. induction s as [|b s IH]; intros i f Hs; [done|]. apply not_elem_of_cons in Hs as [Hb Hs].
  cbn [last_index]. rewrite bool_decide_false by congruence. by apply IH.
Qed.

(** a frame [module(name+offset) address] keeps everything but the name, which is
    replaced by the readable one. *)
Theorem frame_text_demangled demangler module name offset readable :
  (x28 ∉ name) /\ (x28 ∉ offset) /\ (x2b ∉ offset) ->
  demangler name = Some readable ->
  frame_text demangler true (module ++ [x28] ++ name ++ [x2b] ++ offset) =
  module ++ [x28] ++ readable ++ [x2b] ++ offset ++ [x0a].
Proof.
  intros (H1 & H2 & H3) Hd. unfold frame_text. set (s := module ++ _).
  assert (last_index x28 0 None s = Some (len module)) as ->.
  { unfold s. rewrite last_index_app. cbn [app last_index]. rewrite bool_decide_true by done.
    rewrite last_index_none; [f_equal; lia|]. rewrite elem_of_app, elem_of_cons. by intros [?|[?|?]]. }
  assert (last_index x2b 0 None s = Some (len module + 1 + len name)) as ->.
  { unfold s. rewrite !app_assoc, <- (app_assoc _ [x2b]), last_index_app. cbn [app last_index].
    rewrite bool_decide_true by done. rewrite last_index_none by done. by rewrite !len_app. }
  pose proof (len_nonneg name). rewrite (proj2 (Z.ltb_lt _ _)) by lia.
  assert (slice (len module + 1) (len module + 1 + len name) s = name) as ->.
  { unfold s. rewrite app_assoc. apply slice_middle; rewrite len_app; done. }
  rewrite Hd. unfold s.
  assert (slice 0 (len module + 1) (module ++ [x28] ++ name ++ [x2b] ++ offset) = module ++ [x28]) as ->.
  { rewrite (app_assoc module). apply (slice_middle _ _ []); [done|]. rewrite len_app. done. }
  assert (slice (len module + 1 + len name) (len (module ++ [x28] ++ name ++ [x2b] ++ offset))
    (module ++ [x28] ++ name ++ [x2b] ++ offset) = [x2b] ++ offset) as ->.
  { replace (module ++ [x28] ++ name ++ [x2b] ++ offset) with ((module ++ [x28] ++ name) ++ ([x2b] ++ offset) ++ []).
    - apply slice_middle; rewrite !len_app; change (len [x28]) with 1; change (len (@nil byte)) with 0; lia.
    - rewrite app_nil_r. by rewrite <- !app_assoc. }
  by rewrite <- !app_assoc.
Qed.
