(* ===== verification/Lifetimes.v ===== *)
(** * Objects made on demand (src/src/muduo/base/Singleton.h, ThreadLocal.h,
    ThreadLocalSingleton.h, WeakCallback.h)

    When the object behind a singleton, a thread-local value or a weak pointer is made,
    found and destroyed.  Objects are numbered as they are made; what was made and
    deleted is kept. *)

From S2P Require Import Prelude.

(** ** Singleton *)

(** pthread_once(3): one caller runs the function, the others wait until it is done. *)
Inductive once := PTHREAD_ONCE_INIT | OnceRunning (i : nat) | OnceDone.

(** Where a thread is in [instance()]. *)
Inductive caller := InOnce | InInit | AfterOnce | Got (object : Z).

Record Singleton := mkSingleton {
  ponce_ : once; value_ : option Z; made : list Z; deleted : list Z; atexit : nat; callers : list caller;
}.

(** [no_destroy] is whether [T] has a member of that name. *)
Definition init (no_destroy : bool) (s : Singleton) : Singleton :=
  let obj := len (made s) in
  mkSingleton (ponce_ s) (Some obj) (made s ++ [obj]) (deleted s)
    (if no_destroy then atexit s else S (atexit s)) (callers s).

Definition destroy (s : Singleton) : Singleton :=
  mkSingleton (ponce_ s) None (made s) (deleted s ++ option_list (value_ s)) (atexit s) (callers s).

Definition move (i : nat) (c : caller) (o : once) (s : Singleton) : Singleton :=
  mkSingleton o (value_ s) (made s) (deleted s) (atexit s) (<[i := c]> (callers s)).

(** A step of thread [i] in [instance()]. *)
Definition instance (no_destroy : bool) (i : nat) (s : Singleton) : res Singleton :=
  match callers s !! i with
  | Some InOnce =>
      Ok match ponce_ s with
         | PTHREAD_ONCE_INIT => move i InInit (OnceRunning i) s
         | OnceRunning _ => s
         | OnceDone => move i AfterOnce OnceDone s
         end
  | Some InInit => Ok (move i AfterOnce OnceDone (init no_destroy s))
  | Some AfterOnce =>
      assert! bool_decide (value_ s <> None) ;;
      match value_ s with Some obj => Ok (move i (Got obj) (ponce_ s) s) | None => Fail OutOfRange end
  | Some (Got _) | None => Ok s
  end.

(** A thread runs, a new call begins, or the process ends and runs what was registered. *)
Inductive singleton_op := InstanceStep (i : nat) | NewCall | Exit.

Definition singleton_step (no_destroy : bool) (s : Singleton) (o : singleton_op) : res Singleton :=
  match o with
  | InstanceStep i => instance no_destroy i s
  | NewCall => Ok (mkSingleton (ponce_ s) (value_ s) (made s) (deleted s) (atexit s) (callers s ++ [InOnce]))
  | Exit => Ok (match atexit s with
                | O => s
                | S n => let s := destroy s in mkSingleton (ponce_ s) (value_ s) (made s) (deleted s) n (callers s)
                end)
  end.

Definition newSingleton : Singleton := mkSingleton PTHREAD_ONCE_INIT None [] [] 0 [].

(** ** ThreadLocal and ThreadLocalSingleton *)

(** The value of the key in each thread; [key] while it exists. *)
Record ThreadLocal := mkLocal { key : bool; specific : gmap nat Z; tl_made : list Z; tl_deleted : list Z }.

Definition newThreadLocal : ThreadLocal := mkLocal true ∅ [] [].

(** The object of thread [i], and the new state. *)
Definition value (i : nat) (t : ThreadLocal) : res (Z * ThreadLocal) :=
  match specific t !! i with
  | Some obj => Ok (obj, t)
  | None =>
      let obj := len (tl_made t) in
      assert! key t ;;
      Ok (obj, mkLocal (key t) (<[i := obj]> (specific t)) (tl_made t ++ [obj]) (tl_deleted t))
  end.

(** Thread [i] ends: pthread clears its value and calls the destructor, while the key
    exists. *)
Definition thread_exit (i : nat) (t : ThreadLocal) : ThreadLocal :=
  match specific t !! i with
  | Some obj =>
      if key t then mkLocal (key t) (delete i (specific t)) (tl_made t) (tl_deleted t ++ [obj]) else t
  | None => t
  end.

(** Deleting the key calls no destructor. *)
Definition destroyThreadLocal (t : ThreadLocal) : ThreadLocal := mkLocal false (specific t) (tl_made t) (tl_deleted t).

(** [t_value_] of each thread beside the key of [deleter_]. *)
Record ThreadLocalSingleton := mkTLS { t_value_ : gmap nat Z; deleter_ : gmap nat Z; ts_made : list Z; ts_deleted : list Z }.

Definition newTLS : ThreadLocalSingleton := mkTLS ∅ ∅ [] [].

Definition Deleter_set (i : nat) (obj : Z) (t : ThreadLocalSingleton) : res ThreadLocalSingleton :=
  assert! bool_decide (deleter_ t !! i = None) ;;
  Ok (mkTLS (t_value_ t) (<[i := obj]> (deleter_ t)) (ts_made t) (ts_deleted t)).

Definition tls_instance (i : nat) (t : ThreadLocalSingleton) : res (Z * ThreadLocalSingleton) :=
  match t_value_ t !! i with
  | Some obj => Ok (obj, t)
  | None =>
      let obj := len (ts_made t) in
      let! t := Deleter_set i obj (mkTLS (<[i := obj]> (t_value_ t)) (deleter_ t) (ts_made t ++ [obj]) (ts_deleted t)) in
      Ok (obj, t)
  end.

Definition pointer (i : nat) (t : ThreadLocalSingleton) : option Z := t_value_ t !! i.

(** [destructor(obj)]. *)
Definition tls_destructor (i : nat) (obj : Z) (t : ThreadLocalSingleton) : res ThreadLocalSingleton :=
  assert! bool_decide (t_value_ t !! i = Some obj) ;;
  Ok (mkTLS (delete i (t_value_ t)) (deleter_ t) (ts_made t) (ts_deleted t ++ option_list (t_value_ t !! i))).

Definition tls_exit (i : nat) (t : ThreadLocalSingleton) : res ThreadLocalSingleton :=
  match deleter_ t !! i with
  | Some obj => tls_destructor i obj (mkTLS (t_value_ t) (delete i (deleter_ t)) (ts_made t) (ts_deleted t))
  | None => Ok t
  end.

(** What threads do: use their object, or end. *)
Inductive local_op := Use (i : nat) | ThreadExit (i : nat).

(** ** WeakCallback *)

(** The object: how many strong pointers there are, and with how many each call of the
    function began. *)
Record target := mkTarget { strong : Z; called : list Z }.

(** Dropping a strong pointer; the last one destroys the object. *)
Definition drop_strong (t : target) : target := mkTarget (strong t - 1) (called t).

(** [operator()]: [function_] gets the pointer and may drop [n] strong pointers of
    others. *)
Definition weak_call (n : nat) (t : target) : target :=
  if 0 <? strong t then
    let t := mkTarget (strong t + 1) (called t) in
    let t := mkTarget (strong t) (called t ++ [strong t]) in
    let t := mkTarget (strong t - Z.of_nat n) (called t) in
    drop_strong t
  else t.

(** * Properties *)

(** ** One object *)

Section One.
Variable no_destroy : bool.

(** Before the first call, while one thread makes the object, and after. *)
Inductive singleton_inv : Singleton -> Prop :=
| sg_before l : Forall (fun c => c = InOnce) l ->
    singleton_inv (mkSingleton PTHREAD_ONCE_INIT None [] [] 0 l)
| sg_running i l : l !! i = Some InInit -> (forall j c, l !! j = Some c -> j <> i -> c = InOnce) ->
    singleton_inv (mkSingleton (OnceRunning i) None [] [] 0 l)
| sg_live l : Forall (fun c => c = InOnce \/ c = AfterOnce \/ c = Got 0) l ->
    singleton_inv (mkSingleton OnceDone (Some 0) [0] [] (if no_destroy then 0 else 1) l)
| sg_gone l : Forall (fun c => c = InOnce \/ c = AfterOnce \/ c = Got 0) l -> no_destroy = false ->
    singleton_inv (mkSingleton OnceDone None [0] [0] 0 l).
Hint Constructors singleton_inv : core.

Definition is_exit (o : singleton_op) : bool := match o with Exit => true | _ => false end.

Lemma singleton_step_inv s o :
  singleton_inv s ->
  match singleton_step no_destroy s o with
  | Ok s' => singleton_inv s' /\ (deleted s' <> [] -> deleted s <> [] \/ is_exit o = true)
  | Fail f => f = AssertFailed /\ deleted s <> []
  end.
Proof.
  intros Hs. destruct o as [i| |]; cbn [singleton_step].
  - unfold instance. inversion Hs as [l Hl|i0 l Hi Hl|l Hl|l Hl Hn]; subst; cbn [callers ponce_ value_ deleted].
    + destruct (l !! i) as [c|] eqn:E; [|by split]. assert (c = InOnce) as -> by (by eapply Forall_lookup_1 in Hl).
      split; [|done]. unfold move. cbn. apply sg_running.
      * apply list_lookup_insert_eq. by eapply lookup_lt_Some.
      * intros j c Hj Hne. rewrite list_lookup_insert_ne in Hj by done. by eapply Forall_lookup_1 in Hl.
    + destruct (l !! i) as [c|] eqn:E; [|by split]. destruct (decide (i = i0)) as [->|Hne].
      * simplify_eq. split; [|done]. unfold move, init. cbn. change (len []) with 0.
        destruct no_destroy eqn:En; (eapply eq_ind; [apply sg_live|f_equal; by rewrite En]).
        all: apply Forall_lookup_2; intros j c Hj; apply list_lookup_insert_Some in Hj as [(_ & <- & _)|[Hne Hj]];
          [by right; left|left; by eapply Hl].
      * rewrite (Hl i c E Hne). by split.
    + destruct (l !! i) as [c|] eqn:E; [|by split].
      destruct (Forall_lookup_1 _ _ _ _ Hl E) as [-> |[-> | ->]]; (split; [|done]); unfold move; cbn; auto;
        apply sg_live, Forall_insert; auto.
    + destruct (l !! i) as [c|] eqn:E; [|split; auto].
      destruct (Forall_lookup_1 _ _ _ _ Hl E) as [-> |[-> | ->]].
      * split; [|auto]. unfold move; cbn. apply sg_gone; [apply Forall_insert; auto|done].
      * done.
      * split; auto.
  - split; [|auto]. inversion Hs as [l Hl|i0 l Hi Hl|l Hl|l Hl Hn]; subst; cbn [callers ponce_ value_ deleted made atexit].
    + apply sg_before, Forall_app. auto.
    + apply sg_running.
      * apply lookup_app_l_Some. done.
      * intros j c Hj Hne. apply lookup_app_Some in Hj as [Hj|[_ Hj]]; [by eapply Hl|].
        by destruct (j - length l)%nat as [|[]]; cbn in Hj; simplify_eq.
    + apply sg_live, Forall_app. auto.
    + apply sg_gone; [|done]. apply Forall_app. auto.
  - inversion Hs as [l Hl|i0 l Hi Hl|l Hl|l Hl Hn]; subst; cbn; auto.
    destruct no_destroy eqn:En; cbn; [|auto]. split; [|done].
    eapply eq_ind; [by apply sg_live|]. by rewrite En.
Qed.
End One.

(** in every interleaving of calls of [instance()] one object is made, and all calls
    return it; it is deleted at most once, at exit, and only if the type does not ask
    to be kept.  Only a call that comes after that fails the assert. *)
Theorem singleton_unique no_destroy ops :
  match res_fold (singleton_step no_destroy) newSingleton ops with
  | Ok s => (length (made s) <= 1)%nat /\ (forall i o, callers s !! i = Some (Got o) -> made s = [o]) /\
      (deleted s = [] \/ deleted s = made s /\ no_destroy = false /\ Exit ∈ ops)
  | Fail f => f = AssertFailed /\ Exit ∈ ops /\ no_destroy = false
  end.
Proof.
  assert (forall ops s, singleton_inv no_destroy s ->
    match res_fold (singleton_step no_destroy) s ops with
    | Ok s' => singleton_inv no_destroy s' /\ (deleted s' <> [] -> deleted s <> [] \/ Exit ∈ ops)
    | Fail f => f = AssertFailed /\ (deleted s <> [] \/ Exit ∈ ops) /\ no_destroy = false
    end) as Hall.
  { clear ops. induction ops as [|o ops IH]; intros s Hs; cbn [res_fold]; [auto|].
    pose proof (singleton_step_inv no_destroy s o Hs) as H1.
    destruct (singleton_step no_destroy s o) as [s1|f]; cbn [res_bind].
    - destruct H1 as [H1 H2]. specialize (IH s1 H1).
      assert (is_exit o = true -> Exit ∈ o :: ops) as Ho by (destruct o; [done|done|left]).
      destruct (res_fold _ s1 ops) as [s'|f].
      + destruct IH as [IH1 IH2]. split; [done|]. intros Hd. destruct (IH2 Hd) as [H|H]; [|right; by right].
        destruct (H2 H); auto.
      + destruct IH as (-> & [H|H] & ->); (split; [done|split; [|done]]); [|right; by right]. destruct (H2 H); auto.
    - destruct H1 as [-> H1]. split; [done|split; [by left|]]. inversion Hs; subst; done. }
  pose proof (Hall ops newSingleton (sg_before no_destroy [] (Forall_nil_2 _))) as H.
  destruct (res_fold _ newSingleton ops) as [s|f].
  - destruct H as [Hs Hd]. cbn in Hd. inversion Hs as [l Hl|i0 l Hi Hl|l Hl|l Hl Hn]; subst; cbn in *.
    + split_and!; [lia| |by left]. intros i o E. by eapply Forall_lookup_1 in Hl; [|exact E].
    + split_and!; [lia| |by left]. intros i o E. destruct (decide (i = i0)) as [->|Hne]; [congruence|]. by apply Hl in E.
    + split_and!; [lia| |by left]. intros i o E. destruct (Forall_lookup_1 _ _ _ _ Hl E) as [?|[?|?]]; congruence.
    + split_and!; [lia| |]. intros i o E. destruct (Forall_lookup_1 _ _ _ _ Hl E) as [?|[?|?]]; congruence.
      right. split_and!; [done|done|]. by destruct (Hd ltac:(done)).
  - destruct H as (-> & [?|?] & ->); [done|]. auto.
Qed.

(** A call during exit, after the object was deleted, fails the assert. *)
Example singleton_after_exit :
  res_fold (singleton_step false) newSingleton
    [NewCall; InstanceStep 0; InstanceStep 0; InstanceStep 0; Exit; NewCall; InstanceStep 1; InstanceStep 1] = Fail AssertFailed.
Proof. reflexivity. Qed.

(** ** One object per thread *)

Definition tl_step (t : ThreadLocal) (o : local_op) : res ThreadLocal :=
  match o with
  | Use i => let! '(_, t) := value i t in Ok t
  | ThreadExit i => Ok (thread_exit i t)
  end.

Definition tls_step (t : ThreadLocalSingleton) (o : local_op) : res ThreadLocalSingleton :=
  match o with
  | Use i => let! '(_, t) := tls_instance i t in Ok t
  | ThreadExit i => tls_exit i t
  end.

(** Objects that were made: those threads hold, each its own, and the deleted ones. *)
Record owned (m : gmap nat Z) (made deleted : list Z) : Prop := {
  ow_range : forall i o, m !! i = Some o -> 0 <= o < len made;
  ow_inj : forall i j o, m !! i = Some o -> m !! j = Some o -> i = j;
  ow_deleted : Forall (fun o => 0 <= o < len made /\ forall i, m !! i <> Some o) deleted;
  ow_once : NoDup deleted;
  ow_all : forall o, 0 <= o < len made -> (exists i, m !! i = Some o) \/ o ∈ deleted;
}.

Lemma owned_make m mk dl i : owned m mk dl -> m !! i = None -> owned (<[i := len mk]> m) (mk ++ [len mk]) dl.
Proof.
  intros [H1 H2 H3 H4 H5] Hi.
  assert (len (mk ++ [len mk]) = len mk + 1) as El by (rewrite len_app; done). pose proof (len_nonneg mk).
  split; rewrite ?El.
  - intros j o Hj. apply lookup_insert_Some in Hj as [[<- <-]|[_ Hj]]; [lia|]. specialize (H1 j o Hj). lia.
  - intros j k o Hj Hk. pose proof Hk as Hk'. apply lookup_insert_Some in Hj as [[<- <-]|[Hj1 Hj]].
    + apply lookup_insert_Some in Hk' as [[<- _]|[_ Hk']]; [done|]. specialize (H1 k _ Hk'). lia.
    + apply lookup_insert_Some in Hk' as [[<- <-]|[_ Hk']]; [specialize (H1 j _ Hj); lia|eauto].
  - eapply Forall_impl; [exact H3|]. intros o [Ho Hn]. split; [lia|]. intros j Hj.
    apply lookup_insert_Some in Hj as [[_ <-]|[_ Hj]]; [lia|]. by apply (Hn j).
  - done.
  - intros o Ho. destruct (decide (o = len mk)) as [->|Hne].
    + left. exists i. by rewrite lookup_insert_eq.
    + destruct (H5 o ltac:(lia)) as [[j Hj]|Hd]; [|by right]. left. exists j.
      rewrite lookup_insert_ne; [done|]. intros ->. congruence.
Qed.

Lemma owned_delete m mk dl i o : owned m mk dl -> m !! i = Some o -> owned (delete i m) mk (dl ++ [o]).
Proof.
  intros [H1 H2 H3 H4 H5] Hi. split.
  - intros j o' Hj. apply lookup_delete_Some in Hj as [_ Hj]. eauto.
  - intros j k o' Hj Hk. apply lookup_delete_Some in Hj as [_ Hj], Hk as [_ Hk]. eauto.
  - apply Forall_app. split.
    + eapply Forall_impl; [exact H3|]. intros o' [Ho Hn]. split; [done|]. intros j Hj.
      apply lookup_delete_Some in Hj as [_ Hj]. by apply (Hn j).
    + apply Forall_singleton. split; [eauto|]. intros j Hj. apply lookup_delete_Some in Hj as [Hne Hj]. eauto.
  - apply NoDup_app. split; [done|]. split; [|apply NoDup_singleton]. intros o' Ho' Ho.
    apply list_elem_of_singleton in Ho as ->. rewrite Forall_forall in H3. by apply (proj2 (H3 o Ho') i).
  - intros o' Ho'. destruct (H5 o' Ho') as [[j Hj]|Hd].
    + destruct (decide (j = i)) as [->|Hne].
      * right. simplify_eq. apply elem_of_app. right. by left.
      * left. exists j. by rewrite lookup_delete_ne.
    + right. apply elem_of_app. by left.
Qed.

Lemma owned_empty : owned ∅ [] [].
Proof.
  split; try done. 1: apply NoDup_nil_2. intros o Ho. change (len (@nil Z)) with 0 in Ho. lia.
Qed.

(** threads that use a thread-local value and end, in any order: each thread has an
    object of its own while it lives, and every object is deleted once, when its thread
    ends. *)
Theorem threadlocal_owned ops :
  exists t, res_fold tl_step newThreadLocal ops = Ok t /\ owned (specific t) (tl_made t) (tl_deleted t) /\
    forall i, exists o t', value i t = Ok (o, t') /\ specific t' !! i = Some o.
Proof.
  assert (forall ops t, key t = true -> owned (specific t) (tl_made t) (tl_deleted t) ->
    exists t', res_fold tl_step t ops = Ok t' /\ key t' = true /\ owned (specific t') (tl_made t') (tl_deleted t')) as Hall.
  { clear. induction ops as [|o ops IH]; intros t Hk Ht; cbn [res_fold]; [by exists t|].
    assert (exists t1, tl_step t o = Ok t1 /\ key t1 = true /\ owned (specific t1) (tl_made t1) (tl_deleted t1)) as (t1 & -> & Hk1 & H1); [|by apply IH].
    destruct o as [i|i]; cbn [tl_step].
    - unfold value. destruct (specific t !! i) eqn:Ei; [by exists t|]. rewrite Hk. eexists. split; [reflexivity|]. split; [done|]. by apply owned_make.
    - eexists. split; [reflexivity|]. unfold thread_exit. destruct (specific t !! i) eqn:Ei; [|done]. rewrite Hk. split; [done|]. by apply owned_delete. }
  destruct (Hall ops newThreadLocal eq_refl owned_empty) as (t & E & Hk & Ht). exists t. split_and!; [done|done|].
  intros i. unfold value. destruct (specific t !! i) eqn:Ei; [by eauto|]. rewrite Hk. do 2 eexists. split; [reflexivity|].
  cbn. by rewrite lookup_insert_eq.
Qed.

(** the same for the thread-local singleton, whose asserts hold: the pointer and the
    key always name the same object. *)
Theorem tls_asserts_hold ops :
  exists t, res_fold tls_step newTLS ops = Ok t /\ t_value_ t = deleter_ t /\ owned (t_value_ t) (ts_made t) (ts_deleted t).
Proof.
  assert (forall ops t, t_value_ t = deleter_ t -> owned (t_value_ t) (ts_made t) (ts_deleted t) ->
    exists t', res_fold tls_step t ops = Ok t' /\ t_value_ t' = deleter_ t' /\ owned (t_value_ t') (ts_made t') (ts_deleted t')) as Hall.
  { clear. induction ops as [|o ops IH]; intros t Hk Ht; cbn [res_fold]; [by exists t|].
    assert (exists t1, tls_step t o = Ok t1 /\ t_value_ t1 = deleter_ t1 /\ owned (t_value_ t1) (ts_made t1) (ts_deleted t1)) as (t1 & -> & Hk1 & H1); [|by apply IH].
    destruct o as [i|i]; cbn [tls_step].
    - unfold tls_instance. destruct (t_value_ t !! i) eqn:Ei; [by exists t|]. unfold Deleter_set. cbn [deleter_].
      rewrite bool_decide_true by congruence. eexists. split; [reflexivity|]. cbn. split; [by rewrite Hk|]. by apply owned_make.
    - unfold tls_exit. destruct (deleter_ t !! i) as [obj|] eqn:Ei; [|by exists t]. unfold tls_destructor. cbn [t_value_].
      assert (t_value_ t !! i = Some obj) as Ev by congruence. rewrite bool_decide_true by done. eexists. split; [reflexivity|].
      cbn. rewrite Ev. split; [by rewrite Hk|]. by apply owned_delete. }
  by apply Hall; [|apply owned_empty].
Qed.

(** Deleting a thread-local while threads use it deletes none of their objects. *)
Example threadlocal_leaks :
  let t := destroyThreadLocal (mkLocal true {[0%nat := 0]} [0] []) in tl_deleted (thread_exit 0 t) = [].
Proof. reflexivity. Qed.

(** ** Weak callbacks *)

(** the function of a weak callback is only called on a live object, which its own
    strong pointer keeps alive while the function drops those of others; on an expired
    object the call does nothing. *)
Theorem weak_call_alive n t :
  (0 < strong t -> Z.of_nat n <= strong t ->
     called (weak_call n t) = called t ++ [strong t + 1] /\ 1 <= strong t + 1 - Z.of_nat n /\
     strong (weak_call n t) = strong t - Z.of_nat n) /\
  (strong t <= 0 -> weak_call n t = t).
Proof.
  unfold weak_call. split.
  - intros H1 H2. rewrite (proj2 (Z.ltb_lt _ _)) by done. cbn. split_and!; [done|lia|lia].
  - intros H1. by rewrite (proj2 (Z.ltb_ge _ _)).
Qed.
