(* ===== verification/ThreadPools.v ===== *)
(** * Thread pools (src/src/muduo/base/ThreadPool.cc, src/src/muduo/net/EventLoopThread.cc)

    A pool of workers that take tasks from a queue, bounded or not, and the thread
    that runs an event loop and hands its address to the thread that started it.
    Both run on the monitors of Monitors. *)

From S2P Require Import Prelude Monitors.

(** ** ThreadPool *)

(** Tasks are numbered. *)
Record ThreadPool := mkPool {
  nthreads : Z;                  (** [threads_.size()] *)
  queue_ : list Z;
  maxQueueSize_ : Z;
  running_ : bool;
}.

Definition set_queue (q : list Z) (s : ThreadPool) : ThreadPool :=
  mkPool (nthreads s) q (maxQueueSize_ s) (running_ s).

(** A producer calls [run] for a list of tasks; a worker tests [running_] and
    takes a task in turn; one thread may call [stop]. *)
Inductive pool_op :=
| RunTask (task : Z) (rest : list Z)
| TakeTask
| TestRunning
| StopPool.

Inductive pool_res :=
| RanHere (task : Z)             (** without workers [run] runs the task itself *)
| Queued (task : Z)
| Taken (task : option Z)        (** the worker runs the task, unless it is empty *)
| Tested (running : bool)
| Stopped.

Definition pool_outcome : Type := outcome ThreadPool queue_cond pool_res.

Definition isFull (s : ThreadPool) : bool := (0 <? maxQueueSize_ s) && (maxQueueSize_ s <=? len (queue_ s)).

Definition run (task : Z) (s : ThreadPool) : res pool_outcome :=
  if nthreads s =? 0 then Ok (Leave s (RanHere task) None)
  else if isFull s then Ok (Wait notFull_)
  else
    assert! negb (isFull s) ;;
    Ok (Leave (set_queue (queue_ s ++ [task]) s) (Queued task) (Some (notEmpty_, false))).

Definition take (s : ThreadPool) : pool_outcome :=
  if bool_decide (queue_ s = []) && running_ s then Wait notEmpty_
  else
    match queue_ s with
    | task :: q =>
        Leave (set_queue q s) (Taken (Some task)) (if 0 <? maxQueueSize_ s then Some (notFull_, false) else None)
    | [] => Leave s (Taken None) None
    end.

(** [stop] up to the joins. *)
Definition stop (s : ThreadPool) : pool_outcome :=
  Leave (mkPool (nthreads s) (queue_ s) (maxQueueSize_ s) false) Stopped (Some (notEmpty_, true)).

Definition pool_body (o : pool_op) (s : ThreadPool) : res pool_outcome :=
  match o with
  | RunTask task _ => run task s
  | TakeTask => Ok (take s)
  | TestRunning => Ok (Leave s (Tested (running_ s)) None)
  | StopPool => Ok (stop s)
  end.

(** [runInThread]: [while (running_) { Task task(take()); if (task) task(); }]. *)
Definition pool_cont (o : pool_op) (r : pool_res) : option pool_op :=
  match o, r with
  | RunTask _ (task :: rest), _ => Some (RunTask task rest)
  | TakeTask, _ => Some TestRunning
  | TestRunning, Tested true => Some TakeTask
  | _, _ => None
  end.

(** [start(n)] and the other threads of the program. *)
Definition start (numThreads maxSize : Z) (others : list pool_op) : sys ThreadPool queue_cond pool_op pool_res :=
  mkSys (mkPool numThreads [] maxSize true)
    (replicate (Z.to_nat numThreads) (Ready TestRunning) ++ (Ready <$> others)) [].

(** ** EventLoopThread *)

(** [loop_], NULL or the address of the thread's loop. *)
Inductive elt_op := StartLoop | Publish (loop : Z) (exits : bool) | ExitLoop.
Inductive elt_res := Started (loop : Z) | Published | Exited.
Inductive elt_cond := cond_.

#[export] Instance elt_cond_eq_dec : EqDecision elt_cond.
Proof. solve_decision. Defined.

Definition elt_outcome : Type := outcome (option Z) elt_cond elt_res.

Definition startLoop (loop_ : option Z) : elt_outcome :=
  match loop_ with None => Wait cond_ | Some loop => Leave loop_ (Started loop) None end.

(** [threadFunc], its two critical sections; between them [loop.loop()] runs, which
    may or may not come to an end. *)
Definition publish (loop : Z) (loop_ : option Z) : elt_outcome := Leave (Some loop) Published (Some (cond_, false)).
Definition exitLoop (loop_ : option Z) : elt_outcome := Leave None Exited None.

Definition elt_body (o : elt_op) (loop_ : option Z) : res elt_outcome :=
  Ok match o with
     | StartLoop => startLoop loop_
     | Publish loop _ => publish loop loop_
     | ExitLoop => exitLoop loop_
     end.

Definition elt_cont (o : elt_op) (_ : elt_res) : option elt_op :=
  match o with Publish _ true => Some ExitLoop | _ => None end.

(** * Properties *)

(** ** The pool *)

Section Pool.
Abbreviation pthread := (thread queue_cond pool_op).
Abbreviation psys := (sys ThreadPool queue_cond pool_op pool_res).
Implicit Types (s : ThreadPool) (ts : list pthread).

Definition is_worker (o : pool_op) : bool := match o with TakeTask | TestRunning => true | _ => false end.
Definition awake_worker (t : pthread) : bool := match t with Ready o => is_worker o | _ => false end.
Definition awake_producer (t : pthread) : bool := match t with Ready (RunTask _ _) => true | _ => false end.

Definition pwait_ok s (t : pthread) : Prop :=
  match t with
  | Waiting o notEmpty_ => o = TakeTask
  | Waiting o notFull_ => 0 < maxQueueSize_ s /\ exists x l, o = RunTask x l
  | _ => True
  end.

(** As for the queues: sleepers are matched by threads awake, but for [a] tasks and
    [b] free places; and while the pool runs no worker has ended. *)
Record pbalance (n : Z) s ts (a b : Z) : Prop := {
  pb_take : running_ s = true -> 0 < cnt (waits_on notEmpty_) ts -> len (queue_ s) <= cnt awake_worker ts + a;
  pb_workers : running_ s = true -> cnt awake_worker ts + cnt (waits_on notEmpty_) ts = n;
  pb_stopped : running_ s = false -> cnt (waits_on notEmpty_) ts = 0;
  pb_put : 0 < cnt (waits_on notFull_) ts -> maxQueueSize_ s - len (queue_ s) <= cnt awake_producer ts + b;
  pb_wait : Forall (pwait_ok s) ts;
}.

Ltac count := repeat match goal with
  | H : ?ts !! ?i = Some ?t |- context [cnt ?p (<[?i := ?t']> ?ts)] => rewrite (cnt_insert p ts i t t' H)
  | H : ?ts !! ?i = Some ?t, H' : context [cnt ?p (<[?i := ?t']> ?ts)] |- _ => rewrite (cnt_insert p ts i t t' H) in H'
  end.

Ltac conds :=
  cbn [next pool_cont from_option awake_worker awake_producer is_worker waits_on] in *;
  change (bool_decide (notFull_ = notEmpty_)) with false in *;
  change (bool_decide (notEmpty_ = notFull_)) with false in *;
  change (bool_decide (notFull_ = notFull_)) with true in *;
  change (bool_decide (notEmpty_ = notEmpty_)) with true in *;
  cbn [ind] in *.

(** The parts of a balance over updated threads follow from the same part before. *)
Ltac rebalance B1 B2 B3 B4 :=
  split;
  [ intros Hrun Hp; count; cbn in Hp |- *; conds; first [specialize (B1 Hrun ltac:(lia)); lia | lia]
  | intros Hrun; count; cbn; conds; specialize (B2 Hrun); lia
  | intros Hrun; count; cbn; conds; specialize (B3 Hrun); lia
  | intros Hp; count; cbn in Hp |- *; conds; first [specialize (B4 ltac:(lia)); lia | lia]
  | ].

Lemma pwake_balance n s ts a b j o c :
  pbalance n s ts a b -> ts !! j = Some (Waiting o c) -> pbalance n s (<[j := Ready o]> ts) a b.
Proof.
  intros [B1 B2 B3 B4 B5] Hj. assert (pwait_ok s (Waiting o c)) as Hw by (by eapply Forall_lookup_1).
  pose proof (cnt_pos (waits_on c) ts j _ Hj) as Hpos. cbn in Hpos. specialize (Hpos (bool_decide_eq_true_2 _ eq_refl)).
  destruct c; cbn in Hw; [subst o|destruct Hw as (_ & x & l & ->)]; rebalance B1 B2 B3 B4; by apply Forall_insert.
Qed.

Lemma pnotify_balance n s ts a b c k :
  pbalance n s ts (match c with notEmpty_ => a + 1 | notFull_ => a end)
    (match c with notEmpty_ => b | notFull_ => b + 1 end) ->
  pbalance n s (notify c k ts) a b.
Proof.
  intros [B1 B2 B3 B4 B5]. destruct (notify_cases c k ts) as [[-> H0]|(j & o & Hj & ->)].
  - split; try done; destruct c; intros; try lia; auto.
  - assert (pwait_ok s (Waiting o c)) as Hw by (by eapply Forall_lookup_1).
    pose proof (cnt_pos (waits_on c) ts j _ Hj) as Hpos. cbn in Hpos. specialize (Hpos (bool_decide_eq_true_2 _ eq_refl)).
    destruct c; cbn in Hw; [subst o|destruct Hw as (_ & x & l & ->)]; rebalance B1 B2 B3 B4; by apply Forall_insert.
Qed.

(** Tasks queued, tasks taken, and the tasks a thread has still to queue. *)
Definition queued (tr : list (pool_op * pool_res)) : list Z :=
  omap (fun e => match snd e with Queued x => Some x | _ => None end) tr.
Definition taken (tr : list (pool_op * pool_res)) : list Z :=
  omap (fun e => match snd e with Taken x => x | _ => None end) tr.
Definition left_of (o : pool_op) : list Z := match o with RunTask x l => x :: l | _ => [] end.
Definition left_to_queue (t : pthread) : list Z :=
  match t with Ready o | Waiting o _ => left_of o | Done => [] end.

Lemma flat_map_insert {A} (f : A -> list Z) (l : list A) i x y :
  l !! i = Some x ->
  exists r, flat_map f l ≡ₚ f x ++ r /\ flat_map f (<[i := y]> l) ≡ₚ f y ++ r.
Proof.
  intros Hi. pose proof (lookup_lt_Some _ _ _ Hi). exists (flat_map f (list.take i l) ++ flat_map f (drop (S i) l)).
  rewrite insert_take_drop by done. rewrite <- (take_drop_middle _ _ _ Hi) at 1.
  rewrite !flat_map_app. cbn [flat_map]. split; rewrite app_assoc, (Permutation_app_comm _ (f _)), app_assoc; done.
Qed.

Lemma flat_map_same {A} (f : A -> list Z) (l : list A) i x y :
  l !! i = Some x -> f y = f x -> flat_map f (<[i := y]> l) ≡ₚ flat_map f l.
Proof. intros Hi E. destruct (flat_map_insert f l i x y Hi) as (r & -> & ->). by rewrite E. Qed.

Lemma flat_map_nil {A} (f : A -> list Z) (l : list A) : (forall i x, l !! i = Some x -> f x = []) -> flat_map f l = [].
Proof.
  induction l as [|x l IH]; intros Hl; [done|]. cbn. rewrite (Hl 0%nat x eq_refl), IH; [done|].
  intros i y Hi. by apply (Hl (S i)).
Qed.

Record pool_inv (n : Z) (all : list Z) (y : psys) : Prop := {
  pi_threads : nthreads (shared y) = n;
  pi_fifo : queued (trace y) = taken (trace y) ++ queue_ (shared y);
  pi_tasks : all ≡ₚ queued (trace y) ++ flat_map left_to_queue (threads y);
  pi_full : 0 < maxQueueSize_ (shared y) -> len (queue_ (shared y)) <= maxQueueSize_ (shared y);
  pi_balance : pbalance n (shared y) (threads y) 0 0;
}.

Lemma left_wake i ts : flat_map left_to_queue (alter wake i ts) ≡ₚ flat_map left_to_queue ts.
Proof.
  destruct (wake_cases i ts) as [->|(o & c & Hi & ->)]; [done|]. by eapply flat_map_same.
Qed.

Lemma left_notify c k ts : flat_map left_to_queue (notify c k ts) ≡ₚ flat_map left_to_queue ts.
Proof.
  destruct (notify_cases c k ts) as [[-> _]|(j & o & Hj & ->)]; [done|]. by eapply flat_map_same.
Qed.

(** Everything a [notifyAll] leaves alone. *)
Lemma notifyAll_left c ts : flat_map left_to_queue (notifyAll c ts) = flat_map left_to_queue ts.
Proof.
  unfold notifyAll. induction ts as [|t ts IH]; [done|]. cbn. rewrite IH. f_equal.
  destruct t as [|o c'|]; cbn; try done. by destruct (bool_decide (c' = c)).
Qed.

Lemma notifyAll_counts s ts :
  Forall (pwait_ok s) ts ->
  cnt (waits_on notEmpty_) (notifyAll notEmpty_ ts) = 0 /\
  cnt (waits_on notFull_) (notifyAll notEmpty_ ts) = cnt (waits_on notFull_) ts /\
  cnt awake_producer (notifyAll notEmpty_ ts) = cnt awake_producer ts /\
  Forall (pwait_ok s) (notifyAll notEmpty_ ts).
Proof.
  unfold notifyAll. induction 1 as [|t ts Ht Hts (I1 & I2 & I3 & I4)]; [done|].
  rewrite fmap_cons, !cnt_cons, I1, I2, I3. destruct t as [o|o []|]; cbn [waits_on wake]; conds; cbn [waits_on].
  - split_and!; [lia..|by constructor].
  - cbn in Ht. subst o. split_and!; [cbn; lia..|by constructor].
  - conds. split_and!; [lia..|by constructor].
  - split_and!; [lia..|by constructor].
Qed.

Lemma pwait_mono s s' ts : maxQueueSize_ s' = maxQueueSize_ s -> Forall (pwait_ok s) ts -> Forall (pwait_ok s') ts.
Proof. intros E H. eapply Forall_impl; [exact H|]. intros [|o []|]; cbn; by rewrite ?E. Qed.

(** The steps of a thread, one method each; the rest of the state is given. *)
Section Step.
Context (n : Z) (all : list Z) (s : ThreadPool) (ts : list pthread) (tr : list (pool_op * pool_res)) (i k : nat).
Hypothesis Hn : 0 < n.
Hypothesis Hinv : pool_inv n all (mkSys s ts tr).

Abbreviation stepped := (exists y', step pool_body pool_cont (mkSys s ts tr) (Run i k) = Ok y' /\ pool_inv n all y').

Lemma left_insert o t :
  ts !! i = Some (Ready o) ->
  exists r, flat_map left_to_queue ts ≡ₚ left_of o ++ r /\ flat_map left_to_queue (<[i := t]> ts) ≡ₚ left_to_queue t ++ r.
Proof. intros Hi. apply (flat_map_insert left_to_queue ts i _ t Hi). Qed.

(** A result that is neither a queued nor a taken task changes neither list. *)
Lemma trace_other (o : pool_op) r :
  match r with Queued _ | Taken (Some _) => False | _ => True end ->
  queued (tr ++ [(o, r)]) = queued tr /\ taken (tr ++ [(o, r)]) = taken tr.
Proof.
  intros Hr. unfold queued, taken. rewrite !omap_app.
  destruct r as [| |[]| |]; try done; cbn; by rewrite !app_nil_r.
Qed.

Lemma run_balance x l :
  ts !! i = Some (Ready (RunTask x l)) ->
  pbalance n (set_queue (queue_ s ++ [x]) s) (<[i := next pool_cont (RunTask x l) (Queued x)]> ts) 1 0.
Proof.
  intros Hi. destruct Hinv as [_ _ _ _ [B1 B2 B3 B4 B5]]. cbn [shared threads] in *.
  assert (Forall (pwait_ok (set_queue (queue_ s ++ [x]) s)) (<[i := next pool_cont (RunTask x l) (Queued x)]> ts)) as B5'.
  { apply Forall_insert; [by eapply pwait_mono|]. by destruct l. }
  destruct l as [|x' l]; split; try exact B5'; cbn [set_queue running_ queue_ maxQueueSize_]; rewrite ?len_app;
    change (len [x]) with 1;
    [intros Hrun Hp|intros Hrun|intros Hrun|intros Hp|intros Hrun Hp|intros Hrun|intros Hrun|intros Hp];
    count; conds;
    [specialize (B1 Hrun ltac:(lia))|specialize (B2 Hrun)|specialize (B3 Hrun)|specialize (B4 ltac:(lia))|
     specialize (B1 Hrun ltac:(lia))|specialize (B2 Hrun)|specialize (B3 Hrun)|specialize (B4 ltac:(lia))]; lia.
Qed.

Lemma run_step x l : ts !! i = Some (Ready (RunTask x l)) -> stepped.
Proof.
  intros Hi. pose proof Hinv as [Hth Hf Ht Hfull Hb]. cbn [shared threads trace] in *.
  cbn [step shared threads trace]. rewrite Hi. cbn [pool_body]. unfold run. rewrite Hth.
  destruct (Z.eqb_spec n 0); [lia|]. destruct (isFull s) eqn:Ef; cbn [negb cassert res_bind].
  - apply andb_true_iff in Ef as [E1%Z.ltb_lt E2%Z.leb_le].
    eexists. split; [reflexivity|]. split; cbn [shared threads trace]; try done.
    + destruct (left_insert _ (Waiting (RunTask x l) notFull_) Hi) as (r & H1 & H2). by rewrite H2, Ht, H1.
    + destruct Hb as [B1 B2 B3 B4 B5]. pose proof (cnt_pos awake_producer ts i _ Hi eq_refl).
      rebalance B1 B2 B3 B4. apply Forall_insert; [done|]. cbn. eauto.
  - eexists. split; [reflexivity|]. destruct (left_insert _ (next pool_cont (RunTask x l) (Queued x)) Hi) as (r & H1 & H2).
    split; cbn [shared threads trace set_queue nthreads queue_ maxQueueSize_ signal]; try done.
    + unfold queued, taken in *. rewrite !omap_app, Hf. cbn. by rewrite app_nil_r, app_assoc.
    + rewrite left_notify, H2, Ht, H1. unfold queued. rewrite omap_app. cbn [omap list_omap snd left_of].
      replace (left_to_queue (next pool_cont (RunTask x l) (Queued x))) with l by (by destruct l).
      rewrite <- app_assoc. done.
    + intros Hm. apply andb_false_iff in Ef as [E1%Z.ltb_ge|E2%Z.leb_gt]; [lia|].
      rewrite len_app, len_cons, len_nil. lia.
    + by apply (pnotify_balance n _ _ 0 0 notEmpty_), run_balance.
Qed.

Lemma take_balance x q :
  ts !! i = Some (Ready TakeTask) -> queue_ s = x :: q ->
  pbalance n (set_queue q s) (<[i := Ready TestRunning]> ts) 0 1.
Proof.
  intros Hi Eq. destruct Hinv as [_ _ _ _ [B1 B2 B3 B4 B5]]. cbn [shared threads] in *. rewrite Eq, len_cons in *.
  split; cbn [set_queue running_ queue_ maxQueueSize_];
    [intros Hrun Hp|intros Hrun|intros Hrun|intros Hp|apply Forall_insert; [by eapply pwait_mono|done]];
    count; conds;
    [specialize (B1 Hrun ltac:(lia))|specialize (B2 Hrun)|specialize (B3 Hrun)|specialize (B4 ltac:(lia))]; lia.
Qed.

Lemma take_sleeps :
  ts !! i = Some (Ready TakeTask) -> queue_ s = [] -> running_ s = true ->
  pbalance n s (<[i := Waiting TakeTask notEmpty_]> ts) 0 0.
Proof.
  intros Hi Eq Er. destruct Hinv as [_ _ _ _ [B1 B2 B3 B4 B5]]. cbn [shared threads] in *.
  pose proof (cnt_pos awake_worker ts i _ Hi eq_refl).
  split; [intros Hrun Hp|intros Hrun|intros Hrun|intros Hp|by apply Forall_insert]; rewrite ?Eq, ?len_nil in *;
    count; conds; [lia|specialize (B2 Hrun); lia|congruence|specialize (B4 ltac:(lia)); lia].
Qed.

(** A worker goes on, or ends, once the pool is stopped. *)
Lemma stopped_balance o t :
  ts !! i = Some (Ready o) -> is_worker o = true -> running_ s = false -> t = Ready TestRunning \/ t = Done ->
  pbalance n s (<[i := t]> ts) 0 0.
Proof.
  intros Hi Ho Er Ht. destruct Hinv as [_ _ _ _ [B1 B2 B3 B4 B5]]. cbn [shared threads] in *.
  split; try congruence; [intros _|intros Hp|apply Forall_insert; [done|by destruct Ht as [->| ->]]];
    destruct o; try done; destruct Ht as [->| ->]; count; conds; specialize (B3 Er);
    try specialize (B4 ltac:(lia)); lia.
Qed.

Lemma take_step : ts !! i = Some (Ready TakeTask) -> stepped.
Proof.
  intros Hi. pose proof Hinv as [Hth Hf Ht Hfull Hb]. cbn [shared threads trace] in *.
  cbn [step shared threads trace]. rewrite Hi. cbn [pool_body res_bind]. unfold take.
  destruct (queue_ s) as [|x q] eqn:Eq.
  - rewrite bool_decide_true by done. destruct (running_ s) eqn:Er; cbn [andb].
    + eexists. split; [reflexivity|]. split; cbn [shared threads trace]; rewrite ?Eq; try done.
      * destruct (left_insert _ (Waiting TakeTask notEmpty_) Hi) as (r & H1 & H2). by rewrite H2, Ht, H1.
      * by apply take_sleeps.
    + eexists. split; [reflexivity|]. destruct (left_insert _ (Ready TestRunning) Hi) as (r & H1 & H2).
      destruct (trace_other TakeTask (Taken None) I) as [T1 T2].
      split; cbn [shared threads trace signal]; rewrite ?T1, ?T2, ?Eq; try done.
      * etransitivity; [exact Ht|]. apply Permutation_app_head. by rewrite H1, H2.
      * by apply (stopped_balance TakeTask); [| | |left].
  - rewrite bool_decide_false by done. cbn [andb]. eexists. split; [reflexivity|].
    destruct (left_insert _ (Ready TestRunning) Hi) as (r & H1 & H2).
    pose proof (take_balance x q Hi Eq) as Hbal.
    split; cbn [shared threads trace set_queue nthreads queue_ maxQueueSize_]; try done.
    + unfold queued, taken in *. rewrite !omap_app, Hf. cbn. by rewrite app_nil_r, <- app_assoc.
    + unfold queued in *. rewrite omap_app. cbn [omap list_omap snd]. rewrite app_nil_r. etransitivity; [exact Ht|].
      apply Permutation_app_head. destruct (0 <? maxQueueSize_ s); cbn [signal]; [rewrite left_notify|]; by rewrite H1, H2.
    + intros Hm. specialize (Hfull Hm). rewrite len_cons in Hfull. lia.
    + destruct (Z.ltb_spec 0 (maxQueueSize_ s)) as [Hm|Hm]; cbn [signal].
      * by apply (pnotify_balance n _ _ 0 0 notFull_).
      * destruct Hbal as [C1 C2 C3 C4 C5]. split; try done. intros Hp.
        pose proof (len_nonneg q). pose proof (cnt_nonneg awake_producer (<[i := next pool_cont TakeTask (Taken (Some x))]> ts)).
        cbn [set_queue maxQueueSize_ queue_]. lia.
Qed.

Lemma test_step : ts !! i = Some (Ready TestRunning) -> stepped.
Proof.
  intros Hi. pose proof Hinv as [Hth Hf Ht Hfull Hb]. cbn [shared threads trace] in *.
  cbn [step shared threads trace]. rewrite Hi. cbn [pool_body res_bind signal]. eexists. split; [reflexivity|].
  destruct (left_insert _ (next pool_cont TestRunning (Tested (running_ s))) Hi) as (r & H1 & H2).
  destruct (trace_other TestRunning (Tested (running_ s)) I) as [T1 T2].
  split; cbn [shared threads trace]; rewrite ?T1, ?T2; try done.
  - etransitivity; [exact Ht|]. apply Permutation_app_head. rewrite H1, H2. by destruct (running_ s).
  - destruct (running_ s) eqn:Er; cbn [next pool_cont from_option].
    + destruct Hb as [B1 B2 B3 B4 B5]. rebalance B1 B2 B3 B4. by apply Forall_insert.
    + by apply (stopped_balance TestRunning); [| | |right].
Qed.

Lemma stop_step : ts !! i = Some (Ready StopPool) -> stepped.
Proof.
  intros Hi. pose proof Hinv as [Hth Hf Ht Hfull [B1 B2 B3 B4 B5]]. cbn [shared threads trace] in *.
  cbn [step shared threads trace]. rewrite Hi. cbn [pool_body res_bind]. unfold stop. cbn [signal].
  eexists. split; [reflexivity|]. cbn [next pool_cont from_option].
  destruct (left_insert _ Done Hi) as (r & H1 & H2). destruct (trace_other StopPool Stopped I) as [T1 T2].
  assert (Forall (pwait_ok s) (<[i := Done]> ts)) as B5' by (by apply Forall_insert).
  destruct (notifyAll_counts s _ B5') as (N1 & N2 & N3 & N4).
  split; cbn [shared threads trace nthreads queue_ maxQueueSize_]; rewrite ?T1, ?T2; try done.
  - rewrite notifyAll_left. etransitivity; [exact Ht|]. apply Permutation_app_head. by rewrite H1, H2.
  - split; cbn [running_ queue_ maxQueueSize_]; try done.
    rewrite N2, N3. intros Hp. count. conds. specialize (B4 ltac:(lia)). lia.
Qed.
End Step.

Lemma pool_step n all y ch :
  0 < n -> pool_inv n all y -> exists y', step pool_body pool_cont y ch = Ok y' /\ pool_inv n all y'.
Proof.
  intros Hn Hy. destruct y as [s ts tr]. destruct ch as [i k|i].
  - destruct (ts !! i) as [[[x l| | |]| |]|] eqn:Hi;
      [eapply run_step|apply take_step|apply test_step|apply stop_step|..]; try done;
      (eexists; split; [cbn [step threads]; rewrite Hi; reflexivity|done]).
  - eexists. split; [reflexivity|]. destruct Hy as [Hth Hf Ht Hfull Hb]. cbn [shared threads trace] in *.
    split; cbn [shared threads trace]; try done.
    + by rewrite left_wake.
    + destruct (wake_cases i ts) as [->|(o & c & Hi & ->)]; [done|by eapply pwake_balance].
Qed.

Lemma pool_run n all sch y :
  0 < n -> pool_inv n all y -> exists y', res_fold (step pool_body pool_cont) y sch = Ok y' /\ pool_inv n all y'.
Proof.
  intros Hn. revert y. induction sch as [|ch sch IH]; intros y Hy; [by exists y|].
  destruct (pool_step n all y ch Hn Hy) as (y1 & E & H1). cbn [res_fold]. rewrite E. by apply IH.
Qed.

Lemma cnt_awake_init n others :
  0 <= n -> Forall (fun o => is_worker o = false) others ->
  cnt awake_worker (replicate (Z.to_nat n) (Ready TestRunning) ++ (Ready <$> others)) = n.
Proof.
  intros Hn Ho. rewrite cnt_app. assert (cnt awake_worker (Ready <$> others) = 0) as ->.
  { apply cnt_zero. intros i t Hi. apply list_lookup_fmap_Some in Hi as (o & -> & Hi).
    by eapply Forall_lookup_1 in Ho. }
  unfold cnt. rewrite filter_all by (by apply Forall_replicate). rewrite len_replicate. lia.
Qed.

Lemma start_inv n maxSize others :
  0 < n -> Forall (fun o => is_worker o = false) others ->
  pool_inv n (flat_map left_of others) (start n maxSize others).
Proof.
  intros Hn Ho.
  assert (forall c, cnt (waits_on c) (replicate (Z.to_nat n) (Ready TestRunning) ++ (Ready <$> others) : list pthread) = 0) as H0.
  { intros c. apply cnt_zero. intros i t Hi. apply lookup_app_Some in Hi as [Hi|[_ Hi]].
    - by apply lookup_replicate in Hi as [-> _].
    - by apply list_lookup_fmap_Some in Hi as (o & -> & _). }
  split; cbn [start shared threads trace nthreads queue_ maxQueueSize_]; [done|done| |intros Hm; rewrite len_nil; lia|].
  - rewrite flat_map_app. assert (flat_map left_to_queue (replicate (Z.to_nat n) (Ready TestRunning)) = []) as ->.
    { apply flat_map_nil. intros i t Hi. by apply lookup_replicate in Hi as [-> _]. }
    cbn [app queued omap list_omap].
    assert (flat_map left_to_queue (Ready <$> others) = flat_map left_of others) as ->; [|done].
    clear. induction others as [|o others IH]; [done|]. rewrite fmap_cons. cbn [flat_map left_to_queue]. by rewrite IH.
  - split; cbn [running_ queue_ maxQueueSize_]; rewrite ?H0; try lia; try done.
    + intros _. rewrite cnt_awake_init; [lia|lia|done].
    + apply Forall_app. split; [by apply Forall_replicate|]. by apply Forall_fmap, Forall_true.
Qed.
End Pool.

(** with at least one worker, whatever producers submit and however the
    threads interleave, a pool keeps its asserts and the bound of its queue and runs
    the tasks in the order they were queued; and when no thread can run and the pool
    was not stopped, no producer is blocked and every task submitted was taken by a
    worker, exactly once. *)
Theorem pool_runs_tasks n maxSize others sch :
  0 < n -> Forall (fun o => is_worker o = false) others ->
  exists y, res_fold (step pool_body pool_cont) (start n maxSize others) sch = Ok y /\
    queued (trace y) = taken (trace y) ++ queue_ (shared y) /\
    (0 < maxQueueSize_ (shared y) -> len (queue_ (shared y)) <= maxQueueSize_ (shared y)) /\
    (quiescent y -> running_ (shared y) = true ->
     taken (trace y) ≡ₚ flat_map left_of others /\ forall i o, threads y !! i <> Some (Waiting o notFull_)).
Proof.
  intros Hn Ho. destruct (pool_run n _ sch _ Hn (start_inv n maxSize others Hn Ho)) as (y & E & [Hth Hf Ht Hfull [B1 B2 B3 B4 B5]]).
  exists y. split_and!; [done|done|done|]. intros Hq Hrun.
  assert (forall p, (forall t, p t = true -> exists o, t = Ready o) -> cnt p (threads y) = 0) as H0.
  { intros p Hp. apply cnt_zero. intros i t Hi. destruct (p t) eqn:Ep; [|done].
    destruct (Hp t Ep) as [o ->]. by destruct (Hq i o). }
  assert (cnt awake_worker (threads y) = 0) as E1 by (apply H0; intros [| |]; cbn; [eauto|done|done]).
  assert (cnt awake_producer (threads y) = 0) as E2 by (apply H0; intros [| |]; cbn; [eauto|done|done]).
  assert (queue_ (shared y) = []) as Hnil.
  { apply len_0_nil. specialize (B2 Hrun). specialize (B1 Hrun ltac:(lia)). pose proof (len_nonneg (queue_ (shared y))). lia. }
  assert (forall i o, threads y !! i <> Some (Waiting o notFull_)) as Hnf.
  { intros i o Hi. assert (pwait_ok (shared y) (Waiting o notFull_)) as [Hm _] by (by eapply Forall_lookup_1).
    pose proof (cnt_pos (waits_on notFull_) _ _ _ Hi eq_refl). specialize (B4 ltac:(lia)).
    rewrite Hnil in B4. change (len (@nil Z)) with 0 in B4. lia. }
  split; [|done]. rewrite Hf, Hnil, app_nil_r in Ht. rewrite Ht.
  assert (flat_map left_to_queue (threads y) = []) as ->; [|by rewrite app_nil_r].
  apply flat_map_nil. intros i t Hi. destruct t as [o|o []|]; cbn [left_to_queue]; [by destruct (Hq i o)| |by destruct (Hnf i o)|done].
  assert (pwait_ok (shared y) (Waiting o notEmpty_)) as Hw by (by eapply Forall_lookup_1). cbn in Hw. by subst o.
Qed.

(** ** Stopping *)

Abbreviation psys := (sys ThreadPool queue_cond pool_op pool_res).

(** The worker and the stopping thread have ended, the queue is full, and the
    producer has a task left. *)
Definition stranded (y : psys) : Prop :=
  shared y = mkPool 1 [2] 1 false /\
  exists t, threads y = [Done; t; Done] /\ (t = Ready (RunTask 3 []) \/ t = Waiting (RunTask 3 []) notFull_).

Lemma stranded_step y ch : stranded y -> exists y', step pool_body pool_cont y ch = Ok y' /\ stranded y'.
Proof.
  destruct y as [s ts tr]. intros [Hs (t & Hts & Ht)]. cbn [shared threads] in *. subst s ts. destruct ch as [i k|i].
  - destruct i as [|[|[|i]]]; [by eexists; split; [|split; [|exists t]]| |by eexists; split; [|split; [|exists t]]|
      by eexists; split; [|split; [|exists t]]].
    destruct Ht as [->| ->]; (eexists; split; [reflexivity|]); (split; [done|]); eexists; (split; [reflexivity|]); auto.
  - eexists. split; [reflexivity|]. split; [done|]. cbn [threads].
    destruct i as [|[|[|i]]]; cbn; [by exists t| |by exists t|by exists t].
    eexists. split; [reflexivity|]. destruct Ht as [->| ->]; auto.
Qed.

Definition strand : list choice := [Run 0 0; Run 1 0; Run 0 0; Run 1 0; Run 1 0; Run 2 0; Run 0 0].

(** [stop()] wakes the workers but not the producers that sleep on a full
    queue: a run of the pool ends with the worker gone, a task left in the queue and
    the producer asleep, and nothing that can happen afterwards lets the producer
    finish, spurious wakeups included. *)
Theorem stop_strands_producer :
  exists y, res_fold (step pool_body pool_cont) (start 1 1 [RunTask 1 [2; 3]; StopPool]) strand = Ok y /\
    running_ (shared y) = false /\ queue_ (shared y) = [2] /\ quiescent y /\
    forall sch, exists y', res_fold (step pool_body pool_cont) y sch = Ok y' /\
      threads y' !! 1%nat <> Some Done /\ queue_ (shared y') = [2].
Proof.
  eexists. split; [vm_compute; reflexivity|]. split; [reflexivity|]. split; [reflexivity|]. split.
  { intros [|[|[|i]]] o; discriminate. }
  match goal with |- forall sch, exists y', res_fold _ ?y0 sch = _ /\ _ => assert (stranded y0) as Hy end.
  { split; [reflexivity|]. eexists. split; [reflexivity|]. auto. }
  match type of Hy with stranded ?y0 => generalize dependent y0 end.
  intros y Hy sch. revert y Hy. induction sch as [|ch sch IH]; intros y Hy.
  - exists y. split; [done|]. destruct Hy as [-> (t & -> & Ht)]. split; [|done]. by destruct Ht as [->| ->].
  - destruct (stranded_step y ch Hy) as (y1 & E & H1). cbn [res_fold]. rewrite E. by apply IH.
Qed.

(** ** The thread of a loop *)

Section LoopThread.
Abbreviation esys := (sys (option Z) elt_cond elt_op elt_res).

Definition elt_init (loop : Z) (exits : bool) : esys := mkSys None [Ready StartLoop; Ready (Publish loop exits)] [].

(** Where the two threads are. *)
Inductive elt_state (loop : Z) : esys -> Prop :=
| es_before a tr :
    a = Ready StartLoop \/ a = Waiting StartLoop cond_ -> tr = [] ->
    elt_state loop (mkSys None [a; Ready (Publish loop false)] tr)
| es_published tr :
    tr = [(Publish loop false, Published)] -> elt_state loop (mkSys (Some loop) [Ready StartLoop; Done] tr)
| es_started tr :
    tr = [(Publish loop false, Published); (StartLoop, Started loop)] -> elt_state loop (mkSys (Some loop) [Done; Done] tr).

Lemma elt_step loop y ch : elt_state loop y -> exists y', step elt_body elt_cont y ch = Ok y' /\ elt_state loop y'.
Proof.
  assert (forall s (a b : thread elt_cond elt_op) tr i, exists y', step elt_body elt_cont (mkSys s [a; b] tr) (Spurious i) = Ok y' /\
    y' = mkSys s (match i with O => [wake a; b] | S O => [a; wake b] | _ => [a; b] end) tr) as Hsp.
  { intros s a b tr [|[|i]]; eexists; split; reflexivity. }
  intros Hy. destruct ch as [i k|i].
  - destruct Hy as [a tr Ha ->|tr ->|tr ->]; destruct i as [|[|i]].
    + destruct Ha as [->| ->]; (eexists; split; [reflexivity|]); constructor; auto.
    + destruct Ha as [->| ->]; eexists; (split; [reflexivity|]); unfold signal, notify, chosen; cbn;
        destruct k as [|[|k]]; cbn; by constructor.
    + by eexists; split; [|constructor].
    + eexists. split; [reflexivity|]. by constructor.
    + by eexists; split; [|constructor].
    + by eexists; split; [|constructor].
    + by eexists; split; [|constructor].
    + by eexists; split; [|constructor].
    + by eexists; split; [|constructor].
  - destruct Hy as [a tr Ha ->|tr ->|tr ->]; edestruct Hsp as (y' & E & ->); eexists; (split; [exact E|]);
      destruct i as [|[|i]]; cbn [wake]; try (by constructor; auto).
    constructor; [|done]. destruct Ha as [->| ->]; auto.
Qed.
End LoopThread.

(** [startLoop] returns the address of the loop the new thread runs: when no
    thread can run any more, the starting thread has got it, whoever was first. *)
Theorem startLoop_returns loop sch :
  exists y, res_fold (step elt_body elt_cont) (elt_init loop false) sch = Ok y /\
    (forall o l, (o, Started l) ∈ trace y -> l = loop) /\
    (quiescent y -> (StartLoop, Started loop) ∈ trace y).
Proof.
  assert (forall y, elt_state loop y -> exists y', res_fold (step elt_body elt_cont) y sch = Ok y' /\ elt_state loop y') as Hrun.
  { induction sch as [|ch sch IH]; intros y Hy; [by exists y|].
    destruct (elt_step loop y ch Hy) as (y1 & E & H1). cbn [res_fold]. rewrite E. by apply IH. }
  destruct (Hrun (elt_init loop false)) as (y & E & Hy); [constructor; auto|].
  exists y. split; [done|]. destruct Hy as [a tr Ha ->|tr ->|tr ->]; cbn [trace].
  - split; [intros o l H; by apply not_elem_of_nil in H|]. intros Hq. by destruct (Hq 1%nat (Publish loop false)).
  - split; [intros o l H; apply list_elem_of_singleton in H; congruence|]. intros Hq. by destruct (Hq 0%nat StartLoop).
  - split; [|intros _; set_solver]. intros o l H. rewrite !elem_of_cons, elem_of_nil in H.
    destruct H as [H|[H|[]]]; congruence.
Qed.

(** If the loop ends before the starting thread runs again, its address is lost and
    [startLoop] sleeps for good. *)
Lemma startLoop_can_hang :
  exists y, res_fold (step elt_body elt_cont) (elt_init 7 true) [Run 0 0; Run 1 0; Run 1 0; Run 0 0] = Ok y /\
    quiescent y /\ threads y = [Waiting StartLoop cond_; Done].
Proof.
  eexists. split; [vm_compute; reflexivity|]. split; [|reflexivity]. intros [|[|i]] o; discriminate.
Qed.

(** *** Witnesses *)

Lemma pool_runs_tasks_witness :
  exists y, res_fold (step pool_body pool_cont) (start 1 1 [RunTask 7 [8]])
      [Run 0 0; Run 0 0; Run 1 0; Run 1 0; Run 0 0; Run 1 0; Run 0 0; Run 0 0; Run 0 0; Run 0 0] = Ok y /\
    queued (trace y) = taken (trace y) ++ queue_ (shared y) /\
    (quiescent y -> running_ (shared y) = true -> taken (trace y) ≡ₚ [7; 8]).
Proof.
  destruct (pool_runs_tasks 1 1 [RunTask 7 [8]]
    [Run 0 0; Run 0 0; Run 1 0; Run 1 0; Run 0 0; Run 1 0; Run 0 0; Run 0 0; Run 0 0; Run 0 0])
    as (y & H1 & H2 & _ & H3); [lia|by apply Forall_singleton|].
  exists y. split_and!; [exact H1|exact H2|]. intros Hq Hr. exact (proj1 (H3 Hq Hr)).
Defined.
