(* ===== verification/PoolLives.v ===== *)
(** * The life of a thread pool (src/src/muduo/base/ThreadPool.cc)

    One owner constructs the pool, starts it, runs tasks, stops it and destroys it;
    the workers are created one by one by [start], call the initial callback, take
    tasks and end, and are joined by [stop].  A task may call [run] on its pool and
    may throw.  The bodies under the mutex are those of ThreadPools; owner and
    workers interleave in any order. *)

From S2P Require Import Prelude Formats Threads Monitors ThreadPools.

(** ** Workers and their owner *)

(** Where a worker is in [runInThread]: before the initial callback, at the test of
    [running_], before and inside the wait of [take], in a task with the tasks it
    still passes to [run] and the way it ends, inside the wait of such a [run], and
    at the end. *)
Inductive worker_pc :=
| WInit
| WTest
| WTake
| WWait
| WRunning (subs : list Z) (ends : func_end)
| WRunWait (subs : list Z) (ends : func_end)
| WEnded.

Record worker := mkWorker { wname : list byte; wpc : worker_pc; wjoined : bool }.

Definition set_wpc (p : worker_pc) (w : worker) : worker := mkWorker (wname w) p (wjoined w).
Definition set_wjoined (w : worker) : worker := mkWorker (wname w) (wpc w) true.
Definition wended (w : worker) : bool := match wpc w with WEnded => true | _ => false end.

(** The calls of the owner, and where it is: between calls, in the loop of [start],
    before and inside the wait of [run], in tasks that [run] calls itself (the calls
    to [run] each of them has left and its end, innermost first), in the loop of
    [stop] that joins the threads, called by the destructor or not, or after the
    destructor. *)
Inductive owner_op := SetMaxQueueSize (maxSize : Z) | StartPool (numThreads : Z) | RunT (task : Z) | QueueSize | Stop | DestroyPool.

Inductive owner_pc :=
| OReady
| OStarting (numThreads : Z)
| ORun (task : Z) (frames : list (list Z * func_end))
| ORunWait (task : Z) (frames : list (list Z * func_end))
| OHere (frames : list (list Z * func_end))
| OJoining (i : nat) (dtor : bool)
| OJoinWait (i : nat) (dtor : bool)
| OGone.

(** What has happened: tasks queued and taken, callbacks called by a worker or by the
    owner, tasks called by the owner, results of its calls. *)
Inductive event :=
| EvQueued (task : Z) | EvTaken (i : nat) (task : Z) | EvInit (i : option nat) | EvHere (task : Z)
| EvThrown | EvSize (n : Z) | EvStopped.

Record life := mkLife {
  pool : ThreadPool; workers : list worker; owner : owner_pc; script : list owner_op;
  events : list event; output : list (list byte); dead : bool;
}.

Section Life.
(** The name of the pool, the initial callback, and what a task does: [None] is an
    empty function, others pass tasks to [run] and then end. *)
Variables (name : list byte) (init : option func_end) (prog : Z -> option (list Z * func_end)).

Definition newLife (script : list owner_op) : life := mkLife (mkPool 0 [] 0 false) [] OReady script [] [] false.

Definition set_pool (s : ThreadPool) (y : life) : life :=
  mkLife s (workers y) (owner y) (script y) (events y) (output y) (dead y).
Definition set_workers (ws : list worker) (y : life) : life :=
  mkLife (pool y) ws (owner y) (script y) (events y) (output y) (dead y).
Definition set_owner (o : owner_pc) (y : life) : life :=
  mkLife (pool y) (workers y) o (script y) (events y) (output y) (dead y).
Definition log (e : event) (y : life) : life :=
  mkLife (pool y) (workers y) (owner y) (script y) (events y ++ [e]) (output y) (dead y).
Definition set_script (l : list owner_op) (y : life) : life :=
  mkLife (pool y) (workers y) (owner y) l (events y) (output y) (dead y).
Definition goto (i : nat) (p : worker_pc) (y : life) : life := set_workers (alter (set_wpc p) i (workers y)) y.

(** *** Condition variables *)

Definition wwaits (c : queue_cond) (w : worker) : bool :=
  match wpc w, c with WWait, notEmpty_ | WRunWait _ _, notFull_ => true | _, _ => false end.

Definition woken (w : worker) : worker :=
  match wpc w with WWait => set_wpc WTake w | WRunWait subs e => set_wpc (WRunning subs e) w | _ => w end.

Definition owner_woken (o : owner_pc) : owner_pc := match o with ORunWait task frames => ORun task frames | _ => o end.
Definition owner_waits (c : queue_cond) (o : owner_pc) : bool :=
  match o, c with ORunWait _ _, notFull_ => true | _, _ => false end.

(** A notify wakes worker [k] if it waits, otherwise the owner if it does, otherwise
    the first worker that does. *)
Definition wake_one (c : queue_cond) (k : nat) (y : life) : life :=
  if from_option (wwaits c) false (workers y !! k) then set_workers (alter woken k (workers y)) y
  else if owner_waits c (owner y) then set_owner (owner_woken (owner y)) y
  else match list_find (fun w => Is_true (wwaits c w)) (workers y) with
       | Some (j, _) => set_workers (alter woken j (workers y)) y
       | None => y
       end.

Definition wake_all (c : queue_cond) (y : life) : life :=
  set_owner (if owner_waits c (owner y) then owner_woken (owner y) else owner y)
    (set_workers ((fun w => if wwaits c w then woken w else w) <$> workers y) y).

Definition signalled (sig : option (queue_cond * bool)) (k : nat) (y : life) : life :=
  match sig with
  | None => y
  | Some (c, false) => wake_one c k y
  | Some (c, true) => wake_all c y
  end.

(** *** The workers *)

(** The handlers at the end of [runInThread]; an exception that is none of the
    standard's goes on to the handler of the thread. *)
Definition caught (w : list byte) (e : func_end) : list (list byte) :=
  let line s n := bytes_of_string s ++ n ++ [x0a] in
  match e with
  | Returns => []
  | ThrowsException what trace =>
      [line "exception caught in ThreadPool " name; line "reason: " what; line "stack trace: " trace]
  | ThrowsStd what => [line "exception caught in ThreadPool " name; line "reason: " what]
  | ThrowsOther => line "unknown exception caught in ThreadPool " name :: crash ThrowsOther w
  end.

Definition die (w : worker) (e : func_end) (y : life) : life :=
  mkLife (pool y) (workers y) (owner y) (script y) (events y) (output y ++ caught (wname w) e) true.

(** A step of [runInThread]. *)
Definition worker_step (i k : nat) (w : worker) (y : life) : res life :=
  match wpc w with
  | WInit =>
      match init with
      | None => Ok (goto i WTest y)
      | Some Returns => Ok (log (EvInit (Some i)) (goto i WTest y))
      | Some e => Ok (die w e y)
      end
  | WTest => Ok (goto i (if running_ (pool y) then WTake else WEnded) y)
  | WTake =>
      match take (pool y) with
      | Wait _ => Ok (goto i WWait y)
      | Leave s (Taken (Some task)) sig =>
          let p := match prog task with Some (subs, e) => WRunning subs e | None => WTest end in
          Ok (signalled sig k (log (EvTaken i task) (goto i p (set_pool s y))))
      | Leave s _ sig => Ok (signalled sig k (goto i WTest (set_pool s y)))
      end
  | WRunning [] Returns => Ok (goto i WTest y)
  | WRunning [] e => Ok (die w e y)
  | WRunning (task :: subs) e =>
      let! out := run task (pool y) in
      match out with
      | Wait _ => Ok (goto i (WRunWait (task :: subs) e) y)
      | Leave s (Queued task) sig =>
          Ok (signalled sig k (log (EvQueued task) (goto i (WRunning subs e) (set_pool s y))))
      | Leave _ _ _ => Fail OutOfRange      (** a worker runs, so [threads_] is not empty *)
      end
  | WWait | WRunWait _ _ | WEnded => Ok y
  end.

(** *** The owner *)

(** The critical section of [stop]. *)
Definition stop_section (dtor : bool) (k : nat) (y : life) : life :=
  match stop (pool y) with
  | Leave s _ sig => signalled sig k (set_owner (OJoining 0 dtor) (set_pool s y))
  | Wait _ => y
  end.

(** A task called by [run] itself: an empty function throws. *)
Definition call_here (task : Z) (frames : list (list Z * func_end)) (y : life) : life :=
  log (EvHere task) (set_owner (OHere ((default ([], ThrowsStd (bytes_of_string "bad_function_call")) (prog task)) :: frames)) y).

Definition run_call (task : Z) (frames : list (list Z * func_end)) (k : nat) (y : life) : res life :=
  let! out := run task (pool y) in
  match out with
  | Wait _ => Ok (set_owner (ORunWait task frames) y)
  | Leave s (Queued task) sig =>
      Ok (signalled sig k (log (EvQueued task) (set_owner (OHere frames) (set_pool s y))))
  | Leave _ _ _ => Ok (call_here task frames y)
  end.

(** The innermost task goes on: it calls [run], returns to the task around it, or
    throws to whoever called [run] first. *)
Definition here_step (frames : list (list Z * func_end)) (y : life) : life :=
  match frames with
  | [] => set_owner OReady y
  | (task :: subs, e) :: frames => set_owner (ORun task ((subs, e) :: frames)) y
  | ([], Returns) :: frames => set_owner (OHere frames) y
  | ([], _) :: _ => log EvThrown (set_owner OReady y)
  end.

Definition set_max (m : Z) (s : ThreadPool) : ThreadPool := mkPool (nthreads s) (queue_ s) m (running_ s).
Definition set_running (s : ThreadPool) : ThreadPool := mkPool (nthreads s) (queue_ s) (maxQueueSize_ s) true.

(** An iteration of the loop of [start]: the new thread runs when [Thread::start] returns. *)
Definition new_worker (y : life) : life :=
  let id := fst (snprintf 32 (decimal (len (workers y) + 1))) in
  mkLife (mkPool (nthreads (pool y) + 1) (queue_ (pool y)) (maxQueueSize_ (pool y)) (running_ (pool y)))
    (workers y ++ [mkWorker (name ++ id) WInit false]) (owner y) (script y) (events y) (output y) (dead y).

Definition start_step (numThreads : Z) (y : life) : life :=
  if len (workers y) <? numThreads then new_worker y
  else
    let y := set_owner OReady y in
    match init with
    | Some e =>
        if numThreads =? 0 then
          let y := log (EvInit None) y in match e with Returns => y | _ => log EvThrown y end
        else y
    | None => y
    end.

(** [start] up to its loop; [reserve] throws for a negative number. *)
Definition begin_start (numThreads : Z) (y : life) : res life :=
  assert! bool_decide (workers y = []) ;;
  let y := set_pool (set_running (pool y)) y in
  if numThreads <? 0 then Ok (log EvThrown y) else Ok (set_owner (OStarting numThreads) y).

Definition queueSize (s : ThreadPool) : Z := len (queue_ s).

Definition destroyPool (k : nat) (y : life) : life :=
  if running_ (pool y) then stop_section true k y else set_owner OGone y.

(** The next call. *)
Definition call_step (k : nat) (y : life) : res life :=
  match script y with
  | [] => Ok y
  | op :: rest =>
      let y := set_script rest y in
      match op with
      | SetMaxQueueSize maxSize => Ok (set_pool (set_max (u64 maxSize) (pool y)) y)
      | StartPool numThreads => begin_start numThreads y
      | RunT task => Ok (set_owner (ORun task []) y)
      | QueueSize => Ok (log (EvSize (queueSize (pool y))) y)
      | Stop => Ok (stop_section false k y)
      | DestroyPool => Ok (destroyPool k y)
      end
  end.

(** The loop of [stop]: [join] sets [joined_] and waits for the end of the thread. *)
Definition join_step (i : nat) (dtor : bool) (y : life) : res life :=
  match workers y !! i with
  | None => Ok (log EvStopped (set_owner (if dtor then OGone else OReady) y))
  | Some w =>
      assert! negb (wjoined w) ;;
      Ok (set_owner (OJoinWait i dtor) (set_workers (alter set_wjoined i (workers y)) y))
  end.

Definition join_wait_step (i : nat) (dtor : bool) (y : life) : life :=
  match workers y !! i with
  | Some w => if wended w then set_owner (OJoining (S i) dtor) y else y
  | None => y
  end.

Definition owner_step (k : nat) (y : life) : res life :=
  match owner y with
  | OReady => call_step k y
  | OStarting numThreads => Ok (start_step numThreads y)
  | ORun task frames => run_call task frames k y
  | ORunWait _ _ | OGone => Ok y
  | OHere frames => Ok (here_step frames y)
  | OJoining i dtor => join_step i dtor y
  | OJoinWait i dtor => Ok (join_wait_step i dtor y)
  end.

(** *** Steps *)

(** A step of the owner or of a worker, with the waiter a notify prefers, or a wait
    that ends for no reason. *)
Inductive move := MOwner (k : nat) | MWorker (i k : nat) | MWakeOwner | MWakeWorker (i : nat).

(** Workers that go on after the pool is destroyed touch freed memory. *)
Definition life_step (y : life) (m : move) : res life :=
  if dead y then Ok y
  else match m with
  | MOwner k => owner_step k y
  | MWorker i k =>
      match workers y !! i, owner y with
      | Some w, OGone => if wended w then Ok y else Fail OutOfRange
      | Some w, _ => worker_step i k w y
      | None, _ => Ok y
      end
  | MWakeOwner => Ok (set_owner (owner_woken (owner y)) y)
  | MWakeWorker i => Ok (set_workers (alter woken i (workers y)) y)
  end.
End Life.

(** * Properties *)

Section Properties.
Context {name : list byte} {init : option func_end} {prog : Z -> option (list Z * func_end)}.
Implicit Types (y : life) (w : worker) (ws : list worker).

(** ** The script of an owner that keeps to the rules *)

(** The pool has no threads, or runs them, or has joined them. *)
Inductive phase := Fresh | Started | Finished.

(** [start] comes once and [stop] not twice (a start without threads changes
    nothing), the queue is bounded before [start], and nothing follows the
    destructor. *)
Fixpoint script_ok (ph : phase) (l : list owner_op) : bool :=
  match l with
  | [] => true
  | SetMaxQueueSize _ :: l => match ph with Fresh => script_ok Fresh l | _ => false end
  | StartPool n :: l => match ph with Fresh => script_ok (if n <=? 0 then Fresh else Started) l | _ => false end
  | RunT _ :: l | QueueSize :: l => script_ok ph l
  | Stop :: l =>
      match ph with Fresh => script_ok Fresh l | Started => script_ok Finished l | Finished => false end
  | DestroyPool :: l => bool_decide (l = [])
  end.

Definition in_phase (ph : phase) (running : bool) ws : Prop :=
  match ph with
  | Fresh => ws = []
  | Started => running = true /\ ws <> [] /\ Forall (fun w => wjoined w = false) ws
  | Finished => running = false /\ Forall (fun w => wjoined w = true /\ wpc w = WEnded) ws
  end.

(** Threads before [i] are joined and over, those from [j] on are not joined. *)
Definition joined_upto (i j : nat) ws : Prop :=
  forall n w, ws !! n = Some w -> ((n < i)%nat -> wpc w = WEnded) /\ ((n < j)%nat <-> wjoined w = true).

Definition after_stop ws : phase := match ws with [] => Fresh | _ => Finished end.

Definition owner_ok (o : owner_pc) (l : list owner_op) (running : bool) ws : Prop :=
  match o with
  | OReady | ORun _ _ | ORunWait _ _ | OHere _ => exists ph, in_phase ph running ws /\ script_ok ph l = true
  | OStarting n =>
      running = true /\ 0 <= n /\ len ws <= n /\ Forall (fun w => wjoined w = false) ws /\
      script_ok (if n <=? 0 then Fresh else Started) l = true
  | OJoining i _ =>
      running = false /\ (i <= length ws)%nat /\ joined_upto i i ws /\ script_ok (after_stop ws) l = true
  | OJoinWait i _ =>
      running = false /\ (i < length ws)%nat /\ joined_upto i (S i) ws /\ script_ok (after_stop ws) l = true
  | OGone => Forall (fun w => wjoined w = true /\ wpc w = WEnded) ws
  end.

(** ** Wakeups and progress of workers *)

Definition advanced w w' : Prop :=
  wname w' = wname w /\ wjoined w' = wjoined w /\ (wpc w = WEnded -> wpc w' = WEnded).

Definition woken_or_same w w' : Prop := w' = w \/ w' = woken w.

(** What a notify, or a wait that ends for no reason, can change. *)
Record wakes y y' : Prop := {
  wk_pool : pool y' = pool y;
  wk_script : script y' = script y;
  wk_events : events y' = events y;
  wk_output : output y' = output y /\ dead y' = dead y;
  wk_owner : owner y' = owner y \/ owner y' = owner_woken (owner y);
  wk_workers : Forall2 woken_or_same (workers y) (workers y');
}.

#[local] Instance woken_or_same_refl : Reflexive woken_or_same.
Proof. intros w. by left. Qed.

Lemma Forall2_alter_r {A} (R : A -> A -> Prop) (f : A -> A) i (l : list A) :
  Reflexive R -> (forall x, l !! i = Some x -> R x (f x)) -> Forall2 R l (alter f i l).
Proof.
  intros HR Hf. apply Forall2_same_length_lookup_2; [by rewrite length_alter|].
  intros j x x' Hx Hx'. destruct (decide (i = j)) as [<-|Hne].
  - rewrite list_lookup_alter_eq, Hx in Hx'. injection Hx' as <-. auto.
  - rewrite list_lookup_alter_ne in Hx' by done. by simplify_eq.
Qed.

Lemma wake_workers_wakes i y : wakes y (set_workers (alter woken i (workers y)) y).
Proof. split; cbn; auto. apply Forall2_alter_r; [apply _|]. intros w _. by right. Qed.

Lemma wake_owner_wakes y : wakes y (set_owner (owner_woken (owner y)) y).
Proof. split; cbn; auto. reflexivity. Qed.

Lemma wakes_refl y : wakes y y.
Proof. split; auto. reflexivity. Qed.

Lemma signalled_wakes sig k y : wakes y (signalled sig k y).
Proof.
  destruct sig as [[c []]|]; cbn [signalled]; [| |apply wakes_refl].
  - split; cbn; auto; [by destruct (owner_waits c (owner y)); auto|]. apply Forall2_fmap_r, Forall_Forall2_diag, Forall_true.
    intros w. cbn. unfold woken_or_same. destruct (wwaits c w); auto.
  - unfold wake_one. repeat case_match; auto using wake_workers_wakes, wake_owner_wakes, wakes_refl.
Qed.

Lemma woken_advanced w w' : woken_or_same w w' -> advanced w w'.
Proof. intros [->| ->]; split; auto; unfold woken; case_match; cbn; auto; split; auto; congruence. Qed.

Lemma advanced_lookup ws ws' n w' :
  Forall2 advanced ws ws' -> ws' !! n = Some w' -> exists w, ws !! n = Some w /\ advanced w w'.
Proof. intros H Hn. destruct (Forall2_lookup_r _ _ _ _ _ H Hn) as (w & Hw & Ha). eauto. Qed.

Lemma advanced_nil ws ws' : Forall2 advanced ws ws' -> ws' = [] <-> ws = [].
Proof. intros H. destruct H; split; congruence. Qed.

Lemma advanced_forall (P Q : worker -> Prop) ws ws' :
  Forall2 advanced ws ws' -> (forall w w', advanced w w' -> P w -> Q w') -> Forall P ws -> Forall Q ws'.
Proof.
  intros H HPQ HP. apply Forall_lookup_2. intros n w' Hn.
  destruct (advanced_lookup _ _ _ _ H Hn) as (w & Hw & Ha). eapply HPQ; [done|]. by eapply Forall_lookup_1.
Qed.

Lemma advanced_upto i j ws ws' : Forall2 advanced ws ws' -> joined_upto i j ws -> joined_upto i j ws'.
Proof.
  intros H Hj n w' Hn. destruct (advanced_lookup _ _ _ _ H Hn) as (w & Hw & _ & Hjn & He).
  destruct (Hj n w Hw) as [H1 H2]. rewrite Hjn. auto.
Qed.

Lemma advanced_after ws ws' : Forall2 advanced ws ws' -> after_stop ws' = after_stop ws.
Proof. by destruct 1. Qed.

Lemma owner_ok_advanced o l r ws ws' : Forall2 advanced ws ws' -> owner_ok o l r ws -> owner_ok o l r ws'.
Proof.
  intros H. pose proof (Forall2_length _ _ _ H) as Hlen.
  assert (forall ph, in_phase ph r ws -> in_phase ph r ws') as Hph.
  { intros [| |]; cbn.
    - by rewrite (advanced_nil _ _ H).
    - rewrite (advanced_nil _ _ H). intros (? & ? & ?). split_and!; [done..|].
      eapply advanced_forall; [done| |done]. by intros w w' (_ & -> & _).
    - intros (? & ?). split_and!; [done|]. eapply advanced_forall; [done| |done].
      intros w w' (_ & -> & He) [? ?]. auto. }
  destruct o; cbn [owner_ok]; try (intros (ph & Hp & Hs); exists ph; by auto).
  - unfold len. rewrite <- Hlen. intros (? & ? & ? & Hj & ?). split_and!; try done.
    eapply advanced_forall; [done| |done]. by intros w w' (_ & -> & _).
  - rewrite (advanced_after _ _ H), <- Hlen. intros (? & ? & Hj & ?). split_and!; try done. by eapply advanced_upto.
  - rewrite (advanced_after _ _ H), <- Hlen. intros (? & ? & Hj & ?). split_and!; try done. by eapply advanced_upto.
  - apply advanced_forall; [done|]. intros w w' (_ & -> & He) [? ?]. auto.
Qed.

(** ** The invariant *)

Definition queued_of (evs : list event) : list Z := omap (fun e => match e with EvQueued t => Some t | _ => None end) evs.
Definition taken_of (evs : list event) : list Z := omap (fun e => match e with EvTaken _ t => Some t | _ => None end) evs.

Definition bounded (s : ThreadPool) : Prop := 0 < maxQueueSize_ s -> len (queue_ s) <= maxQueueSize_ s.
Definition fifo (evs : list event) (s : ThreadPool) : Prop := queued_of evs = taken_of evs ++ queue_ s.

Definition worker_name (i : nat) : list byte := name ++ fst (snprintf 32 (decimal (Z.of_nat i + 1))).

(** Calls of [run] that some task has left. *)
Definition spawned (subs : list Z) : Prop := exists t l e, prog t = Some (l, e) /\ subs `suffix_of` l.

Definition pc_ok (max : Z) (p : worker_pc) : Prop :=
  match p with
  | WRunning subs _ => spawned subs
  | WRunWait subs _ => 0 < max /\ subs <> [] /\ spawned subs
  | _ => True
  end.

Lemma spawned_tail t subs : spawned (t :: subs) -> spawned subs.
Proof. intros (t' & l & e & Ht & Hs). exists t', l, e. split; [done|]. etransitivity; [|exact Hs]. by apply suffix_cons_r. Qed.

(** What is known of the worker at position [i]. *)
Definition worker_ok (evs : list event) (s : ThreadPool) (i : nat) w : Prop :=
  wname w = worker_name i /\ (running_ s = false -> wpc w <> WWait) /\
  (init <> None -> wpc w <> WInit -> EvInit (Some i) ∈ evs) /\ pc_ok (maxQueueSize_ s) (wpc w).

Record life_inv y : Prop := {
  li_threads : nthreads (pool y) = len (workers y);
  li_none : workers y = [] -> queue_ (pool y) = [];
  li_fifo : fifo (events y) (pool y);
  li_bounded : bounded (pool y);
  li_workers : forall i w, workers y !! i = Some w -> worker_ok (events y) (pool y) i w;
  li_owner : owner_ok (owner y) (script y) (running_ (pool y)) (workers y);
}.

Lemma owner_woken_ok o l r ws : owner_ok o l r ws -> owner_ok (owner_woken o) l r ws.
Proof. by destruct o. Qed.

Lemma woken_ok evs s i w w' : woken_or_same w w' -> worker_ok evs s i w -> worker_ok evs s i w'.
Proof.
  unfold worker_ok. intros [->| ->]; [done|]. unfold woken. destruct (wpc w) eqn:E; cbn; rewrite ?E; try done;
    intros (H1 & H2 & H3 & H4); (split_and!; [done|done| |first [done|by destruct H4 as (_ & _ & ?)]]; intros; by apply H3).
Qed.

Lemma wakes_inv y y' : wakes y y' -> life_inv y -> life_inv y'.
Proof.
  intros [W1 W2 W3 W4 W5 W6] [I1 I2 I3 I4 I5 I6].
  assert (Forall2 advanced (workers y) (workers y')) as Hadv
    by (eapply Forall2_impl; [exact W6|apply woken_advanced]).
  pose proof (Forall2_length _ _ _ Hadv) as Hlen.
  split; rewrite ?W1, ?W2, ?W3; try done.
  - unfold len in *. by rewrite <- Hlen.
  - by rewrite (advanced_nil _ _ Hadv).
  - intros i w' Hi. destruct (Forall2_lookup_r _ _ _ _ _ W6 Hi) as (w & Hw & Hww). eapply woken_ok; eauto.
  - eapply owner_ok_advanced; [exact Hadv|]. destruct W5 as [->| ->]; auto using owner_woken_ok.
Qed.

Lemma signalled_inv sig k y : life_inv y -> life_inv (signalled sig k y).
Proof. apply wakes_inv, signalled_wakes. Qed.

Lemma goto_advanced i p w ws :
  ws !! i = Some w -> wpc w <> WEnded -> Forall2 advanced ws (alter (set_wpc p) i ws).
Proof.
  intros Hi Hw. apply Forall2_alter_r; [by intros w'|]. intros w' Hi'. simplify_eq. split_and!; done.
Qed.

Lemma omap_snoc {A B} (f : A -> option B) (l : list A) x : omap f (l ++ [x]) = omap f l ++ option_list (f x).
Proof. rewrite omap_app. cbn. by destruct (f x). Qed.

(** A worker moves on, with the data and the events as given. *)
Lemma worker_moves y i w p s evs :
  life_inv y -> workers y !! i = Some w -> wpc w <> WEnded ->
  nthreads s = nthreads (pool y) -> running_ s = running_ (pool y) -> maxQueueSize_ s = maxQueueSize_ (pool y) ->
  bounded s -> fifo evs s -> (forall e, e ∈ events y -> e ∈ evs) ->
  (running_ s = false -> p <> WWait) -> pc_ok (maxQueueSize_ (pool y)) p ->
  (init <> None -> p <> WInit -> EvInit (Some i) ∈ evs) ->
  life_inv (mkLife s (alter (set_wpc p) i (workers y)) (owner y) (script y) evs (output y) (dead y)).
Proof.
  intros [I1 I2 I3 I4 I5 I6] Hi Hw Hn Hr Hmax Hb Hf Hevs Hp Hpc Hinit.
  pose proof (goto_advanced i p w _ Hi Hw) as Hadv.
  split; cbn [pool workers owner script events]; try done.
  - unfold len in *. rewrite length_alter. congruence.
  - rewrite (advanced_nil _ _ Hadv). intros E. by rewrite E in Hi.
  - intros j w' Hj. destruct (decide (i = j)) as [<-|Hne].
    + rewrite list_lookup_alter_eq, Hi in Hj. injection Hj as <-. destruct (I5 i w Hi) as (H1 & _). split_and!; try done. by rewrite Hmax.
    + rewrite list_lookup_alter_ne in Hj by done. unfold worker_ok. rewrite Hr, Hmax.
      destruct (I5 j w' Hj) as (H1 & H2 & H3 & H4). split_and!; auto.
  - rewrite Hr. by eapply owner_ok_advanced.
Qed.

(** ** Steps of a worker *)

Lemma fifo_same e evs s : fifo evs s ->
  match e with EvQueued _ | EvTaken _ _ => False | _ => True end -> fifo (evs ++ [e]) s.
Proof. unfold fifo, queued_of, taken_of. rewrite !omap_snoc. intros H He. by destruct e; cbn; rewrite ?app_nil_r. Qed.

Lemma fifo_queued evs s t : fifo evs s -> fifo (evs ++ [EvQueued t]) (set_queue (queue_ s ++ [t]) s).
Proof.
  unfold fifo, queued_of, taken_of. rewrite !omap_snoc. intros ->. cbn. by rewrite app_nil_r, app_assoc.
Qed.

Lemma fifo_taken evs s i t q : fifo evs s -> queue_ s = t :: q -> fifo (evs ++ [EvTaken i t]) (set_queue q s).
Proof.
  unfold fifo, queued_of, taken_of. rewrite !omap_snoc. intros -> ->. cbn. by rewrite app_nil_r, <- app_assoc.
Qed.

(** What [take] and [run] can come to. *)
Lemma take_cases s :
  (take s = Wait notEmpty_ /\ queue_ s = [] /\ running_ s = true) \/
  (take s = Leave s (Taken None) None /\ queue_ s = [] /\ running_ s = false) \/
  (exists t q sig, queue_ s = t :: q /\ take s = Leave (set_queue q s) (Taken (Some t)) sig /\
     match sig with Some (_, true) => False | _ => True end).
Proof.
  unfold take. destruct (queue_ s) as [|t q].
  - cbn. destruct (running_ s); auto.
  - right. right. eexists _, _, _. split_and!; [done..|]. by destruct (0 <? maxQueueSize_ s).
Qed.

Lemma run_cases t s :
  (run t s = Ok (Leave s (RanHere t) None) /\ nthreads s = 0) \/
  (nthreads s <> 0 /\ run t s = Ok (Wait notFull_) /\ 0 < maxQueueSize_ s) \/
  (nthreads s <> 0 /\ (bounded s -> bounded (set_queue (queue_ s ++ [t]) s)) /\
   run t s = Ok (Leave (set_queue (queue_ s ++ [t]) s) (Queued t) (Some (notEmpty_, false)))).
Proof.
  unfold run, isFull, bounded. destruct (Z.eqb_spec (nthreads s) 0); [by left|right].
  destruct (Z.ltb_spec 0 (maxQueueSize_ s)); cbn [andb]; [|right; split_and!; [done| |done]; cbn; lia].
  destruct (Z.leb_spec (maxQueueSize_ s) (len (queue_ s))); [by left|right].
  split_and!; [done| |done]. cbn. rewrite len_app. change (len [t]) with 1. lia.
Qed.

Abbreviation lstep := (life_step name init prog).

Ltac life_simpl := cbn [pool workers owner script events output dead set_pool set_workers set_owner set_script log goto] in *.
Ltac moves y i w :=
  eapply (worker_moves y i w); life_simpl;
  eauto using li_bounded, li_fifo, fifo_same, fifo_taken, fifo_queued; try congruence;
  try (by intros; apply elem_of_app; left); try (by intros; apply elem_of_app; right; constructor); try exact I.

Lemma worker_step_inv i k w y :
  life_inv y -> workers y !! i = Some w -> exists y', worker_step name init prog i k w y = Ok y' /\ life_inv y'.
Proof.
  intros Hy Hi. pose proof (li_workers y Hy i w Hi) as (_ & _ & Hini & Hpc).
  assert (nthreads (pool y) <> 0) as Hn.
  { rewrite (li_threads y Hy). apply lookup_lt_Some in Hi. unfold len. lia. }
  assert (forall e, wpc w <> WEnded -> life_inv (die name w e y)) as Hdie by (intros; by destruct Hy).
  unfold worker_step. destruct (wpc w) as [| | | |subs e|subs e|] eqn:Ew; cbn [pc_ok] in Hpc; try (by eexists).
  - destruct init as [[]|] eqn:Einit; eexists; (split; [reflexivity|]); try (by apply Hdie);
      moves y i w.
  - eexists. split; [reflexivity|]. moves y i w.
    all: by destruct (running_ (pool y)).
  - destruct (take_cases (pool y)) as [(-> & Eq & Er)|[(-> & Eq & Er)|(t & q & sig & Eq & -> & _)]];
      eexists; (split; [reflexivity|]).
    + moves y i w.
    + cbn [signalled]. moves y i w.
    + apply signalled_inv. moves y i w.
      * intros Hm. pose proof (li_bounded y Hy Hm) as Hb. cbn. rewrite Eq, len_cons in Hb. lia.
      * by destruct (prog t) as [[]|].
      * destruct (prog t) as [[l e]|] eqn:Et; [|done]. by exists t, l, e.
      * intros. apply elem_of_app. left. by apply Hini.
  - destruct subs as [|t subs].
    { destruct e; eexists; (split; [reflexivity|]); try (by apply Hdie).
      moves y i w. }
    destruct (run_cases t (pool y)) as [[_ H0]|[(_ & -> & Hm)|(_ & Hb & ->)]]; [done|..];
      cbn [res_bind]; eexists; (split; [reflexivity|]).
    + moves y i w. by split_and!.
    + apply signalled_inv. moves y i w; [by eapply spawned_tail|]. intros. apply elem_of_app. left. by apply Hini.
Qed.

(** ** Steps of the owner *)

(** The owner moves on, with the data and the events as given. *)
Lemma pool_owner_moves y o l s evs :
  life_inv y -> nthreads s = nthreads (pool y) -> running_ s = running_ (pool y) ->
  (workers y <> [] -> maxQueueSize_ s = maxQueueSize_ (pool y)) -> (workers y = [] -> queue_ s = []) ->
  bounded s -> fifo evs s -> (forall e, e ∈ events y -> e ∈ evs) ->
  owner_ok o l (running_ s) (workers y) ->
  life_inv (mkLife s (workers y) o l evs (output y) (dead y)).
Proof.
  intros [I1 I2 I3 I4 I5 I6] Hn Hr Hmax Hq Hb Hf Hevs Ho. split; life_simpl; try done; [congruence|].
  intros i w Hi. unfold worker_ok. rewrite Hr, Hmax by (intros E; by rewrite E in Hi).
  destruct (I5 i w Hi) as (H1 & H2 & H3 & H4). split_and!; auto.
Qed.

Ltac omoves y :=
  eapply (pool_owner_moves y); life_simpl;
  eauto using li_bounded, li_fifo, li_none, fifo_same, fifo_queued; try congruence;
  try (by intros; apply elem_of_app; left).

Lemma run_call_inv t frames k y :
  life_inv y -> owner y = ORun t frames -> exists y', run_call prog t frames k y = Ok y' /\ life_inv y'.
Proof.
  intros Hy Ho. pose proof (li_owner y Hy) as Hok. rewrite Ho in Hok. cbn in Hok. unfold run_call.
  destruct (run_cases t (pool y)) as [[-> H0]|[(_ & -> & _)|(Hn & Hb & ->)]];
    cbn [res_bind]; eexists; (split; [reflexivity|]).
  - unfold call_here. omoves y.
  - omoves y.
  - apply signalled_inv. omoves y. intros E. by rewrite (li_threads y Hy), E in Hn.
Qed.

Lemma here_step_inv frames y : life_inv y -> owner y = OHere frames -> life_inv (here_step frames y).
Proof.
  intros Hy Ho. pose proof (li_owner y Hy) as Hok. rewrite Ho in Hok. cbn in Hok. unfold here_step.
  destruct frames as [|[[|t subs] []] frames]; omoves y.
Qed.

Lemma lookup_snoc_cases {A} (l : list A) x i z : (l ++ [x]) !! i = Some z -> l !! i = Some z \/ (i = length l /\ z = x).
Proof.
  intros H. apply lookup_app_Some in H as [H|[Hle H]]; [by left|right].
  apply list_lookup_singleton_Some in H as [H <-]. split; [lia|done].
Qed.

Lemma start_step_inv n y : life_inv y -> owner y = OStarting n -> life_inv (start_step name init n y).
Proof.
  intros Hy Ho. pose proof (li_owner y Hy) as Hok. rewrite Ho in Hok. cbn in Hok.
  destruct Hok as (Hr & Hn0 & Hle & Hj & Hs). unfold start_step. destruct (Z.ltb_spec (len (workers y)) n) as [Hlt|Hge].
  - destruct Hy as [I1 I2 I3 I4 I5 I6]. split; cbn [new_worker pool workers owner script events nthreads queue_ running_ maxQueueSize_].
    + rewrite len_app. change (len [_]) with 1. lia.
    + intros E. by apply app_eq_nil in E as [_ [=]].
    + done.
    + done.
    + intros i w Hi. apply lookup_snoc_cases in Hi as [Hi|[-> ->]]; [by apply I5|].
      split_and!; cbn; [done|congruence|done|done].
    + rewrite Ho. cbn. rewrite len_app. change (len [_]) with 1. split_and!; try done; [lia|].
      apply Forall_app. split; [done|]. by constructor.
  - assert (owner_ok OReady (script y) (running_ (pool y)) (workers y)) as Hok.
    { cbn. destruct (Z.leb_spec n 0) as [Hz|Hz]; [exists Fresh|exists Started]; (split; [|done]); cbn.
      - destruct (workers y); [done|]. rewrite len_cons in Hle. pose proof (len_nonneg l). lia.
      - split_and!; try done. intros E. rewrite E, len_nil in Hge. lia. }
    destruct init as [e|]; [destruct (Z.eqb_spec n 0)|]; [destruct e|..]; cbn -[owner_ok]; omoves y; cbn -[owner_ok];
      rewrite <- ?app_assoc; cbn; repeat (apply fifo_same; [|done]); try done; intros; by apply elem_of_app; left.
Qed.

Lemma wake_all_workers y :
  workers (wake_all notEmpty_ y) = (fun w => if wwaits notEmpty_ w then woken w else w) <$> workers y.
Proof. done. Qed.

Lemma stop_section_inv d k l y :
  life_inv y -> (forall w, w ∈ workers y -> wjoined w = false) -> script_ok (after_stop (workers y)) l = true ->
  life_inv (stop_section d k (set_script l y)).
Proof.
  intros [I1 I2 I3 I4 I5 I6] Hj Hs. unfold stop_section. cbn [stop signalled].
  set (y' := set_owner _ _). pose proof (signalled_wakes (Some (notEmpty_, true)) k y') as [W1 W2 W3 W4 W5 W6].
  cbn [signalled] in *.
  assert (Forall2 advanced (workers y) (workers (wake_all notEmpty_ y'))) as Hadv
    by (eapply Forall2_impl; [exact W6|apply woken_advanced]).
  split; rewrite ?W1, ?W2, ?W3; life_simpl; cbn [nthreads queue_ running_]; try done.
  - unfold len in *. by rewrite <- (Forall2_length _ _ _ Hadv).
  - by rewrite (advanced_nil _ _ Hadv).
  - intros i w'. rewrite wake_all_workers, list_lookup_fmap_Some. intros (w & -> & Hi).
    assert (worker_ok (events y) (pool y) i (if wwaits notEmpty_ w then woken w else w)) as (H1 & _ & H3 & H4).
    { eapply woken_ok; [|by apply I5]. unfold woken_or_same. destruct (wwaits _ w); auto. }
    split_and!; [done| |done|done]. intros _. unfold wwaits, woken. destruct (wpc w) eqn:E; cbn; by rewrite ?E.
  - change (owner (wake_all notEmpty_ y')) with (OJoining 0 d). cbn [owner_ok]. rewrite (advanced_after _ _ Hadv).
    split_and!; [done|lia| |done]. apply (advanced_upto 0 0 _ _ Hadv). intros n w Hn. split; [lia|].
    rewrite (Hj w); [split; [lia|done]|]. by eapply list_elem_of_lookup_2.
Qed.

Lemma call_step_inv k y :
  life_inv y -> owner y = OReady -> exists y', call_step k y = Ok y' /\ life_inv y'.
Proof.
  intros Hy Ho. pose proof (li_owner y Hy) as Hok. rewrite Ho in Hok. destruct Hok as (ph & Hph & Hs). unfold call_step.
  destruct (script y) as [|op l] eqn:El; [by eexists|].
  assert (forall ph', in_phase ph' (running_ (pool y)) (workers y) -> script_ok ph' l = true ->
    owner_ok OReady l (running_ (pool y)) (workers y)) as Hready by (intros ph' ? ?; by exists ph').
  assert (ph <> Finished -> forall w, w ∈ workers y -> wjoined w = false) as Hjoin.
  { intros Hne w Hw. destruct ph; cbn in Hph; [rewrite Hph in Hw; by apply not_elem_of_nil in Hw| |done].
    destruct Hph as (_ & _ & Hph). by apply (proj1 (Forall_forall _ _) Hph). }
  destruct op as [m|n|t| | |]; cbn [script_ok] in Hs.
  - destruct ph; try done. eexists. split; [reflexivity|]. cbn in Hph.
    omoves y; cbn [set_max nthreads running_ queue_]; rewrite ?Ho; eauto using li_none.
    { intros Hm. cbn [set_max maxQueueSize_ queue_] in *. rewrite (li_none y Hy Hph). change (0 <= u64 m). lia. }
    by apply (Hready Fresh).
  - destruct ph; try done. cbn in Hph. unfold begin_start. life_simpl. rewrite bool_decide_true by done. cbn [cassert res_bind].
    assert (forall o evs, owner_ok o l true [] -> fifo evs (pool y) ->
      life_inv (mkLife (set_running (pool y)) (workers y) o l evs (output y) (dead y))) as Hgo.
    { intros o evs Ho' Hf. destruct Hy as [I1 I2 I3 I4 I5 I6]. rewrite Hph in *.
      split; life_simpl; rewrite ?Hph; cbn [set_running nthreads running_]; try done; auto. }
    destruct (Z.ltb_spec n 0); eexists; (split; [reflexivity|]); apply Hgo.
    + life_simpl. rewrite Ho. exists Fresh. split; [done|]. by rewrite (proj2 (Z.leb_le n 0)) in Hs by lia.
    + apply fifo_same; [apply (li_fifo y Hy)|done].
    + cbn. split_and!; try done.
    + apply (li_fifo y Hy).
  - eexists. split; [reflexivity|]. omoves y.
  - eexists. split; [reflexivity|]. omoves y. rewrite Ho. by apply (Hready ph).
  - eexists. split; [reflexivity|]. apply stop_section_inv; [done|by destruct ph; auto|].
    destruct ph; cbn in Hph; [by rewrite Hph|by destruct Hph as (_ & ? & _); destruct (workers y)|done].
  - apply bool_decide_eq_true in Hs as ->. eexists. split; [reflexivity|]. unfold destroyPool. life_simpl. destruct (running_ (pool y)) eqn:Er.
    + apply stop_section_inv; [done|by destruct ph; [auto..|destruct Hph]|by destruct (workers y)].
    + omoves y. rewrite Er in *. destruct ph; cbn in *; [by rewrite Hph|by destruct Hph|by destruct Hph].
Qed.

Lemma join_step_inv i d y : life_inv y -> owner y = OJoining i d -> exists y', join_step i d y = Ok y' /\ life_inv y'.
Proof.
  intros Hy Ho. pose proof (li_owner y Hy) as Hok. rewrite Ho in Hok. destruct Hok as (Hr & Hi & Hj & Hs). unfold join_step.
  destruct (workers y !! i) as [w|] eqn:Ei.
  - destruct (Hj i w Ei) as [_ Hjw]. destruct (wjoined w) eqn:Ej; [pose proof (proj2 Hjw eq_refl); lia|].
    cbn [negb cassert res_bind]. eexists. split; [reflexivity|]. pose proof (lookup_lt_Some _ _ _ Ei).
    destruct Hy as [I1 I2 I3 I4 I5 I6]. split; life_simpl; try done.
    + unfold len in *. by rewrite length_alter.
    + intros E. by rewrite <- length_zero_iff_nil, length_alter, length_zero_iff_nil in E; auto.
    + intros n w' Hn. destruct (decide (i = n)) as [<-|Hne].
      * rewrite list_lookup_alter_eq, Ei in Hn. injection Hn as <-. exact (I5 i w Ei).
      * rewrite list_lookup_alter_ne in Hn by done. by apply I5.
    + cbn. rewrite length_alter. split_and!; [done|done| |by destruct (workers y); destruct i].
      intros n w' Hn. destruct (decide (i = n)) as [<-|Hne].
      * rewrite list_lookup_alter_eq, Ei in Hn. injection Hn as <-. cbn. split; [lia|]. split; [done|lia].
      * rewrite list_lookup_alter_ne in Hn by done. destruct (Hj n w' Hn) as [H1 H2]. split; [done|]. rewrite <- H2. lia.
  - eexists. split; [reflexivity|]. apply lookup_ge_None in Ei.
    assert (Forall (fun w => wjoined w = true /\ wpc w = WEnded) (workers y)) as Hall.
    { apply Forall_lookup_2. intros n w Hn. pose proof (lookup_lt_Some _ _ _ Hn). destruct (Hj n w Hn) as [H1 H2].
      split; [apply H2; lia|apply H1; lia]. }
    omoves y. destruct d; [done|]. cbn. exists (after_stop (workers y)). split; [|done].
    destruct (workers y); [done|by split].
Qed.

Lemma join_wait_inv i d y : life_inv y -> owner y = OJoinWait i d -> life_inv (join_wait_step i d y).
Proof.
  intros Hy Ho. pose proof (li_owner y Hy) as Hok. rewrite Ho in Hok. destruct Hok as (Hr & Hi & Hj & Hs).
  unfold join_wait_step. destruct (workers y !! i) as [w|] eqn:Ei; [|done]. destruct (wended w) eqn:Ee; [|done].
  omoves y. split_and!; [done|lia| |done]. intros n w' Hn. destruct (Hj n w' Hn) as [H1 H2]. split; [|done].
  intros Hlt. destruct (decide (n = i)) as [->|]; [|apply H1; lia]. simplify_eq. unfold wended in Ee. by destruct (wpc w).
Qed.

(** The owner's step keeps the invariant, and so does every step. *)
Lemma pool_owner_step_inv k y : life_inv y -> exists y', owner_step name init prog k y = Ok y' /\ life_inv y'.
Proof.
  intros Hy. unfold owner_step. destruct (owner y) eqn:Ho; try (by eexists);
    eauto using call_step_inv, start_step_inv, run_call_inv, here_step_inv, join_step_inv, join_wait_inv.
Qed.

Lemma life_step_inv y m : life_inv y -> exists y', lstep y m = Ok y' /\ life_inv y'.
Proof.
  intros Hy. unfold life_step. destruct (dead y); [by eexists|]. destruct m as [k|i k| |i].
  - by apply pool_owner_step_inv.
  - destruct (workers y !! i) as [w|] eqn:Hi; [|by eexists].
    pose proof (li_owner y Hy) as Hok. destruct (owner y) eqn:Ho; try (by eapply worker_step_inv).
    cbn in Hok. destruct (Forall_lookup_1 _ _ _ _ Hok Hi) as [_ He]. unfold wended. rewrite He. by eexists.
  - eexists. split; [reflexivity|]. eapply wakes_inv; [apply wake_owner_wakes|done].
  - eexists. split; [reflexivity|]. eapply wakes_inv; [apply wake_workers_wakes|done].
Qed.

Lemma pool_life_run_inv sch y : life_inv y -> exists y', res_fold lstep y sch = Ok y' /\ life_inv y'.
Proof.
  revert y. induction sch as [|m sch IH]; intros y Hy; [by exists y|].
  destruct (life_step_inv y m Hy) as (y1 & E & H1). cbn [res_fold]. rewrite E. by apply IH.
Qed.

Lemma newLife_inv l : script_ok Fresh l = true -> life_inv (newLife l).
Proof. intros Hl. split; try done. by exists Fresh. Qed.

(** ** How much is left to do while the threads are joined *)

Definition joining y : bool := match owner y with OJoining _ _ | OJoinWait _ _ => true | _ => false end.

(** The queue is not bounded, or tasks do not call [run]. *)
Definition calm y : Prop := maxQueueSize_ (pool y) = 0 \/ forall t l e, prog t = Some (l, e) -> l = [].

(** Steps left for a worker, when tasks call [run] at most [m] times, and for the owner. *)
Definition worker_work (m : nat) w : nat :=
  match wpc w with
  | WEnded => 0 | WTest => 1 | WInit => 2 | WRunning subs _ => length subs + 2 | WTake => m + 3 | _ => 0
  end.

Definition owner_work (n : nat) (o : owner_pc) : nat :=
  match o with OJoining i _ => 2 * (n - i) + 1 | OJoinWait i _ => 2 * (n - i) | _ => 0 end.

Definition work (m : nat) y : nat :=
  if dead y then 0 else 1 + sum_list_with (worker_work m) (workers y) + owner_work (length (workers y)) (owner y).

Lemma sum_alter {A} (f : A -> nat) (g : A -> A) i (l : list A) x :
  l !! i = Some x -> (sum_list_with f (alter g i l) + f x = sum_list_with f l + f (g x))%nat.
Proof.
  revert i. induction l as [|z l IH]; intros [|i] H; [done..| |].
  - cbn in *. simplify_eq. lia.
  - change (alter g (S i) (z :: l)) with (z :: alter g i l). cbn in *. specialize (IH i H). lia.
Qed.

Lemma goto_work m i p w y y' :
  dead y = false -> workers y !! i = Some w -> workers y' = alter (set_wpc p) i (workers y) -> owner y' = owner y ->
  (worker_work m (set_wpc p w) < worker_work m w)%nat -> (work m y' < work m y)%nat.
Proof.
  intros Hd Hi Hws Ho Hlt. unfold work. rewrite Hd, Hws, Ho, length_alter.
  pose proof (sum_alter (worker_work m) (set_wpc p) i _ _ Hi). destruct (dead y'); lia.
Qed.

Lemma die_work m w e y : dead y = false -> (work m (die name w e y) < work m y)%nat.
Proof. intros Hd. unfold work. rewrite Hd. cbn. lia. Qed.

Lemma wake_one_none c k y :
  (forall i w, workers y !! i = Some w -> wwaits c w = false) -> owner_waits c (owner y) = false -> wake_one c k y = y.
Proof.
  intros Hw Ho. unfold wake_one. rewrite Ho. destruct (workers y !! k) as [w|] eqn:Ek; cbn [from_option].
  1: rewrite (Hw k w Ek). all: destruct (list_find _ _) as [[j w']|] eqn:Ef; [|done];
    apply list_find_Some in Ef as (Hj & Hw' & _); by rewrite (Hw j w' Hj) in Hw'.
Qed.

Lemma joining_running y : life_inv y -> joining y = true -> running_ (pool y) = false.
Proof. intros Hy Hj. pose proof (li_owner y Hy) as Ho. unfold joining in Hj. by destruct (owner y); try done; destruct Ho. Qed.

(** While the owner joins nobody sleeps. *)
Lemma joining_awake y i w :
  life_inv y -> joining y = true -> calm y -> workers y !! i = Some w ->
  wpc w <> WWait /\ forall subs e, wpc w <> WRunWait subs e.
Proof.
  intros Hy Hj Hc Hi. destruct (li_workers y Hy i w Hi) as (_ & Hs & _ & Hpc).
  pose proof (joining_running y Hy Hj). split; [auto|]. intros subs e E. rewrite E in Hpc. destruct Hpc as (Hm & Hne & t & l & e' & Ht & Hsuf).
  destruct Hc as [Hc|Hc]; [lia|]. rewrite (Hc _ _ _ Ht) in Hsuf. by apply suffix_nil_inv in Hsuf.
Qed.

Lemma signalled_none sig k y i p w :
  match sig with Some (_, true) => False | _ => True end ->
  (forall j w', workers y !! j = Some w' -> j <> i -> wpc w' <> WWait /\ forall subs e, wpc w' <> WRunWait subs e) ->
  workers y !! i = Some (set_wpc p w) -> (forall c, wwaits c (set_wpc p w) = false) -> joining y = true ->
  signalled sig k y = y.
Proof.
  intros Hsig Hw Hi Hp Hj. destruct sig as [[c []]|]; [done| |done]. apply wake_one_none.
  - intros j w' Hw'. destruct (decide (j = i)) as [->|Hne]; [simplify_eq; auto|].
    destruct (Hw j w' Hw' Hne) as [H1 H2]. unfold wwaits. destruct (wpc w') eqn:E; try done. by destruct (H2 subs ends).
  - unfold joining in Hj. by destruct (owner y), c.
Qed.

(** The join is still going on and there is less to do. *)
Definition closer (m : nat) y y' : Prop :=
  (work m y' < work m y)%nat /\ joining y' = true /\ maxQueueSize_ (pool y') = maxQueueSize_ (pool y).

Lemma go_on m i k p w y y' sig :
  life_inv y -> dead y = false -> joining y = true -> calm y -> workers y !! i = Some w ->
  workers y' = alter (set_wpc p) i (workers y) -> owner y' = owner y ->
  maxQueueSize_ (pool y') = maxQueueSize_ (pool y) -> (forall c, wwaits c (set_wpc p w) = false) ->
  (worker_work m (set_wpc p w) < worker_work m w)%nat -> match sig with Some (_, true) => False | _ => True end ->
  closer m y (signalled sig k y').
Proof.
  intros Hy Hd Hj Hc Hi Hws Ho Hmax Hp Hlt Hsig.
  assert (joining y' = true) as Hj' by (unfold joining in *; by rewrite Ho).
  rewrite (signalled_none sig k y' i p w); auto.
  - split_and!; try done. eapply goto_work; eauto.
  - intros j w' Hw' Hne. rewrite Hws, list_lookup_alter_ne in Hw' by done. by eapply joining_awake.
  - by rewrite Hws, list_lookup_alter_eq, Hi.
Qed.

Lemma die_closer m w e y : dead y = false -> joining y = true -> closer m y (die name w e y).
Proof. intros Hd Hj. split_and!; [by apply die_work|done..]. Qed.

(** A worker that has not ended can take a step, and then has less to do. *)
Lemma worker_progress m i k w y :
  (forall t l e, prog t = Some (l, e) -> (length l <= m)%nat) ->
  life_inv y -> dead y = false -> joining y = true -> calm y -> workers y !! i = Some w -> wpc w <> WEnded ->
  exists y', worker_step name init prog i k w y = Ok y' /\ closer m y y'.
Proof.
  intros Hm Hy Hd Hj Hc Hi He. pose proof (joining_running y Hy Hj) as Hr.
  destruct (joining_awake y i w Hy Hj Hc Hi) as [Hw1 Hw2]. destruct (li_workers y Hy i w Hi) as (_ & _ & _ & Hpc).
  assert (nthreads (pool y) <> 0) as Hn.
  { rewrite (li_threads y Hy). apply lookup_lt_Some in Hi. unfold len. lia. }
  unfold worker_step. destruct (wpc w) as [| | | |subs e|subs e|] eqn:Ew; try done; [..|by destruct (Hw2 subs e)].
  - destruct init as [[]|]; eexists; (split; [reflexivity|]); try (by apply die_closer);
      eapply (go_on m i k WTest w y _ None); try done; unfold worker_work; rewrite Ew; cbn; lia.
  - rewrite Hr. eexists. split; [reflexivity|]. eapply (go_on m i k WEnded w y _ None); try done.
    unfold worker_work. rewrite Ew. cbn. lia.
  - destruct (take_cases (pool y)) as [(_ & _ & Er)|[(-> & Eq & Er)|(t & q & sig & Eq & -> & Hsig)]];
      [congruence|eexists; (split; [reflexivity|])..].
    + eapply (go_on m i k WTest w y); try done. unfold worker_work. rewrite Ew. cbn. lia.
    + destruct (prog t) as [[l e]|] eqn:Et; [eapply (go_on m i k (WRunning l e) w y)|eapply (go_on m i k WTest w y)]; try done;
        unfold worker_work; rewrite Ew; cbn; [specialize (Hm _ _ _ Et)|]; lia.
  - destruct subs as [|t subs].
    { destruct e; eexists; (split; [reflexivity|]); try (by apply die_closer).
      eapply (go_on m i k WTest w y _ None); try done. unfold worker_work. rewrite Ew. cbn. lia. }
    destruct (run_cases t (pool y)) as [[_ H0]|[(_ & -> & Hmx)|(_ & Hb & ->)]]; [done|..].
    + destruct Hpc as (t' & l & e' & Ht & Hsuf). destruct Hc as [Hc|Hc]; [lia|].
      rewrite (Hc _ _ _ Ht) in Hsuf. by apply suffix_nil_inv in Hsuf.
    + cbn [res_bind]. eexists. split; [reflexivity|]. eapply (go_on m i k (WRunning subs e) w y); try done.
      unfold worker_work. rewrite Ew. cbn. lia.
Qed.

(** The owner waits for a worker, or has less to do, or is done with joining. *)
Definition over y : Prop := joining y = false /\ Forall (fun w => wjoined w = true /\ wpc w = WEnded) (workers y).

Lemma owner_progress m k y :
  life_inv y -> dead y = false -> joining y = true ->
  exists y', owner_step name init prog k y = Ok y' /\
    ((y' = y /\ exists i w, workers y !! i = Some w /\ wpc w <> WEnded) \/
     closer m y y' \/ (work m y' < work m y)%nat /\ over y').
Proof.
  intros Hy Hd Hj. pose proof (li_owner y Hy) as Ho. unfold owner_step. unfold joining in Hj.
  destruct (owner y) as [| | | | |i d|i d|] eqn:Eo; try done; destruct Ho as (_ & Hle & Hjn & _).
  - unfold join_step. destruct (workers y !! i) as [w|] eqn:Ei.
    + destruct (Hjn i w Ei) as [_ Hjw]. destruct (wjoined w) eqn:Ej; [pose proof (proj2 Hjw eq_refl); lia|].
      cbn [negb cassert res_bind]. eexists. split; [reflexivity|]. right. left. split_and!; [|done..].
      unfold work. cbn. rewrite Hd, Eo, length_alter. cbn.
      pose proof (sum_alter (worker_work m) set_wjoined i _ _ Ei) as Hsum.
      change (worker_work m (set_wjoined w)) with (worker_work m w) in Hsum. lia.
    + eexists. split; [reflexivity|]. right. right. apply lookup_ge_None in Ei. split; [unfold work; cbn; rewrite Hd, Eo; destruct d; cbn; lia|].
      split; [by destruct d|]. apply Forall_lookup_2. intros n w Hn. pose proof (lookup_lt_Some _ _ _ Hn).
      destruct (Hjn n w Hn) as [H1 H2]. split; [apply H2; cbn in *; lia|apply H1; cbn in *; lia].
  - eexists. split; [reflexivity|]. unfold join_wait_step. destruct (lookup_lt_is_Some_2 (workers y) i Hle) as [w Hw].
    rewrite Hw. destruct (wended w) eqn:Ew.
    + right. left. split_and!; [|done..]. unfold work. cbn. rewrite Hd, Eo. cbn. lia.
    + left. split; [done|]. exists i, w. split; [done|]. intros E. unfold wended in Ew. by rewrite E in Ew.
Qed.

Lemma woken_awake w : wpc w <> WWait -> (forall subs e, wpc w <> WRunWait subs e) -> woken w = w.
Proof. intros H1 H2. unfold woken. destruct (wpc w) eqn:E; try done. by destruct (H2 subs ends). Qed.

(** Any step while the owner joins leaves everything as it is or brings the end closer. *)
Lemma step_progress m y mv :
  (forall t l e, prog t = Some (l, e) -> (length l <= m)%nat) ->
  life_inv y -> joining y = true -> calm y ->
  exists y', lstep y mv = Ok y' /\ (y' = y \/ closer m y y' \/ (work m y' < work m y)%nat /\ over y').
Proof.
  intros Hm Hy Hj Hc. unfold life_step. destruct (dead y) eqn:Hd; [eauto|]. destruct mv as [k|i k| |i].
  - destruct (owner_progress m k y Hy Hd Hj) as (y' & E & [[? _]|H]); eauto.
  - destruct (workers y !! i) as [w|] eqn:Hi; [|eauto].
    assert (exists y', worker_step name init prog i k w y = Ok y' /\ (y' = y \/ closer m y y')) as (y' & E & H).
    { destruct (wpc w) eqn:Ew; try (edestruct (worker_progress m i k w y) as (y' & ? & ?); eauto; congruence).
      unfold worker_step. rewrite Ew. eauto. }
    exists y'. split; [|by destruct H; auto]. unfold joining in Hj. by destruct (owner y).
  - eexists. split; [reflexivity|]. left. unfold joining in Hj. by destruct y as [? ? []].
  - eexists. split; [reflexivity|]. left. destruct (workers y !! i) as [w|] eqn:Hi.
    + destruct (joining_awake y i w Hy Hj Hc Hi). rewrite (alter_some _ _ _ _ Hi), woken_awake, list_insert_id by done.
      by destruct y.
    + rewrite alter_none by done. by destruct y.
Qed.

(** A step that changes something while the owner joins. *)
Definition joins_on y y' : Prop := joining y = true /\ y' <> y /\ exists mv, lstep y mv = Ok y'.

Lemma joining_not_stuck m y :
  (forall t l e, prog t = Some (l, e) -> (length l <= m)%nat) ->
  life_inv y -> dead y = false -> joining y = true -> calm y -> exists y', joins_on y y'.
Proof.
  intros Hm Hy Hd Hj Hc. destruct (owner_progress m 0 y Hy Hd Hj) as (y' & E & H).
  assert (forall y2 mv, lstep y mv = Ok y2 -> (work m y2 < work m y)%nat -> exists y', joins_on y y') as Hgo.
  { intros y2 mv E2 Hlt. exists y2. split_and!; [done| |by exists mv]. intros ->. lia. }
  destruct H as [[_ (i & w & Hi & Hw)]|[[H _]|[H _]]].
  - destruct (worker_progress m i 0 w y) as (y2 & E2 & Hlt & _); try done. apply (Hgo y2 (MWorker i 0)); [|done].
    unfold life_step. rewrite Hd, Hi. unfold joining in Hj. by destruct (owner y).
  - apply (Hgo y' (MOwner 0)); [|done]. unfold life_step. by rewrite Hd.
  - apply (Hgo y' (MOwner 0)); [|done]. unfold life_step. by rewrite Hd.
Qed.

Lemma joins_on_step m y y' :
  (forall t l e, prog t = Some (l, e) -> (length l <= m)%nat) ->
  life_inv y -> calm y -> joins_on y y' ->
  life_inv y' /\ (work m y' < work m y)%nat /\ (joining y' = true /\ calm y' \/ over y').
Proof.
  intros Hm Hy Hc (Hj & Hne & mv & E).
  destruct (life_step_inv y mv Hy) as (y1 & E1 & Hy1). rewrite E in E1. injection E1 as <-.
  destruct (step_progress m y mv Hm Hy Hj Hc) as (y1 & E1 & H). rewrite E in E1. injection E1 as <-.
  destruct H as [->|[(H1 & H2 & H3)|[H1 H2]]]; [done|..]; split_and!; auto.
  left. split; [done|]. unfold calm in *. by rewrite H3.
Qed.

(** At most as many steps as there is work, whatever the order. *)
Lemma joins_bounded m n y y' :
  (forall t l e, prog t = Some (l, e) -> (length l <= m)%nat) ->
  life_inv y -> calm y -> nsteps joins_on n y y' -> (n <= work m y)%nat.
Proof.
  intros Hm Hy Hc Hn. revert Hy Hc. induction Hn as [|n y y1 y' H1 H2 IH]; intros Hy Hc; [lia|].
  destruct (joins_on_step m y y1 Hm Hy Hc H1) as (Hy1 & Hlt & [[Hj Hc1]|[Hover _]]).
  - specialize (IH Hy1 Hc1). lia.
  - destruct H2 as [|n y1 y2 y3 (Hj & _)]; [lia|congruence].
Qed.

Lemma joins_end m y y' :
  (forall t l e, prog t = Some (l, e) -> (length l <= m)%nat) ->
  life_inv y -> joining y = true -> calm y -> rtc joins_on y y' -> (forall z, ~ joins_on y' z) -> dead y' = true \/ over y'.
Proof.
  intros Hm Hy Hj Hc Hr Hend. revert Hy Hj Hc. induction Hr as [y|y y1 y' H1 H2 IH]; intros Hy Hj Hc.
  - destruct (dead y) eqn:Hd; [by left|]. destruct (joining_not_stuck m y Hm Hy Hd Hj Hc) as [z Hz]. by destruct (Hend z).
  - destruct (joins_on_step m y y1 Hm Hy Hc H1) as (Hy1 & _ & [[Hj1 Hc1]|[Hj1 Hall]]); [by apply IH|].
    destruct H2 as [|y1 y2 y3 (Hj2 & _)]; [by right|congruence].
Qed.
End Properties.

(** ** The life of a pool *)

(** C30: However the owner and the workers interleave, an owner - one thread - that
    keeps to the rules of [script_ok] (start at most once, no second stop, the queue
    bounded before start, nothing after the destructor) trips no assert and no worker touches the pool after it is destroyed.  Tasks are
    taken in the order they were queued, and those not taken are in the queue, which
    keeps its bound.  Workers have their names and begin with the initial callback;
    when the pool is destroyed all of them are joined and over.  That the owner comes
    to its end is not said here, and is not so in [reentrant_run_hangs]. *)
Theorem pool_life name init prog l sch :
  script_ok Fresh l = true ->
  exists y, res_fold (life_step name init prog) (newLife l) sch = Ok y /\
    queued_of (events y) = taken_of (events y) ++ queue_ (pool y) /\
    (0 < maxQueueSize_ (pool y) -> len (queue_ (pool y)) <= maxQueueSize_ (pool y)) /\
    (forall i w, workers y !! i = Some w ->
       wname w = name ++ fst (snprintf 32 (decimal (Z.of_nat i + 1))) /\
       (init <> None -> wpc w <> WInit -> EvInit (Some i) ∈ events y)) /\
    (owner y = OGone -> Forall (fun w => wjoined w = true /\ wpc w = WEnded) (workers y)).
Proof.
  intros Hl. destruct (pool_life_run_inv (name := name) (init := init) (prog := prog) sch _ (newLife_inv l Hl)) as (y & E & [I1 I2 I3 I4 I5 I6]).
  exists y. split_and!; [exact E|exact I3|exact I4| |].
  - intros i w Hi. destruct (I5 i w Hi) as (H1 & _ & H3 & _). auto.
  - intros Ho. by rewrite Ho in I6.
Qed.

(** C31: [stop] returns.  For an owner that keeps to the rules, from the moment [stop]
    has told the workers, if the queue is not bounded or tasks do not call [run], and no
    task calls [run] more than [m] times:
    no order of steps goes on for longer than the work that is left, whatever is
    still queued; and when nothing can go on any more, either an exception has ended
    the process or every thread has been joined and is over. *)
Theorem stop_returns name init prog m l sch y :
  script_ok Fresh l = true ->
  (forall t subs e, prog t = Some (subs, e) -> (length subs <= m)%nat) ->
  res_fold (life_step name init prog) (newLife l) sch = Ok y -> joining y = true -> calm (prog := prog) y ->
  (forall n y', nsteps (joins_on (name := name) (init := init) (prog := prog)) n y y' -> (n <= work m y)%nat) /\
  (forall y', rtc (joins_on (name := name) (init := init) (prog := prog)) y y' ->
     (forall z, ~ joins_on (name := name) (init := init) (prog := prog) y' z) -> dead y' = true \/ over y').
Proof.
  intros Hl Hm E Hj Hc. destruct (pool_life_run_inv (name := name) (init := init) (prog := prog) sch _ (newLife_inv l Hl)) as (y0 & E0 & Hy). rewrite E in E0. injection E0 as <-.
  split; [intros; by eapply joins_bounded|intros; by eapply joins_end].
Qed.

(** ** What goes wrong *)

(** A task of number 1 calls [run] twice. *)
Definition twice (t : Z) : option (list Z * func_end) := if t =? 1 then Some ([2; 3], Returns) else Some ([], Returns).

(** The only worker sleeps in the [run] of a task, the owner waits for it. *)
Definition stuck (y : life) : Prop :=
  dead y = false /\ owner y = OJoinWait 0 true /\ queue_ (pool y) = [2] /\ maxQueueSize_ (pool y) = 1 /\
  nthreads (pool y) = 1 /\
  exists nm, workers y = [mkWorker nm (WRunning [3] Returns) true] \/ workers y = [mkWorker nm (WRunWait [3] Returns) true].

Lemma stuck_step y mv : stuck y -> exists y', life_step [] None twice y mv = Ok y' /\ stuck y'.
Proof.
  destruct y as [[n q mx r] ws o l evs out d]. intros (Hd & Ho & Hq & Hmx & Hn & nm & Hws). cbn in *. subst d o q mx n.
  assert (forall w, w = mkWorker nm (WRunning [3] Returns) true \/ w = mkWorker nm (WRunWait [3] Returns) true ->
    stuck (mkLife (mkPool 1 [2] 1 r) [w] (OJoinWait 0 true) l evs out false)) as Hok.
  { intros w [->| ->]; split_and!; try done; exists nm; auto. }
  destruct mv as [k|[|i] k| |[|i]]; destruct Hws as [->| ->]; (eexists; split; [reflexivity|]); apply Hok; auto.
Qed.

(** A task that calls [run] on its own pool can fill a bounded queue that only it
    could empty: the destructor then never returns. *)
Lemma reentrant_run_hangs :
  exists y, res_fold (life_step [] None twice) (newLife [SetMaxQueueSize 1; StartPool 1; RunT 1; DestroyPool])
      (replicate 7 (MOwner 0) ++ replicate 3 (MWorker 0 0) ++ replicate 2 (MWorker 0 0) ++ replicate 2 (MOwner 0)) = Ok y /\
    forall sch, exists y', res_fold (life_step [] None twice) y sch = Ok y' /\ owner y' <> OGone.
Proof.
  eexists. split; [vm_compute; reflexivity|].
  match goal with |- forall sch, exists y', res_fold _ ?y0 sch = _ /\ _ => assert (stuck y0) as Hy end.
  { split_and!; try reflexivity. eexists. by right. }
  match type of Hy with stuck ?y0 => generalize dependent y0 end.
  intros y Hy sch. revert y Hy. induction sch as [|mv sch IH]; intros y Hy.
  - exists y. split; [done|]. destruct Hy as (_ & -> & _). done.
  - destruct (stuck_step y mv Hy) as (y1 & E & H1). cbn [res_fold]. rewrite E. by apply IH.
Qed.

(** [stop] leaves the joined threads in the pool: a second [stop], or a new [start],
    fails an assert. *)
Lemma stop_is_final :
  let run_all l := res_fold (life_step [] None twice) (newLife l)
    (replicate 3 (MOwner 0) ++ replicate 2 (MWorker 0 0) ++ [MOwner 0; MWorker 0 0; MWorker 0 0; MWorker 0 0] ++ replicate 6 (MOwner 0)) in
  run_all [StartPool 1; Stop; Stop] = Fail AssertFailed /\ run_all [StartPool 1; Stop; StartPool 1] = Fail AssertFailed /\
  is_ok (run_all [StartPool 1; Stop; DestroyPool]) = true.
Proof. split_and!; vm_compute; reflexivity. Qed.

(** An exception that no handler knows passes the handlers of the pool and of the thread. *)
Lemma unknown_exception_output :
  exists y, res_fold (life_step (bytes_of_string "p") None (fun _ => Some ([], ThrowsOther))) (newLife [StartPool 1; RunT 5])
      (replicate 5 (MOwner 0) ++ replicate 4 (MWorker 0 0)) = Ok y /\
    dead y = true /\ output y = [bytes_of_string "unknown exception caught in ThreadPool p" ++ [x0a];
      bytes_of_string "unknown exception caught in Thread p1" ++ [x0a]].
Proof. eexists. split; [vm_compute; reflexivity|]. split; reflexivity. Qed.

(** *** Witnesses *)

(** Two workers, one of them in a task that calls [run], when the pool is stopped. *)
Definition demo_sch : list move :=
  replicate 7 (MOwner 0) ++ replicate 3 (MWorker 0 0) ++ replicate 2 (MWorker 1 0) ++ [MOwner 0].

Lemma pool_life_witness :
  exists y, res_fold (life_step [] None twice) (newLife [StartPool 2; RunT 1; Stop; DestroyPool]) demo_sch = Ok y /\
    queued_of (events y) = taken_of (events y) ++ queue_ (pool y).
Proof.
  destruct (pool_life [] None twice [StartPool 2; RunT 1; Stop; DestroyPool] demo_sch eq_refl) as (y & H1 & H2 & _).
  by exists y.
Defined.

Lemma stop_returns_witness :
  exists y, res_fold (life_step [] None twice) (newLife [StartPool 2; RunT 1; Stop; DestroyPool]) demo_sch = Ok y /\
    joining y = true /\ queue_ (pool y) = [] /\
    forall n y', nsteps (joins_on (name := []) (init := None) (prog := twice)) n y y' -> (n <= work 2 y)%nat.
Proof.
  eexists. split; [vm_compute; reflexivity|]. split; [reflexivity|]. split; [reflexivity|].
  apply (stop_returns [] None twice 2 [StartPool 2; RunT 1; Stop; DestroyPool] demo_sch); [reflexivity| |vm_compute; reflexivity|reflexivity|by left].
  intros t subs e. unfold twice. destruct (t =? 1); intros [= <- _]; cbn; lia.
Defined.
