(* ===== verification/MysqlCache.v ===== *)
(** * The TCP/MySQL server (src/src/tcpmysql)

    [MysqlServer::process] formats the answer of the database, a parameter.
    [TcpMysqlServer] keeps its connections in a least-recently-used list with
    an index into it, and a table of recent statements whose entries are dropped
    by a wheel of buckets that turns once a second.  List iterators are node
    identities, weak pointers are object identities that may have expired. *)

From S2P Require Import Prelude.

(** ** MysqlServer *)

(** What mysql_store_result and the calls around it deliver: nothing, with
    mysql_errno and mysql_error, or a table whose cells may be SQL NULL. *)
Inductive sql_result :=
| NoResult (errno : Z) (error : list byte)
| Result (num_fields : Z) (rows : list (list (option (list byte)))).

(** The bytes of a [char*] up to its terminator. *)
Fixpoint c_str (l : list byte) : list byte :=
  match l with
  | [] => []
  | b :: l' => if bool_decide (b = x00) then [] else b :: c_str l'
  end.

Definition to_string (n : Z) : list byte := bytes_of_string (pretty n).

Definition tab : list byte := [x09].
Definition newline : list byte := [x0a].

(** [static_cast<string>(row[i])]: a null pointer makes the constructor throw. *)
Definition cell (c : option (list byte)) : res (list byte) :=
  match c with
  | Some v => Ok (c_str v)
  | None => Fail (Thrown (logic_error "basic_string: construction from null is not valid"))
  end.

(** The inner loop over the fields of a row; a row has no cell beyond its end. *)
Fixpoint format_row (num_fields : nat) (row : list (option (list byte))) (acc : list byte)
    : res (list byte) :=
  match num_fields with
  | O => Ok (acc ++ newline)
  | S n =>
      match row with
      | [] => Fail OutOfRange
      | c :: row' => let! v := cell c in format_row n row' (acc ++ v ++ tab)
      end
  end.

Section Process.
Context {DB : Type} (mysql : DB -> list byte -> DB * sql_result).

Definition process (db : DB) (sql : list byte) : res (DB * list byte) :=
  let '(db', result) := mysql db (c_str sql) in
  match result with
  | NoResult errno error =>
      Ok (db', bytes_of_string "error " ++ to_string errno ++ bytes_of_string ": "
               ++ c_str error ++ newline)
  | Result fields rows =>
      let num_rows := i32 (len rows) in
      let num_fields := i32 fields in
      let head := bytes_of_string "number of rows:" ++ to_string num_rows ++ newline
                  ++ bytes_of_string "number of fields" ++ to_string num_fields ++ newline in
      if num_rows <? 0 then Fail OutOfRange
      else
        let! out := res_fold (fun acc row => format_row (Z.to_nat num_fields) row acc) head
                      (take (Z.to_nat num_rows) rows) in
        Ok (db', out)
  end.
End Process.

(** ** The wheel: boost::circular_buffer of buckets *)

Abbreviation Bucket := (list Z).

Record SqlStmtList := mkSqlStmtList { capacity : Z; buckets : list Bucket }.

(** The constructor with a capacity, followed by [resize]. *)
Definition newSqlStmtList (idleSeconds : Z) : SqlStmtList :=
  mkSqlStmtList idleSeconds (replicate (Z.to_nat idleSeconds) []).

(** [push_back] overwrites the front of a full buffer. *)
Definition push_back (b : Bucket) (l : SqlStmtList) : SqlStmtList :=
  if capacity l =? 0 then l
  else if len (buckets l) =? capacity l
       then mkSqlStmtList (capacity l) (drop 1 (buckets l) ++ [b])
       else mkSqlStmtList (capacity l) (buckets l ++ [b]).

(** [back().insert(ptr)] on a set of pointers. *)
Definition insert_back (k : Z) (l : SqlStmtList) : res SqlStmtList :=
  match last (buckets l) with
  | None => Fail OutOfRange
  | Some b =>
      let b' := if bool_decide (k ∈ b) then b else b ++ [k] in
      Ok (mkSqlStmtList (capacity l) (take (length (buckets l) - 1) (buckets l) ++ [b']))
  end.

(** ** TcpMysqlServer *)

Definition SIZECONN : Z := 1000.

(** A statement object; [weaksql_] names the (query, answer) pair. *)
Record SqlStmt := mkSqlStmt { weaksql_ : Z }.

Record Server (DB : Type) := mkServer {
  lrulist_ : list (Z * Z);            (** nodes: identity and connection *)
  lrumap_ : gmap Z Z;                 (** connection to node *)
  nextNode : Z;
  sqlstmtlist_ : SqlStmtList;
  sqlchecklist_ : gmap (list byte) Z; (** query to weak statement *)
  stmts : gmap Z SqlStmt;             (** statement objects *)
  pairs : gmap Z (list byte * list byte); (** pairs some shared_ptr still owns *)
  mysqlserver_ : DB;
}.
Arguments mkServer {DB}.
Arguments lrulist_ {DB}.
Arguments lrumap_ {DB}.
Arguments nextNode {DB}.
Arguments sqlstmtlist_ {DB}.
Arguments sqlchecklist_ {DB}.
Arguments stmts {DB}.
Arguments pairs {DB}.
Arguments mysqlserver_ {DB}.

(** Effects on connections. *)
Inductive action :=
| AShutdown (conn : Z)
| ASend (conn : Z) (data : list byte).

(** [boost::any] holding what the code puts into it, and the cast it asks for. *)
Inductive any :=
| AnySqlPtr (pair : Z)
| AnyWeakSqlStmtPtr (stmt : Z).

Definition any_cast_WeakSqlStmtPtr (a : any) : res Z :=
  match a with
  | AnyWeakSqlStmtPtr k => Ok k
  | AnySqlPtr _ => Fail (Thrown bad_any_cast)
  end.

Section Server.
Context {DB : Type} (mysql : DB -> list byte -> DB * sql_result).

Definition newServer (db : DB) (idleSeconds : Z) : Server DB :=
  mkServer [] ∅ 0 (newSqlStmtList idleSeconds) ∅ ∅ ∅ db.

Definition set_lru (l : list (Z * Z)) (m : gmap Z Z) (n : Z) (s : Server DB) : Server DB :=
  mkServer l m n (sqlstmtlist_ s) (sqlchecklist_ s) (stmts s) (pairs s) (mysqlserver_ s).
Definition set_cache (w : SqlStmtList) (c : gmap (list byte) Z) (s : Server DB) : Server DB :=
  mkServer (lrulist_ s) (lrumap_ s) (nextNode s) w c (stmts s) (pairs s) (mysqlserver_ s).

(** [push_front(conn); lrumap_[conn] = begin()]. *)
Definition pushFront (conn : Z) (s : Server DB) : Server DB :=
  set_lru ((nextNode s, conn) :: lrulist_ s) (<[conn := nextNode s]> (lrumap_ s))
    (nextNode s + 1) s.

Definition onConnection (conn : Z) (s : Server DB) : res (Server DB * list action) :=
  if SIZECONN <=? len (lrulist_ s) then
    match last (lrulist_ s) with
    | None => Fail OutOfRange
    | Some (_, back) =>
        let s1 := set_lru (take (length (lrulist_ s) - 1) (lrulist_ s))
                    (delete back (lrumap_ s)) (nextNode s) s in
        Ok (pushFront conn s1, [AShutdown back])
    end
  else Ok (pushFront conn s, []).

(** [lrulist_.splice(begin(), lrulist_, lrumap_[conn])]: [operator[]] of a missing
    connection yields a singular iterator. *)
Definition touch (conn : Z) (s : Server DB) : res (Server DB) :=
  match lrumap_ s !! conn with
  | None => Fail OutOfRange
  | Some node =>
      match list_find (fun n => fst n = node) (lrulist_ s) with
      | None => Fail OutOfRange
      | Some (i, n) =>
          Ok (set_lru (n :: delete i (lrulist_ s)) (<[conn := node]> (lrumap_ s)) (nextNode s) s)
      end
  end.

(** [weak_ptr<SqlStmt>::lock]: the buckets hold the only shared pointers. *)
Definition lock_stmt (k : Z) (s : Server DB) : option SqlStmt :=
  if bool_decide (k ∈ concat (buckets (sqlstmtlist_ s))) then stmts s !! k else None.

Definition onMessage (conn : Z) (msg : list byte) (s : Server DB)
    : res (Server DB * list action) :=
  let! s := touch conn s in
  match sqlchecklist_ s !! msg with
  | Some k =>
      match lock_stmt k s with
      | None => Fail OutOfRange
      | Some stmt =>
          match pairs s !! weaksql_ stmt with
          | None => Fail OutOfRange
          | Some (_, echo) =>
              let! w := insert_back k (sqlstmtlist_ s) in
              Ok (set_cache w (sqlchecklist_ s) s, [ASend conn echo])
          end
      end
  | None =>
      let! '(db, echo) := process mysql (mysqlserver_ s) msg in
      let p := fresh (dom (pairs s)) in
      let s := mkServer (lrulist_ s) (lrumap_ s) (nextNode s) (sqlstmtlist_ s)
                 (sqlchecklist_ s) (stmts s) (<[p := (msg, echo)]> (pairs s)) db in
      let! k := any_cast_WeakSqlStmtPtr (AnySqlPtr p) in
      let sqlstmtptr := lock_stmt k s in
      let checklist := <[msg := k]> (sqlchecklist_ s) in
      let! w := match sqlstmtptr with
                | Some _ => insert_back k (sqlstmtlist_ s)
                | None => Ok (sqlstmtlist_ s)
                end in
      Ok (mkServer (lrulist_ s) (lrumap_ s) (nextNode s) w checklist (stmts s)
            (delete p (pairs s)) (mysqlserver_ s), [ASend conn echo])
  end.

(** [sqlchecklist_.erase((a->weaksql_).lock()->first)] for one statement. *)
Definition forget (s : Server DB) (c : gmap (list byte) Z) (k : Z) : res (gmap (list byte) Z) :=
  match stmts s !! k with
  | None => Fail OutOfRange
  | Some stmt =>
      match pairs s !! weaksql_ stmt with
      | None => Fail OutOfRange
      | Some (sql, _) => Ok (delete sql c)
      end
  end.

Definition onTimer (s : Server DB) : res (Server DB) :=
  match buckets (sqlstmtlist_ s) with
  | [] => Fail OutOfRange
  | front :: _ =>
      let! c := res_fold (forget s) (sqlchecklist_ s) front in
      Ok (set_cache (push_back [] (sqlstmtlist_ s)) c s)
  end.

(** What the loop may do to the server. *)
Inductive server_op :=
| OpConnection (conn : Z)
| OpMessage (conn : Z) (msg : list byte)
| OpTimer.

Definition server_step (s : Server DB) (op : server_op) : res (Server DB * list action) :=
  match op with
  | OpConnection conn => onConnection conn s
  | OpMessage conn msg => onMessage conn msg s
  | OpTimer => let! s := onTimer s in Ok (s, [])
  end.

Definition run_server (s : Server DB) (ops : list server_op) : res (Server DB * list action) :=
  res_fold (fun '(s, out) op => let! '(s', out') := server_step s op in Ok (s', out ++ out'))
    (s, []) ops.
End Server.

(** ** Formatting *)

(** The text of a table without NULLs. *)
Definition render_row (row : list (list byte)) : list byte :=
  concat ((fun v => c_str v ++ tab) <$> row) ++ newline.

Definition render (fields : Z) (rows : list (list (list byte))) : list byte :=
  bytes_of_string "number of rows:" ++ to_string (len rows) ++ newline
  ++ bytes_of_string "number of fields" ++ to_string fields ++ newline
  ++ concat (render_row <$> rows).

Lemma format_row_Some (row : list (list byte)) acc :
  format_row (length row) (Some <$> row) acc = Ok (acc ++ render_row row).
Proof.
  revert acc; induction row as [|v row IH]; intros acc; [done|].
  cbn [length format_row fmap list_fmap cell res_bind]; rewrite IH; unfold render_row; simpl.
  by rewrite <- !app_assoc.
Qed.

Lemma format_rows_Some n (rows : list (list (list byte))) acc :
  Forall (fun row => length row = n) rows ->
  res_fold (fun acc row => format_row n row acc) acc ((fun row : list (list byte) => Some <$> row) <$> rows)
  = Ok (acc ++ concat (render_row <$> rows)).
Proof.
  intros Hr; revert acc; induction Hr as [|row rows Hn Hr IH]; intros acc; simpl.
  { by rewrite app_nil_r. }
  rewrite <- Hn at 1; rewrite format_row_Some; cbn [res_bind]; rewrite IH.
  by rewrite <- app_assoc.
Qed.

(** A NULL among the first [n] cells makes the row throw. *)
Lemma format_row_null n row acc :
  length row = n -> None ∈ row ->
  exists what, format_row n row acc = Fail (Thrown (logic_error what)).
Proof.
  intros <-; revert acc; induction row as [|[v|] row IH]; intros acc Hn.
  - by apply not_elem_of_nil in Hn.
  - apply elem_of_cons in Hn as [?|Hn]; [done|]; simpl; by apply IH.
  - simpl; eauto.
Qed.

(** Rows before the NULL are formatted, then the constructor throws. *)
Lemma format_rows_null n rows acc :
  Forall (fun row => length row = n) rows -> Exists (fun row => None ∈ row) rows ->
  exists what, res_fold (fun acc row => format_row n row acc) acc rows
    = Fail (Thrown (logic_error what)).
Proof.
  intros Hr; revert acc; induction Hr as [|row rows Hn Hr IH]; intros acc He.
  { by apply Exists_nil in He. }
  simpl; destruct (decide (None ∈ row)) as [Hin|Hnin].
  - destruct (format_row_null n row acc Hn Hin) as [what ->]; simpl; eauto.
  - apply Exists_cons in He as [?|He]; [done|].
    assert (exists vs, row = Some <$> vs) as [vs ->].
    { clear - Hnin; induction row as [|[v|] row IH]; [by exists []|..].
      - destruct IH as [vs ->]; [intros ?; apply Hnin; by right|by exists (v :: vs)].
      - destruct Hnin; left. }
    assert (format_row n (Some <$> vs) acc = Ok (acc ++ render_row vs)) as ->.
    { rewrite length_fmap in Hn; rewrite <- Hn; apply format_row_Some. }
    by apply IH.
Qed.

(** ** The least-recently-used list *)

Section LruProofs.
Context {DB : Type} (mysql : DB -> list byte -> DB * sql_result).
Abbreviation Server := (Server DB).

Definition conns (s : Server) : list Z := snd <$> lrulist_ s.

(** Nodes are distinct, and every index entry points to a node of its
    connection. *)
Definition lru_inv (s : Server) : Prop :=
  NoDup (fst <$> lrulist_ s) /\ Forall (fun n => fst n < nextNode s) (lrulist_ s) /\
  (forall conn node, lrumap_ s !! conn = Some node -> (node, conn) ∈ lrulist_ s) /\
  len (lrulist_ s) <= SIZECONN.

Lemma pushFront_inv conn s :
  lru_inv s -> len (lrulist_ s) < SIZECONN -> lru_inv (pushFront conn s).
Proof.
  intros (Hnd & Hlt & Hmap & Hlen) Hl; unfold lru_inv, pushFront.
  cbn [lrulist_ lrumap_ nextNode set_lru]; split_and!.
  - rewrite fmap_cons; apply NoDup_cons; split; [|done].
    intros ([n c] & E & Hin)%list_elem_of_fmap; simpl in E; subst.
    rewrite Forall_forall in Hlt; specialize (Hlt _ Hin); simpl in Hlt; lia.
  - constructor; [simpl; lia|]; eapply Forall_impl; [done|]; simpl; lia.
  - intros c node; destruct (decide (conn = c)) as [<-|Hne].
    + rewrite lookup_insert_eq; intros [= <-]; left.
    + rewrite lookup_insert_ne by done; intros Hc%Hmap; by right.
  - rewrite len_cons; lia.
Qed.

(** Dropping the last node and its connection's index entry. *)
Definition dropBack (s : Server) (back : Z) : Server :=
  set_lru (take (length (lrulist_ s) - 1) (lrulist_ s)) (delete back (lrumap_ s)) (nextNode s) s.

Lemma last_split {A} (l : list A) x :
  last l = Some x -> l = take (length l - 1) l ++ [x].
Proof.
  intros [l' ->]%last_Some; rewrite length_app; simpl.
  replace (length l' + 1 - 1)%nat with (length l') by lia; by rewrite take_app_length.
Qed.

Lemma dropBack_inv s n back :
  lru_inv s -> last (lrulist_ s) = Some (n, back) -> lru_inv (dropBack s back).
Proof.
  intros (Hnd & Hlt & Hmap & Hlen) Hlast; pose proof (last_split _ _ Hlast) as E.
  set (l := take _ _) in E; unfold lru_inv, dropBack; cbn [lrulist_ lrumap_ nextNode set_lru].
  change (take (length (lrulist_ s) - 1) (lrulist_ s)) with l.
  rewrite E in Hnd, Hlt; rewrite fmap_app in Hnd; apply NoDup_app in Hnd as (Hnd & _ & _).
  apply Forall_app in Hlt as [Hlt _]; split_and!; try done.
  - intros c node; rewrite lookup_delete_Some; intros [Hne Hc%Hmap].
    rewrite E, elem_of_app, list_elem_of_singleton in Hc; destruct Hc as [|[= _ ->]]; done.
  - rewrite E, len_app in Hlen; unfold len in *; simpl in *; lia.
Qed.

Lemma onConnection_inv conn s :
  lru_inv s -> exists s' out, onConnection conn s = Ok (s', out) /\ lru_inv s' /\
    sqlchecklist_ s' = sqlchecklist_ s /\ sqlstmtlist_ s' = sqlstmtlist_ s /\
    (forall c d, ASend c d ∉ out).
Proof.
  intros Hinv; unfold onConnection; destruct (Z.leb_spec SIZECONN (len (lrulist_ s))) as [Hf|Hf].
  - destruct (last (lrulist_ s)) as [[n back]|] eqn:Hlast.
    + do 2 eexists; split; [done|]; split_and!; try done.
      * pose proof (dropBack_inv s n back Hinv Hlast) as Hd.
        apply pushFront_inv; [exact Hd|].
        unfold dropBack; cbn [lrulist_ set_lru]; unfold len, SIZECONN in *.
        rewrite length_take; destruct Hinv as (_ & _ & _ & Hlen); unfold len, SIZECONN in *; lia.
      * intros c d Hin%list_elem_of_singleton; done.
    + apply last_None in Hlast; rewrite Hlast in Hf; unfold len, SIZECONN in Hf; simpl in Hf; lia.
  - do 2 eexists; split; [done|]; split_and!; try done; [by apply pushFront_inv|].
    intros c d Hin; by apply not_elem_of_nil in Hin.
Qed.

Lemma touch_spec conn node s :
  lru_inv s -> lrumap_ s !! conn = Some node ->
  exists s' l1 l2, touch conn s = Ok s' /\ lru_inv s' /\
    lrulist_ s = l1 ++ (node, conn) :: l2 /\ lrulist_ s' = (node, conn) :: l1 ++ l2 /\
    lrumap_ s' = lrumap_ s /\ sqlchecklist_ s' = sqlchecklist_ s /\
    sqlstmtlist_ s' = sqlstmtlist_ s /\ stmts s' = stmts s /\ pairs s' = pairs s /\
    mysqlserver_ s' = mysqlserver_ s.
Proof.
  intros (Hnd & Hlt & Hmap & Hlen) Hc; unfold touch; rewrite Hc.
  destruct (list_find _ _) as [[i [n c]]|] eqn:E.
  2:{ apply list_find_None, Forall_forall with (x := (node, conn)) in E; [done|by apply Hmap]. }
  apply list_find_Some in E as (Hi & Hn & _); simpl in Hn; subst n.
  assert (c = conn) as ->.
  { apply Hmap, list_elem_of_lookup in Hc as [j Hj].
    assert (i = j) as <-; [|congruence].
    eapply (NoDup_lookup (fst <$> lrulist_ s)); [done|..]; by rewrite list_lookup_fmap, ?Hi, ?Hj. }
  pose proof (take_drop_middle _ _ _ Hi) as Hs; rewrite insert_id by done.
  eexists _, (take i (lrulist_ s)), (drop (S i) (lrulist_ s)); split; [done|].
  assert (delete i (lrulist_ s) = take i (lrulist_ s) ++ drop (S i) (lrulist_ s)) as Hd
    by apply delete_take_drop.
  cbn [lrulist_ lrumap_ nextNode set_lru]; rewrite Hd; split_and!; try done.
  assert ((node, conn) :: take i (lrulist_ s) ++ drop (S i) (lrulist_ s) ≡ₚ lrulist_ s) as Hp.
  { rewrite <- Hs at 3; by rewrite Permutation_middle. }
  unfold lru_inv; cbn [lrulist_ lrumap_ nextNode set_lru]; split_and!.
  - by rewrite Hp.
  - by rewrite Hp.
  - intros c' n'; rewrite Hp; apply Hmap.
  - unfold len in *; by rewrite Hp.
Qed.

(** *** The specification: a list of entries, at most one for a connection indexed *)

Inductive lru_event := Up (c : Z) | Use (c : Z).

Definition lru_step (s : Server) (e : lru_event) : res (Server * list action) :=
  match e with
  | Up c => onConnection c s
  | Use c => let! s' := touch c s in Ok (s', [])
  end.

Definition run_lru (s : Server) (es : list lru_event) : res (Server * list action) :=
  res_fold (fun '(s, out) e => let! '(s', o) := lru_step s e in Ok (s', out ++ o)) (s, []) es.











(** *** Connections that come up once: ordered by last use *)

Definition full (L : list Z) : bool := SIZECONN <=? len L.

(** New and used connections come first; a new one drops the last of a full
    list, which is shut down. *)
Definition abs_lru (L : list Z) (e : lru_event) : list Z * list action :=
  match e with
  | Up c =>
      if full L then (c :: take (length L - 1) L, AShutdown <$> option_list (last L))
      else (c :: L, [])
  | Use c => (c :: filter (fun x => x <> c) L, [])
  end.

Definition legal_event (L : list Z) (e : lru_event) : bool :=
  match e with Up c => bool_decide (c ∉ L) | Use c => bool_decide (c ∈ L) end.

Fixpoint legal_events (L : list Z) (es : list lru_event) : bool :=
  match es with
  | [] => true
  | e :: es' => legal_event L e && legal_events (fst (abs_lru L e)) es'
  end.

Definition run_abs (L : list Z) (es : list lru_event) : list Z * list action :=
  foldl (fun '(L, out) e => let '(L', o) := abs_lru L e in (L', out ++ o)) (L, []) es.

Definition lru_sim (s : Server) (L : list Z) : Prop :=
  lru_inv s /\ conns s = L /\ NoDup L /\ (forall c, c ∈ L -> is_Some (lrumap_ s !! c)).

Lemma lru_sim_push c s L :
  lru_sim s L -> len L < SIZECONN -> c ∉ L -> lru_sim (pushFront c s) (c :: L).
Proof.
  intros (Hi & <- & Hnd & Hm) Hl Hc; split_and!.
  - apply pushFront_inv; [done|]; unfold conns, len in *; by rewrite length_fmap in Hl.
  - done.
  - by apply NoDup_cons.
  - intros c' [->|Hc']%elem_of_cons; cbn [pushFront lrumap_ set_lru].
    + rewrite lookup_insert_eq; eauto.
    + rewrite lookup_insert_ne by (intros ->; done); by apply Hm.
Qed.

Lemma lru_sim_drop s L n c :
  lru_sim s L -> last (lrulist_ s) = Some (n, c) ->
  lru_sim (dropBack s c) (take (length L - 1) L) /\ last L = Some c.
Proof.
  intros (Hi & <- & Hnd & Hm) Hlast; pose proof (last_split _ _ Hlast) as E.
  assert (conns s = take (length (conns s) - 1) (conns s) ++ [c]) as Ec.
  { unfold conns; rewrite length_fmap, <- fmap_take, E at 1; by rewrite fmap_app. }
  split; [|rewrite Ec; apply last_snoc]; split_and!.
  - by eapply dropBack_inv.
  - unfold conns, dropBack; cbn [lrulist_ set_lru]; by rewrite length_fmap, fmap_take.
  - rewrite Ec in Hnd; by apply NoDup_app in Hnd as (? & _).
  - intros c' Hc'; cbn [dropBack lrumap_ set_lru].
    assert (c <> c').
    { intros <-; rewrite Ec in Hnd; apply NoDup_app in Hnd as (_ & Hd & _).
      apply (Hd _ Hc'); by left. }
    rewrite lookup_delete_ne by done; apply Hm; rewrite Ec; apply elem_of_app; by left.
Qed.

Lemma lru_sim_step s L e :
  lru_sim s L -> legal_event L e = true ->
  exists s', lru_step s e = Ok (s', snd (abs_lru L e)) /\ lru_sim s' (fst (abs_lru L e)).
Proof.
  intros Hsim Hl; pose proof Hsim as (Hi & Hc & Hnd & Hm).
  assert (len (lrulist_ s) = len L) as Hlen by (rewrite <- Hc; unfold conns, len; by rewrite length_fmap).
  destruct e as [c|c]; cbn [lru_step abs_lru legal_event] in *; bool_hyps.
  - unfold onConnection, full; rewrite Hlen; destruct (Z.leb_spec SIZECONN (len L)) as [Hf|Hf].
    + destruct (last (lrulist_ s)) as [[n back]|] eqn:Hlast.
      2:{ apply last_None in Hlast; rewrite Hlast in Hlen; unfold len, SIZECONN in *; simpl in *; lia. }
      destruct (lru_sim_drop s L n back Hsim Hlast) as [Hd ->].
      eexists; split; [done|]; apply lru_sim_push; [exact Hd|..].
      * destruct Hi as (_ & _ & _ & Hle); rewrite Hlen in Hle; unfold len, SIZECONN in *.
        rewrite length_take; lia.
      * intros Hin; apply Hl; by eapply elem_of_take in Hin as (i & ?%list_elem_of_lookup_2 & _).
    + eexists; split; [done|]; by apply lru_sim_push.
  - destruct (Hm c Hl) as [node Hnode].
    destruct (touch_spec c node s Hi Hnode) as (s' & l1 & l2 & -> & Hi' & El & El' & Em & _).
    eexists; split; [done|]; cbn [fst].
    assert (conns s = (snd <$> l1) ++ c :: (snd <$> l2)) as E1
      by (unfold conns; rewrite El, fmap_app; done).
    assert (conns s' = c :: (snd <$> l1) ++ (snd <$> l2)) as E2
      by (unfold conns; rewrite El'; simpl; by rewrite fmap_app).
    rewrite Hc in E1; rewrite E1 in Hnd.
    assert (filter (fun x => x <> c) L = (snd <$> l1) ++ (snd <$> l2)) as Ef.
    { rewrite E1, filter_app, filter_cons_False by auto.
      apply NoDup_app in Hnd as (_ & Hd & [Hn2 _]%NoDup_cons).
      rewrite !filter_all; try done.
      - apply Forall_forall; intros x Hx ->; done.
      - apply Forall_forall; intros x Hx ->; apply (Hd _ Hx); by left. }
    rewrite Ef; split_and!; try done.
    + rewrite <- Permutation_middle in Hnd; done.
    + intros c' Hc'; rewrite Em; apply Hm; rewrite E1, <- Permutation_middle; done.
Qed.

Lemma lru_sim_run s L es :
  lru_sim s L -> legal_events L es = true ->
  exists s', run_lru s es = Ok (s', snd (run_abs L es)) /\ lru_sim s' (fst (run_abs L es)).
Proof.
  unfold run_lru, run_abs; generalize (@nil action) as out.
  revert s L; induction es as [|e es IH]; intros s L out Hs Hl; [by exists s|].
  cbn [legal_events] in Hl; apply andb_true_iff in Hl as [Hl1 Hl2].
  destruct (lru_sim_step s L e Hs Hl1) as (s1 & E & Hs1).
  cbn [res_fold foldl]; rewrite E; destruct (abs_lru L e) as [L1 o] eqn:Ea.
  cbn [res_bind snd fst] in *; by apply IH.
Qed.

Lemma newServer_sim db n : lru_sim (newServer db n) [].
Proof.
  unfold lru_sim, lru_inv; split_and!; try done; try by constructor.
  intros c Hc; by apply not_elem_of_nil in Hc.
Qed.

(** ** The statement cache *)

(** Nothing is cached and every bucket is empty. *)
Definition cache_empty (s : Server) : Prop :=
  sqlchecklist_ s = ∅ /\ Forall (fun b => b = []) (buckets (sqlstmtlist_ s)) /\
  buckets (sqlstmtlist_ s) <> [].

Lemma push_back_empty w :
  Forall (fun b : Bucket => b = []) (buckets w) -> buckets w <> [] ->
  Forall (fun b : Bucket => b = []) (buckets (push_back [] w)) /\ buckets (push_back [] w) <> [].
Proof.
  intros Hf Hn; unfold push_back; repeat case_match; cbn [buckets]; [done|..].
  - split; [|by destruct (drop 1 _)].
    apply Forall_app; split; [by apply Forall_drop|by constructor].
  - split; [|by destruct (buckets w)]; apply Forall_app; split; [done|by constructor].
Qed.

Lemma onTimer_empty s :
  cache_empty s -> exists s', onTimer s = Ok s' /\ cache_empty s' /\
    lrulist_ s' = lrulist_ s /\ lrumap_ s' = lrumap_ s /\ nextNode s' = nextNode s.
Proof.
  intros (Hc & Hb & Hn); unfold onTimer; destruct (buckets (sqlstmtlist_ s)) as [|b bs] eqn:E; [done|].
  assert (b = []) as -> by (by apply Forall_inv in Hb).
  cbn [res_fold res_bind]; eexists; split; [done|]; unfold cache_empty; split_and!; try done;
    cbn [set_cache sqlstmtlist_]; apply push_back_empty; by rewrite E.
Qed.

(** How a message ends the process while the cache is empty: outside the index it
    splices a singular iterator; otherwise the query's own exception ends it, or the
    cast of its answer. *)
Definition message_end (s : Server) (conn : Z) (msg : list byte) : fault :=
  match lrumap_ s !! conn, process mysql (mysqlserver_ s) msg with
  | None, _ => OutOfRange
  | Some _, Fail f => f
  | Some _, Ok _ => Thrown bad_any_cast
  end.

Lemma onMessage_ends conn msg s :
  lru_inv s -> cache_empty s -> onMessage mysql conn msg s = Fail (message_end s conn msg).
Proof.
  intros Hi (Hc & _); unfold onMessage, message_end; destruct (lrumap_ s !! conn) as [node|] eqn:Hm.
  - destruct (touch_spec conn node s Hi Hm)
      as (s' & l1 & l2 & -> & _ & _ & _ & _ & Ec & _ & _ & _ & Ed); cbn [res_bind].
    rewrite Ec, Hc, lookup_empty, Ed.
    by destruct (process mysql (mysqlserver_ s) msg) as [[db echo]|f].
  - unfold touch; by rewrite Hm.
Qed.

(** Every message either faults on the list or throws out of [onMessage]. *)
Lemma onMessage_empty conn msg s :
  lru_inv s -> cache_empty s ->
  (is_ok (onMessage mysql conn msg s) = false) /\
  (is_Some (lrumap_ s !! conn) -> is_ok (process mysql (mysqlserver_ s) msg) = true ->
   onMessage mysql conn msg s = Fail (Thrown bad_any_cast)).
Proof.
  intros Hi Hc; rewrite (onMessage_ends conn msg s Hi Hc); split; [done|]; intros [node Hn] Hp.
  unfold message_end; rewrite Hn; by destruct (process _ _ _).
Qed.

Lemma run_server_empty s ops s' out0 out :
  lru_inv s -> cache_empty s ->
  res_fold (fun '(s, out) op => let! '(s', o) := server_step mysql s op in Ok (s', out ++ o))
    (s, out0) ops = Ok (s', out) ->
  lru_inv s' /\ cache_empty s' /\
  (forall c d, ASend c d ∈ out -> ASend c d ∈ out0).
Proof.
  revert s out0; induction ops as [|op ops IH]; intros s out0 Hi Hc; simpl.
  { intros [= <- <-]; auto. }
  destruct op as [conn|conn msg|]; cbn [server_step].
  - destruct (onConnection_inv conn s Hi) as (s1 & o & -> & Hi1 & E1 & E2 & Hno).
    cbn [res_bind]; intros E; apply IH in E as (? & ? & Hs); [|done|unfold cache_empty; by rewrite E1, E2].
    split_and!; try done; intros c d Hin%Hs; apply elem_of_app in Hin as [?|Hin]; [done|].
    by apply Hno in Hin.
  - destruct (onMessage_empty conn msg s Hi Hc) as [Hf _].
    by destruct (onMessage mysql conn msg s).
  - destruct (onTimer_empty s Hc) as (s1 & -> & Hc1 & E1 & E2 & E3); cbn [res_bind]; intros E.
    apply IH in E as (? & ? & Hs); [|unfold lru_inv; by rewrite E1, E2, E3|done].
    split_and!; try done; intros c d Hin%Hs; by rewrite app_nil_r in Hin.
Qed.

Lemma newServer_empty db n : 0 < n -> cache_empty (newServer db n).
Proof.
  intros Hn; unfold cache_empty; cbn [newServer sqlchecklist_ sqlstmtlist_ newSqlStmtList buckets].
  split_and!; [done|by apply Forall_replicate|].
  by destruct (Z.to_nat n) eqn:E; [lia|].
Qed.

(** *** The wheel on a server whose cache is filled *)

(** Every statement in the wheel is alive, with its pair. *)
Definition stmt_sql (s : Server) (k : Z) : option (list byte) :=
  stmt ← stmts s !! k; fst <$> pairs s !! weaksql_ stmt.

Definition wheel_ok (s : Server) : Prop :=
  0 < capacity (sqlstmtlist_ s) /\ len (buckets (sqlstmtlist_ s)) = capacity (sqlstmtlist_ s) /\
  Forall (fun k => is_Some (stmt_sql s k)) (concat (buckets (sqlstmtlist_ s))).

Lemma forget_fold (s : Server) (c : gmap (list byte) Z) ks :
  Forall (fun k => is_Some (stmt_sql s k)) ks ->
  exists c', res_fold (forget s) c ks = Ok c' /\
    forall sql, c' !! sql = if decide (sql ∈ omap (stmt_sql s) ks) then None else c !! sql.
Proof.
  intros Hk; revert c; induction Hk as [|k ks [sql Hs] _ IH]; intros c; [by exists c|].
  cbn [res_fold]; unfold forget at 1; unfold stmt_sql in Hs.
  destruct (stmts s !! k) as [st|] eqn:Est; [simpl in Hs|done].
  destruct (pairs s !! weaksql_ st) as [[q a]|] eqn:Ep; [simpl in Hs|done].
  injection Hs as ->; cbn [res_bind]; destruct (IH (delete sql c)) as (c' & -> & Hc').
  exists c'; split; [done|]; intros q; rewrite Hc'; cbn [omap list_omap].
  assert (stmt_sql s k = Some sql) as -> by (unfold stmt_sql; rewrite Est; simpl; by rewrite Ep).
  destruct (decide (q ∈ omap (stmt_sql s) ks)) as [Hin|Hin];
    destruct (decide (q ∈ sql :: omap (stmt_sql s) ks)) as [Hin'|Hin']; try done.
  - destruct Hin'; by right.
  - apply elem_of_cons in Hin' as [->|?]; [by rewrite lookup_delete_eq|done].
  - rewrite lookup_delete_ne; [done|]; intros ->; apply Hin'; left.
Qed.

Lemma onTimer_turns (s : Server) :
  wheel_ok s ->
  exists s' front bs, buckets (sqlstmtlist_ s) = front :: bs /\ onTimer s = Ok s' /\ wheel_ok s' /\
    buckets (sqlstmtlist_ s') = bs ++ [[]] /\ stmts s' = stmts s /\ pairs s' = pairs s /\
    forall sql, sqlchecklist_ s' !! sql =
      if decide (sql ∈ omap (stmt_sql s) front) then None else sqlchecklist_ s !! sql.
Proof.
  intros (Hcap & Hlen & Hok); unfold onTimer.
  destruct (buckets (sqlstmtlist_ s)) as [|front bs] eqn:E.
  { unfold len in Hlen; simpl in Hlen; lia. }
  rewrite concat_cons in Hok; apply Forall_app in Hok as [Hf Hbs].
  destruct (forget_fold s (sqlchecklist_ s) front Hf) as (c' & -> & Hc'); cbn [res_bind].
  do 3 eexists; split; [done|]; split; [done|].
  assert (push_back [] (sqlstmtlist_ s) = mkSqlStmtList (capacity (sqlstmtlist_ s)) (bs ++ [[]])) as Ep.
  { unfold push_back; rewrite E, Hlen, Z.eqb_refl, (proj2 (Z.eqb_neq _ _)) by lia; done. }
  rewrite Ep; split_and!; try done; unfold wheel_ok; cbn [set_cache sqlstmtlist_ capacity buckets].
  split_and!; try done.
  - rewrite len_cons in Hlen; rewrite len_app, len_cons, len_nil; lia.
  - rewrite concat_app; apply Forall_app; split; [done|constructor].
Qed.

(** Inserting a statement that the front bucket already holds. *)
Lemma insert_back_spec k l front bs :
  buckets l = front :: bs -> k ∈ front ->
  exists l', insert_back k l = Ok l' /\ capacity l' = capacity l /\
    length (buckets l') = length (buckets l) /\
    (forall x, x ∈ concat (buckets l') -> x ∈ concat (buckets l)) /\
    exists front' bs', buckets l' = front' :: bs' /\ k ∈ front'.
Proof.
  intros Hb Hk; unfold insert_back; destruct (last (buckets l)) as [b|] eqn:El.
  2:{ apply last_None in El; by rewrite Hb in El. }
  pose proof (last_split _ _ El) as Hs; set (ini := take _ _) in *.
  set (b' := if bool_decide (k ∈ b) then b else b ++ [k]).
  eexists; split; [done|]; cbn [capacity buckets]; split_and!; [done|..].
  - rewrite Hs, !length_app; done.
  - intros x; rewrite Hs, !concat_app, !elem_of_app; intros [?|Hx]; [by left|].
    simpl in *; rewrite app_nil_r in *; subst b'; destruct (bool_decide (k ∈ b)) eqn:Ed; [by right|].
    apply elem_of_app in Hx as [?|Hx]; [by right|]; apply list_elem_of_singleton in Hx as ->.
    destruct ini as [|f ini']; rewrite Hb in Hs; injection Hs as -> _.
    + by right.
    + left; simpl; apply elem_of_app; by left.
  - destruct ini as [|f ini']; rewrite Hb in Hs; injection Hs as -> ->.
    + exists b', []; split; [done|]; subst b'; by rewrite bool_decide_eq_true_2.
    + exists f, (ini' ++ [b']); by split.
Qed.

Fixpoint timers (n : nat) (s : Server) : res Server :=
  match n with
  | O => Ok s
  | S n' => let! s' := onTimer s in timers n' s'
  end.

(** A query stays in the table until a bucket with its statement comes to the
    front; statements in the buckets before it must be about other queries. *)
Lemma timers_keep n (s : Server) sql k :
  wheel_ok s -> (n <= length (buckets (sqlstmtlist_ s)))%nat ->
  sqlchecklist_ s !! sql = Some k ->
  sql ∉ omap (stmt_sql s) (concat (take n (buckets (sqlstmtlist_ s)))) ->
  exists s', timers n s = Ok s' /\ wheel_ok s' /\ sqlchecklist_ s' !! sql = Some k /\
    buckets (sqlstmtlist_ s') = drop n (buckets (sqlstmtlist_ s)) ++ replicate n [] /\
    stmts s' = stmts s /\ pairs s' = pairs s.
Proof.
  revert s; induction n as [|n IH]; intros s Hok Hn Hk Hnot.
  { exists s; split_and!; try done; by rewrite drop_0, app_nil_r. }
  destruct (onTimer_turns s Hok) as (s1 & front & bs & E & Et & Hok1 & Eb & Es & Ep & Hc).
  cbn [timers]; rewrite Et; cbn [res_bind].
  rewrite E in Hnot, Hn; simpl in Hnot, Hn; rewrite omap_app, not_elem_of_app in Hnot.
  destruct Hnot as [Hn1 Hn2].
  assert (forall q, stmt_sql s1 q = stmt_sql s q) as Hsq by (intros; unfold stmt_sql; by rewrite Es, Ep).
  destruct (IH s1) as (s' & E' & Hok' & Hk' & Eb' & Es' & Ep'); try done.
  - rewrite Eb, length_app; simpl; lia.
  - rewrite Hc, decide_False by done; done.
  - rewrite Eb, take_app_le by lia; intros Hin; apply Hn2.
    apply list_elem_of_omap in Hin as (q & Hq & Hs); apply list_elem_of_omap.
    exists q; by rewrite <- Hsq.
  - exists s'; split_and!; try done; try congruence.
    rewrite Eb', Eb, E; simpl; rewrite drop_app_le by lia.
    rewrite <- app_assoc; f_equal; by rewrite <- replicate_cons_app.
Qed.
End LruProofs.

(** ** Theorems *)

(** The server never answers a query.  As long as it runs nothing was sent to
    any client, and a message from a connection it knows ends, once the database
    has answered, with the exception [boost::bad_any_cast], which nothing in the
    program catches: the code casts a shared_ptr to a pair to a weak_ptr to a
    statement, so the cache stays empty and its hit path is dead. *)
Theorem queries_never_answered {DB} (mysql : DB -> list byte -> DB * sql_result) db n ops s out :
  0 < n -> run_server mysql (newServer db n) ops = Ok (s, out) ->
  (forall c d, ASend c d ∉ out) /\
  (forall conn msg, is_ok (onMessage mysql conn msg s) = false /\
     (is_Some (lrumap_ s !! conn) -> is_ok (process mysql (mysqlserver_ s) msg) = true ->
      onMessage mysql conn msg s = Fail (Thrown bad_any_cast))).
Proof.
  intros Hn Hr; destruct (run_server_empty mysql (newServer db n) ops s [] out) as (Hi & Hc & Hs).
  - by destruct (newServer_sim db n) as [? _].
  - by apply newServer_empty.
  - done.
  - split; [|intros; by apply onMessage_empty].
    intros c d Hin%Hs; by apply not_elem_of_nil in Hin.
Qed.

(** A database that answers every query with one row. *)
Definition demo_db (db : unit) (sql : list byte) : unit * sql_result :=
  (tt, Result 1 [[Some sql]]).

Lemma queries_never_answered_witness :
  exists s out, run_server demo_db (newServer tt 5) [OpConnection 1; OpTimer; OpConnection 2] = Ok (s, out) /\
    onMessage demo_db 1 [x61] s = Fail (Thrown bad_any_cast).
Proof.
  do 2 eexists; split; [vm_compute; reflexivity|].
  refine (proj2 (proj2 (queries_never_answered demo_db tt 5
    [OpConnection 1; OpTimer; OpConnection 2] _ _ _ _) 1 [x61]) _ _).
  - lia.
  - vm_compute; reflexivity.
  - eexists; vm_compute; reflexivity.
  - vm_compute; reflexivity.
Defined.


(** For connections that come up once each and are used while they are listed, the
    list is ordered by last use and the one idle longest is shut down. *)
Lemma lru_orders_by_use {DB} (db : DB) n es :
  legal_events [] es = true ->
  exists s, run_lru (newServer db n) es = Ok (s, snd (run_abs [] es)) /\
    conns s = fst (run_abs [] es) /\ lru_inv s.
Proof.
  intros Hl; destruct (lru_sim_run _ [] es (newServer_sim db n) Hl) as (s & E & Hi & Hc & _).
  by exists s.
Qed.


(** A client that was dropped from the full list can still send: its
    connection is only half closed.  [onMessage] then looks up an iterator that is
    no longer there and hands a singular iterator to [splice]. *)
Theorem evicted_message_faults {DB} (mysql : DB -> list byte -> DB * sql_result) db n es s out c c' :
  legal_events [] es = true -> run_lru (newServer db n) es = Ok (s, out) ->
  full (fst (run_abs [] es)) = true -> last (fst (run_abs [] es)) = Some c ->
  c' ∉ fst (run_abs [] es) ->
  exists s', onConnection c' s = Ok (s', [AShutdown c]) /\
    forall msg, onMessage mysql c msg s' = Fail OutOfRange.
Proof.
  intros Hl Hr Hf Hlast Hnew.
  destruct (lru_sim_run _ [] es (newServer_sim db n) Hl) as (s1 & E & Hsim).
  rewrite Hr in E; injection E as <- _; set (L := fst (run_abs [] es)) in *.
  destruct (lru_sim_step s L (Up c') Hsim) as (s' & E & Hi & Hc & Hnd & _).
  { simpl; by rewrite bool_decide_eq_true_2. }
  cbn [lru_step abs_lru] in *; rewrite Hf, Hlast in *; cbn [fst snd option_list fmap list_fmap] in *.
  exists s'; split; [done|]; intros msg; unfold onMessage, touch.
  destruct (lrumap_ s' !! c) as [node|] eqn:Em; [|done].
  exfalso; destruct Hi as (_ & _ & Hmap & _); apply Hmap in Em.
  assert (c ∈ conns s') as Hin by (unfold conns; apply list_elem_of_fmap; by exists (node, c)).
  rewrite Hc in Hin; destruct Hsim as (_ & _ & HndL & _).
  rewrite (last_split _ _ Hlast) in HndL; apply NoDup_app in HndL as (_ & Hd & _).
  apply elem_of_cons in Hin as [->|Hin].
  - apply Hnew; rewrite (last_split _ _ Hlast); apply elem_of_app; right; by left.
  - apply (Hd _ Hin); by left.
Qed.

Lemma evicted_message_faults_witness :
  exists s out, run_lru (newServer tt 5) (Up <$> seqZ 1 1000) = Ok (s, out) /\
  exists s', onConnection 2000 s = Ok (s', [AShutdown 1]) /\
    forall msg, onMessage demo_db 1 msg s' = Fail OutOfRange.
Proof.
  assert (legal_events [] (Up <$> seqZ 1 1000) = true) as Hl by (vm_compute; reflexivity).
  destruct (lru_sim_run _ [] (Up <$> seqZ 1 1000) (newServer_sim tt 5) Hl) as (s & E & _).
  eexists s, _; split; [exact E|].
  refine (evicted_message_faults demo_db tt 5 _ s _ 1 2000 Hl E _ _ _).
  - vm_compute; reflexivity.
  - vm_compute; reflexivity.
  - apply (bool_decide_unpack _); vm_compute; exact I.
Defined.

(** [process] renders a table without NULLs completely: the counts, then every
    row with its fields in order, each followed by a tab, and a newline. *)
Theorem process_renders {DB} (mysql : DB -> list byte -> DB * sql_result) db db' sql
    (rows : list (list (list byte))) (fields : nat) :
  mysql db (c_str sql) = (db', Result (Z.of_nat fields) ((fun row : list (list byte) => Some <$> row) <$> rows)) ->
  Forall (fun row => length row = fields) rows ->
  len rows < 2 ^ 31 -> Z.of_nat fields < 2 ^ 31 ->
  process mysql db sql = Ok (db', render (Z.of_nat fields) rows).
Proof.
  intros Hm Hf Hr Hn; unfold process; rewrite Hm; unfold len at 1 2 3; rewrite length_fmap.
  change (Z.of_nat (length rows)) with (len rows); pose proof (len_nonneg rows).
  unfold i32; rewrite !swrap_small by (unfold in_signed; simpl; lia).
  rewrite (proj2 (Z.ltb_ge _ _)) by done; rewrite Nat2Z.id.
  rewrite take_ge by (rewrite length_fmap; unfold len; lia).
  rewrite format_rows_Some by done; cbn [res_bind]; unfold render; by rewrite <- !app_assoc.
Qed.

Lemma process_renders_witness :
  process (fun (_ : unit) _ => (tt, Result 2 [[Some [x31]; Some [x61]]; [Some [x32]; Some [x62]]])) tt
    [x71] = Ok (tt, render 2 [[[x31]; [x61]]; [[x32]; [x62]]]).
Proof.
  apply (process_renders (fun (_ : unit) _ =>
    (tt, Result 2 [[Some [x31]; Some [x61]]; [Some [x32]; Some [x62]]])) tt tt [x71]
    [[[x31]; [x61]]; [[x32]; [x62]]] 2).
  - reflexivity.
  - by repeat constructor.
  - done.
  - done.
Defined.

(** A single SQL NULL in the result makes [process] throw
    [std::logic_error]: the null pointer of the cell is converted to a string. *)
Theorem process_null_throws {DB} (mysql : DB -> list byte -> DB * sql_result) db db' sql rows
    (fields : nat) :
  mysql db (c_str sql) = (db', Result (Z.of_nat fields) rows) ->
  Forall (fun row => length row = fields) rows -> Exists (fun row => None ∈ row) rows ->
  len rows < 2 ^ 31 -> Z.of_nat fields < 2 ^ 31 ->
  exists what, process mysql db sql = Fail (Thrown (logic_error what)).
Proof.
  intros Hm Hf He Hr Hn; unfold process; rewrite Hm; pose proof (len_nonneg rows).
  unfold i32; rewrite !swrap_small by (unfold in_signed; simpl; lia).
  rewrite (proj2 (Z.ltb_ge _ _)) by done; rewrite Nat2Z.id.
  rewrite take_ge by (unfold len; lia).
  match goal with |- exists _, res_bind (res_fold _ ?acc _) _ = _ =>
    destruct (format_rows_null fields rows acc Hf He) as [what ->] end; by exists what.
Qed.

Lemma process_null_throws_witness :
  exists what, process (fun (_ : unit) _ => (tt, Result 1 [[Some [x31]]; [None]])) tt [x71]
    = Fail (Thrown (logic_error what)).
Proof.
  apply (process_null_throws (fun (_ : unit) _ => (tt, Result 1 [[Some [x31]]; [None]])) tt tt [x71]
    [[Some [x31]]; [None]] 1).
  - reflexivity.
  - by repeat constructor.
  - right; left; left.
  - done.
  - done.
Defined.

(** A statement put into the newest bucket stays in the table for as many
    turns of the wheel as there are older buckets, and the next turn removes it. *)
Theorem wheel_expiry {DB} (s : Server DB) sql k bs b :
  wheel_ok s -> buckets (sqlstmtlist_ s) = bs ++ [b] -> k ∈ b -> stmt_sql s k = Some sql ->
  sqlchecklist_ s !! sql = Some k -> sql ∉ omap (stmt_sql s) (concat bs) ->
  (forall j, (j <= length bs)%nat ->
     exists s', timers j s = Ok s' /\ sqlchecklist_ s' !! sql = Some k) /\
  exists s1 s2, timers (length bs) s = Ok s1 /\ onTimer s1 = Ok s2 /\ sqlchecklist_ s2 !! sql = None.
Proof.
  intros Hok Hb Hin Hsq Hk Hnot.
  assert (forall j, (j <= length bs)%nat ->
    exists s', timers j s = Ok s' /\ wheel_ok s' /\ sqlchecklist_ s' !! sql = Some k /\
      buckets (sqlstmtlist_ s') = drop j (buckets (sqlstmtlist_ s)) ++ replicate j [] /\
      stmts s' = stmts s /\ pairs s' = pairs s) as Hkeep.
  { intros j Hj; apply timers_keep; try done.
    - rewrite Hb, length_app; simpl; lia.
    - rewrite Hb, take_app_le by done; intros Hi; apply Hnot.
      apply list_elem_of_omap in Hi as (q & Hq & Hs); apply list_elem_of_omap; exists q; split; [|done].
      rewrite <- (take_drop j bs), concat_app, elem_of_app; by left. }
  split; [intros j Hj; destruct (Hkeep j Hj) as (s' & ? & _ & ? & _); eauto|].
  destruct (Hkeep (length bs) ltac:(lia)) as (s1 & E1 & Hok1 & Hk1 & Eb & Es & Ep).
  rewrite Hb, drop_app_length in Eb; simpl in Eb.
  destruct (onTimer_turns s1 Hok1) as (s2 & front & bs' & E & Et & _ & _ & _ & _ & Hc).
  exists s1, s2; split_and!; try done; rewrite Hc.
  rewrite Eb in E; injection E as <- <-; rewrite decide_True; [done|].
  apply list_elem_of_omap; exists k; split; [done|]; unfold stmt_sql; by rewrite Es, Ep.
Qed.

(** One cached statement in the newest of three buckets. *)
Definition demo_cache : Server unit :=
  mkServer [(0, 1)] {[1 := 0]} 1 (mkSqlStmtList 3 [[]; []; [5]]) {[ [x71] := 5 ]}
    {[5 := mkSqlStmt 9]} {[9 := ([x71], [x61])]} tt.

Lemma wheel_expiry_witness :
  exists s1 s2, timers 2 demo_cache = Ok s1 /\ onTimer s1 = Ok s2 /\
    sqlchecklist_ s2 !! ([x71] : list byte) = None.
Proof.
  refine (proj2 (wheel_expiry demo_cache [x71] 5 [[]; []] [5] _ _ _ _ _ _)).
  - split_and!; [done|done|]; constructor; [by exists [x71]|constructor].
  - reflexivity.
  - left.
  - reflexivity.
  - reflexivity.
  - intros Hi; by apply not_elem_of_nil in Hi.
Defined.

(** Using a cached answer does not keep it: the statement is added to the
    newest bucket, but when its oldest bucket comes to the front the query is
    removed all the same. *)
Theorem refresh_is_ineffective {DB} (mysql : DB -> list byte -> DB * sql_result) (s : Server DB)
    conn msg k front bs :
  lru_inv s -> is_Some (lrumap_ s !! conn) -> wheel_ok s ->
  buckets (sqlstmtlist_ s) = front :: bs -> k ∈ front ->
  sqlchecklist_ s !! msg = Some k -> stmt_sql s k = Some msg ->
  exists echo s1 s2, onMessage mysql conn msg s = Ok (s1, [ASend conn echo]) /\
    onTimer s1 = Ok s2 /\ sqlchecklist_ s2 !! msg = None.
Proof.
  intros Hi [node Hn] Hok Hb Hin Hk Hsq.
  destruct (touch_spec conn node s Hi Hn)
    as (s0 & l1 & l2 & Et & _ & _ & _ & _ & Ec & Ew & Es & Ep & Ed).
  unfold stmt_sql in Hsq; destruct (stmts s !! k) as [st|] eqn:Est; [simpl in Hsq|done].
  destruct (pairs s !! weaksql_ st) as [[q echo]|] eqn:Epr; [|done]; injection Hsq as ->.
  unfold onMessage; rewrite Et; cbn [res_bind]; rewrite Ec, Hk; unfold lock_stmt.
  rewrite Ew, Hb, bool_decide_eq_true_2, Es, Est, Ep, Epr
    by (rewrite concat_cons, elem_of_app; by left).
  destruct (insert_back_spec k (sqlstmtlist_ s) front bs Hb Hin)
    as (w & -> & Hcap & Hlen & Hsub & front' & bs' & Hb1 & Hin1); cbn [res_bind].
  set (s1 := set_cache _ _ _).
  assert (wheel_ok s1) as Hok1.
  { destruct Hok as (Hc0 & Hl0 & Hall); subst s1; unfold wheel_ok.
    cbn [set_cache sqlstmtlist_ stmts pairs]; unfold stmt_sql; cbn [set_cache stmts pairs].
    rewrite Hcap, Es, Ep; split_and!; [done|unfold len in *; by rewrite Hlen|].
    rewrite Forall_forall in Hall |- *; intros x Hx%Hsub; by apply Hall. }
  destruct (onTimer_turns s1 Hok1) as (s2 & f & r & E & Et' & _ & _ & _ & _ & Hc).
  do 3 eexists; split_and!; [done|exact Et'|]; rewrite Hc.
  change (buckets (sqlstmtlist_ s1)) with (buckets w) in E; rewrite Hb1 in E; injection E as <- <-.
  rewrite decide_True; [done|]; apply list_elem_of_omap; exists k; split; [done|].
  unfold stmt_sql; subst s1; cbn [set_cache stmts pairs]; rewrite Es, Est; simpl; by rewrite Ep, Epr.
Qed.

Lemma refresh_is_ineffective_witness :
  exists echo s1 s2,
    onMessage demo_db 1 [x71] (set_cache (mkSqlStmtList 3 [[5]; []; []]) {[ [x71] := 5 ]} demo_cache)
      = Ok (s1, [ASend 1 echo]) /\
    onTimer s1 = Ok s2 /\ sqlchecklist_ s2 !! ([x71] : list byte) = None.
Proof.
  eapply (refresh_is_ineffective demo_db _ 1 [x71] 5 [5] [[]; []]).
  - split_and!; cbn -[lookup insert singletonM].
    + by apply NoDup_singleton.
    + by repeat constructor.
    + intros c node Hc; apply lookup_singleton_Some in Hc as [<- <-]; left.
    + done.
  - by exists 0.
  - split_and!; [done|done|]; constructor; [by exists [x71]|constructor].
  - reflexivity.
  - left.
  - reflexivity.
  - reflexivity.
Defined.
