(* ===== verification/MysqlMain.v ===== *)
(** * The whole program (src/src/tcpmysql/main.cc, TcpMysqlServer.cc, MysqlServer.cc)

    [main] builds a loop, a server with its database connection, and runs the loop.
    Here the callbacks of MysqlCache are installed in the server of ServedConns,
    without I/O threads, so that every callback runs in the one loop.  A step of the
    network runs the callbacks of one connection; what they ask of that connection
    happens in the callback, what they ask of another one (a shutdown) when the step
    is done, which makes no difference to the step.  An exception leaves the loop and
    ends the process.  mysql_real_connect(3) and the queries are parameters. *)

From S2P Require Import Prelude NetBuffer Channels Pollers Servers ServedConns MysqlCache TcpConn.

Section Program.
Context {P : Type} `{PollerOps P} {DB : Type}.
Variables (write : Z -> nat -> list byte -> Z + Z) (mysql : DB -> list byte -> DB * sql_result).

Record program := mkProgram {
  net : served (P := P);
  app : Server DB;
}.

(** ** Callbacks *)

(** The callbacks of TcpMysqlServer that an event of connection [c] runs. *)
Definition callback (c : Z) (e : event) : option server_op :=
  match e with
  | Connection _ => Some (OpConnection c)
  | Message content => Some (OpMessage c content)
  | _ => None
  end.

(** What the callback of the last event of [tr] asks for; the step began with [seen]
    events, and the callbacks since then have run. *)
Definition replies (c : Z) (seen : nat) (s : Server DB) (tr : list event) : list action :=
  match run_server mysql s (omap (callback c) (drop seen (removelast tr))), last tr ≫= callback c with
  | Ok (s', _), Some op => match server_step mysql s' op with Ok (_, out) => out | Fail _ => [] end
  | _, _ => []
  end.

Definition target (a : action) : Z := match a with AShutdown c => c | ASend c _ => c end.
Definition call_of (a : action) : api := match a with AShutdown _ => Shutdown | ASend _ data => Send data end.
Definition own_calls (c : Z) (out : list action) : list api := call_of <$> filter (fun a => target a = c) out.

(** [onMessage] starts with [retrieveAllAsString]; the other two callbacks are not set. *)
Definition handlers (c : Z) (seen : nat) (s : Server DB) : Handlers :=
  mkHandlers (fun tr => own_calls c (replies c seen s tr))
    (fun tr content => (len content, own_calls c (replies c seen s tr))) None None.

(** A call on another connection, in the loop thread. *)
Definition call_other (y : served (P := P)) (a : action) : res served :=
  let! '(x, w) := theWorld (target a) y in
  let! w := call_api (write (target a)) defaultHandlers true w (call_of a) in
  Ok (store_world (target a) x w y).

(** ** Steps *)

(** The connection a step of the network is about; numbers start with 1. *)
Definition actor (y : served (P := P)) (i : served_input) : Z :=
  match i with
  | SAccept _ _ => nextConnId_ (server y)
  | STask l => match queues (server y) l with t :: _ => conn_of t | [] => 0 end
  | SConn c _ => c
  end.

Definition trace_of (c : Z) (y : served (P := P)) : list event :=
  match worlds y !! c with Some w => trace w | None => [] end.

Definition net_step (i : served_input) (p : program) : res program :=
  let c := actor (net p) i in
  let seen := length (trace_of c (net p)) in
  let! y := served_exec write (fun _ => handlers c seen (app p)) (net p) i in
  let! '(s, out) := run_server mysql (app p) (omap (callback c) (drop seen (trace_of c y))) in
  let! y := res_fold call_other y (filter (fun a => target a <> c) out) in
  Ok (mkProgram y s).

Inductive program_input :=
| Net (i : served_input)
| Tick.                          (** [runEvery(1.0, onTimer)] *)

Definition program_step (p : program) (i : program_input) : res program :=
  match i with
  | Net i => net_step i p
  | Tick => let! s := onTimer (app p) in Ok (mkProgram (net p) s)
  end.

(** ** main *)

Inductive outcome :=
| Exited (code : Z)
| Running (p : program).

(** [MysqlServer::MysqlServer]: mysql_real_connect(3) yields a connection or not. *)
Definition newMysqlServer (connected : option DB) : DB + Z :=
  match connected with
  | Some db => inl db
  | None => inr 1
  end.

(** [TcpMysqlServer::TcpMysqlServer]; the members in their order. *)
Definition newTcpMysqlServer (ipPort : list byte) (base idleSeconds : Z) (connected : option DB)
    : (TcpServer * Server DB) + Z :=
  let tcpserver_ := Servers.newServer ipPort (bytes_of_string "TcpMysqlServer") base in
  match newMysqlServer connected with
  | inl mysqlserver_ => inl (tcpserver_, MysqlCache.newServer mysqlserver_ idleSeconds)
  | inr code => inr code
  end.

(** [main] until the loop runs; [start] are the channels and the poller of the loop. *)
Definition main (ipPort : list byte) (base : Z) (start : Z -> store * P) (connected : option DB) : res outcome :=
  match newTcpMysqlServer ipPort base 5 connected with
  | inr code => Ok (Exited code)
  | inl (tcpserver_, app) =>
      let! s := Servers.start (fun i => base + 1 + Z.of_nat i) tcpserver_ in
      Ok (Running (mkProgram (mkServed s ∅ start) app))
  end.
End Program.

(** * Properties *)

(** ** Connections that are not written to *)

(** Nothing is handed over, and nothing that was handed over is dropped. *)
Definition mute (e : event) : Prop := match e with Submit _ | WriteFault => False | _ => True end.
Definition calm (t : task) : Prop := match t with TSendInLoop _ => False | _ => True end.

(** Takes a run apart and drops what is no step of the trace. *)
Ltac run_apart := repeat match goal with
  | E : res_bind _ _ = Ok _ |- _ => apply res_bind_Ok in E as (? & ? & E)
  | E : Ok _ = Ok _ |- _ => injection E as <-
  | E : Fail _ = Ok _ |- _ => discriminate E
  | E : cassert ?b = Ok _ |- _ => destruct b; [clear E|discriminate E]
  | E : (if ?b then _ else _) = Ok _ |- _ => destruct b
  | E : theChannel _ = Ok _ |- _ => clear E
  end.

Section Quiet.
Context {P : Type} `{PollerOps P}.
Context (write : nat -> list byte -> Z + Z) (user : Handlers) (tr0 : list event).

(** User code that only shuts down. *)
Definition only_shutdown : Prop :=
  (forall tr, Forall (fun a => a = Shutdown) (onConnection user tr)) /\
  (forall tr content, Forall (fun a => a = Shutdown) (snd (onMessage user tr content))) /\
  onWriteComplete user = None /\ onHighWaterMark user = None.

Context (Huser : only_shutdown).
Abbreviation World := (TcpConn.World (P := P)).
Implicit Types w : World.

(** The trace has grown from [tr0], and no bytes are on their way. *)
Definition quiet w : Prop :=
  tr0 `prefix_of` trace w /\ Forall mute (trace w) /\ Forall calm (pending w).

Lemma quiet_log e w : mute e -> quiet w -> quiet (log e w).
Proof.
  intros He (Hp & Hm & Hc). split_and!; cbn; [by apply prefix_app_r|by apply Forall_app; split; [|constructor]|done].
Qed.

Lemma quiet_queue t w : calm t -> quiet w -> quiet (queueTask t w).
Proof. intros Ht (Hp & Hm & Hc). split_and!; cbn; [done..|by apply Forall_app; split; [|constructor]]. Qed.

Lemma quiet_same w w' : trace w' = trace w -> pending w' = pending w -> quiet w -> quiet w'.
Proof. unfold quiet. by intros -> ->. Qed.

Lemma withChannel_quiet f w w' : withChannel f w = Ok w' -> quiet w -> quiet w'.
Proof. unfold withChannel. intros (s & _ & [= <-])%res_bind_Ok. by apply quiet_same. Qed.

Ltac quiet_auto := repeat first
  [ done
  | eapply withChannel_quiet; [eassumption|]
  | apply quiet_log; [done|]
  | apply quiet_queue; [done|]
  | match goal with
    | |- quiet (if ?b then _ else _) => destruct b
    | |- quiet (on_conn _ ?w) => apply (quiet_same w); [reflexivity..|]
    end ].

Lemma shutdownInLoop_quiet w w' : shutdownInLoop w = Ok w' -> quiet w -> quiet w'.
Proof. unfold shutdownInLoop. intros E Hq. run_apart; quiet_auto. Qed.

Lemma shutdown_quiet b w w' : shutdown b w = Ok w' -> quiet w -> quiet w'.
Proof.
  unfold shutdown. intros E Hq. run_apart; quiet_auto.
  eapply shutdownInLoop_quiet; [eassumption|]. quiet_auto.
Qed.

Lemma run_script_quiet ops w w' :
  Forall (fun a => a = Shutdown) ops -> run_script write user ops w = Ok w' -> quiet w -> quiet w'.
Proof.
  intros Ho. revert w. induction Ho as [|a ops -> _ IH]; intros w E Hq; cbn in E; run_apart; [done|].
  eapply IH; [exact E|]. eapply shutdown_quiet; eassumption.
Qed.

Lemma connectionCallback_quiet w w' : connectionCallback write user w = Ok w' -> quiet w -> quiet w'.
Proof.
  unfold connectionCallback. intros E Hq. eapply run_script_quiet; [|exact E|]; [apply Huser|quiet_auto].
Qed.

Lemma messageCallback_quiet w w' : messageCallback write user w = Ok w' -> quiet w -> quiet w'.
Proof.
  unfold messageCallback. intros E Hq. destruct Huser as (_ & Hm & _).
  specialize (Hm (trace (log (Message (content (inputBuffer_ (conn w)))) w)) (content (inputBuffer_ (conn w)))).
  destruct (onMessage user _ _) as [n ops]. run_apart. eapply run_script_quiet; [exact Hm|exact E|]. quiet_auto.
Qed.

Lemma handleClose_quiet w w' : handleClose write user w = Ok w' -> quiet w -> quiet w'.
Proof.
  unfold handleClose, closeCallback. intros E Hq. run_apart. apply quiet_queue; [done|]. apply quiet_log; [done|].
  eapply connectionCallback_quiet; [eassumption|]. quiet_auto.
Qed.

Lemma handleRead_quiet readv w w' : handleRead write user readv w = Ok w' -> quiet w -> quiet w'.
Proof.
  unfold handleRead, handleError. intros E Hq. apply res_bind_Ok in E as ([[n e] buf] & _ & E). run_apart.
  - eapply messageCallback_quiet; [exact E|]. quiet_auto.
  - eapply handleClose_quiet; [exact E|]. quiet_auto.
  - quiet_auto.
Qed.

Lemma handleWrite_quiet w w' : handleWrite write user w = Ok w' -> quiet w -> quiet w'.
Proof.
  unfold handleWrite. intros E Hq. run_apart; try done.
  destruct (write _ _) as [n|e]; run_apart; quiet_auto.
  all: try (eapply shutdownInLoop_quiet; [exact E|]); quiet_auto.
Qed.

Lemma connectEstablished_quiet w w' : connectEstablished write user w = Ok w' -> quiet w -> quiet w'.
Proof.
  unfold connectEstablished. intros E Hq. run_apart. eapply connectionCallback_quiet; [exact E|]. quiet_auto.
Qed.

Lemma connectDestroyed_quiet w w' : connectDestroyed write user w = Ok w' -> quiet w -> quiet w'.
Proof.
  unfold connectDestroyed. intros E Hq. apply res_bind_Ok in E as (w1 & E1 & E). run_apart; quiet_auto.
  eapply connectionCallback_quiet; [exact E1|]. quiet_auto.
Qed.

Lemma run_task_quiet t w w' : calm t -> run_task write user t w = Ok w' -> quiet w -> quiet w'.
Proof.
  destruct Huser as (_ & _ & Hwc & Hhw).
  destruct t; cbn [run_task calm]; intros Ht E Hq; try done; rewrite ?Hwc, ?Hhw in E; try done.
  - by eapply connectEstablished_quiet.
  - by eapply connectDestroyed_quiet.
  - by eapply shutdownInLoop_quiet.
  - unfold forceCloseInLoop in E. destruct (state_ (conn w)); run_apart; try done; by eapply handleClose_quiet.
  - unfold startReadInLoop in E. run_apart; quiet_auto.
  - unfold stopReadInLoop in E. run_apart; quiet_auto.
Qed.

Lemma forceClose_quiet w : quiet w -> quiet (forceClose w).
Proof. intros Hq. unfold forceClose. destruct (state_ (conn w)); quiet_auto. Qed.

Definition no_api (i : TcpConn.input) : Prop := match i with IApi _ | IMark | IPost _ => False | _ => True end.

Lemma exec_event_quiet revents readv w w' :
  exec write user w (IEvent revents readv) = Ok w' -> quiet w -> quiet w'.
Proof.
  cbn [exec]. intros E Hq. apply res_bind_Ok in E as (c & _ & E). unfold handleEvent in E.
  set (w1 := on_chans _ w) in E. assert (quiet w1) as Hq1 by quiet_auto.
  assert (handleEventWithGuard (connCallbacks write user readv) setHandling (revents_ (set_revents revents c)) 0 w1 = Ok w') as E'.
  { by destruct (tied_ _). }
  clear E. unfold handleEventWithGuard in E'. cbn [closeCallback_ errorCallback_ readCallback_ writeCallback_ connCallbacks call option_map] in E'.
  apply res_bind_Ok in E' as (a1 & E1 & E'). apply res_bind_Ok in E' as (a2 & E2 & E').
  apply res_bind_Ok in E' as (a3 & E3 & E'). apply res_bind_Ok in E' as (a4 & E4 & E'). injection E' as <-.
  assert (quiet (setHandling true w1)) as Q0 by quiet_auto.
  assert (quiet a1) as Q1 by (clear E2 E3 E4; run_apart; [by eapply handleClose_quiet|done]).
  assert (quiet a2) as Q2 by (clear E1 E3 E4; unfold handleError in E2; run_apart; done).
  assert (quiet a3) as Q3 by (clear E1 E2 E4; run_apart; [by eapply handleRead_quiet|done]).
  assert (quiet a4) as Q4 by (clear E1 E2 E3; run_apart; [by eapply handleWrite_quiet|done]).
  quiet_auto.
Qed.
End Quiet.

Lemma quiet_start {P : Type} `{PollerOps P} (w : World (P := P)) :
  Forall mute (trace w) -> Forall calm (pending w) -> quiet (trace w) w.
Proof. intros Hm Hc. by split_and!. Qed.

(** ** One step of the network *)

Section NetSteps.
Context {P : Type} `{PollerOps P}.
Context (write : Z -> nat -> list byte -> Z + Z) (user : Z -> Handlers).
Context (Huser : forall c, only_shutdown (user c)).
Abbreviation World := (TcpConn.World (P := P)).
Abbreviation served := (served (P := P)).
Implicit Types (y : served) (w : World).

Definition all_quiet y : Prop :=
  forall c w, worlds y !! c = Some w ->
    is_Some (Servers.conns (server y) !! c) /\ Forall mute (trace w) /\ Forall calm (pending w).

Lemma conn_exec_quiet c w i w' :
  no_api i -> conn_exec write user c w i = Ok w' -> Forall mute (trace w) -> Forall calm (pending w) ->
  quiet (trace w) w'.
Proof.
  intros Hi E Hm Hc. pose proof (quiet_start w Hm Hc) as Hq. destruct i as [revents readv| | |a| |a]; cbn [conn_exec] in E; try done.
  - eapply exec_event_quiet; [apply Huser|exact E|done].
  - destruct (next_own (pending w)) as [[t ts]|] eqn:En; [|by injection E as <-].
    assert (calm t /\ Forall calm ts) as [Ht Hts].
    { clear - En Hc. revert t ts En. induction Hc as [|t0 l H0 Hl IH]; intros t ts En; [done|]. cbn in En.
      destruct (is_life t0); [|by injection En as <- <-]. destruct (next_own l) as [[t' r']|]; [|done].
      injection En as <- <-. destruct (IH _ _ eq_refl). by split; [|constructor]. }
    eapply run_task_quiet; [apply Huser|exact Ht|exact E|]. by split_and!.
  - cbn [exec] in E. destruct (delayed w) as [|n]; injection E as <-; [done|]. by apply forceClose_quiet.
Qed.

(** Only the actor's world changes, and its trace grows. *)
Definition net_post y y' c : Prop :=
  all_quiet y' /\ trace_of c y `prefix_of` trace_of c y' /\
  (forall c', c' <> c -> worlds y' !! c' = worlds y !! c') /\
  (forall c', is_Some (Servers.conns (server y) !! c') -> is_Some (Servers.conns (server y') !! c')).

(** The actor's world was stored. *)
Lemma net_post_intro y y' c w' :
  all_quiet y -> quiet (trace_of c y) w' -> worlds y' = <[c := w']> (worlds y) ->
  is_Some (Servers.conns (server y') !! c) ->
  (forall c', is_Some (Servers.conns (server y) !! c') -> is_Some (Servers.conns (server y') !! c')) ->
  net_post y y' c.
Proof.
  intros Hy (Hp & Hm & Hc) Hw Hx Hk. split_and!.
  - intros c2 w2. rewrite Hw. destruct (decide (c2 = c)) as [->|Hne].
    + rewrite lookup_insert_eq. by intros [= <-].
    + rewrite lookup_insert_ne by done. intros H2. destruct (Hy c2 w2 H2) as (? & ? & ?). auto.
  - unfold trace_of at 2. by rewrite Hw, lookup_insert_eq.
  - intros c' Hne. by rewrite Hw, lookup_insert_ne.
  - done.
Qed.

Lemma net_post_refl y c : all_quiet y -> net_post y y c.
Proof. intros Hy. by split_and!. Qed.

Lemma theWorld_inv c y x w :
  theWorld c y = Ok (x, w) ->
  exists w0, Servers.conns (server y) !! c = Some x /\ worlds y !! c = Some w0 /\ trace w = trace w0 /\ pending w = pending w0.
Proof.
  unfold theWorld. destruct (Servers.conns (server y) !! c) as [x'|]; [|done]. destruct (worlds y !! c) as [w0|]; [|done].
  intros [= <- <-]. exists w0. unfold view. by destruct (gone x').
Qed.

Lemma worlds_stored c x w y : worlds (store_world c x w y) = <[c := w]> (worlds y) /\ server (store_world c x w y) = server y.
Proof. unfold store_world. by destruct (gone x). Qed.

Lemma calm_without ts : Forall calm ts -> Forall calm (without_life ts).
Proof. intros Hc. apply Forall_forall. intros t [_ Ht]%list_elem_of_filter. by apply (proj1 (Forall_forall _ _) Hc). Qed.

Lemma established_quiet c y y' :
  all_quiet y -> established write user c y = Ok y' -> net_post y y' c /\ server y' = server y.
Proof.
  intros Hy E. unfold established in E. apply res_bind_Ok in E as ([x w] & Ew & E). apply res_bind_Ok in E as (w' & Ew' & [= <-]).
  destruct (theWorld_inv _ _ _ _ Ew) as (w0 & Hx & Hw0 & Et & Ep). destruct (Hy c w0 Hw0) as (_ & Hm & Hc).
  destruct (worlds_stored c x w' y) as [Es1 Es2]. split; [|done].
  apply (net_post_intro _ _ _ w' Hy); rewrite ?Es2; try done; try (by eexists).
  unfold trace_of. rewrite Hw0. eapply connectEstablished_quiet; [apply Huser|exact Ew'|].
  split_and!; cbn; rewrite ?Et, ?Ep; [done..|by apply calm_without].
Qed.

Lemma destroyed_quiet c y y' :
  all_quiet y -> destroyed write user c y = Ok y' -> net_post y y' c /\ server y' = server y.
Proof.
  intros Hy E. unfold destroyed in E. apply res_bind_Ok in E as ([x w] & Ew & E). apply res_bind_Ok in E as (w' & Ew' & [= <-]).
  destruct (theWorld_inv _ _ _ _ Ew) as (w0 & Hx & Hw0 & Et & Ep). destruct (Hy c w0 Hw0) as (_ & Hm & Hc). split; [|done].
  apply (net_post_intro _ _ _ w' Hy); try done; try (by eexists).
  unfold trace_of. rewrite Hw0. eapply connectDestroyed_quiet; [apply Huser|exact Ew'|].
  split_and!; cbn; rewrite ?Et, ?Ep; [done..|by apply calm_without].
Qed.

(** The server keeps its records. *)
Lemma net_post_server y y' s c :
  net_post y y' c -> (forall c', is_Some (Servers.conns (server y') !! c') -> is_Some (Servers.conns s !! c')) ->
  net_post y (set_server s y') c.
Proof.
  intros (Hq & Hp & Hw & Hk) Hs. split_and!; try done; [|auto].
  intros c2 w2 H2. destruct (Hq c2 w2 H2) as (? & ? & ?). split_and!; auto.
Qed.

Lemma insert_some (m : gmap Z Conn) c x c' : is_Some (m !! c') -> is_Some (<[c := x]> m !! c').
Proof. intros Hm. destruct (decide (c' = c)) as [->|Hne]; [rewrite lookup_insert_eq; eauto|by rewrite lookup_insert_ne]. Qed.

Lemma conn_step_quiet c i y y' :
  no_api i -> all_quiet y -> conn_step write user c i y = Ok y' -> net_post y y' c.
Proof.
  intros Hi Hy E. unfold conn_step in E. apply res_bind_Ok in E as ([x w] & Ew & E). apply res_bind_Ok in E as (w' & Ew' & E).
  destruct (theWorld_inv _ _ _ _ Ew) as (w0 & Hx & Hw0 & Et & Ep). destruct (Hy c w0 Hw0) as (_ & Hm & Hc).
  destruct (worlds_stored c x w' y) as [Es1 Es2].
  assert (net_post y (store_world c x w' y) c) as Hpost.
  { apply (net_post_intro _ _ _ w' Hy); rewrite ?Es2; try done; try (by eexists).
    unfold trace_of. rewrite Hw0, <- Et. eapply conn_exec_quiet; [exact Hi|exact Ew'|by rewrite Et|by rewrite Ep]. }
  destruct (_ && _); [|by injection E as <-]. apply res_bind_Ok in E as (s & Es & [= <-]).
  apply net_post_server; [done|]. intros c'. rewrite Es2. rewrite Es2 in Es.
  rewrite (handleClose_conns _ _ _ _ Hx Es). apply insert_some.
Qed.

Lemma run_next_quiet l y y' :
  all_quiet y -> (forall t q, queues (server y) l = t :: q -> is_Some (Servers.conns (server y) !! conn_of t)) ->
  run_next write user l y = Ok y' -> net_post y y' (actor y (STask l)).
Proof.
  intros Hy Hhead E. unfold run_next in E. cbn [actor]. destruct (queues (server y) l) as [|t q] eqn:Hq.
  { injection E as <-. by apply net_post_refl. }
  apply res_bind_Ok in E as (y1 & E1 & E). apply res_bind_Ok in E as (s & Es & [= <-]).
  assert (net_post y y1 (conn_of t) /\ server y1 = server y) as [Hp1 Hs1].
  { destruct t as [c|c|c]; cbn [follow conn_of] in *; [by apply established_quiet|by apply destroyed_quiet|].
    injection E1 as <-. split; [by apply net_post_refl|done]. }
  apply net_post_server; [done|]. rewrite Hs1 in *. rewrite (exec_RunTask _ _ _ _ Hq) in Es.
  destruct (Hhead t q eq_refl) as [x Hx]. pose proof (runTask_conns t (set_queue l q (server y)) s x Hx Es) as Hc.
  intros c' Hc'. rewrite Hc. destruct t; [by apply insert_some..|done].
Qed.

Lemma accept_quiet ch fd y y' :
  all_quiet y -> worlds y !! nextConnId_ (server y) = None ->
  accept_conn write user ch fd y = Ok y' -> net_post y y' (nextConnId_ (server y)).
Proof.
  intros Hy Hnew E. unfold accept_conn in E. set (c := nextConnId_ (server y)) in *.
  apply res_bind_Ok in E as (s & Es & E). apply res_bind_Ok in E as (x & Ex & E).
  destruct (newConnection_conns _ _ _ Es) as (l & p & nm & st & _ & Hc & _).
  set (w0 := newWorld ch fd (loops y (c_loop x))) in E. set (y1 := store_world c x w0 (set_server s y)) in E.
  destruct (worlds_stored c x w0 (set_server s y)) as [Es1 Es2].
  assert (net_post y y1 c) as Hp1.
  { apply (net_post_intro _ _ _ w0 Hy); unfold y1; rewrite ?Es2; cbn [server set_server]; try done.
    - unfold trace_of. rewrite Hnew. by split_and!; repeat constructor.
    - rewrite Hc, lookup_insert_eq. eauto.
    - intros c'. rewrite Hc. apply insert_some. }
  destruct (bool_decide _); [|by injection E as <-].
  destruct Hp1 as (Hq1 & _ & Hw1 & Hk1). destruct (established_quiet c y1 y' Hq1 E) as [(Hq2 & _ & Hw2 & Hk2) _].
  split_and!; try done; [by unfold trace_of; rewrite Hnew; apply prefix_nil|intros c' Hne; by rewrite Hw2, Hw1|auto].
Qed.
End NetSteps.

(** ** The callbacks of the program *)

Section Callbacks.
Context {DB : Type} (mysql : DB -> list byte -> DB * sql_result).
Implicit Types s : Server DB.

Lemma onConnection_conns c s s' out :
  lru_inv s -> MysqlCache.onConnection c s = Ok (s', out) ->
  MysqlCache.conns s' = take (Z.to_nat SIZECONN) (c :: MysqlCache.conns s) /\
  (forall a, a ∈ out -> exists c', a = AShutdown c' /\ c' ∈ MysqlCache.conns s).
Proof.
  intros (_ & _ & _ & Hlen) E. unfold MysqlCache.onConnection in E. unfold len, SIZECONN in *.
  destruct (Z.leb_spec 1000 (Z.of_nat (length (lrulist_ s)))) as [Hf|Hf].
  - destruct (last (lrulist_ s)) as [[n back]|] eqn:Hl; [|done]. injection E as <- <-. split.
    + unfold MysqlCache.conns. cbn [pushFront set_lru lrulist_]. rewrite fmap_cons, fmap_take. cbn [snd].
      replace (Z.to_nat 1000) with (S (length (lrulist_ s) - 1)) by lia. by rewrite firstn_cons.
    + intros a ->%list_elem_of_singleton. exists back. split; [done|]. apply last_Some_elem_of in Hl.
      apply list_elem_of_fmap. by exists (n, back).
  - injection E as <- <-. split; [|intros a Ha; by apply not_elem_of_nil in Ha].
    unfold MysqlCache.conns. cbn [pushFront set_lru lrulist_]. rewrite fmap_cons. cbn [snd].
    rewrite take_ge; [done|]. cbn [length]. rewrite length_fmap. lia.
Qed.

(** Calls for connections that come and go. *)
Definition is_message (op : server_op) : bool := match op with OpMessage _ _ => true | _ => false end.
Definition op_conn (op : server_op) : option Z := match op with OpConnection c => Some c | _ => None end.
Definition from_conn (op : server_op) : Prop := op <> OpTimer.

Lemma run_server_cons s op ops out0 :
  res_fold (fun '(s, out) op => let! '(s', o) := server_step mysql s op in Ok (s', out ++ o)) (s, out0) (op :: ops)
  = let! '(s', o) := server_step mysql s op in
    res_fold (fun '(s, out) op => let! '(s', o) := server_step mysql s op in Ok (s', out ++ o)) (s', out0 ++ o) ops.
Proof. cbn [res_fold]. by destruct (server_step mysql s op) as [[s' o]|]. Qed.

(** Connections may come and go; a message is the end. *)
Lemma run_calls s ops :
  lru_inv s -> cache_empty s -> Forall from_conn ops ->
  if existsb is_message ops then is_ok (run_server mysql s ops) = false
  else exists s' out, run_server mysql s ops = Ok (s', out) /\ lru_inv s' /\ cache_empty s' /\
    MysqlCache.conns s' = take (Z.to_nat SIZECONN) (reverse (omap op_conn ops) ++ MysqlCache.conns s) /\
    (forall a, a ∈ out -> exists c, a = AShutdown c /\ c ∈ omap op_conn ops ++ MysqlCache.conns s).
Proof.
  intros Hi Hc Hf. unfold run_server.
  assert (forall s out0, lru_inv s -> cache_empty s ->
    if existsb is_message ops then is_ok (res_fold (fun '(s, out) op => let! '(s', o) := server_step mysql s op in Ok (s', out ++ o)) (s, out0) ops) = false
    else exists s' out, res_fold (fun '(s, out) op => let! '(s', o) := server_step mysql s op in Ok (s', out ++ o)) (s, out0) ops = Ok (s', out0 ++ out) /\
      lru_inv s' /\ cache_empty s' /\
      MysqlCache.conns s' = take (Z.to_nat SIZECONN) (reverse (omap op_conn ops) ++ MysqlCache.conns s) /\
      (forall a, a ∈ out -> exists c, a = AShutdown c /\ c ∈ omap op_conn ops ++ MysqlCache.conns s)) as Hgen.
  { clear s Hi Hc. induction Hf as [|op ops Hop _ IH]; intros s out0 Hi Hc.
    - cbn [existsb]. exists s, []. split_and!; [by rewrite app_nil_r|done..| |].
      + cbn. rewrite take_ge; [done|]. destruct Hi as (_ & _ & _ & Hlen). unfold MysqlCache.conns, len, SIZECONN in *. rewrite length_fmap. lia.
      + intros a Ha. by apply not_elem_of_nil in Ha.
    - destruct op as [c|c m|]; [..|done]; cbn [existsb is_message orb].
      + rewrite run_server_cons. cbn [server_step].
        destruct (onConnection_inv c s Hi) as (s1 & o & E1 & Hi1 & Ec1 & Ew1 & _). rewrite E1. cbn [res_bind].
        assert (cache_empty s1) as Hc1 by (unfold cache_empty; by rewrite Ec1, Ew1).
        destruct (onConnection_conns c s s1 o Hi E1) as [Hl1 Ho1]. specialize (IH s1 (out0 ++ o) Hi1 Hc1).
        destruct (existsb is_message ops); [done|]. destruct IH as (s' & out & E & Hi' & Hc' & Hl & Ho).
        exists s', (o ++ out). rewrite E, app_assoc. split_and!; try done.
        * rewrite Hl, Hl1. change (omap op_conn (OpConnection c :: ops)) with (c :: omap op_conn ops).
          rewrite reverse_cons, <- app_assoc. cbn [app].
          destruct (decide (length (reverse (omap op_conn ops)) <= Z.to_nat SIZECONN)%nat) as [Hle|Hgt].
          -- rewrite !take_app, take_take, Nat.min_l by lia. f_equal. by rewrite <- take_app.
          -- rewrite !take_app_le by lia. done.
        * change (omap op_conn (OpConnection c :: ops)) with (c :: omap op_conn ops).
          intros a [Ha|Ha]%elem_of_app.
          -- destruct (Ho1 a Ha) as (c' & -> & Hin). exists c'. split; [done|]. apply elem_of_app. by right.
          -- destruct (Ho a Ha) as (c' & -> & Hin). exists c'. split; [done|]. rewrite Hl1 in Hin.
             cbn [app]. apply elem_of_app in Hin as [Hin|Hin]; [right; apply elem_of_app; by left|].
             apply elem_of_take in Hin as (j & Hj%list_elem_of_lookup_2 & _). apply elem_of_cons in Hj as [->|Hj]; [left|right; apply elem_of_app; by right].
      + rewrite run_server_cons. cbn [server_step]. destruct (onMessage_empty mysql c m s Hi Hc) as [Hf _].
        by destruct (MysqlCache.onMessage mysql c m s). }
  specialize (Hgen s [] Hi Hc). by destruct (existsb is_message ops).
Qed.

Lemma callbacks_from_conn c evs : Forall from_conn (omap (callback c) evs).
Proof.
  apply Forall_forall. intros op (e & _ & He)%list_elem_of_omap. destruct e; cbn in He; simplify_eq; done.
Qed.

(** What a callback asks of connections is to shut down. *)
Lemma replies_shutdown c seen s tr a :
  lru_inv s -> cache_empty s -> a ∈ replies mysql c seen s tr -> exists c', a = AShutdown c'.
Proof.
  intros Hi Hc. unfold replies. destruct (run_server _ _ _) as [[s' o]|] eqn:E; [|by intros ?%not_elem_of_nil].
  destruct (last tr ≫= callback c) as [op|] eqn:El; [|by intros ?%not_elem_of_nil].
  pose proof (run_calls s _ Hi Hc (callbacks_from_conn c (drop seen (removelast tr)))) as Hrun. rewrite E in Hrun.
  destruct (existsb _ _); [done|]. destruct Hrun as (s1 & o1 & [= <- <-] & Hi' & Hc' & _).
  assert (op = OpConnection c \/ exists m, op = OpMessage c m) as [-> |[m ->]].
  { destruct (last tr) as [[]|]; cbn in El; simplify_eq; eauto. }
  - cbn [server_step]. destruct (onConnection_inv c s' Hi') as (s2 & o2 & E2 & _ & _ & _). rewrite E2.
    intros Ha. destruct (onConnection_conns c s' s2 o2 Hi' E2) as [_ Ho]. destruct (Ho a Ha) as (c' & -> & _). eauto.
  - cbn [server_step]. destruct (onMessage_empty mysql c m s' Hi' Hc') as [Hf _].
    destruct (MysqlCache.onMessage mysql c m s') as [[]|]; [done|by intros ?%not_elem_of_nil].
Qed.

Lemma own_calls_shutdown c seen s tr :
  lru_inv s -> cache_empty s -> Forall (fun a => a = Shutdown) (own_calls c (replies mysql c seen s tr)).
Proof.
  intros Hi Hc. apply Forall_forall. intros x (a & -> & Ha)%list_elem_of_fmap. apply list_elem_of_filter in Ha as [_ Ha].
  by destruct (replies_shutdown _ _ _ _ _ Hi Hc Ha) as [c' ->].
Qed.

Lemma handlers_ok c seen s :
  lru_inv s -> cache_empty s -> only_shutdown (handlers mysql c seen s) /\ user_ok (handlers mysql c seen s).
Proof.
  intros Hi Hc. pose proof (fun tr => own_calls_shutdown c seen s tr Hi Hc) as Hs.
  assert (forall tr, Forall api_ok (own_calls c (replies mysql c seen s tr))) as Hok.
  { intros tr. eapply Forall_impl; [apply Hs|]. by intros a ->. }
  split; [split_and!; [exact Hs|intros tr content; exact (Hs tr)|done..]|]. split_and!; try done. intros tr content. cbn. pose proof (len_nonneg content). split; [lia|apply Hok].
Qed.
End Callbacks.

(** ** The invariant of the program *)

(** How often the connection callback ran. *)
Definition conn_calls (tr : list event) : list bool :=
  omap (fun e => match e with Connection up => Some up | _ => None end) tr.

Section ProgramProofs.
Context {P : Type} `{PollerSpec P} {DB : Type}.
Context (write : Z -> nat -> list byte -> Z + Z) (mysql : DB -> list byte -> DB * sql_result).
Hypothesis Hwrite : forall c, write_ok (write c).

Abbreviation served := (served (P := P)).
Abbreviation program := (program (P := P) (DB := DB)).
Implicit Types (y : served) (p : program) (s : Server DB).

(** Which handlers a connection has matters only for the two that are not set. *)
Lemma status_user st u u' ch fd (s0 : store * P) w :
  onWriteComplete u = None -> onHighWaterMark u = None -> status st u ch fd s0 w -> status st u' ch fd s0 w.
Proof.
  intros Hwc Hhw.
  assert (forall ts, Forall (task_ok u) ts -> Forall (task_ok u') ts) as Ht.
  { intros ts Hts. eapply Forall_impl; [exact Hts|]. intros t. destruct t; cbn; try done; rewrite ?Hwc, ?Hhw; by intros []. }
  destruct st; cbn [status]; unfold fresh, live, core, closing, dead, common.
  - intros ((? & ? & ? & ? & ?) & ?). split_and!; auto; by destruct_and!.
  - intros ((? & ? & ? & ? & ?) & ?). split_and!; auto; by destruct_and!.
  - intros [((? & ? & ? & ? & ?) & ?) ?]. split_and!; auto; by destruct_and!.
  - intros [((? & ? & ? & ? & ?) & ?) ?]. split_and!; auto; by destruct_and!.
Qed.

Lemma served_inv_user u u' y :
  (forall c, onWriteComplete (u c) = None /\ onHighWaterMark (u c) = None) -> served_inv u y -> served_inv u' y.
Proof.
  intros Hu [Hs Hl (CH & FD & Hlk & Hd)]. split; [done..|]. exists CH, FD. split; [|done].
  intros c x Hx. destruct (Hlk c x Hx) as (w & Hw & Hfd & Hst). exists w. split_and!; try done.
  destruct (Hu c). by eapply status_user.
Qed.

Abbreviation quiet_user := (fun _ : Z => defaultHandlers).

(** [shutdown] of another connection. *)
Definition other_post y y' c : Prop :=
  served_inv quiet_user y' /\ server y' = server y /\
  exists w w', worlds y !! c = Some w /\ worlds y' = <[c := w']> (worlds y) /\ pending w' = pending w /\
    (trace w' = trace w \/ trace w' = trace w ++ [ShutdownWrite]).

Lemma call_other_inv y c :
  served_inv quiet_user y -> is_Some (Servers.conns (server y) !! c) ->
  exists y', call_other write y (AShutdown c) = Ok y' /\ other_post y y' c.
Proof.
  intros Hy [x Hx]. destruct (sv_links _ _ Hy) as (CH & FD & Hl & Hd).
  destruct (theWorld_ok quiet_user CH FD c x y Hl Hx) as (w & Hw & Ew & Hfd & Hst).
  unfold call_other. cbn [target call_of]. rewrite Ew. cbn [res_bind].
  assert (safe (call_api (write c) defaultHandlers true (view y x w) Shutdown)
    (status (c_state x) defaultHandlers (CH c) (FD c) (chans (view y x w)))) as Hcall.
  { destruct (c_state x); cbn [status] in *.
    - by rewrite (fresh_api _ _ _ _ _ _ Shutdown true Hst I).
    - by apply call_api_live.
    - rewrite call_api_closed; [done|done|]. by destruct Hst as [(_ & ? & _) _].
    - rewrite call_api_closed; [done|done|]. by destruct Hst as [(_ & ? & _) _]. }
  destruct (call_api _ _ _ _ _) as [w'|e] eqn:E.
  2:{ exfalso. cbn [call_api] in E. unfold shutdown, shutdownInLoop, theChannel, deref in E.
      destruct (connected _); [|done]. destruct (fst _ !! _) as [k|]; cbn [res_bind] in E; [by destruct (isWriting k)|].
      by injection E as <-. }
  cbn [safe] in *. cbn [res_bind]. eexists. split; [done|].
  destruct (worlds_stored c x w' y) as [Es1 Es2]. split_and!; [|done|].
  - by eapply (same_status_inv quiet_user CH FD).
  - exists w, w'. split_and!; [done..|unfold call_api, shutdown, shutdownInLoop in E|unfold call_api, shutdown, shutdownInLoop in E].
    + unfold view in E. destruct (gone x), (connected _); run_apart; done.
    + unfold view in E. destruct (gone x), (connected _); run_apart; auto.
Qed.

(** Nothing was said. *)
Definition same_talk (tr tr' : list event) : Prop :=
  conn_calls tr' = conn_calls tr /\ (forall m, Message m ∈ tr' -> Message m ∈ tr).

Definition others_post (l : list action) y y' : Prop :=
  served_inv quiet_user y' /\ server y' = server y /\ all_quiet y' /\
  (forall c, same_talk (trace_of c y) (trace_of c y')) /\
  (forall c, (forall a, a ∈ l -> target a <> c) -> worlds y' !! c = worlds y !! c).

Lemma other_talk y y' c : all_quiet y -> other_post y y' c ->
  all_quiet y' /\ (forall c', same_talk (trace_of c' y) (trace_of c' y')) /\
  (forall c', c <> c' -> worlds y' !! c' = worlds y !! c').
Proof.
  intros Hq (_ & Hs & w & w' & Hw & Hw' & Hp & Ht). split_and!.
  - intros c2 w2. rewrite Hw', Hs. destruct (decide (c2 = c)) as [->|Hne].
    + rewrite lookup_insert_eq. intros [= <-]. destruct (Hq c w Hw) as (? & Hm & ?). rewrite Hp. split_and!; try done.
      destruct Ht as [-> | ->]; [done|]. apply Forall_app. split; [done|by repeat constructor].
    + rewrite lookup_insert_ne by done. apply Hq.
  - intros c'. unfold trace_of. rewrite Hw'. destruct (decide (c' = c)) as [->|Hne]; [|by rewrite lookup_insert_ne].
    rewrite lookup_insert_eq, Hw. destruct Ht as [-> | ->]; [done|]. split.
    + unfold conn_calls. rewrite omap_app. cbn. by rewrite app_nil_r.
    + intros m [?|Hm%list_elem_of_singleton]%elem_of_app; done.
  - intros c' Hne. by rewrite Hw', lookup_insert_ne.
Qed.

Lemma call_others_inv y l :
  served_inv quiet_user y -> all_quiet y ->
  (forall a, a ∈ l -> exists c, a = AShutdown c /\ is_Some (Servers.conns (server y) !! c)) ->
  exists y', res_fold (call_other write) y l = Ok y' /\ others_post l y y'.
Proof.
  revert y. induction l as [|a l IH]; intros y Hy Hq Hl; cbn [res_fold].
  { exists y. by split_and!. }
  destruct (Hl a) as (c & -> & Hc); [left|]. destruct (call_other_inv y c Hy Hc) as (y1 & -> & Hp1). cbn [res_bind].
  destruct (other_talk y y1 c Hq Hp1) as (Hq1 & Ht1 & Hw1). destruct Hp1 as (Hy1 & Hs1 & _).
  destruct (IH y1 Hy1 Hq1) as (y' & -> & Hy' & Hs' & Hq' & Ht' & Hw').
  { intros a Ha. destruct (Hl a) as (c' & -> & Hc'); [by right|]. rewrite Hs1. eauto. }
  exists y'. split; [done|]. split_and!; [done|congruence|done|..].
  - intros c'. destruct (Ht1 c') as [E1 M1], (Ht' c') as [E2 M2]. split; [congruence|auto].
  - intros c' Hc'. rewrite Hw' by (intros a Ha; apply Hc'; by right). apply Hw1. apply (Hc' (AShutdown c)). left.
Qed.

(** *** One step *)

(** The connections whose callback ran, in order. *)
Abbreviation times c hist := (length (filter (fun d : Z => d = c) hist)).

Record prog_inv (hist : list Z) p : Prop := {
  pi_net : served_inv quiet_user (net p);
  pi_lru : lru_inv (app p);
  pi_cache : cache_empty (app p);
  pi_quiet : all_quiet (net p);
  pi_silent : forall c m, Message m ∉ trace_of c (net p);
  pi_list : MysqlCache.conns (app p) = take (Z.to_nat SIZECONN) (reverse hist);
  pi_times : forall c, times c hist = length (conn_calls (trace_of c (net p)));
}.

Lemma pi_known hist p c : prog_inv hist p -> c ∈ hist -> is_Some (Servers.conns (server (net p)) !! c).
Proof.
  intros Hi Hc. pose proof (pi_times _ _ Hi c) as Ht. unfold trace_of in Ht. destruct (worlds (net p) !! c) as [w|] eqn:Hw.
  - by destruct (pi_quiet _ _ Hi c w Hw).
  - exfalso. cbn in Ht. apply nil_length_inv in Ht. apply (not_elem_of_nil c). rewrite <- Ht. by apply list_elem_of_filter.
Qed.

(** What can happen: the poller reports to connections, the loop runs functors, a
    client connects; no other thread touches a connection. *)
Definition input_ok p (i : served_input) : Prop :=
  served_enabled (net p) i /\ match i with SConn _ i => no_api i | _ => True end.

(** The events of the actor in a step that ended in [y]. *)
Definition new_events p (i : served_input) y : list event :=
  drop (length (trace_of (actor (net p) i) (net p))) (trace_of (actor (net p) i) y).

Definition delivers p (i : served_input) y : bool :=
  existsb is_message (omap (callback (actor (net p) i)) (new_events p i y)).

Definition step_handlers p (i : served_input) : Z -> Handlers :=
  fun _ => handlers mysql (actor (net p) i) (length (trace_of (actor (net p) i) (net p))) (app p).

Lemma served_step_post hist p i y :
  prog_inv hist p -> input_ok p i -> served_exec write (step_handlers p i) (net p) i = Ok y ->
  net_post (net p) y (actor (net p) i).
Proof.
  intros Hi [He Hapi] E. pose proof (pi_quiet _ _ Hi) as Hq. pose proof (sv_server _ _ (pi_net _ _ Hi)) as Hsv.
  assert (forall c, only_shutdown (step_handlers p i c)) as Hsh.
  { intros c. apply handlers_ok; [apply (pi_lru _ _ Hi)|apply (pi_cache _ _ Hi)]. }
  destruct i as [ch fd|l|c i]; cbn [served_exec] in E.
  - eapply accept_quiet; [exact Hsh|exact Hq| |exact E].
    destruct (worlds (net p) !! nextConnId_ (server (net p))) as [w|] eqn:Hw; [|done].
    destruct (Hq _ _ Hw) as ([x Hx] & _). pose proof (co_id _ _ _ (si_conns _ Hsv _ x Hx)). lia.
  - eapply run_next_quiet; [exact Hsh|exact Hq| |exact E]. intros t q Hq'.
    destruct (head_task _ l t q Hsv Hq') as (x & Hx & _). eauto.
  - cbn [actor]. destruct (Servers.conns (server (net p)) !! c) as [x|]; [|injection E as <-; by apply net_post_refl].
    by eapply (conn_step_quiet write (step_handlers p (SConn c i))).
Qed.

(** What a step says of the actor's new events. *)
Lemma calls_of_events c evs : omap op_conn (omap (callback c) evs) = (fun _ => c) <$> conn_calls evs.
Proof. induction evs as [|e evs IH]; [done|]. destruct e; cbn; try done. by f_equal. Qed.

Lemma messages_of_events c evs m : Message m ∈ evs -> existsb is_message (omap (callback c) evs) = true.
Proof.
  intros Hm. apply existsb_exists. exists (OpMessage c m). split; [|done].
  apply list_elem_of_In, list_elem_of_omap. by exists (Message m).
Qed.

Lemma filter_fmap_const {A} (c d : Z) (l : list A) :
  length (filter (fun x => x = d) ((fun _ => c) <$> l)) = if decide (c = d) then length l else 0%nat.
Proof.
  induction l as [|a l IH]; [by destruct (decide (c = d))|]. rewrite fmap_cons, filter_cons.
  destruct (decide (c = d)); cbn [length]; [by rewrite IH|done].
Qed.

Lemma net_step_spec hist p i :
  prog_inv hist p -> nextConnId_ (server (net p)) < 2 ^ 31 -> input_ok p i ->
  safe (served_exec write (step_handlers p i) (net p) i) (fun y =>
    (exists j, server_moves (server (net p)) (server y) j) /\
    if delivers p i y then is_ok (net_step write mysql i p) = false
    else exists p', net_step write mysql i p = Ok p' /\ new_events p i (net p') = new_events p i y /\
      server (net p') = server y /\
      prog_inv (hist ++ ((fun _ => actor (net p) i) <$> conn_calls (new_events p i y))) p').
Proof.
  intros Hi Hn Hok. pose proof (pi_lru _ _ Hi) as Hlru. pose proof (pi_cache _ _ Hi) as Hcache.
  assert (forall c, user_ok (step_handlers p i c)) as Hu by (intros c; by apply handlers_ok).
  assert (served_inv (step_handlers p i) (net p)) as Hnet by (eapply served_inv_user; [|apply (pi_net _ _ Hi)]; done).
  pose proof (served_exec_inv write (step_handlers p i) Hwrite Hu (net p) i Hnet Hn (proj1 Hok)) as Hstep.
  unfold net_step. change (fun _ : Z => handlers mysql _ _ _) with (step_handlers p i).
  destruct (served_exec write (step_handlers p i) (net p) i) as [y|f] eqn:E; [|done]. cbn [safe] in *. destruct Hstep as [Hy Hmv]. split; [done|].
  destruct (served_step_post hist p i y Hi Hok E) as (Hq & [evs Hpre] & Hw & Hk). set (c := actor (net p) i) in *.
  assert (new_events p i y = evs) as Hev by (unfold new_events; fold c; by rewrite Hpre, drop_app_length).
  assert (served_inv quiet_user y) as Hy' by (eapply served_inv_user; [|exact Hy]; done).
  unfold delivers. fold c. rewrite Hev. cbn [res_bind]. fold c. rewrite Hpre, drop_app_length.
  pose proof (run_calls mysql (app p) (omap (callback c) evs) Hlru Hcache (callbacks_from_conn c evs)) as Hrun.
  destruct (existsb is_message (omap (callback c) evs)) eqn:Em.
  { destruct (run_server _ _ _) as [[]|]; done. }
  destruct Hrun as (s' & out & -> & Hlru' & Hcache' & Hlist & Hout). cbn [res_bind]. rewrite calls_of_events in Hlist, Hout.
  assert (is_Some (Servers.conns (server y) !! c) \/ conn_calls evs = []) as Hc.
  { unfold trace_of in Hpre. destruct (worlds y !! c) as [w|] eqn:Hwc; [left; by destruct (Hq c w Hwc)|right].
    symmetry in Hpre. apply app_nil in Hpre as [_ ->]. done. }
  destruct (call_others_inv y (filter (fun a => target a <> c) out) Hy' Hq) as (y' & -> & Hy2 & Hs2 & Hq2 & Ht2 & Hw2).
  { intros a [_ Ha]%list_elem_of_filter. destruct (Hout a Ha) as (c' & -> & Hin). exists c'. split; [done|].
    apply elem_of_app in Hin as [Hin|Hin].
    - destruct Hc as [Hc|Hc]; [|by rewrite Hc in Hin; apply not_elem_of_nil in Hin].
      by apply list_elem_of_fmap in Hin as (b & -> & _).
    - apply Hk, (pi_known hist p c' Hi). rewrite (pi_list _ _ Hi) in Hin.
      apply elem_of_take in Hin as (j & Hj%list_elem_of_lookup_2 & _). by rewrite elem_of_reverse in Hj. }
  assert (worlds y' !! c = worlds y !! c) as Hwc by (apply Hw2; by intros a [? _]%list_elem_of_filter).
  cbn [res_bind]. eexists. split; [done|]. cbn [net app]. split_and!.
  - unfold new_events. fold c. unfold trace_of at 2. rewrite Hwc. unfold trace_of in Hpre at 1. by rewrite Hpre, drop_app_length.
  - done.
  - split; cbn [net app]; try done.
    + intros c' m Hm. destruct (Ht2 c') as [_ Hm']. apply Hm' in Hm. destruct (decide (c' = c)) as [->|Hne].
      * rewrite Hpre in Hm. apply elem_of_app in Hm as [Hm|Hm]; [by apply (pi_silent _ _ Hi c m)|].
        pose proof (messages_of_events c evs m Hm). congruence.
      * unfold trace_of in Hm. rewrite Hw in Hm by done. by apply (pi_silent _ _ Hi c' m).
    + rewrite Hlist, reverse_app. rewrite (pi_list _ _ Hi).
      set (R := reverse ((λ _ : bool, c) <$> conn_calls evs)).
      destruct (decide (length R <= Z.to_nat SIZECONN)%nat) as [Hle|Hgt].
      * by rewrite !take_app, take_take, Nat.min_l by lia.
      * by rewrite !take_app_le by lia.
    + intros c'. destruct (Ht2 c') as [-> _]. rewrite filter_app, length_app, (pi_times _ _ Hi c'), filter_fmap_const.
      destruct (decide (c = c')) as [<-|Hne].
      * rewrite Hpre. unfold conn_calls. by rewrite omap_app, length_app.
      * unfold trace_of. rewrite Hw by done. by rewrite Nat.add_0_r.
Qed.

(** *** Runs *)

(** Runs of [k] steps, with the connections whose callback has run. *)
Inductive program_reach (p0 : program) : nat -> list Z -> program -> Prop :=
| pr_start : program_reach p0 0 [] p0
| pr_net k hist p i p' :
    program_reach p0 k hist p -> input_ok p i -> program_step write mysql p (Net i) = Ok p' ->
    program_reach p0 (S k) (hist ++ ((fun _ => actor (net p) i) <$> conn_calls (new_events p i (net p')))) p'
| pr_tick k hist p p' :
    program_reach p0 k hist p -> program_step write mysql p Tick = Ok p' -> program_reach p0 (S k) hist p'.

Lemma tick_inv hist p :
  prog_inv hist p -> exists p', program_step write mysql p Tick = Ok p' /\ prog_inv hist p' /\ net p' = net p.
Proof.
  intros [I1 I2 I3 I4 I5 I6 I7]. cbn [program_step]. destruct (onTimer_empty (app p) I3) as (s1 & -> & Hc1 & E1 & E2 & E3).
  cbn [res_bind]. eexists. split; [done|]. split; [|done]. split; cbn [net app]; try done.
  - unfold lru_inv. by rewrite E1, E2, E3.
  - unfold MysqlCache.conns in *. by rewrite E1.
Qed.

Lemma moved_id (s s' : TcpServer) j : server_inv s -> nextConnId_ s < 2 ^ 31 -> server_moves s s' j -> nextConnId_ s' <= nextConnId_ s + 1.
Proof.
  intros Hs Hn Hm. destruct j as [j|]; cbn [server_moves] in Hm; [|subst; lia].
  destruct (exec_inv s j Hs Hn) as (s1 & E & _ & Hid). rewrite Hm in E. injection E as <-. lia.
Qed.

Lemma program_reach_inv p0 k hist p :
  prog_inv [] p0 -> nextConnId_ (server (net p0)) + Z.of_nat k <= 2 ^ 31 -> program_reach p0 k hist p ->
  prog_inv hist p /\ nextConnId_ (server (net p)) <= nextConnId_ (server (net p0)) + Z.of_nat k.
Proof.
  intros Hp0 Hk Hr. induction Hr as [|k hist p i p' _ IH Hok E|k hist p p' _ IH E].
  - split; [done|lia].
  - destruct IH as [Hi Hn]; [lia|]. pose proof (net_step_spec hist p i Hi ltac:(lia) Hok) as Hs. cbn [program_step] in E.
    destruct (served_exec write (step_handlers p i) (net p) i) as [y|f] eqn:Ey.
    2:{ unfold net_step in E. change (fun _ : Z => handlers mysql _ _ _) with (step_handlers p i) in E. by rewrite Ey in E. }
    cbn [safe] in Hs. destruct Hs as [[j Hj] Hs]. rewrite E in Hs. destruct (delivers p i y); [done|].
    destruct Hs as (p1 & [= <-] & -> & Hsv & Hi'). split; [done|]. rewrite Hsv.
    pose proof (moved_id _ _ _ (sv_server _ _ (pi_net _ _ Hi)) ltac:(lia) Hj). lia.
  - destruct IH as [Hi Hn]; [lia|]. destruct (tick_inv hist p Hi) as (p1 & E1 & Hi1 & Hnet). rewrite E in E1. injection E1 as <-.
    rewrite Hnet. split; [done|lia].
Qed.
End ProgramProofs.

Lemma life_calls tr : conn_calls (life tr) = conn_calls tr.
Proof. induction tr as [|e tr IH]; [done|]. destruct e; cbn; try done; by f_equal. Qed.

Lemma mute_submitted tr : Forall mute tr -> submitted tr = [] /\ WriteFault ∉ tr.
Proof.
  induction 1 as [|e tr He _ [IH1 IH2]]; [split; [done|apply not_elem_of_nil]|]. split.
  - destruct e; cbn in *; done.
  - apply not_elem_of_cons. split; [by destruct e|done].
Qed.

(** How often the connection callback of a connection in this state has run. *)
Definition callbacks_run (st : cstate) : nat :=
  match st with Connecting => 0 | Servers.Connected => 1 | Disconnected | Servers.Destroyed => 2 end.

(** ** Theorems *)

Section Theorems.
Context {P : Type} `{PollerSpec P} {DB : Type}.
Context (write : Z -> nat -> list byte -> Z + Z) (mysql : DB -> list byte -> DB * sql_result).
Context (ipPort : list byte) (base : Z) (start : Z -> store * P) (db : DB) (p0 : program (P := P) (DB := DB)).
Hypothesis Hwrite : forall c, write_ok (write c).
Hypothesis Hstart : forall l, pinv (fst (start l)) (snd (start l)).
Hypothesis Hip : len ipPort <= 51.
Hypothesis Hmain : main ipPort base start (Some db) = Ok (Running p0).

Lemma main_inv : prog_inv [] p0 /\ nextConnId_ (server (net p0)) = 1.
Proof.
  unfold main in Hmain. cbn [newTcpMysqlServer newMysqlServer] in Hmain. apply res_bind_Ok in Hmain as (s & Es & [= <-]).
  assert (forall i, base + 1 + Z.of_nat i <> base) as Hne by lia.
  destruct (begin_inv (fun _ => defaultHandlers) start _ 0 ipPort _ base s Hstart (Z.le_refl 0) Hne Hip Es) as [Hb Hid].
  split; [|done]. split; cbn [net app]; try done.
  - by destruct (newServer_sim db 5) as [? _].
  - by apply newServer_empty.
  - intros c m. unfold trace_of. cbn [worlds]. rewrite lookup_empty. apply not_elem_of_nil.
Qed.

Lemma reached k hist p :
  program_reach write mysql p0 k hist p -> Z.of_nat k < 2 ^ 31 - 1 ->
  prog_inv hist p /\ nextConnId_ (server (net p)) < 2 ^ 31.
Proof.
  intros Hr Hk. destruct main_inv as [Hi Hid].
  destruct (program_reach_inv write mysql Hwrite p0 k hist p Hi ltac:(lia) Hr) as [? ?]. split; [done|lia].
Qed.

(** C3: The program ends with the first message of any client, and answers nobody: in
    every state it reaches no message has been delivered, no byte was handed to or
    written on any connection and the cache is empty; and a step runs through
    exactly if it delivers no message.  How the first message ends the process is
    [message_end]: a client that was evicted from the index makes [splice] use a
    singular iterator; otherwise it is the exception of the query (std::logic_error for
    a NULL), and once the query has an answer [boost::bad_any_cast]. *)
Theorem program_ends_with_first_message k hist p i :
  program_reach write mysql p0 k hist p -> Z.of_nat k < 2 ^ 31 - 1 -> input_ok p i ->
  (forall c w, worlds (net p) !! c = Some w ->
     submitted (trace w) = [] /\ wrote (trace w) = [] /\ forall m, Message m ∉ trace w) /\
  cache_empty (app p) /\
  safe (served_exec write (step_handlers mysql p i) (net p) i) (fun y =>
    is_ok (net_step write mysql i p) = negb (delivers p i y) /\
    (forall pre c m post s out,
       omap (callback (actor (net p) i)) (new_events p i y) = pre ++ OpMessage c m :: post ->
       run_server mysql (app p) pre = Ok (s, out) ->
       net_step write mysql i p = Fail (message_end mysql s c m))).
Proof.
  intros Hr Hk Hok. destruct (reached k hist p Hr Hk) as [Hi Hn]. split_and!.
  - intros c w Hw. destruct (pi_quiet _ _ Hi c w Hw) as ([x Hx] & Hm & _). destruct (mute_submitted _ Hm) as [Hs Hf].
    destruct (sv_links _ _ (pi_net _ _ Hi)) as (CH & FD & Hl & _). destruct (Hl c x Hx) as (w1 & Hw1 & _ & Hst).
    assert (w1 = w) as -> by congruence.
    assert (trace (view (net p) x w) = trace w) as Et by (unfold view; by destruct (gone x)).
    destruct (status_stream _ _ _ _ _ _ Hst) as [_ Hstr]. rewrite Et, Hs in Hstr. specialize (Hstr Hf). symmetry in Hstr.
    apply app_nil in Hstr as [Hwr _]. split_and!; [done..|]. intros m Hin. apply (pi_silent _ _ Hi c m).
    unfold trace_of. by rewrite Hw.
  - apply (pi_cache _ _ Hi).
  - pose proof (net_step_spec write mysql Hwrite hist p i Hi Hn Hok) as Hs.
    destruct (served_exec write (step_handlers mysql p i) (net p) i) as [y|f] eqn:Ey; [|done]. cbn [safe] in *.
    destruct Hs as [_ Hs]. split.
    + destruct (delivers p i y); [done|]. by destruct Hs as (p' & -> & _).
    + intros pre c m post s out Hops Hpre. unfold net_step.
      change (fun _ : Z => handlers mysql _ _ _) with (step_handlers mysql p i). rewrite Ey. cbn [res_bind].
      change (drop _ _) with (new_events p i y). rewrite Hops. unfold run_server in *. rewrite res_fold_app, Hpre.
      destruct (run_server_empty mysql (app p) pre s [] out (pi_lru _ _ Hi) (pi_cache _ _ Hi) Hpre) as (Hi' & Hc' & _).
      cbn [res_bind res_fold server_step]. by rewrite (onMessage_ends mysql c m s Hi' Hc').
Qed.

(** C4: The list that should hold the clients by last use holds the last thousand
    connection callbacks instead: every client that connected counts once, and a second
    time when it is gone, so that closed connections stay in the list, their objects and
    descriptors with them, and push out clients that are connected. *)
Theorem program_keeps_closed_connections k hist p :
  program_reach write mysql p0 k hist p -> Z.of_nat k < 2 ^ 31 - 1 ->
  MysqlCache.conns (app p) = take 1000 (reverse hist) /\
  forall c x, Servers.conns (server (net p)) !! c = Some x ->
    length (filter (fun d => d = c) hist) = callbacks_run (c_state x).
Proof.
  intros Hr Hk. destruct (reached k hist p Hr Hk) as [Hi _]. split; [apply (pi_list _ _ Hi)|].
  intros c x Hx. rewrite (pi_times _ _ Hi c). destruct (sv_links _ _ (pi_net _ _ Hi)) as (CH & FD & Hl & _).
  destruct (Hl c x Hx) as (w & Hw & _ & Hst). apply status_life in Hst. unfold trace_of. rewrite Hw, <- life_calls.
  assert (trace (view (net p) x w) = trace w) as Et by (unfold view; by destruct (gone x)). rewrite Et in Hst. rewrite Hst.
  by destruct (c_state x).
Qed.
End Theorems.

(** *** Witnesses *)

Definition demo_main : res (outcome (P := PollPoller) (DB := unit)) :=
  main (bytes_of_string "120.27.227.80:2007") 0 (fun _ => demo_start) (Some tt).

Definition demo_program0 : program :=
  match demo_main with Ok (Running p) => p | _ => mkProgram (mkServed (Servers.newServer [] [] 0) ∅ (fun _ => demo_start)) (MysqlCache.newServer tt 5) end.

Definition demo_step (p : program) (i : served_input) : program :=
  from_res p (net_step (fun _ => TcpConn.demo_write) demo_db i p).

(** A client connects, and leaves. *)
Definition demo_up : program := demo_step demo_program0 (SAccept 100 7).
Definition demo_leaves : served_input := SConn 1 (IEvent POLLIN (deliver [])).
Definition demo_down : program := demo_step demo_up demo_leaves.
Definition demo_gone : program := demo_step demo_down (STask 0).

Lemma demo_input data : input_ok demo_up (SConn 1 (IEvent POLLIN (deliver data))).
Proof.
  split; [|done]. intros x w E. vm_compute in E. injection E as <- <-. split; [reflexivity|].
  eexists. split; [reflexivity|]. exists 3. split_and!; [vm_compute; reflexivity|by split|apply deliver_ok].
Qed.

Lemma demo_reach k hist hist' p i p' :
  program_reach (fun _ => TcpConn.demo_write) demo_db demo_program0 k hist p -> input_ok p i ->
  net_step (fun _ => TcpConn.demo_write) demo_db i p = Ok p' ->
  hist' = hist ++ ((fun _ => actor (net p) i) <$> conn_calls (new_events p i (net p'))) ->
  program_reach (fun _ => TcpConn.demo_write) demo_db demo_program0 (S k) hist' p'.
Proof. intros Hr Hi E ->. by apply pr_net. Qed.

Lemma demo_up_reach : program_reach (fun _ => TcpConn.demo_write) demo_db demo_program0 1 [1] demo_up.
Proof.
  apply (demo_reach 0 [] [1] demo_program0 (SAccept 100 7)); [constructor| |vm_compute; reflexivity..].
  split; [|done]. split; [lia|]. intros l p E. vm_compute in E. injection E as <- _. split; [apply demo_start_ok|].
  intros a c Hc. change (fst (loops (net demo_program0) 0)) with (∅ : store) in Hc. by rewrite lookup_empty in Hc.
Qed.

Lemma demo_gone_reach : program_reach (fun _ => TcpConn.demo_write) demo_db demo_program0 3 [1; 1] demo_gone.
Proof.
  apply (demo_reach 2 [1; 1] [1; 1] demo_down (STask 0)); [|by split|vm_compute; reflexivity..].
  apply (demo_reach 1 [1] [1; 1] demo_up demo_leaves); [exact demo_up_reach|apply demo_input|vm_compute; reflexivity..].
Qed.

Lemma demo_ip : len (bytes_of_string "120.27.227.80:2007") <= 51.
Proof. vm_compute. discriminate. Qed.

(** A client sends a query. *)
Lemma program_ends_with_first_message_witness :
  net_step (fun _ => TcpConn.demo_write) demo_db (SConn 1 (IEvent POLLIN (deliver [x71]))) demo_up = Fail (Thrown bad_any_cast) /\
  cache_empty (app demo_up).
Proof.
  destruct (program_ends_with_first_message (fun _ => TcpConn.demo_write) demo_db (bytes_of_string "120.27.227.80:2007") 0
    (fun _ => demo_start) tt demo_program0 (fun _ => TcpConn.demo_write_ok) demo_pinv demo_ip ltac:(vm_compute; reflexivity)
    1 [1] demo_up (SConn 1 (IEvent POLLIN (deliver [x71]))) demo_up_reach ltac:(reflexivity) (demo_input [x71])) as (_ & Hc & Hs).
  split; [|done].
  destruct (served_exec _ _ _ _) as [y|f] eqn:E; [|vm_compute in E; discriminate E]. destruct Hs as [_ Hs].
  vm_compute in E. injection E as <-. rewrite (Hs [] 1 [x71] [] (app demo_up) []); vm_compute; reflexivity.
Defined.

Lemma program_keeps_closed_connections_witness :
  MysqlCache.conns (app demo_gone) = [1; 1] /\
  exists x, Servers.conns (server (net demo_gone)) !! 1 = Some x /\ c_state x = Servers.Destroyed /\
    length (filter (fun d => d = 1) [1; 1]) = callbacks_run (c_state x).
Proof.
  destruct (program_keeps_closed_connections (fun _ => TcpConn.demo_write) demo_db (bytes_of_string "120.27.227.80:2007") 0
    (fun _ => demo_start) tt demo_program0 (fun _ => TcpConn.demo_write_ok) demo_pinv demo_ip ltac:(vm_compute; reflexivity)
    3 [1; 1] demo_gone demo_gone_reach ltac:(reflexivity)) as [Hl Hc].
  split; [exact Hl|]. destruct (Servers.conns (server (net demo_gone)) !! 1) as [x|] eqn:Ex; [|vm_compute in Ex; discriminate Ex].
  exists x. split; [done|]. split; [|by apply Hc]. vm_compute in Ex. by injection Ex as <-.
Defined.
